(* ===== verification/_CoqProject ===== *)
-Q . S2P
Prelude.v
GoStd.v
Types.v
Slots.v
Resources.v
ResourcesProps.v
Scale.v
Env.v
K8sClient.v
KvClient.v
ControllerClient.v
Common.v
SentinelNotify.v
Cluster.v
Standard.v
Sentinel.v
Events.v
Reconcile.v
World.v
ClusterProps.v
ClusterRoles.v
ClusterMigrate.v
ClusterReady.v
ClusterFailover.v
ClusterShrink.v
ClusterHandle.v
StandardProps.v
EventLoop.v
EventLoopProps.v
EventLoopLive.v
EventsProps.v
ReconcileProps.v
SentinelProps.v
DeepCopy.v
