(* ===== verification/Prelude.v ===== *)
(** * Verification of the Kvrocks operator

    The operator reconciles resources of kind [KVRocks] (api/v1alpha1) with a
    Kubernetes cluster.  A resource is a standard instance (one master and its
    replicas), a cluster (several shards, their slots kept by
    kvrocks-controller) or a set of sentinels that watch the masters of the
    others.  [Reconcile] (pkg/controllers/kvrocks_controller.go) reads the
    resource, validates and initialises it, and runs the handler of its type;
    the handlers talk to Kubernetes (pkg/client/k8s), to the kvrocks nodes and
    sentinels (pkg/client/kvrocks) and to kvrocks-controller
    (pkg/client/controller); a loop beside them (pkg/controllers/events) turns
    messages of the sentinels and failed pings into failovers of shards.

    ** Files and the code they model

    - [Prelude]: outcomes of Go calls (value, error, panic), slices that may be
      nil, the state monad [M] of the handlers with its loops, weakest
      preconditions [wp], kept properties [keeps], shared list lemmas.
    - [GoStd]: what the code uses of Go and its library: [int] at 64 bits and
      [int32] with wrap-around, [Atoi]/[Itoa], [Split], [sort.Ints],
      [sort.Search], on every input.
    - [Types]: the records of api/v1alpha1/kvrocks_types.go, the nodes of
      pkg/client/kvrocks/kvrocks_client.go, and the fields of Kubernetes objects
      that the code reads or writes; other fields are carried as [Raw] text.
    - [DeepCopy]: api/v1alpha1/zz_generated.deepcopy.go over a heap of arrays,
      maps and structs, so that sharing between copies can be stated.
    - [Slots]: SlotsToString, SlotsToInt, InsertSlot, parseNodeInfo.
    - [Resources]: pkg/resources: names, labels, validation, every builder.
    - [Scale]: the loops that choose the pods to remove (getReserveIndex and its
      copies in standard and common) and that release reserved ordinals.
    - [Env]: the outside world as classes over an abstract state [W]: [Kube],
      [Redis], [Http], [Clock], [FailoverSink].
    - [K8sClient], [KvClient], [ControllerClient]: the three clients, one
      definition per method, over [Env].
    - [Common], [SentinelNotify]: pkg/controllers/common, and
      UpdateSentinelAnnotationCount.
    - [Cluster], [Standard], [Sentinel]: the three handlers.  The fields of a
      handler are a record ([hc_], [hs_], [hn_]), a method is a computation over
      the pair of the record and the world, and each is an instance of the
      interface [KVRocksHandler].
    - [Events]: messages, producer, the reading of a sentinel's message and the
      body of handleFailover, as operations on the [event] object.
    - [EventLoop]: the goroutines of pkg/controllers/events (Run, consumer,
      handleFailover, listen, producer, SendFailoverMsg and add) as program
      counters over the shared channel, maps and mutex; a step is one statement.
    - [Reconcile]: Reconcile, the start of the event loop and its helpers, over
      the interface [KVRocksHandler].
    - [World]: a concrete environment, used by the witnesses only.
    - [ClusterProps] (versions, claims, stored topology), [ClusterRoles] (roles,
      replication, identities), [ClusterMigrate] (slot migration),
      [ClusterReady] (what ensureKubernetes establishes), [ClusterFailover]
      (failed nodes, members of the controller), [ClusterShrink] (scaling down
      in two reconciliations), [ClusterHandle] (the stages of Handle together),
      [StandardProps], [SentinelProps], [ReconcileProps]: the theorems about the
      handlers; [ResourcesProps]: about the objects that are built;
      [EventLoopProps] (invariants, refinement), [EventLoopLive] (deadlock,
      termination, listeners, the race of reports) and [EventsProps] (verdicts,
      messages, topology): about the events.

    ** How the code is read

    A call that fails returns [Err]; a nil dereference, an index out of range
    or a write to a nil map is [Panic]; a call that never returns is [Hangs];
    what was written before stays written.  The shared node table of the cluster handler is updated in place by
    position, nil nodes and nil shards included, and [sort.Ints] in
    SlotsToString sorts the table's slices, as in the code.  Objects a client
    call writes back (Create, Update) are taken from the call's result.  Loops
    over maps follow [range_map], of which only that it visits every entry once
    is assumed.  Log lines are left out.

    ** What the theorems show

    - Scaling: which pods OpenKruise (interface [Kruise]: the n smallest
      ordinals that are not reserved) keeps when a shard or a standard instance
      is scaled; the master survives, with the exceptions proved for reserved
      ordinals that the code forgets or indexes with.
    - Persistence: slots, topology, pod ordinals and monitored names survive
      their encodings, for slots below the largest [int] and names without
      dashes; what happens to others is stated too.
    - Scaling a cluster down: ensureShrink records what OpenKruise then keeps,
      and cleanStatefulSet carries the record out and nothing else (interface
      [SetStore]: the API server as a store of stateful sets).
    - The node table: what ensureKubernetes, ensureReplication, initCluster,
      ensureSetNodeID, ensureVersion and a rebalance establish, and where the
      slots are after it (interface [SlotLaws]: the controller's placement).
    - Safety of commands, as properties of the world that are kept: the master
      is not demoted, protected configuration keys are not set (but for the
      two of a password change), claims of live
      pods are not deleted, pods are deleted for marked and silent nodes only,
      live members are not taken from the controller.
    - Monitoring: every sentinel ends up watching the master of every shard
      (interface [SentinelLaws]: the table behind SENTINEL MONITOR and REMOVE).
    - Failover, in every interleaving of the goroutines, by induction on the
      steps of the process: the mutex excludes, an address is registered exactly
      while a failover of it is in progress and then has one, a sentinel pod has
      one listener, no state deadlocks, and once the deadlines have passed every
      run ends with nothing in progress (a measure on the statements left).
      Reports of reconciliations take no lock: the exclusion theorem is about
      runs without them, and it is shown from which states a report breaks it.
      The failovers of a run without reports refine an abstract machine with one
      failover per address and its phases; and a message is given up before its
      deadline only when its verdict was stored or there is nothing to handle.
    - ensureFailover lets a reconciliation go on with healthy nodes only; a
      reconciliation of a cluster that completes has pods, nodes, controller and
      stored topology in line.
    - The scale-down loops that the code has three times agree with each other
      and with a reference definition.
    - Copies: DeepCopy gives a resource equal to the original, nil references
      included, that shares no cell with it (a view of each struct, and one
      lemma per way of building views: pairs, lists, references).
    - Built objects: stateful sets and deployments are owned, select their own
      pods, and mount volumes they have.
    - Reconciliation: what validation answers, final and refused states,
      retries, deletion, types without a handler.

    Theorems quantify over every environment; those with hypotheses have a
    witness that applies them in [World].  Behaviour that looks unintended is
    stated as it is (a panic, a lost reservation, a misread name).

    ** Bounds

    Recursion is structural throughout.  The only fuel is in [search_loop] (the
    interval shrinks, so its length is enough, see [search_loop_spec]) and in the
    decimal printer of [Itoa] (enough digits by [utoa_fuel]); [slot_loop] counts
    the iterations of the range loop of SlotsToInt, to show on which input it
    does not end; the retry loop of a slot migration counts its five retries.

    ** Not modelled

    main.go (flags and the start of controller-runtime's manager),
    groupversion_info.go and the registration of watches in SetupWithManager
    (values handed to controller-runtime), logging, and the utilities of the
    end-to-end tests (test/), which drive helm and a live cluster.
    Reconciliations of different resources may run concurrently; the handlers
    are modelled one reconciliation at a time, over a world that other calls may
    have changed, and meet the event loop through the reports of [EventLoop].
    The cron schedule and the subscriptions of go-redis are labels of the steps
    of [EventLoop]: when the producer runs, what payload arrives, when a
    subscription ends.  Goroutines interleave between statements; the data race
    of unsynchronised map accesses, which Go leaves undefined, is not given a
    meaning beyond that. *)

From stdpp Require Export base gmap strings sorting numbers list.

(** ** Outcomes of a Go call

    A call returns, returns with a non-nil [error], panics, or never returns
    (only the loop of [SlotsToInt] can do that, on a range that ends at the
    largest [int]).  The API
    machinery classifies errors by their reason; the code under [pkg/] only
    ever looks at the classes below. *)

Inductive goerr : Type :=
| ENotFound
| EAlreadyExists
| EConflict
| EForbidden
| EInvalid
| EMsg (msg : string).

#[export] Instance goerr_eq_dec : EqDecision goerr.
Proof. solve_decision. Defined.

Inductive outcome (A : Type) : Type :=
| Ok (a : A)
| Err (e : goerr)
| Panic
| Hangs.
Arguments Ok {A} a.
Arguments Err {A} e.
Arguments Panic {A}.
Arguments Hangs {A}.

(** Post-processing of a successful result. *)
Definition omap_ok {A B} (f : A -> B) (o : outcome A) : outcome B :=
  match o with
  | Ok a => Ok (f a)
  | Err e => Err e
  | Panic => Panic
  | Hangs => Hangs
  end.

(** A slice that the code compares with [nil]: [None] is the nil slice,
    [Some l] a non-nil slice with the elements [l]. *)
Definition slice (A : Type) : Type := option (list A).

Definition items {A} (s : slice A) : list A := default [] s.

(** [append] on a slice: appending at least one element makes it non-nil. *)
Definition sappend {A} (s : slice A) (l : list A) : slice A :=
  match l with
  | [] => s
  | _ => Some (items s ++ l)
  end.

(** The same change to the elements of a slice, nil staying nil. *)
Definition smap {A B} (f : list A -> list B) (s : slice A) : slice B := option_map f s.

(** ** The monad of handlers

    State passing with Go's two ways of failing.  The state is kept in every
    case: what a handler wrote before it returned an error stays written. *)

Definition M (S A : Type) : Type := S -> outcome A * S.

(** What the body of a loop does: go on, or [return r] from the function. *)
Inductive ctl (R : Type) : Type :=
| Next
| Return (r : R).
Arguments Next {R}.
Arguments Return {R} r.

Section monad.
Context {S : Type}.

Definition ret {A} (a : A) : M S A := fun s => (Ok a, s).

Definition bind {A B} (m : M S A) (k : A -> M S B) : M S B := fun s =>
  match m s with
  | (Ok a, s') => k a s'
  | (Err e, s') => (Err e, s')
  | (Panic, s') => (Panic, s')
  | (Hangs, s') => (Hangs, s')
  end.

Definition throw {A} (e : goerr) : M S A := fun s => (Err e, s).
Definition panic {A} : M S A := fun s => (Panic, s).
Definition lift {A} (o : outcome A) : M S A := fun s => (o, s).
Definition get : M S S := fun s => (Ok s, s).
Definition modify (f : S -> S) : M S unit := fun s => (Ok tt, f s).

(** A nil pointer or an index out of range. *)
Definition deref {A} (o : option A) : M S A :=
  match o with
  | Some a => ret a
  | None => panic
  end.

(** [v, err := m]: the error becomes a value. *)
Definition catch {A} (m : M S A) : M S (A + goerr) := fun s =>
  match m s with
  | (Ok a, s') => (Ok (inl a), s')
  | (Err e, s') => (Ok (inr e), s')
  | (Panic, s') => (Panic, s')
  | (Hangs, s') => (Hangs, s')
  end.

(** [if err := m; err != nil && !allowed(err) { return err }] *)
Definition ignore (allowed : goerr -> bool) (m : M S unit) : M S unit := fun s =>
  match m s with
  | (Err e, s') => if allowed e then (Ok tt, s') else (Err e, s')
  | r => r
  end.

Definition when (b : bool) (m : M S unit) : M S unit := if b then m else ret tt.

(** [for _, a := range l { f a }] *)
Fixpoint forM {A} (l : list A) (f : A -> M S unit) : M S unit :=
  match l with
  | [] => ret tt
  | a :: l' => bind (f a) (fun _ => forM l' f)
  end.

(** The same with early [return]s in the body. *)
Fixpoint forR {A R} (l : list A) (f : A -> M S (ctl R)) : M S (ctl R) :=
  match l with
  | [] => ret Next
  | a :: l' => bind (f a) (fun c =>
      match c with
      | Next => forR l' f
      | Return r => ret (Return r)
      end)
  end.

(** A loop that threads local variables. *)
Fixpoint foldM {A B} (f : B -> A -> M S B) (b : B) (l : list A) : M S B :=
  match l with
  | [] => ret b
  | a :: l' => bind (f b a) (fun b' => foldM f b' l')
  end.

(** Statements after a loop that may have returned. *)
Definition after {R} (m : M S (ctl R)) (k : M S R) : M S R :=
  bind m (fun c =>
    match c with
    | Next => k
    | Return r => ret r
    end).
End monad.

(** Handlers run over a pair of their own fields and the outside world. *)
Section handler_state.
Context {H W : Type}.

Definition onW {A} (m : M W A) : M (H * W) A := fun s =>
  let '(o, w') := m s.2 in (o, (s.1, w')).
Definition geth : M (H * W) H := fun s => (Ok s.1, s).
Definition modh (f : H -> H) : M (H * W) unit := fun s => (Ok tt, (f s.1, s.2)).
End handler_state.

Declare Scope go_scope.
Delimit Scope go_scope with go.

Notation "'let!' x ':=' m 'in' k" := (bind m (fun x => k))
  (at level 10, x pattern, m at level 100, k at level 200,
   format "'let!'  x  ':='  m  'in' '//' k") : go_scope.
Notation "m ';;;' k" := (bind m (fun _ => k))
  (at level 110, right associativity) : go_scope.

(** ** Weakest preconditions

    [wp m Q s]: running [m] from [s] ends in an outcome and a state that
    satisfy [Q].  Every computation of the development terminates, so [wp] is
    total correctness; whether a panic is allowed is up to [Q]. *)

Section wp.
Context {S : Type}.

Definition wp {A} (m : M S A) (Q : outcome A -> S -> Prop) (s : S) : Prop :=
  Q (m s).1 (m s).2.

(** A postcondition that rules out panics. *)
Definition post {A} (Qok : A -> S -> Prop) (Qerr : goerr -> S -> Prop) : outcome A -> S -> Prop :=
  fun o s =>
    match o with
    | Ok a => Qok a s
    | Err e => Qerr e s
    | Panic => False
    | Hangs => False
    end.

(** A postcondition that speaks of successful runs only. *)
Definition onOk {A} (Qok : A -> S -> Prop) : outcome A -> S -> Prop :=
  fun o s =>
    match o with
    | Ok a => Qok a s
    | _ => True
    end.

Definition bindQ {A B} (k : A -> M S B) (Q : outcome B -> S -> Prop) : outcome A -> S -> Prop :=
  fun o s =>
    match o with
    | Ok a => wp (k a) Q s
    | Err e => Q (Err e) s
    | Panic => Q Panic s
    | Hangs => Q Hangs s
    end.

Lemma wp_bind {A B} (m : M S A) (k : A -> M S B) Q s :
  wp (bind m k) Q s <-> wp m (bindQ k Q) s.
Proof. unfold wp, bind, bindQ, wp. destruct (m s) as [[a|e| |] s']; done. Qed.

Lemma wp_ret {A} (a : A) (Q : outcome A -> S -> Prop) s : wp (ret a) Q s <-> Q (Ok a) s.
Proof. done. Qed.

Lemma wp_throw {A} e (Q : outcome A -> S -> Prop) s : wp (throw e) Q s <-> Q (Err e) s.
Proof. done. Qed.

Lemma wp_lift {A} (o : outcome A) (Q : outcome A -> S -> Prop) s : wp (lift o) Q s <-> Q o s.
Proof. done. Qed.

Lemma wp_mono {A} (m : M S A) (Q Q' : outcome A -> S -> Prop) s :
  wp m Q s -> (forall o s', Q o s' -> Q' o s') -> wp m Q' s.
Proof. unfold wp. auto. Qed.

Lemma wp_run {A} (m : M S A) (Q : outcome A -> S -> Prop) s o s' :
  m s = (o, s') -> wp m Q s -> Q o s'.
Proof. unfold wp. intros ->. done. Qed.

Lemma wp_intro {A} (m : M S A) (Q : outcome A -> S -> Prop) s :
  (forall o s', m s = (o, s') -> Q o s') -> wp m Q s.
Proof. unfold wp. destruct (m s); eauto. Qed.

Lemma wp_catch {A} (m : M S A) (Q : outcome (A + goerr) -> S -> Prop) s :
  wp (catch m) Q s <->
  wp m (fun o s' => match o with
                    | Ok a => Q (Ok (inl a)) s'
                    | Err e => Q (Ok (inr e)) s'
                    | Panic => Q Panic s'
                    | Hangs => Q Hangs s'
                    end) s.
Proof. unfold wp, catch. destruct (m s) as [[a|e| |] s']; done. Qed.

(** Loops: the invariant [I done rest] holds between iterations. *)
Lemma wp_forM {A} (f : A -> M S unit) (I : list A -> list A -> S -> Prop)
    (Q : outcome unit -> S -> Prop) (l : list A) s :
  I [] l s ->
  (forall pre a suf s', l = pre ++ a :: suf -> I pre (a :: suf) s' ->
     wp (f a) (bindQ (fun _ => ret tt) (fun o s'' =>
       match o with
       | Ok _ => I (pre ++ [a]) suf s''
       | _ => Q o s''
       end)) s') ->
  (forall s', I l [] s' -> Q (Ok tt) s') ->
  wp (forM l f) Q s.
Proof.
  intros HI Hstep Hend.
  assert (Hgen : forall suf pre s', l = pre ++ suf -> I pre suf s' -> wp (forM suf f) Q s').
  { induction suf as [|a suf IH]; intros pre s' Hl Hs'; simpl.
    - apply wp_ret, Hend. by rewrite Hl, app_nil_r.
    - apply wp_bind. eapply wp_mono; [by eapply Hstep|].
      intros [u|e| |] s''; simpl; try done.
      rewrite wp_ret. intros HI'. apply (IH (pre ++ [a])); [|done].
      by rewrite Hl, <- app_assoc. }
  by apply (Hgen l []).
Qed.

Lemma wp_foldM {A B} (f : B -> A -> M S B) (I : list A -> list A -> B -> S -> Prop)
    (Q : outcome B -> S -> Prop) (l : list A) b s :
  I [] l b s ->
  (forall pre a suf b' s', l = pre ++ a :: suf -> I pre (a :: suf) b' s' ->
     wp (f b' a) (fun o s'' =>
       match o with
       | Ok b'' => I (pre ++ [a]) suf b'' s''
       | Err e => Q (Err e) s''
       | Panic => Q Panic s''
       | Hangs => Q Hangs s''
       end) s') ->
  (forall b' s', I l [] b' s' -> Q (Ok b') s') ->
  wp (foldM f b l) Q s.
Proof.
  intros HI Hstep Hend.
  assert (Hgen : forall suf pre b' s', l = pre ++ suf -> I pre suf b' s' -> wp (foldM f b' suf) Q s').
  { induction suf as [|a suf IH]; intros pre b' s' Hl Hs'; simpl.
    - apply wp_ret, Hend. by rewrite Hl, app_nil_r.
    - apply wp_bind. eapply wp_mono; [by eapply Hstep|].
      intros [b''|e| |] s''; simpl; try done.
      intros HI'. apply (IH (pre ++ [a])); [|done].
      by rewrite Hl, <- app_assoc. }
  by apply (Hgen l []).
Qed.

Lemma wp_forR {A R} (f : A -> M S (ctl R)) (I : list A -> list A -> S -> Prop)
    (Q : outcome (ctl R) -> S -> Prop) (l : list A) s :
  I [] l s ->
  (forall pre a suf s', l = pre ++ a :: suf -> I pre (a :: suf) s' ->
     wp (f a) (fun o s'' =>
       match o with
       | Ok Next => I (pre ++ [a]) suf s''
       | _ => Q o s''
       end) s') ->
  (forall s', I l [] s' -> Q (Ok Next) s') ->
  wp (forR l f) Q s.
Proof.
  intros HI Hstep Hend.
  assert (Hgen : forall suf pre s', l = pre ++ suf -> I pre suf s' -> wp (forR suf f) Q s').
  { induction suf as [|a suf IH]; intros pre s' Hl Hs'; simpl.
    - apply wp_ret, Hend. by rewrite Hl, app_nil_r.
    - apply wp_bind. eapply wp_mono; [by eapply Hstep|].
      intros [[|r]|e| |] s''; simpl; try done.
      intros HI'. apply (IH (pre ++ [a])); [|done].
      by rewrite Hl, <- app_assoc. }
  by apply (Hgen l []).
Qed.
End wp.

Lemma wp_onW {H W A} (m : M W A) (Q : outcome A -> H * W -> Prop) (s : H * W) :
  wp (onW m) Q s <-> wp m (fun o w => Q o (s.1, w)) s.2.
Proof. unfold wp, onW. by destruct (m s.2). Qed.

Lemma wp_geth {H W} (Q : outcome H -> H * W -> Prop) s : wp geth Q s <-> Q (Ok s.1) s.
Proof. done. Qed.

Lemma wp_modh {H W} f (Q : outcome unit -> H * W -> Prop) (s : H * W) :
  wp (modh f) Q s <-> Q (Ok tt) (f s.1, s.2).
Proof. done. Qed.

(** Naming the outcome and the final state of a run. *)
Lemma run_eq {H W A} (m : M (H * W) A) s o : (m s).1 = o -> m s = (o, ((m s).2.1, (m s).2.2)).
Proof. intros <-. by destruct (m s) as [? []]. Qed.

(** A property kept by every successful iteration. *)
Lemma forM_inv {S A} (P : S -> Prop) (f : A -> M S unit) (l : list A) s s' :
  (forall a s s', P s -> f a s = (Ok tt, s') -> P s') -> P s -> forM l f s = (Ok tt, s') -> P s'.
Proof.
  intros Hf. revert s. induction l as [|a l IH]; intros s Hs; cbn [forM]; [by intros [= <-]|].
  unfold bind. destruct (f a s) as [[[]|e| |] s1] eqn:E; [|done..]. apply IH. by eapply Hf.
Qed.

Lemma forM_fmap {S A B} (g : A -> B) (l : list A) (f : B -> M S unit) s : forM (g <$> l) f s = forM l (fun a => f (g a)) s.
Proof.
  revert s. induction l as [|a l IH]; intros s; [done|]. cbn [fmap list_fmap forM]. unfold bind.
  destruct (f (g a) s) as [[[]|e| |] s']; [|done..]. apply IH.
Qed.

Lemma forM_app {S A} (l k : list A) (f : A -> M S unit) s :
  forM (l ++ k) f s = bind (forM l f) (fun _ => forM k f) s.
Proof.
  revert s. induction l as [|a l IH]; intros s; [done|]. cbn [app forM]. unfold bind.
  destruct (f a s) as [[[]|e| |] s']; [|done..]. by rewrite IH.
Qed.

Lemma forM_onW {H W A} (l : list A) (f : A -> M W unit) (s : H * W) :
  forM l (fun a => onW (f a)) s = onW (forM l f) s.
Proof.
  revert s. induction l as [|a l IH]; intros [h w]; [done|]. cbn [forM]. unfold bind, onW. cbn [fst snd].
  destruct (f a w) as [[[]|e| |] w']; [|done..]. rewrite IH. done.
Qed.

Lemma onW_frame {H W A} (m : M W A) (h : H) (w : W) o h' w' : onW m (h, w) = (o, (h', w')) -> h' = h.
Proof. unfold onW. cbn [fst snd]. destruct (m w). by intros [= _ -> _]. Qed.

Create Rewrite HintDb wp.
#[export] Hint Rewrite @wp_bind @wp_ret @wp_throw @wp_lift @wp_catch @wp_onW @wp_geth @wp_modh : wp.

(** [wp_go] runs the deterministic prefix of a computation; [wp_call] steps
    over a call of the environment whose result is unknown. *)
Ltac wp_go := repeat (progress (autorewrite with wp; cbn [bindQ fst snd])).
Ltac wp_call := apply wp_intro; intros [?a|?e| |] ?w ?Hrun; cbn [bindQ fst snd].

(** ** Kept properties

    [keeps P m]: whatever [m] returns, it leaves a state with [P] when it
    starts in one.  With [P] a property of the world that only some calls can
    break, this says that [m] does not make those calls. *)

Definition keeps {S A} (P : S -> Prop) (m : M S A) : Prop := forall s, P s -> P (m s).2.

Section keeps.
Context {S : Type} (P : S -> Prop).

Lemma keeps_ret {A} (a : A) : keeps P (ret a).
Proof. intros s Hs. done. Qed.
Lemma keeps_throw {A} e : keeps P (throw (A := A) e).
Proof. intros s Hs. done. Qed.
Lemma keeps_panic {A} : keeps P (panic (A := A)).
Proof. intros s Hs. done. Qed.
Lemma keeps_lift {A} (o : outcome A) : keeps P (lift o).
Proof. intros s Hs. done. Qed.
Lemma keeps_deref {A} (o : option A) : keeps P (deref o).
Proof. intros s Hs. by destruct o. Qed.
Lemma keeps_bind {A B} (m : M S A) (k : A -> M S B) :
  keeps P m -> (forall a, keeps P (k a)) -> keeps P (bind m k).
Proof.
  intros Hm Hk s Hs. unfold bind. specialize (Hm s Hs).
  destruct (m s) as [[a|e| |] s']; [|done..]. by apply Hk.
Qed.
Lemma keeps_catch {A} (m : M S A) : keeps P m -> keeps P (catch m).
Proof. intros Hm s Hs. unfold catch. specialize (Hm s Hs). by destruct (m s) as [[a|e| |] s']. Qed.
Lemma keeps_ignore f (m : M S unit) : keeps P m -> keeps P (ignore f m).
Proof.
  intros Hm s Hs. unfold ignore. specialize (Hm s Hs).
  destruct (m s) as [[a|e| |] s']; [done| |done..]. by destruct (f e).
Qed.
Lemma keeps_when b (m : M S unit) : (b = true -> keeps P m) -> keeps P (when b m).
Proof. destruct b; cbn [when]; [auto|intros _; apply keeps_ret]. Qed.
Lemma keeps_forM {A} (l : list A) (f : A -> M S unit) : (forall a, a ∈ l -> keeps P (f a)) -> keeps P (forM l f).
Proof.
  induction l as [|a l IH]; intros Hf; cbn [forM]; [apply keeps_ret|].
  apply keeps_bind; [apply Hf; by left|]. intros _. apply IH. intros b Hb. apply Hf. by right.
Qed.
Lemma keeps_foldM {A B} (f : B -> A -> M S B) (b : B) (l : list A) :
  (forall a b, a ∈ l -> keeps P (f b a)) -> keeps P (foldM f b l).
Proof.
  revert b. induction l as [|a l IH]; intros b Hf; cbn [foldM]; [apply keeps_ret|].
  apply keeps_bind; [apply Hf; by left|]. intros b'. apply IH. intros c d Hc. apply Hf. by right.
Qed.
End keeps.

Lemma keeps_onW {H W A} (I : W -> Prop) (m : M W A) : keeps I m -> keeps (fun s : H * W => I s.2) (onW m).
Proof. intros Hm s Hs. unfold onW. specialize (Hm s.2 Hs). by destruct (m s.2). Qed.

Lemma keeps_onW_fields {H W A} (P : H -> Prop) (m : M W A) : keeps (fun s : H * W => P s.1) (onW m).
Proof. intros s Hs. unfold onW. by destruct (m s.2). Qed.

Lemma keeps_modh {H W} (P : H * W -> Prop) (f : H -> H) : (forall h w, P (h, w) -> P (f h, w)) -> keeps P (modh f).
Proof. intros Hf [h w]. apply Hf. Qed.

Lemma keeps_geth {H W} (P : H * W -> Prop) : keeps P geth.
Proof. intros s Hs. done. Qed.

Create HintDb keeps.
#[export] Hint Resolve keeps_ret keeps_throw keeps_panic keeps_lift keeps_deref keeps_geth keeps_bind keeps_catch
  keeps_ignore keeps_when keeps_forM keeps_foldM keeps_onW keeps_onW_fields : keeps.

(** ** Lists *)

Lemma list_filter_ext {A} (P Q : A -> Prop) `{!forall x, Decision (P x), !forall x, Decision (Q x)} (l : list A) :
  (forall x, x ∈ l -> P x <-> Q x) -> filter P l = filter Q l.
Proof.
  induction l as [|a l IH]; intros Hext; [done|].
  assert (Hl : filter P l = filter Q l) by (apply IH; intros; apply Hext; by right).
  assert (Ha : P a <-> Q a) by (apply Hext; by left).
  destruct (decide (P a)) as [HP|HP].
  - rewrite !filter_cons_True by tauto. by rewrite Hl.
  - rewrite !filter_cons_False by tauto. done.
Qed.

Lemma list_filter_none {A} (P : A -> Prop) `{!forall x, Decision (P x)} (l : list A) :
  (forall x, x ∈ l -> ~ P x) -> filter P l = [].
Proof.
  induction l as [|a l IH]; intros Hnone; [done|].
  rewrite filter_cons_False by (apply Hnone; by left). apply IH. intros x Hx. apply Hnone. by right.
Qed.

Lemma list_filter_all {A} (P : A -> Prop) `{!forall x, Decision (P x)} (l : list A) :
  (forall x, x ∈ l -> P x) -> filter P l = l.
Proof.
  induction l as [|a l IH]; intros Hall; [done|].
  rewrite filter_cons_True by (apply Hall; by left). f_equal. apply IH. intros x Hx. apply Hall. by right.
Qed.

Lemma sorted_fmap_filter {A B} (R : relation B) (f : A -> B) (P : A -> Prop)
    `{!forall x, Decision (P x)} (l : list A) :
  StronglySorted R (f <$> l) -> StronglySorted R (f <$> filter P l).
Proof.
  induction l as [|a l IH]; cbn [fmap list_fmap]; intros Hs; [constructor|].
  apply StronglySorted_inv in Hs as [Hs Ha]. destruct (decide (P a)).
  - rewrite filter_cons_True by done. constructor; [by apply IH|].
    rewrite Forall_forall in Ha |- *. intros x Hx. apply Ha.
    apply list_elem_of_fmap in Hx as (y & -> & Hy). apply list_elem_of_filter in Hy as [_ Hy].
    by apply list_elem_of_fmap_2.
  - rewrite filter_cons_False by done. by apply IH.
Qed.

Lemma nodup_fmap_inj {A B} (f : A -> B) (l : list A) x y :
  NoDup (f <$> l) -> x ∈ l -> y ∈ l -> f x = f y -> x = y.
Proof.
  induction l as [|a l IH]; cbn [fmap list_fmap]; [by intros _ ?%elem_of_nil|].
  rewrite NoDup_cons. intros [Ha Hnd] [->|Hx]%elem_of_cons [->|Hy]%elem_of_cons E; [done| | |by apply IH].
  - destruct Ha. rewrite E. by apply list_elem_of_fmap_2.
  - destruct Ha. rewrite <- E. by apply list_elem_of_fmap_2.
Qed.

Lemma strongly_sorted_filter {A} (R : relation A) (P : A -> Prop) `{!forall x, Decision (P x)} (l : list A) :
  StronglySorted R l -> StronglySorted R (filter P l).
Proof. intros Hs. rewrite <- (list_fmap_id (filter P l)). apply sorted_fmap_filter. by rewrite list_fmap_id. Qed.
