(* ===== verification/GoStd.v ===== *)
(** * The parts of Go and its standard library the operator uses

    Machine integers with their wrap-around, [strconv.Atoi] / [Itoa],
    [strings.Split] and friends, [sort.Ints], [sort.Slice] and [sort.Search].
    Each definition follows the library's documented behaviour on every input,
    error results included, and comes with the lemmas the components use. *)

From S2P Require Import Prelude.
From Stdlib Require Import Ascii.
Local Open Scope Z_scope.

(** ** Machine integers *)

Definition MaxInt : Z := 2 ^ 63 - 1.
Definition MinInt : Z := - 2 ^ 63.

(** Two's-complement wrap-around at 64 and 32 bits. *)
Definition int64 (z : Z) : Z := (z + 2 ^ 63) mod 2 ^ 64 - 2 ^ 63.
Definition int32 (z : Z) : Z := (z + 2 ^ 31) mod 2 ^ 32 - 2 ^ 31.

Definition is_int (z : Z) : Prop := MinInt <= z <= MaxInt.

Lemma int64_id z : is_int z -> int64 z = z.
Proof.
  unfold is_int, MinInt, MaxInt, int64. intros H.
  rewrite Z.mod_small; lia.
Qed.

Lemma int32_id z : - 2 ^ 31 <= z < 2 ^ 31 -> int32 z = z.
Proof. unfold int32. intros H. rewrite Z.mod_small; lia. Qed.

Lemma int64_range z : is_int (int64 z).
Proof.
  unfold is_int, int64, MinInt, MaxInt.
  pose proof (Z.mod_pos_bound (z + 2 ^ 63) (2 ^ 64)). lia.
Qed.

(** The list [begin, begin+1, ..., end] of [for i := begin; i <= end; i++]. *)
Definition irange (b e : Z) : list Z :=
  (fun k : nat => b + Z.of_nat k) <$> seq 0 (Z.to_nat (e - b + 1)).

Lemma elem_of_irange b e x : x ∈ irange b e <-> b <= x <= e.
Proof.
  unfold irange. rewrite list_elem_of_fmap. setoid_rewrite elem_of_seq. split.
  - intros (k & -> & Hk). lia.
  - intros Hx. exists (Z.to_nat (x - b)). lia.
Qed.

Lemma irange_nil b e : e < b -> irange b e = [].
Proof. intros H. unfold irange. by replace (Z.to_nat (e - b + 1)) with 0%nat by lia. Qed.

Lemma irange_snoc b e : b <= e + 1 -> irange b (e + 1) = irange b e ++ [e + 1].
Proof.
  intros H. unfold irange.
  replace (Z.to_nat (e + 1 - b + 1)) with (S (Z.to_nat (e - b + 1))) by lia.
  rewrite seq_S, fmap_app. simpl. do 2 f_equal. lia.
Qed.

Lemma irange_cons b e : b <= e -> irange b e = b :: irange (b + 1) e.
Proof.
  intros H. unfold irange.
  replace (Z.to_nat (e - b + 1)) with (S (Z.to_nat (e - (b + 1) + 1))) by lia.
  simpl. f_equal; [lia|]. rewrite <- fmap_S_seq, <- list_fmap_compose.
  apply list_fmap_ext. intros i x _. simpl. lia.
Qed.

Lemma irange_single b : irange b b = [b].
Proof. rewrite irange_cons by lia. by rewrite irange_nil by lia. Qed.

Lemma length_irange b e : length (irange b e) = Z.to_nat (e - b + 1).
Proof. unfold irange. by rewrite length_fmap, length_seq. Qed.

#[global] Arguments MaxInt : simpl never.
#[global] Arguments MinInt : simpl never.
#[global] Arguments Z.ltb : simpl never.
#[global] Arguments Z.leb : simpl never.
#[global] Arguments Z.eqb : simpl never.

(** ** [strconv] *)

Definition digit_of (c : ascii) : option Z :=
  let n := Z.of_nat (nat_of_ascii c) in
  if (48 <=? n) && (n <=? 57) then Some (n - 48) else None.

Definition char_of_digit (d : Z) : ascii := ascii_of_nat (48 + Z.to_nat d).

Inductive num_error : Type :=
| ErrSyntax
| ErrRange.

Definition MaxUint64 : Z := 2 ^ 64 - 1.
#[global] Arguments MaxUint64 : simpl never.

(** [strconv.ParseUint(s, 10, 64)] without the empty-string check: the first
    bad character or the first overflow decides. *)
Fixpoint parse_uint (s : string) (n : Z) : Z + num_error :=
  match s with
  | EmptyString => inl n
  | String c s' =>
      match digit_of c with
      | None => inr ErrSyntax
      | Some d =>
          if MaxUint64 <? n * 10 + d then inr ErrRange
          else parse_uint s' (n * 10 + d)
      end
  end.

Definition strip_sign (s : string) : bool * string :=
  match s with
  | String "+" s' => (false, s')
  | String "-" s' => (true, s')
  | _ => (false, s)
  end.

(** [strconv.Atoi]: the value is returned beside the error, 0 for a syntax
    error and the nearest bound for an overflow. *)
Definition Atoi (s : string) : Z * option num_error :=
  let '(neg, body) := strip_sign s in
  match body with
  | EmptyString => (0, Some ErrSyntax)
  | _ =>
      match parse_uint body 0 with
      | inr ErrSyntax => (0, Some ErrSyntax)
      | inr ErrRange => (if neg then MinInt else MaxInt, Some ErrRange)
      | inl n =>
          if neg then (if 2 ^ 63 <? n then (MinInt, Some ErrRange) else (- n, None))
          else (if MaxInt <? n then (MaxInt, Some ErrRange) else (n, None))
      end
  end.

(** The error value [Atoi] returns, as the handlers pass it on. *)
Definition atoi_err (e : num_error) : goerr :=
  match e with
  | ErrSyntax => EMsg "strconv.Atoi: invalid syntax"
  | ErrRange => EMsg "strconv.Atoi: value out of range"
  end.

Fixpoint digits (fuel : nat) (n : Z) (acc : string) : string :=
  match fuel with
  | O => acc
  | S f =>
      if n <? 10 then String (char_of_digit n) acc
      else digits f (n / 10) (String (char_of_digit (n mod 10)) acc)
  end.

(** Decimal notation needs at most [log2 n + 1] digits. *)
Definition utoa (n : Z) : string := digits (S (Z.to_nat (Z.log2 n))) n EmptyString.

(** [strconv.Itoa] and the verb [%d] of [fmt.Sprintf]. *)
Definition Itoa (z : Z) : string :=
  if z <? 0 then String "-" (utoa (- z)) else utoa z.

Lemma digit_of_char d : 0 <= d < 10 -> digit_of (char_of_digit d) = Some d.
Proof.
  intros H. unfold digit_of, char_of_digit. rewrite nat_ascii_embedding by lia.
  replace (Z.of_nat (48 + Z.to_nat d)) with (48 + d) by lia.
  replace (48 <=? 48 + d) with true by lia. replace (48 + d <=? 57) with true by lia.
  simpl. f_equal. lia.
Qed.

Lemma parse_uint_digit d s n :
  0 <= d < 10 -> n * 10 + d <= MaxUint64 ->
  parse_uint (String (char_of_digit d) s) n = parse_uint s (n * 10 + d).
Proof.
  intros Hd Hn. cbn [parse_uint]. rewrite digit_of_char by done.
  by replace (MaxUint64 <? n * 10 + d) with false by lia.
Qed.

Lemma parse_digits fuel n acc :
  0 <= n <= MaxUint64 -> n < 10 ^ Z.of_nat fuel -> (0 < fuel)%nat ->
  parse_uint (digits fuel n acc) 0 = parse_uint acc n.
Proof.
  revert n acc. induction fuel as [|f IH]; intros n acc Hn Hf Hpos; [lia|]. cbn [digits].
  destruct (n <? 10) eqn:E.
  - rewrite parse_uint_digit by lia. f_equal; lia.
  - rewrite Nat2Z.inj_succ, Z.pow_succ_r in Hf by lia.
    assert (Hq : 0 <= n / 10 < 10 ^ Z.of_nat f).
    { split; [apply Z.div_pos; lia|]. apply Z.div_lt_upper_bound; lia. }
    assert (Hqn : n = 10 * (n / 10) + n mod 10) by (apply Z.div_mod; lia).
    pose proof (Z.mod_pos_bound n 10 ltac:(lia)).
    rewrite IH; [|lia|lia|].
    + rewrite parse_uint_digit by lia. f_equal; lia.
    + destruct f; [|lia]. change (10 ^ Z.of_nat 0) with 1 in Hq. lia.
Qed.

Lemma utoa_fuel n : 0 <= n -> n < 10 ^ Z.of_nat (S (Z.to_nat (Z.log2 n))).
Proof.
  intros H. destruct (decide (n = 0)) as [->|Hn]; [done|].
  pose proof (Z.log2_spec n). pose proof (Z.log2_nonneg n).
  apply Z.lt_le_trans with (2 ^ Z.succ (Z.log2 n)); [lia|].
  replace (Z.of_nat (S (Z.to_nat (Z.log2 n)))) with (Z.succ (Z.log2 n)) by lia.
  apply Z.pow_le_mono_l. lia.
Qed.

Lemma parse_utoa n : 0 <= n <= MaxUint64 -> parse_uint (utoa n) 0 = inl n.
Proof. intros H. unfold utoa. rewrite parse_digits; [done|lia| |lia]. apply utoa_fuel. lia. Qed.

(** Every character of a decimal number is a digit. *)
Fixpoint all_chars (P : ascii -> bool) (s : string) : bool :=
  match s with
  | EmptyString => true
  | String c s' => P c && all_chars P s'
  end.

Definition is_digit (c : ascii) : bool := match digit_of c with Some _ => true | None => false end.

Lemma digits_all_digits fuel n acc :
  0 <= n -> all_chars is_digit acc = true -> all_chars is_digit (digits fuel n acc) = true.
Proof.
  revert n acc. induction fuel as [|f IH]; intros n acc Hn Hacc; [done|]. cbn [digits].
  destruct (n <? 10) eqn:E.
  - cbn [all_chars]. unfold is_digit at 1. by rewrite digit_of_char by lia.
  - apply IH; [apply Z.div_pos; lia|]. cbn [all_chars]. unfold is_digit at 1.
    pose proof (Z.mod_pos_bound n 10). by rewrite digit_of_char by lia.
Qed.

Lemma utoa_digits n : 0 <= n -> all_chars is_digit (utoa n) = true.
Proof. intros H. unfold utoa. by apply digits_all_digits. Qed.

Lemma digits_not_empty fuel n acc :
  (0 < fuel)%nat \/ acc <> EmptyString -> digits fuel n acc <> EmptyString.
Proof.
  revert n acc. induction fuel as [|f IH]; intros n acc H; cbn [digits].
  - destruct H as [H|H]; [lia|done].
  - destruct (n <? 10); [done|]. apply IH. by right.
Qed.

Lemma utoa_not_empty n : utoa n <> EmptyString.
Proof. unfold utoa. apply digits_not_empty. lia. Qed.

Lemma strip_sign_digits s : all_chars is_digit s = true -> strip_sign s = (false, s).
Proof.
  destruct s as [|c s]; [done|]. simpl. rewrite andb_true_iff. intros [Hc _].
  destruct c as [[] [] [] [] [] [] [] []]; done.
Qed.

(** Printing and reading back an [int] is the identity. *)
Lemma Atoi_Itoa z : is_int z -> Atoi (Itoa z) = (z, None).
Proof.
  unfold is_int. intros Hz. unfold Itoa, Atoi. destruct (z <? 0) eqn:E.
  - cbn [strip_sign]. destruct (utoa (- z)) eqn:Eu; [by destruct (utoa_not_empty (- z))|].
    rewrite <- Eu, parse_utoa by (unfold MaxUint64, MinInt, MaxInt in *; lia).
    replace (2 ^ 63 <? - z) with false by (unfold MinInt in *; lia).
    f_equal. lia.
  - rewrite strip_sign_digits by (apply utoa_digits; lia).
    destruct (utoa z) eqn:Eu; [by destruct (utoa_not_empty z)|].
    rewrite <- Eu, parse_utoa by (unfold MaxUint64, MinInt, MaxInt in *; lia).
    by replace (MaxInt <? z) with false by lia.
Qed.

Lemma Itoa_inj a b : is_int a -> is_int b -> Itoa a = Itoa b -> a = b.
Proof. intros Ha Hb E. apply (f_equal Atoi) in E. rewrite !Atoi_Itoa in E by done. congruence. Qed.

Lemma Itoa_digits z : 0 <= z -> all_chars is_digit (Itoa z) = true.
Proof. intros H. unfold Itoa. replace (z <? 0) with false by lia. by apply utoa_digits. Qed.

Lemma Atoi_range s : is_int (Atoi s).1.
Proof.
  unfold Atoi, is_int. destruct (strip_sign s) as [neg body].
  destruct body as [|c body]; [unfold MinInt, MaxInt; cbn [fst]; lia|].
  assert (Hp : forall t n, 0 <= n -> match parse_uint t n with inl m => 0 <= m | inr _ => True end).
  { induction t as [|c' t IH]; intros n Hn; [done|]. cbn [parse_uint].
    destruct (digit_of c') as [d|] eqn:Ed; [|done].
    unfold digit_of in Ed. case_match; [|done]. injection Ed as <-.
    destruct (_ <? _); [done|]. apply IH. lia. }
  pose proof (Hp (String c body) 0 ltac:(lia)) as Hnn.
  destruct (parse_uint (String c body) 0) as [n|[]]; destruct neg; cbn [fst]; try (unfold MinInt, MaxInt; lia).
  - destruct (2 ^ 63 <? n) eqn:E; cbn [fst]; unfold MinInt, MaxInt in *; lia.
  - destruct (MaxInt <? n) eqn:E; cbn [fst]; unfold MinInt, MaxInt in *; lia.
Qed.

(** ** [strings] *)

Definition cons_hd (c : ascii) (l : list string) : list string :=
  match l with
  | [] => [String c EmptyString]
  | f :: fs => String c f :: fs
  end.

(** The loop of [strings.SplitN] for a non-empty separator: [lim] is the
    number of fields still allowed ([None]: no limit), [skip] the characters of
    a separator just found that remain to be passed over. *)
Fixpoint split_loop (sep : string) (lim : option nat) (skip : nat) (s : string) : list string :=
  match s with
  | EmptyString => [EmptyString]
  | String c s' =>
      match skip with
      | S k => split_loop sep lim k s'
      | O =>
          let allowed := match lim with None => true | Some n => (1 <? n)%nat end in
          if allowed && String.prefix sep s
          then EmptyString :: split_loop sep (pred <$> lim) (String.length sep - 1) s'
          else cons_hd c (split_loop sep lim 0 s')
      end
  end.

Definition Split (s sep : string) : list string := split_loop sep None 0 s.
Definition SplitN (s sep : string) (n : nat) : list string := split_loop sep (Some n) 0 s.

Definition HasPrefix (s prefix : string) : bool := String.prefix prefix s.

Fixpoint Contains (s substr : string) : bool :=
  String.prefix substr s ||
  match s with
  | EmptyString => false
  | String _ s' => Contains s' substr
  end.

(** [strings.LastIndex] for a one-character separator, -1 when it is absent. *)
Fixpoint LastIndex (s : string) (c : ascii) : Z :=
  match s with
  | EmptyString => -1
  | String c' s' =>
      let i := LastIndex s' c in
      if 0 <=? i then i + 1 else if Ascii.eqb c' c then 0 else -1
  end.

(** [s[n:]] *)
Fixpoint drop_chars (n : nat) (s : string) : string :=
  match n, s with
  | O, _ => s
  | S _, EmptyString => EmptyString
  | S n', String _ s' => drop_chars n' s'
  end.

(** [strings.Replace(s, old, new, 1)] for an [old] of one character. *)
Fixpoint ReplaceFirst (s : string) (old : ascii) (new : string) : string :=
  match s with
  | EmptyString => EmptyString
  | String c s' => if Ascii.eqb c old then new +:+ s' else String c (ReplaceFirst s' old new)
  end.

Definition lacks (c : ascii) (s : string) : bool := all_chars (fun c' => negb (Ascii.eqb c' c)) s.

Lemma lacks_cons c c' s : lacks c (String c' s) = true <-> c' <> c /\ lacks c s = true.
Proof.
  unfold lacks. cbn [all_chars]. rewrite andb_true_iff, negb_true_iff, Ascii.eqb_neq. done.
Qed.

Lemma lacks_app c s t : lacks c (s +:+ t) = true <-> lacks c s = true /\ lacks c t = true.
Proof.
  induction s as [|c' s IH]; [unfold lacks; simpl; tauto|].
  change (String c' s +:+ t) with (String c' (s +:+ t)). rewrite !lacks_cons, IH. tauto.
Qed.

Lemma prefix_char c c' s :
  String.prefix (String c EmptyString) (String c' s) = Ascii.eqb c c'.
Proof.
  simpl. destruct (ascii_dec c c') as [->|Hne]; [|by symmetry; apply Ascii.eqb_neq].
  rewrite Ascii.eqb_refl. by destruct s.
Qed.

Lemma split_lacks c lim s : lacks c s = true -> split_loop (String c EmptyString) lim 0 s = [s].
Proof.
  induction s as [|c' s IH]; [done|]. rewrite lacks_cons. intros [Hne Hs].
  cbn [split_loop]. rewrite prefix_char.
  replace (Ascii.eqb c c') with false by (symmetry; apply Ascii.eqb_neq; congruence).
  rewrite andb_false_r, IH by done. done.
Qed.

Lemma split_app c lim s t :
  lacks c s = true -> match lim with None => True | Some n => (1 < n)%nat end ->
  split_loop (String c EmptyString) lim 0 (s +:+ String c t) =
    s :: split_loop (String c EmptyString) (pred <$> lim) 0 t.
Proof.
  intros Hs Hlim. induction s as [|c' s IH].
  - change (EmptyString +:+ String c t) with (String c t). cbn [split_loop].
    rewrite prefix_char, Ascii.eqb_refl.
    destruct lim as [n|]; simpl; [|done]. by replace (1 <? n)%nat with true by (symmetry; by apply Nat.ltb_lt).
  - apply lacks_cons in Hs as [Hne Hs].
    change (String c' s +:+ String c t) with (String c' (s +:+ String c t)). cbn [split_loop].
    rewrite prefix_char.
    replace (Ascii.eqb c c') with false by (symmetry; apply Ascii.eqb_neq; congruence).
    rewrite andb_false_r, IH by done. done.
Qed.

(** A limit of one field: the rest of the string, separators included. *)
Lemma split_one sep s : split_loop sep (Some 1%nat) 0 s = [s].
Proof. induction s as [|c s IH]; [done|]. cbn [split_loop]. simpl. by rewrite IH. Qed.

Lemma split_not_nil sep lim skip s : split_loop sep lim skip s <> [].
Proof.
  revert lim skip. induction s as [|c s IH]; intros lim skip; [done|]. cbn [split_loop].
  destruct skip; [|apply IH]. destruct (_ && _); [done|].
  destruct (split_loop sep lim 0 s) eqn:E; [by destruct (IH lim 0%nat)|done].
Qed.

(** A last field without separators. *)
Lemma split_snoc c s t :
  lacks c t = true ->
  Split (s +:+ String c t) (String c EmptyString) = Split s (String c EmptyString) ++ [t].
Proof.
  intros Ht. unfold Split. induction s as [|c' s IH].
  - by rewrite split_app, split_lacks.
  - change (String c' s +:+ String c t) with (String c' (s +:+ String c t)). cbn [split_loop].
    rewrite !prefix_char. destruct (Ascii.eqb c c'); simpl.
    + by rewrite IH.
    + rewrite IH. destruct (split_loop (String c EmptyString) None 0 s) eqn:E; [by destruct (split_not_nil _ _ _ _ E)|done].
Qed.

Lemma string_app_assoc (a b c : string) : (a +:+ b) +:+ c = a +:+ (b +:+ c).
Proof. induction a as [|x a IH]; [done|]. simpl. unfold String.app in *. by rewrite IH. Qed.

Lemma string_length_app (a b : string) : String.length (a +:+ b) = (String.length a + String.length b)%nat.
Proof. induction a as [|c a IH]; [done|]. exact (f_equal S IH). Qed.

Lemma string_app_inv_tail (a b t : string) : a +:+ t = b +:+ t -> a = b.
Proof.
  revert b. induction a as [|c a IH]; intros [|c' b] E; [done| | |].
  - apply (f_equal String.length) in E. change (EmptyString +:+ t) with t in E.
    rewrite string_length_app in E. cbn [String.length] in E. lia.
  - apply (f_equal String.length) in E. change (EmptyString +:+ t) with t in E.
    rewrite string_length_app in E. cbn [String.length] in E. lia.
  - injection E as -> E. by rewrite (IH b E).
Qed.

Lemma LastIndex_lacks c s : lacks c s = true -> LastIndex s c = -1.
Proof.
  induction s as [|c' s IH]; [done|]. rewrite lacks_cons. intros [Hne Hs].
  cbn [LastIndex]. rewrite IH by done. simpl.
  by replace (Ascii.eqb c' c) with false by (symmetry; by apply Ascii.eqb_neq).
Qed.

Lemma LastIndex_app c s t :
  lacks c t = true -> LastIndex (s +:+ String c t) c = Z.of_nat (String.length s).
Proof.
  intros Ht. induction s as [|c' s IH].
  - change (EmptyString +:+ String c t) with (String c t). cbn [LastIndex].
    rewrite LastIndex_lacks by done. simpl. by rewrite Ascii.eqb_refl.
  - change (String c' s +:+ String c t) with (String c' (s +:+ String c t)).
    cbn [LastIndex String.length]. rewrite IH.
    replace (0 <=? Z.of_nat (String.length s)) with true by lia. lia.
Qed.

Lemma drop_chars_app s t : drop_chars (String.length s) (s +:+ t) = t.
Proof. by induction s. Qed.

Lemma drop_chars_S_app c s t : drop_chars (S (String.length s)) (s +:+ String c t) = t.
Proof. induction s as [|c' s IH]; [done|exact IH]. Qed.

Lemma digits_lack_dash s : all_chars is_digit s = true -> lacks "-" s = true.
Proof.
  induction s as [|c s IH]; [done|]. cbn [all_chars]. rewrite andb_true_iff, lacks_cons.
  intros [Hc Hs]. split; [|by apply IH]. intros ->. done.
Qed.

Lemma digits_lack_space s : all_chars is_digit s = true -> lacks " " s = true.
Proof.
  induction s as [|c s IH]; [done|]. cbn [all_chars]. rewrite andb_true_iff, lacks_cons.
  intros [Hc Hs]. split; [|by apply IH]. intros ->. done.
Qed.

Lemma Itoa_lacks_dash z : 0 <= z -> lacks "-" (Itoa z) = true.
Proof. intros H. by apply digits_lack_dash, Itoa_digits. Qed.

(** ** [sort] *)

(** [sort.Ints] (any algorithm gives the same list). *)
Definition sort_ints (l : list Z) : list Z := merge_sort Z.le l.

Lemma sort_ints_perm l : sort_ints l ≡ₚ l.
Proof. apply merge_sort_Permutation. Qed.

Lemma sort_ints_sorted l : StronglySorted Z.le (sort_ints l).
Proof. apply StronglySorted_merge_sort; apply _. Qed.

Lemma sort_ints_unique l k : StronglySorted Z.le k -> k ≡ₚ l -> sort_ints l = k.
Proof.
  intros Hk Hp. apply (StronglySorted_unique Z.le); [apply sort_ints_sorted|done|].
  by rewrite sort_ints_perm.
Qed.

Lemma sort_ints_id l : StronglySorted Z.le l -> sort_ints l = l.
Proof. intros H. by apply sort_ints_unique. Qed.

Lemma sort_ints_proper l k : l ≡ₚ k -> sort_ints l = sort_ints k.
Proof.
  intros H. apply sort_ints_unique; [apply sort_ints_sorted|]. by rewrite sort_ints_perm.
Qed.

(** [sort.Search(n, f)]: binary search for the least index in [0, n) at which
    [f] holds.  [f] may panic, since the closures index slices.  The interval
    shrinks in every round, so [n] rounds are enough. *)
Fixpoint search_loop (fuel : nat) (f : nat -> outcome bool) (i j : nat) : outcome nat :=
  match fuel with
  | O => Ok i
  | S k =>
      if (i <? j)%nat then
        let h := ((i + j) / 2)%nat in
        match f h with
        | Ok true => search_loop k f i h
        | Ok false => search_loop k f (S h) j
        | Err e => Err e
        | Panic => Panic
        | Hangs => Hangs
        end
      else Ok i
  end.

Definition Search (n : nat) (f : nat -> outcome bool) : outcome nat := search_loop (S n) f 0 n.

Lemma search_loop_spec fuel f (g : nat -> bool) i j :
  (j - i < fuel)%nat -> (i <= j)%nat ->
  (forall k, (i <= k < j)%nat -> f k = Ok (g k)) ->
  (forall k k', (i <= k)%nat -> (k <= k' < j)%nat -> g k = true -> g k' = true) ->
  exists r, search_loop fuel f i j = Ok r /\ (i <= r <= j)%nat /\
    (forall k, (i <= k < r)%nat -> g k = false) /\
    (forall k, (r <= k < j)%nat -> g k = true).
Proof.
  revert i j. induction fuel as [|fuel IH]; intros i j Hf Hij Hg Hmono; [lia|]. cbn [search_loop].
  destruct (Nat.ltb_spec i j) as [Hlt|Hge].
  2: { exists i. split; [done|]. split; [lia|]. split; intros k Hk; lia. }
  assert (Hh : (i <= (i + j) / 2 < j)%nat).
  { split; [apply Nat.div_le_lower_bound; lia|apply Nat.Div0.div_lt_upper_bound; lia]. }
  set (h := ((i + j) / 2)%nat) in *. rewrite Hg by lia. destruct (g h) eqn:Egh.
  - destruct (IH i h) as (r & Hr & Hb & Hlo & Hhi); [lia|lia|intros; apply Hg; lia| |].
    { intros k k' Hk Hk'. apply Hmono; lia. }
    exists r. split; [done|]. split; [lia|]. split; [done|]. intros k Hk.
    destruct (decide (k < h)%nat); [apply Hhi; lia|]. apply (Hmono h); [lia|lia|done].
  - destruct (IH (S h) j) as (r & Hr & Hb & Hlo & Hhi); [lia|lia|intros; apply Hg; lia| |].
    { intros k k' Hk Hk'. apply Hmono; lia. }
    exists r. split; [done|]. split; [lia|]. split; [|done]. intros k Hk.
    destruct (decide (h < k)%nat); [apply Hlo; lia|].
    destruct (g k) eqn:Egk; [|done]. rewrite <- Egh. symmetry. apply (Hmono k); [lia|lia|done].
Qed.

Lemma Search_spec n f (g : nat -> bool) :
  (forall k, (k < n)%nat -> f k = Ok (g k)) ->
  (forall k k', (k <= k' < n)%nat -> g k = true -> g k' = true) ->
  exists r, Search n f = Ok r /\ (r <= n)%nat /\
    (forall k, (k < r)%nat -> g k = false) /\ (forall k, (r <= k < n)%nat -> g k = true).
Proof.
  intros Hf Hmono. destruct (search_loop_spec (S n) f g 0 n) as (r & Hr & Hb & Hlo & Hhi);
    [lia|lia|intros; apply Hf; lia|intros k k' _ Hk; by apply Hmono|].
  exists r. split; [done|]. split; [lia|]. split; [intros; apply Hlo; lia|done].
Qed.
