(* ===== verification/Types.v ===== *)
(** * Data of the operator

    The custom resource of [api/v1alpha1/kvrocks_types.go], the node records
    of [pkg/client/kvrocks/kvrocks_client.go], and the fields of the Kubernetes
    objects that the code under [pkg/] reads or writes.  Fields of third-party
    structs that are only carried along are kept as [Raw] text. *)

From S2P Require Import Prelude GoStd.
Local Open Scope Z_scope.

(** A third-party value the code copies but never looks into. *)
Definition Raw : Type := string.

Definition Labels : Type := gmap string string.

(** ** Kubernetes object metadata *)

Record NamespacedName := NN { nn_Namespace : string; nn_Name : string }.

#[export] Instance NamespacedName_eq_dec : EqDecision NamespacedName.
Proof. solve_decision. Defined.

#[export] Instance NamespacedName_countable : Countable NamespacedName.
Proof.
  refine (inj_countable' (fun k => (nn_Namespace k, nn_Name k)) (fun p => NN p.1 p.2) _).
  by intros [].
Defined.

Record OwnerReference := {
  ow_APIVersion : string;
  ow_Kind : string;
  ow_Name : string;
  ow_UID : string;
  ow_Controller : bool;
  ow_BlockOwnerDeletion : bool;
}.

Record ObjectMeta := {
  om_Name : string;
  om_Namespace : string;
  om_Labels : gmap string string;
  om_Annotations : gmap string string;
  om_ResourceVersion : string;
  om_UID : string;
  om_DeletionTimestamp : option Z;
  om_Finalizers : list string;
  om_OwnerReferences : list OwnerReference;
}.

(** ** The custom resource *)

Definition SentinelType : string := "sentinel".
Definition StandardType : string := "standard".
Definition ClusterType : string := "cluster".

Definition StatusNone : string := EmptyString.
Definition StatusCreating : string := "Creating".
Definition StatusRunning : string := "Running".
Definition StatusFailed : string := "Failed".

Definition KVRocksFinalizer : string := "kvrocks/finalizer".

Record WeightedPodAffinityTerm := {
  pat_Weight : Z;
  pat_TopologyKey : string;
  pat_MatchLabels : gmap string string;
}.

Record PodAntiAffinity := {
  paa_Required : list Raw;
  paa_Preferred : list WeightedPodAffinityTerm;
}.

Record Affinity := {
  af_NodeAffinity : option Raw;
  af_PodAffinity : option Raw;
  af_PodAntiAffinity : option PodAntiAffinity;
}.

(** [resource.Quantity], by its textual form. *)
Definition Quantity : Type := string.

Record KVRocksStorage := {
  ks_Size : Quantity;
  ks_Class : string;
}.

Record KVRocksSpec := {
  sp_Image : string;
  sp_ImagePullPolicy : string;
  sp_Type : string;
  sp_KVRocksConfig : gmap string string;
  sp_Replicas : Z;
  sp_Master : Z;
  sp_Password : string;
  sp_Resources : option Raw;
  sp_NodeSelector : gmap string string;
  sp_Toleration : list Raw;
  sp_Affinity : option Affinity;
  sp_Storage : option KVRocksStorage;
}.

Record MigrateMsg := {
  mg_Shard : Z;
  mg_Slots : list string;
}.

Record KVRocksTopology := {
  t_Pod : string;
  t_Role : string;
  t_NodeId : string;
  t_Ip : string;
  t_Port : Z;
  t_Slots : list string;
  t_MasterId : string;
  t_Migrate : slice MigrateMsg;
  t_Failover : bool;
}.

Record KVRocksTopoPartitions := {
  p_PartitionName : string;
  p_Shard : Z;
  p_Topology : list KVRocksTopology;
}.

Record KVRocksShrinkMsg := {
  sh_Partition : list Z;
  sh_ReserveMsg : gmap string (list Z);
}.

Record KVRocksStatus := {
  st_Status : string;
  st_Reason : string;
  st_Version : Z;
  st_Rebalance : bool;
  st_Topo : slice KVRocksTopoPartitions;
  st_Shrink : option KVRocksShrinkMsg;
}.

Record KVRocks := {
  kv_APIVersion : string;
  kv_Kind : string;
  kv_Meta : ObjectMeta;
  kv_Spec : KVRocksSpec;
  kv_Status : KVRocksStatus;
}.

Definition kv_Name (k : KVRocks) : string := om_Name (kv_Meta k).
Definition kv_Namespace (k : KVRocks) : string := om_Namespace (kv_Meta k).
Definition kv_Labels (k : KVRocks) : gmap string string := om_Labels (kv_Meta k).

(** Assignments to fields of the resource, as the handlers make them. *)
Definition set_kv_Meta (f : ObjectMeta -> ObjectMeta) (k : KVRocks) : KVRocks :=
  {| kv_APIVersion := kv_APIVersion k; kv_Kind := kv_Kind k; kv_Meta := f (kv_Meta k);
     kv_Spec := kv_Spec k; kv_Status := kv_Status k |}.
Definition set_kv_Status (f : KVRocksStatus -> KVRocksStatus) (k : KVRocks) : KVRocks :=
  {| kv_APIVersion := kv_APIVersion k; kv_Kind := kv_Kind k; kv_Meta := kv_Meta k;
     kv_Spec := kv_Spec k; kv_Status := f (kv_Status k) |}.

Definition set_st_Status (v : string) (s : KVRocksStatus) : KVRocksStatus :=
  {| st_Status := v; st_Reason := st_Reason s; st_Version := st_Version s;
     st_Rebalance := st_Rebalance s; st_Topo := st_Topo s; st_Shrink := st_Shrink s |}.
Definition set_st_Reason (v : string) (s : KVRocksStatus) : KVRocksStatus :=
  {| st_Status := st_Status s; st_Reason := v; st_Version := st_Version s;
     st_Rebalance := st_Rebalance s; st_Topo := st_Topo s; st_Shrink := st_Shrink s |}.
Definition set_st_Version (v : Z) (s : KVRocksStatus) : KVRocksStatus :=
  {| st_Status := st_Status s; st_Reason := st_Reason s; st_Version := v;
     st_Rebalance := st_Rebalance s; st_Topo := st_Topo s; st_Shrink := st_Shrink s |}.
Definition set_st_Topo (v : slice KVRocksTopoPartitions) (s : KVRocksStatus) : KVRocksStatus :=
  {| st_Status := st_Status s; st_Reason := st_Reason s; st_Version := st_Version s;
     st_Rebalance := st_Rebalance s; st_Topo := v; st_Shrink := st_Shrink s |}.
Definition set_st_Shrink (v : option KVRocksShrinkMsg) (s : KVRocksStatus) : KVRocksStatus :=
  {| st_Status := st_Status s; st_Reason := st_Reason s; st_Version := st_Version s;
     st_Rebalance := st_Rebalance s; st_Topo := st_Topo s; st_Shrink := v |}.

Definition set_om_Labels (v : gmap string string) (m : ObjectMeta) : ObjectMeta :=
  {| om_Name := om_Name m; om_Namespace := om_Namespace m; om_Labels := v;
     om_Annotations := om_Annotations m; om_ResourceVersion := om_ResourceVersion m;
     om_UID := om_UID m; om_DeletionTimestamp := om_DeletionTimestamp m;
     om_Finalizers := om_Finalizers m; om_OwnerReferences := om_OwnerReferences m |}.
Definition set_om_Annotations (v : gmap string string) (m : ObjectMeta) : ObjectMeta :=
  {| om_Name := om_Name m; om_Namespace := om_Namespace m; om_Labels := om_Labels m;
     om_Annotations := v; om_ResourceVersion := om_ResourceVersion m;
     om_UID := om_UID m; om_DeletionTimestamp := om_DeletionTimestamp m;
     om_Finalizers := om_Finalizers m; om_OwnerReferences := om_OwnerReferences m |}.
Definition set_om_ResourceVersion (v : string) (m : ObjectMeta) : ObjectMeta :=
  {| om_Name := om_Name m; om_Namespace := om_Namespace m; om_Labels := om_Labels m;
     om_Annotations := om_Annotations m; om_ResourceVersion := v;
     om_UID := om_UID m; om_DeletionTimestamp := om_DeletionTimestamp m;
     om_Finalizers := om_Finalizers m; om_OwnerReferences := om_OwnerReferences m |}.
Definition set_om_Finalizers (v : list string) (m : ObjectMeta) : ObjectMeta :=
  {| om_Name := om_Name m; om_Namespace := om_Namespace m; om_Labels := om_Labels m;
     om_Annotations := om_Annotations m; om_ResourceVersion := om_ResourceVersion m;
     om_UID := om_UID m; om_DeletionTimestamp := om_DeletionTimestamp m;
     om_Finalizers := v; om_OwnerReferences := om_OwnerReferences m |}.

(** ** Nodes as the kvrocks client sees them *)

Definition KVRocksPort : Z := 6379.
Definition SentinelPort : Z := 26379.
Definition SuperUser : string := "superuser".
Definition RoleMaster : string := "master".
Definition RoleSlaver : string := "slave".
Definition Quorum : Z := 2.
Definition MinSlotID : Z := 0.
Definition MaxSlotID : Z := 16383.
Definition EtcdStatefulName : string := "etcd0".
Definition EtcdServiceName : string := "etcd0-service".
Definition EtcdClientPort : Z := 2379.
Definition EtcdServerPort : Z := 2380.
Definition ControllerServiceName : string := "controller-service".
Definition ControllerPort : Z := 9379.
Definition ControllerDeploymentName : string := "kvrocks-controller".

(** [kvrocks.MigrateMsg]: slots as numbers. *)
Record NodeMigrateMsg := {
  nm_Shard : Z;
  nm_Slots : list Z;
}.

Record Node := {
  n_IP : string;
  n_Role : string;
  n_PodIndex : Z;
  n_Slots : list Z;
  n_NodeId : string;
  n_Master : string;
  n_Expected : Z;
  n_Failover : bool;
  n_Migrate : slice NodeMigrateMsg;
}.

(** [&kvrocks.Node{IP: ip, PodIndex: index}] *)
Definition new_node (ip : string) (index : Z) : Node :=
  {| n_IP := ip; n_Role := EmptyString; n_PodIndex := index; n_Slots := [];
     n_NodeId := EmptyString; n_Master := EmptyString; n_Expected := 0;
     n_Failover := false; n_Migrate := None |}.

Definition set_n_Role (v : string) (n : Node) : Node :=
  {| n_IP := n_IP n; n_Role := v; n_PodIndex := n_PodIndex n; n_Slots := n_Slots n;
     n_NodeId := n_NodeId n; n_Master := n_Master n; n_Expected := n_Expected n;
     n_Failover := n_Failover n; n_Migrate := n_Migrate n |}.
Definition set_n_PodIndex (v : Z) (n : Node) : Node :=
  {| n_IP := n_IP n; n_Role := n_Role n; n_PodIndex := v; n_Slots := n_Slots n;
     n_NodeId := n_NodeId n; n_Master := n_Master n; n_Expected := n_Expected n;
     n_Failover := n_Failover n; n_Migrate := n_Migrate n |}.
Definition set_n_Slots (v : list Z) (n : Node) : Node :=
  {| n_IP := n_IP n; n_Role := n_Role n; n_PodIndex := n_PodIndex n; n_Slots := v;
     n_NodeId := n_NodeId n; n_Master := n_Master n; n_Expected := n_Expected n;
     n_Failover := n_Failover n; n_Migrate := n_Migrate n |}.
Definition set_n_NodeId (v : string) (n : Node) : Node :=
  {| n_IP := n_IP n; n_Role := n_Role n; n_PodIndex := n_PodIndex n; n_Slots := n_Slots n;
     n_NodeId := v; n_Master := n_Master n; n_Expected := n_Expected n;
     n_Failover := n_Failover n; n_Migrate := n_Migrate n |}.
Definition set_n_Master (v : string) (n : Node) : Node :=
  {| n_IP := n_IP n; n_Role := n_Role n; n_PodIndex := n_PodIndex n; n_Slots := n_Slots n;
     n_NodeId := n_NodeId n; n_Master := v; n_Expected := n_Expected n;
     n_Failover := n_Failover n; n_Migrate := n_Migrate n |}.
Definition set_n_Failover (v : bool) (n : Node) : Node :=
  {| n_IP := n_IP n; n_Role := n_Role n; n_PodIndex := n_PodIndex n; n_Slots := n_Slots n;
     n_NodeId := n_NodeId n; n_Master := n_Master n; n_Expected := n_Expected n;
     n_Failover := v; n_Migrate := n_Migrate n |}.
Definition set_n_Migrate (v : slice NodeMigrateMsg) (n : Node) : Node :=
  {| n_IP := n_IP n; n_Role := n_Role n; n_PodIndex := n_PodIndex n; n_Slots := n_Slots n;
     n_NodeId := n_NodeId n; n_Master := n_Master n; n_Expected := n_Expected n;
     n_Failover := n_Failover n; n_Migrate := v |}.

(** ** Kubernetes workloads *)

Record ContainerPort := { cp_Name : string; cp_ContainerPort : Z }.
Record VolumeMount := { vm_Name : string; vm_MountPath : string; vm_SubPath : string }.
(** A probe that runs a command. *)
Record Probe := { pr_Command : list string; pr_TimeoutSeconds : Z; pr_FailureThreshold : Z }.

Record Container := {
  c_Name : string;
  c_Image : string;
  c_ImagePullPolicy : string;
  c_Command : list string;
  c_Args : list string;
  c_Ports : list ContainerPort;
  c_Resources : option Raw;
  c_VolumeMounts : list VolumeMount;
  c_ReadinessProbe : option Probe;
  c_LivenessProbe : option Probe;
}.

Inductive VolumeSource : Type :=
| ConfigMapVolume (name : string)
| EmptyDirVolume.

Record Volume := { v_Name : string; v_Source : VolumeSource }.

Record PodTemplateSpec := {
  pt_Labels : gmap string string;
  pt_Affinity : option Affinity;
  pt_NodeSelector : gmap string string;
  pt_Tolerations : list Raw;
  pt_TerminationGracePeriodSeconds : option Z;
  pt_ReadinessGates : list string;
  pt_Volumes : list Volume;
  pt_Containers : list Container;
}.

(** Persistent volume claims, also as templates of a stateful set. *)
Record PersistentVolumeClaim := {
  pvc_Meta : ObjectMeta;
  pvc_AccessModes : list string;
  pvc_Storage : Quantity;
  pvc_StorageClassName : option string;
  pvc_VolumeMode : string;
}.

(** [kruise.StatefulSet]; [ss_UpdateStrategy] is the rolling update strategy
    (pod update policy, paused, in-place grace period). *)
Record StatefulSet := {
  ss_Meta : ObjectMeta;
  ss_Replicas : Z;
  ss_PodManagementPolicy : string;
  ss_MatchLabels : gmap string string;
  ss_UpdateStrategy : string * bool * Z;
  ss_ReserveOrdinals : list Z;
  ss_Template : PodTemplateSpec;
  ss_VolumeClaimTemplates : list PersistentVolumeClaim;
  ss_ReadyReplicas : Z;
}.

(** [appsv1.StatefulSet], used for etcd. *)
Record NativeStatefulSet := {
  ns_Meta : ObjectMeta;
  ns_Replicas : Z;
  ns_MatchLabels : gmap string string;
  ns_ServiceName : string;
  ns_Template : PodTemplateSpec;
  ns_ReadyReplicas : Z;
}.

Record Deployment := {
  d_Meta : ObjectMeta;
  d_Replicas : Z;
  d_MatchLabels : gmap string string;
  d_Template : PodTemplateSpec;
  d_ReadyReplicas : Z;
}.

Record ServicePort := {
  svp_Name : string;
  svp_Protocol : string;
  svp_Port : Z;
  svp_TargetPort : option Z;
}.

Record Service := {
  sv_Meta : ObjectMeta;
  sv_Type : string;
  sv_Ports : list ServicePort;
  sv_Selector : gmap string string;
  sv_ClusterIP : string;
}.

Record ConfigMap := {
  cm_Meta : ObjectMeta;
  cm_Data : gmap string string;
}.

Record Pod := {
  pod_Meta : ObjectMeta;
  pod_PodIP : string;
}.

Definition ss_Name (s : StatefulSet) : string := om_Name (ss_Meta s).
Definition ss_Namespace (s : StatefulSet) : string := om_Namespace (ss_Meta s).

Definition set_ss_Meta (f : ObjectMeta -> ObjectMeta) (s : StatefulSet) : StatefulSet :=
  {| ss_Meta := f (ss_Meta s); ss_Replicas := ss_Replicas s;
     ss_PodManagementPolicy := ss_PodManagementPolicy s; ss_MatchLabels := ss_MatchLabels s;
     ss_UpdateStrategy := ss_UpdateStrategy s; ss_ReserveOrdinals := ss_ReserveOrdinals s;
     ss_Template := ss_Template s; ss_VolumeClaimTemplates := ss_VolumeClaimTemplates s;
     ss_ReadyReplicas := ss_ReadyReplicas s |}.
Definition set_ss_Replicas (v : Z) (s : StatefulSet) : StatefulSet :=
  {| ss_Meta := ss_Meta s; ss_Replicas := v;
     ss_PodManagementPolicy := ss_PodManagementPolicy s; ss_MatchLabels := ss_MatchLabels s;
     ss_UpdateStrategy := ss_UpdateStrategy s; ss_ReserveOrdinals := ss_ReserveOrdinals s;
     ss_Template := ss_Template s; ss_VolumeClaimTemplates := ss_VolumeClaimTemplates s;
     ss_ReadyReplicas := ss_ReadyReplicas s |}.
Definition set_ss_ReserveOrdinals (v : list Z) (s : StatefulSet) : StatefulSet :=
  {| ss_Meta := ss_Meta s; ss_Replicas := ss_Replicas s;
     ss_PodManagementPolicy := ss_PodManagementPolicy s; ss_MatchLabels := ss_MatchLabels s;
     ss_UpdateStrategy := ss_UpdateStrategy s; ss_ReserveOrdinals := v;
     ss_Template := ss_Template s; ss_VolumeClaimTemplates := ss_VolumeClaimTemplates s;
     ss_ReadyReplicas := ss_ReadyReplicas s |}.
Definition set_ss_Containers (v : list Container) (s : StatefulSet) : StatefulSet :=
  {| ss_Meta := ss_Meta s; ss_Replicas := ss_Replicas s;
     ss_PodManagementPolicy := ss_PodManagementPolicy s; ss_MatchLabels := ss_MatchLabels s;
     ss_UpdateStrategy := ss_UpdateStrategy s; ss_ReserveOrdinals := ss_ReserveOrdinals s;
     ss_Template :=
       {| pt_Labels := pt_Labels (ss_Template s); pt_Affinity := pt_Affinity (ss_Template s);
          pt_NodeSelector := pt_NodeSelector (ss_Template s);
          pt_Tolerations := pt_Tolerations (ss_Template s);
          pt_TerminationGracePeriodSeconds := pt_TerminationGracePeriodSeconds (ss_Template s);
          pt_ReadinessGates := pt_ReadinessGates (ss_Template s);
          pt_Volumes := pt_Volumes (ss_Template s); pt_Containers := v |};
     ss_VolumeClaimTemplates := ss_VolumeClaimTemplates s;
     ss_ReadyReplicas := ss_ReadyReplicas s |}.

Definition set_cm_Meta (f : ObjectMeta -> ObjectMeta) (c : ConfigMap) : ConfigMap :=
  {| cm_Meta := f (cm_Meta c); cm_Data := cm_Data c |}.

Definition set_pod_Meta (f : ObjectMeta -> ObjectMeta) (p : Pod) : Pod :=
  {| pod_Meta := f (pod_Meta p); pod_PodIP := pod_PodIP p |}.

(** [types.NamespacedName.String()] *)
Definition nn_String (k : NamespacedName) : string := nn_Namespace k +:+ "/" +:+ nn_Name k.
