(* ===== verification/Slots.v ===== *)
(** * Slot sets and node information (pkg/client/kvrocks)

    The conversions between slot lists and the textual ranges kept in the
    resource's status ([SlotsToString], [SlotsToInt]), [InsertSlot], and the
    parser of the output of CLUSTER NODES ([parseNodeInfo]). *)

From S2P Require Import Prelude GoStd Types.
From Stdlib Require Import Ascii.
Local Open Scope Z_scope.

Definition dash : string := "-".

(** One field of the result: [fmt.Sprintf("%d-%d", head, last)], or a single
    number when the range has one element. *)
Definition range_string (head last : Z) : string :=
  if head =? last then Itoa head else Itoa head +:+ dash +:+ Itoa last.

(** The loop of [SlotsToString] over the sorted slice: [head] starts the
    current run, [prev] is [slots[i-1]]. *)
Fixpoint ranges_loop (head prev : Z) (slots : list Z) : list string :=
  match slots with
  | [] => [range_string head prev]
  | x :: rest =>
      if int64 (x - prev) =? 1 then ranges_loop head x rest
      else range_string head prev :: ranges_loop x x rest
  end.

Definition SlotsToString (slots : list Z) : list string :=
  match sort_ints slots with
  | [] => []
  | head :: rest => ranges_loop head head rest
  end.

(** The counting loop of [SlotsToInt], [for i := begin; i <= end; i++], with
    the machine's [i++]; [None] when [fuel] iterations did not end it. *)
Fixpoint slot_loop (fuel : nat) (i last : Z) : option (list Z) :=
  match fuel with
  | O => None
  | S f => if i <=? last then cons i <$> slot_loop f (int64 (i + 1)) last else Some []
  end.

(** What the loop comes to: the slots of the range, or, when [last] is the
    largest [int] and [i <= last] holds for every [int], no end
    ([slot_loop_ends] and [slot_loop_hangs] below). *)
Definition slot_range (begin last : Z) : outcome (list Z) :=
  if last <? MaxInt then Ok (irange begin last) else Hangs.

(** One iteration of [SlotsToInt]; errors of [Atoi] are dropped by the code,
    the value returned beside the error is used. *)
Definition slot_field (slot : string) : outcome (list Z) :=
  match Split slot dash with
  | [] => Ok []
  | [f] => Ok [(Atoi f).1]
  | f0 :: f1 :: _ => slot_range (Atoi f0).1 (Atoi f1).1
  end.

Fixpoint SlotsToInt (slots : list string) : outcome (list Z) :=
  match slots with
  | [] => Ok []
  | slot :: rest =>
      match slot_field slot with
      | Ok l => omap_ok (app l) (SlotsToInt rest)
      | r => r
      end
  end.

Definition InsertSlot (node : Node) (value : Z) : Node :=
  set_n_Slots (sort_ints (n_Slots node ++ [value])) node.

(** [parseNodeInfo] on one line of the reply. *)
Definition parse_node_line (node : Node) (line : string) : outcome Node :=
  match Split line " " with
  | id :: addr :: flags :: master :: _ :: _ :: _ :: _ :: slots =>
      if Contains flags "myself" then
        let node :=
          {| n_IP := default EmptyString (head (Split addr ":")); n_Role := n_Role node;
             n_PodIndex := n_PodIndex node; n_Slots := n_Slots node; n_NodeId := id;
             n_Master := n_Master node; n_Expected := n_Expected node;
             n_Failover := n_Failover node; n_Migrate := n_Migrate node |} in
        if Contains flags RoleMaster then
          omap_ok (fun l => set_n_Slots l (set_n_Role RoleMaster node)) (SlotsToInt slots)
        else if Contains flags RoleSlaver then
          Ok (set_n_Master master (set_n_Role RoleSlaver node))
        else Ok node
      else Ok node
  | _ => Ok node
  end.

Definition newline : string := String (Ascii.ascii_of_nat 10) EmptyString.

Fixpoint parse_lines (node : Node) (lines : list string) : outcome Node :=
  match lines with
  | [] => Ok node
  | line :: rest =>
      match parse_node_line node line with
      | Ok node' => parse_lines node' rest
      | r => r
      end
  end.

Definition parseNodeInfo (info : string) : outcome Node :=
  parse_lines (new_node EmptyString 0) (Split info newline).

(** ** Round trip *)

(** Slots the encoding is made for: non-negative [int]s below the largest one
    (a range that ends there is not decoded, see [slot_loop_hangs]). *)
Definition slot_ok (x : Z) : Prop := 0 <= x < MaxInt.

Lemma slot_ok_int x : slot_ok x -> is_int x.
Proof. unfold slot_ok, is_int, MinInt. lia. Qed.

Lemma Itoa_split z : slot_ok z -> Split (Itoa z) dash = [Itoa z].
Proof. intros [Hz _]. apply split_lacks. by apply Itoa_lacks_dash. Qed.

Lemma slot_field_range h p : slot_ok h -> slot_ok p -> h <= p -> slot_field (range_string h p) = Ok (irange h p).
Proof.
  intros Hh Hp Hhp. unfold slot_field, range_string. destruct (h =? p) eqn:E.
  - assert (h = p) as <- by lia. rewrite Itoa_split by done.
    rewrite Atoi_Itoa by (by apply slot_ok_int). by rewrite irange_single.
  - unfold dash. change ("-" +:+ Itoa p) with (String "-" (Itoa p)).
    unfold Split. rewrite split_app; [|by apply Itoa_lacks_dash, Hh|done].
    simpl. rewrite split_lacks by (by apply Itoa_lacks_dash, Hp).
    rewrite !Atoi_Itoa by (by apply slot_ok_int). unfold slot_range. unfold slot_ok in Hp.
    cbn [fst]. by replace (p <? MaxInt) with true by lia.
Qed.

Lemma diff_one x prev : slot_ok x -> slot_ok prev -> (int64 (x - prev) =? 1) = (x =? prev + 1).
Proof.
  intros Hx Hp. rewrite int64_id.
  - destruct (Z.eqb_spec (x - prev) 1), (Z.eqb_spec x (prev + 1)); lia.
  - unfold slot_ok, is_int, MinInt, MaxInt in *. lia.
Qed.

Lemma ranges_loop_int head prev rest :
  0 <= head <= prev -> StronglySorted Z.le (prev :: rest) -> Forall slot_ok (prev :: rest) ->
  SlotsToInt (ranges_loop head prev rest) = Ok (irange head prev ++ rest).
Proof.
  revert head prev. induction rest as [|x rest IH]; intros head prev Hh Hs Hok.
  - apply Forall_cons in Hok as [Hok _]. unfold slot_ok in Hok.
    cbn [ranges_loop SlotsToInt]. rewrite slot_field_range; unfold slot_ok; [done|lia..].
  - apply StronglySorted_inv in Hs as [Hs Hle].
    apply Forall_cons in Hok as [Hp Hok]. pose proof (proj1 (proj1 (Forall_cons _ _ _) Hok)) as Hx.
    pose proof (proj1 (proj1 (Forall_cons _ _ _) Hle)) as Hpx. cbn [ranges_loop]. rewrite diff_one by done.
    destruct (Z.eqb_spec x (prev + 1)) as [->|Hne].
    + rewrite IH by (auto; lia). rewrite irange_snoc by lia. by rewrite <- app_assoc.
    + cbn [SlotsToInt]. rewrite IH by (unfold slot_ok in *; auto; lia).
      rewrite slot_field_range; [|unfold slot_ok in *; lia|done|lia].
      by rewrite irange_single.
Qed.

Lemma SlotsToInt_SlotsToString slots :
  Forall slot_ok slots -> SlotsToInt (SlotsToString slots) = Ok (sort_ints slots).
Proof.
  intros Hok. unfold SlotsToString.
  assert (Hok' : Forall slot_ok (sort_ints slots)) by (by rewrite sort_ints_perm).
  pose proof (sort_ints_sorted slots) as Hs.
  destruct (sort_ints slots) as [|h rest]; [done|].
  rewrite ranges_loop_int; [by rewrite irange_single| |done|done].
  apply Forall_cons in Hok' as [Hh _]. unfold slot_ok in Hh. lia.
Qed.

(** ** Shape of the textual form *)

(** The first slots of the maximal runs of a slot set. *)
Definition run_starts (slots : list Z) : list Z := filter (fun x => x - 1 ∉ slots) slots.

Lemma ranges_loop_length head prev rest :
  StronglySorted Z.lt (prev :: rest) -> Forall slot_ok (prev :: rest) ->
  length (ranges_loop head prev rest) = S (length (filter (fun x => x - 1 ∉ prev :: rest) rest)).
Proof.
  revert head prev. induction rest as [|x rest IH]; intros head prev Hs Hok; [done|].
  apply StronglySorted_inv in Hs as [Hs Hlt]. apply Forall_cons in Hok as [Hp Hok].
  pose proof (proj1 (proj1 (Forall_cons _ _ _) Hok)) as Hx. pose proof (proj1 (proj1 (Forall_cons _ _ _) Hlt)) as Hpx.
  assert (Hrest : filter (fun y => y - 1 ∉ prev :: x :: rest) rest = filter (fun y => y - 1 ∉ x :: rest) rest).
  { apply list_filter_ext. intros y Hy.
    apply StronglySorted_inv in Hs as [_ Hxr]. rewrite Forall_forall in Hxr.
    specialize (Hxr y Hy). set_unfold. naive_solver lia. }
  cbn [ranges_loop]. rewrite diff_one by done.
  assert (Hin : x - 1 ∈ prev :: x :: rest <-> x = prev + 1).
  { apply StronglySorted_inv in Hs as [_ Hxr]. rewrite Forall_forall in Hxr.
    rewrite !elem_of_cons. split; [|lia]. intros [?|[?|Hr]]; [lia|lia|]. specialize (Hxr _ Hr). lia. }
  destruct (Z.eqb_spec x (prev + 1)) as [E|E].
  - rewrite filter_cons_False by (by rewrite Hin; intros ?).
    rewrite Hrest. by apply IH.
  - rewrite filter_cons_True by (by rewrite Hin).
    cbn [length]. by rewrite IH, Hrest.
Qed.

Lemma run_starts_perm slots slots' : slots ≡ₚ slots' -> run_starts slots ≡ₚ run_starts slots'.
Proof.
  intros H. unfold run_starts.
  rewrite (list_filter_ext (fun x => x - 1 ∉ slots) (fun x => x - 1 ∉ slots')).
  - by rewrite H.
  - intros x _. by rewrite H.
Qed.

Lemma strongly_sorted_lt l : StronglySorted Z.le l -> NoDup l -> StronglySorted Z.lt l.
Proof.
  induction 1 as [|x l Hs IH Hle]; intros Hnd; [constructor|].
  apply NoDup_cons in Hnd as [Hx Hnd]. constructor; [by apply IH|].
  rewrite Forall_forall in Hle |- *. intros y Hy. specialize (Hle y Hy).
  assert (x <> y) by (by intros ->). lia.
Qed.

(** ** Properties *)

(** C5: the textual slot ranges of the status are a faithful encoding of a list
    of slots below the largest [int]: decoding returns, with the sorted list;
    encoding what was decoded changes nothing; and two lists have the same
    encoding exactly when they hold the same slots. *)
Theorem slots_roundtrip (slots : list Z) :
  Forall slot_ok slots ->
  SlotsToInt (SlotsToString slots) = Ok (sort_ints slots) /\
  SlotsToString (sort_ints slots) = SlotsToString slots /\
  forall slots', Forall slot_ok slots' ->
    (SlotsToString slots = SlotsToString slots' <-> slots ≡ₚ slots').
Proof.
  intros Hok. rewrite SlotsToInt_SlotsToString by done. split; [done|]. split.
  - unfold SlotsToString at 1. by rewrite (sort_ints_id _ (sort_ints_sorted slots)).
  - intros slots' Hok'. split.
    + intros E. apply (f_equal SlotsToInt) in E.
      rewrite !SlotsToInt_SlotsToString in E by done. injection E as E.
      by rewrite <- (sort_ints_perm slots), E, sort_ints_perm.
    + intros E. unfold SlotsToString. by rewrite (sort_ints_proper _ _ E).
Qed.

Lemma slots_roundtrip_witness :
  Forall slot_ok [7; 3; 1; 2] /\
  SlotsToString [7; 3; 1; 2] = ["1-3"; "7"] /\
  SlotsToInt (SlotsToString [7; 3; 1; 2]) = Ok [1; 2; 3; 7].
Proof.
  assert (H : Forall slot_ok [7; 3; 1; 2]) by (repeat constructor; unfold MaxInt; lia).
  split; [exact H|]. split; [vm_compute; reflexivity|].
  rewrite (proj1 (slots_roundtrip _ H)). vm_compute. reflexivity.
Defined.

(** The encoding is as short as possible: it has one field for every
    maximal run of consecutive slots. *)
Theorem slots_string_maximal_runs (slots : list Z) :
  Forall slot_ok slots -> NoDup slots ->
  length (SlotsToString slots) = length (run_starts slots).
Proof.
  intros Hok Hnd. rewrite <- (run_starts_perm _ _ (sort_ints_perm slots)).
  assert (Hok' : Forall slot_ok (sort_ints slots)) by (by rewrite sort_ints_perm).
  assert (Hs : StronglySorted Z.lt (sort_ints slots)).
  { apply strongly_sorted_lt; [apply sort_ints_sorted|]. by rewrite sort_ints_perm. }
  unfold SlotsToString, run_starts. destruct (sort_ints slots) as [|h rest]; [done|].
  rewrite ranges_loop_length by done. rewrite filter_cons_True; [done|].
  apply StronglySorted_inv in Hs as [_ Hlt]. rewrite Forall_forall in Hlt.
  rewrite elem_of_cons. intros [?|Hin]; [lia|]. specialize (Hlt _ Hin). lia.
Qed.

Lemma slots_string_maximal_runs_witness :
  Forall slot_ok [5; 0; 1; 9; 8] /\ NoDup [5; 0; 1; 9; 8] /\
  length (SlotsToString [5; 0; 1; 9; 8]) = 3%nat.
Proof.
  assert (H : Forall slot_ok [5; 0; 1; 9; 8]) by (repeat constructor; unfold MaxInt; lia).
  assert (Hn : NoDup [5; 0; 1; 9; 8]) by (apply (bool_decide_unpack _); vm_compute; exact I).
  split; [exact H|]. split; [exact Hn|].
  rewrite (slots_string_maximal_runs _ H Hn). vm_compute. reflexivity.
Defined.

Lemma slot_loop_ends b e :
  is_int b -> is_int e -> e < MaxInt -> slot_loop (S (length (irange b e))) b e = Some (irange b e).
Proof.
  intros Hb He Hlt. remember (length (irange b e)) as k eqn:Hk. revert b Hb Hk.
  induction k as [|k IH]; intros b Hb Hk; rewrite length_irange in Hk; cbn [slot_loop].
  - replace (b <=? e) with false by lia. by rewrite irange_nil by lia.
  - replace (b <=? e) with true by lia. unfold is_int in *.
    rewrite int64_id by (unfold is_int; lia). cbn [slot_loop] in IH.
    rewrite IH; [|lia|rewrite length_irange; lia]. cbn. by rewrite <- irange_cons by lia.
Qed.

Lemma slot_loop_hangs b fuel : is_int b -> slot_loop fuel b MaxInt = None.
Proof.
  revert b. induction fuel as [|f IH]; intros b Hb; [done|]. cbn [slot_loop].
  unfold is_int in Hb. replace (b <=? MaxInt) with true by lia.
  by rewrite IH by apply int64_range.
Qed.

(** C36: the counting loop that expands a range "begin-end" runs to the list of
    its slots whenever [end] is below the largest [int], and never ends when
    [end] is the largest [int], the value [Atoi] gives for an oversized number;
    this is what [SlotsToInt] makes of a range. *)
Theorem slot_range_loop (b e : Z) :
  is_int b -> is_int e ->
  (e < MaxInt -> slot_loop (S (length (irange b e))) b e = Some (irange b e) /\ slot_range b e = Ok (irange b e)) /\
  (e = MaxInt -> (forall fuel, slot_loop fuel b e = None) /\ slot_range b e = Hangs).
Proof.
  intros Hb He. unfold slot_range. split.
  - intros Hlt. split; [by apply slot_loop_ends|]. by replace (e <? MaxInt) with true by lia.
  - intros ->. split; [intros fuel; by apply slot_loop_hangs|]. by rewrite Z.ltb_irrefl.
Qed.

Lemma slot_range_loop_witness :
  slot_loop 4 5 7 = Some [5; 6; 7] /\ (Atoi "99999999999999999999").1 = MaxInt /\
  (forall fuel, slot_loop fuel 5 (Atoi "99999999999999999999").1 = None) /\
  SlotsToInt ["5-99999999999999999999"] = Hangs.
Proof.
  assert (H5 : is_int 5) by (unfold is_int, MinInt, MaxInt; lia).
  assert (H7 : is_int 7) by (unfold is_int, MinInt, MaxInt; lia).
  assert (Hm : is_int MaxInt) by (unfold is_int, MinInt, MaxInt; lia).
  split; [exact (proj1 (proj1 (slot_range_loop 5 7 H5 H7) ltac:(unfold MaxInt; lia)))|].
  assert (E : (Atoi "99999999999999999999").1 = MaxInt) by (vm_compute; reflexivity).
  split; [exact E|]. split; [|vm_compute; reflexivity].
  rewrite E. exact (proj1 (proj2 (slot_range_loop 5 MaxInt H5 Hm) eq_refl)).
Defined.

Lemma InsertSlot_spec node value :
  n_Slots (InsertSlot node value) ≡ₚ value :: n_Slots node /\
  StronglySorted Z.le (n_Slots (InsertSlot node value)).
Proof.
  unfold InsertSlot. simpl. split; [|apply sort_ints_sorted].
  rewrite sort_ints_perm. by rewrite Permutation_app_comm.
Qed.
