(* ===== verification/Resources.v ===== *)
(** * Names, labels, validation and object builders (pkg/resources)

    [kvrocks.go], [labels.go], [configmap.go], [statefulset.go],
    [container.go], [deployment.go] and [service.go]. *)

From S2P Require Import Prelude GoStd Types.
From Stdlib Require Import Ascii.
Local Open Scope Z_scope.

(** What the package takes from libraries: the owner reference built by
    [metav1.NewControllerRef], [Quantity.IsZero], the order in which a
    [for ... range] over a map visits its entries, which Go leaves open, and
    the finalizer functions of controller-runtime's [controllerutil]. *)
Class GoLib := {
  NewControllerRef : KVRocks -> OwnerReference;
  Quantity_IsZero : Quantity -> bool;
  range_map : forall {A : Type}, gmap string A -> list (string * A);
  range_map_perm : forall {A : Type} (m : gmap string A), range_map m ≡ₚ map_to_list m;
  ContainsFinalizer : KVRocks -> string -> bool;
  AddFinalizer : KVRocks -> string -> KVRocks;
  RemoveFinalizer : KVRocks -> string -> KVRocks;
  ContainsFinalizer_spec : forall k f, ContainsFinalizer k f = bool_decide (f ∈ om_Finalizers (kv_Meta k));
  AddFinalizer_spec : forall k f, f ∉ om_Finalizers (kv_Meta k) ->
    AddFinalizer k f = set_kv_Meta (fun m => set_om_Finalizers (om_Finalizers m ++ [f]) m) k;
  RemoveFinalizer_spec : forall k f,
    RemoveFinalizer k f = set_kv_Meta (fun m => set_om_Finalizers (filter (fun x => x <> f) (om_Finalizers m)) m) k;
}.

(** ** kvrocks.go: validation and names *)

Definition ErrorPasswordEmpty : string := "passworUnreasonable".
Definition ErrorReplicasUnreasonable : string := "replicasUnreasonable".
Definition ErrorResourcesNULL : string := "resourcesUnreasonable".

(** [(false, &reason)] is [Some reason]. *)
Definition ValidateKVRocks (instance : KVRocks) : option string :=
  let spec := kv_Spec instance in
  if String.eqb (sp_Password spec) EmptyString then Some ErrorPasswordEmpty
  else match sp_Resources spec with
  | None => Some ErrorResourcesNULL
  | Some _ =>
      if String.eqb (sp_Type spec) SentinelType then
        if (sp_Replicas spec <? 2) || (Z.rem (sp_Replicas spec) 2 =? 0)
        then Some ErrorReplicasUnreasonable else None
      else if String.eqb (sp_Type spec) StandardType then
        if negb (sp_Master spec =? 1) then Some ErrorReplicasUnreasonable else None
      else if String.eqb (sp_Type spec) ClusterType then
        if sp_Master spec <? 3 then Some ErrorReplicasUnreasonable else None
      else None
  end.

Definition ParseRedisName (name : string) : string * string :=
  match SplitN name "-" 4 with
  | _ :: _ :: sysId :: name' :: _ => (sysId, name')
  | _ => (EmptyString, EmptyString)
  end.

Definition GetClusterName (systemId name : string) : string :=
  "kvrocks-cluster-" +:+ systemId +:+ "-" +:+ name.

(** The variable [key]: the characters random ones are drawn from. *)
Definition id_chars : list ascii :=
  ["0"; "1"; "2"; "3"; "4"; "5"; "6"; "7"; "8"; "9"; "a"; "b"; "c"; "d"; "e"; "f"; "g"; "h"; "i"; "j"; "k"; "l"; "m";
   "n"; "o"; "p"; "q"; "r"; "s"; "t"; "u"; "v"; "w"; "x"; "y"; "z"]%char.

(** One round of [SetClusterNodeId]: the first dash is replaced by the two
    characters drawn. *)
Definition replace_dash (uid : string) (draw : nat * nat) : outcome string :=
  match id_chars !! draw.1, id_chars !! draw.2 with
  | Some v1, Some v2 => Ok (ReplaceFirst uid "-" (String v1 (String v2 EmptyString)))
  | _, _ => Panic
  end.

(** [SetClusterNodeId]: [uid] is the text of a new UUID and [Intn k] what the
    [k]-th call of [rand.Intn(len(key))] returns. *)
Definition SetClusterNodeId (uid : string) (Intn : nat -> nat) : outcome string :=
  foldl (fun acc k => match acc with Ok u => replace_dash u (Intn (2 * k), Intn (2 * k + 1))%nat | r => r end)
    (Ok uid) (seq 0 4).

Definition GetSentinelName (system : string) : string := "sentinel-" +:+ system.

Definition empty_meta (name namespace : string) : ObjectMeta :=
  {| om_Name := name; om_Namespace := namespace; om_Labels := ∅; om_Annotations := ∅;
     om_ResourceVersion := EmptyString; om_UID := EmptyString; om_DeletionTimestamp := None;
     om_Finalizers := []; om_OwnerReferences := [] |}.

Definition zero_status : KVRocksStatus :=
  {| st_Status := StatusNone; st_Reason := EmptyString; st_Version := 0; st_Rebalance := false;
     st_Topo := None; st_Shrink := None |}.

Definition GetSentinelInstance (instance : KVRocks) : KVRocks :=
  let system := (ParseRedisName (kv_Name instance)).1 in
  let spec := kv_Spec instance in
  {| kv_APIVersion := EmptyString;
     kv_Kind := EmptyString;
     kv_Meta := empty_meta (GetSentinelName system) (kv_Namespace instance);
     kv_Spec :=
       {| sp_Image := sp_Image spec; sp_ImagePullPolicy := sp_ImagePullPolicy spec;
          sp_Type := sp_Type spec; sp_KVRocksConfig := ∅; sp_Replicas := sp_Replicas spec;
          sp_Master := 0; sp_Password := sp_Password spec; sp_Resources := sp_Resources spec;
          sp_NodeSelector := sp_NodeSelector spec; sp_Toleration := sp_Toleration spec;
          sp_Affinity := sp_Affinity spec; sp_Storage := None |};
     kv_Status := zero_status |}.

(** ** labels.go *)

Definition MonitoredBy : string := "kvrocks/monitored-by".
Definition KvrocksRole : string := "kvrocks/role".

(** Later maps overwrite earlier ones. *)
Definition MergeLabels (allLabels : list (gmap string string)) : gmap string string :=
  foldl (fun res labels => labels ∪ res) ∅ allLabels.

Definition DeploymentLabels (name : string) : gmap string string := {["kvrocks/deployment" := name]}.
Definition StatefulSetLabels (name : string) : gmap string string := {["kvrocks/statefulset" := name]}.
Definition MonitorLabels (sentinel : string) : gmap string string := {[MonitoredBy := sentinel]}.
Definition SelectorLabels (instance : KVRocks) : gmap string string :=
  <["app.kubernetes.io/kind" := kv_Kind instance]> {["kvrocks/name" := kv_Name instance]}.
Definition SentinelLabels : gmap string string := {["sentinel" := "true"]}.

(** ** Names of stateful sets, deployments, pods and claims *)

Definition GetStatefulSetName (name : string) (index : option Z) : string :=
  match index with
  | Some i => name +:+ "-" +:+ Itoa i
  | None => name
  end.

Definition GetDeploymentName (name : string) (index : option Z) : string :=
  match index with
  | Some i => name +:+ "-" +:+ Itoa i
  | None => name
  end.

Definition GetPVCOrPodIndex (podName : string) : outcome Z :=
  let index := drop_chars (Z.to_nat (LastIndex podName "-" + 1)) podName in
  match Atoi index with
  | (v, None) => Ok v
  | (_, Some e) => Err (atoi_err e)
  end.

(** ** configmap.go *)

Definition UnChangeCfg : gset string :=
  list_to_set ["daemonize"; "bind"; "port"; "workers"; "tcp-backlog"; "slaveof"; "db-name"; "dir";
    "backup-dir"; "log-dir"; "pidfile"; "supervised"; "rename-command"; "rocksdb.block_size";
    "rocksdb.wal_size_limit_mb"; "rocksdb.enable_pipelined_write";
    "rocksdb.cache_index_and_filter_blocks"; "rocksdb.subkey_block_cache_size";
    "rocksdb.metadata_block_cache_size"; "rocksdb.share_metadata_and_subkey_block_cache";
    "rocksdb.row_cache_size"; "masterauth"; "requirepass"; "cluster-enabled"].

Definition ParseKVRocksConfigs (config : gmap string string) : gmap string string :=
  filter (fun kv => kv.1 ∉ UnChangeCfg) config.

Definition nl : string := String (ascii_of_nat 10) EmptyString.
Definition dquote : string := String (ascii_of_nat 34) EmptyString.
Definition lines (l : list string) : string := foldr (fun x acc => x +:+ nl +:+ acc) EmptyString l.

Definition superUser (password : string) : string :=
  "user superuser ~* +@all on >" +:+ password +:+ nl.
Definition sentinelDefaultUser : string :=
  "user default +@all -acl -sentinel +sentinel|master +sentinel|replicas +sentinel|sentinels +sentinel|get-master-addr-by-name +sentinel|is-master-down-by-addr +sentinel|slaves on nopass" +:+ nl.

Definition start : string :=
  nl +:+ lines ["#!/bin/bash"; "sleep 15"; "./bin/kvrocks -c /var/lib/kvrocks/conf/kvrocks.conf"].
Definition readinessProbe : string :=
  nl +:+ lines ["#!/bin/sh";
    "timeout 30 redis-cli -a $(cat /var/lib/kvrocks/conf/password) --no-auth-warning ping || timeout 30 redis-cli --no-auth-warning ping"].

Section builders.
Context `{GoLib}.

(** [metav1.ObjectMeta{Name, Namespace, OwnerReferences, Labels}] *)
Definition owned_meta (instance : KVRocks) (name : string) (labels : gmap string string) : ObjectMeta :=
  {| om_Name := name; om_Namespace := kv_Namespace instance; om_Labels := labels;
     om_Annotations := ∅; om_ResourceVersion := EmptyString; om_UID := EmptyString;
     om_DeletionTimestamp := None; om_Finalizers := [];
     om_OwnerReferences := [NewControllerRef instance] |}.

Definition NewSentinelConfigMap (instance : KVRocks) : ConfigMap :=
  {| cm_Meta := owned_meta instance (kv_Name instance) (kv_Labels instance);
     cm_Data := {["sentinel.conf" := sentinelDefaultUser +:+ superUser (sp_Password (kv_Spec instance))]} |}.

(** One configured key: an empty value is written as a quoted empty string. *)
Definition config_line (kv : string * string) : string :=
  if String.eqb kv.2 EmptyString then kv.1 +:+ " " +:+ dquote +:+ dquote +:+ nl
  else kv.1 +:+ " " +:+ kv.2 +:+ nl.

Definition kvrocks_conf (instance : KVRocks) : string :=
  let spec := kv_Spec instance in
  foldr String.append EmptyString (config_line <$> range_map (sp_KVRocksConfig spec)) +:+
  "masterauth " +:+ sp_Password spec +:+ nl +:+
  "requirepass " +:+ sp_Password spec +:+ nl +:+
  "dir /var/lib/kvrocks" +:+ nl +:+
  (if String.eqb (sp_Type spec) ClusterType then "cluster-enabled yes" +:+ nl else EmptyString) +:+
  (if String.eqb (sp_Type spec) StandardType then "slaveof 127.0.0.1 6379" +:+ nl else EmptyString).

Definition NewKVRocksConfigMap (instance : KVRocks) : ConfigMap :=
  {| cm_Meta := owned_meta instance (kv_Name instance) (kv_Labels instance);
     cm_Data := <["kvrocks.conf" := kvrocks_conf instance]>
                (<["password" := sp_Password (kv_Spec instance)]>
                (<["start.sh" := start]> {["readiness_probe.sh" := readinessProbe]})) |}.

Definition NewKVRocksControllerConfigmap (instance : KVRocks) : ConfigMap :=
  {| cm_Meta := owned_meta instance "controller-config" ∅;
     cm_Data := {["config.yaml" := nl +:+ lines [
        "addr: " +:+ dquote +:+ "0.0.0.0:" +:+ Itoa ControllerPort +:+ dquote;
        "etcd:";
        "  addrs:";
        "    - " +:+ dquote +:+ EtcdServiceName +:+ ":" +:+ Itoa EtcdClientPort +:+ dquote;
        "  username:";
        "  password:";
        "  tls:";
        "    enable: false";
        "    cert_file:";
        "    key_file:";
        "    ca_file:"]]} |}.

(** *** container.go *)

Definition ping_probe (cmd : list string) : Probe :=
  {| pr_Command := cmd; pr_TimeoutSeconds := 5; pr_FailureThreshold := 6 |}.

(** [container.Command = cmd; container.Ports = ports] *)
Definition set_c_Command_Ports (cmd : list string) (ports : list ContainerPort) (c : Container) : Container :=
  {| c_Name := c_Name c; c_Image := c_Image c; c_ImagePullPolicy := c_ImagePullPolicy c;
     c_Command := cmd; c_Args := c_Args c; c_Ports := ports; c_Resources := c_Resources c;
     c_VolumeMounts := c_VolumeMounts c; c_ReadinessProbe := c_ReadinessProbe c;
     c_LivenessProbe := c_LivenessProbe c |}.

Definition mount (name path : string) : VolumeMount :=
  {| vm_Name := name; vm_MountPath := path; vm_SubPath := EmptyString |}.

(** Dereferences [instance.Spec.Resources]. *)
Definition newSentinelContainer (instance : KVRocks) : outcome Container :=
  match sp_Resources (kv_Spec instance) with
  | None => Panic
  | Some res =>
      let probe := ping_probe ["redis-cli"; "-p"; "26379"; "ping"] in
      Ok {| c_Name := "sentinel";
            c_Image := sp_Image (kv_Spec instance);
            c_ImagePullPolicy := sp_ImagePullPolicy (kv_Spec instance);
            c_Command := [];
            c_Args := [];
            c_Ports := [];
            c_Resources := Some res;
            c_VolumeMounts := [mount "data" "/data"; mount "conf" "/conf"];
            c_ReadinessProbe := Some probe;
            c_LivenessProbe := Some probe |}
  end.

Definition NewSentinelContainer (instance : KVRocks) : outcome Container :=
  omap_ok (set_c_Command_Ports
             ["sh"; "-c"; "cp -n /conf/sentinel.conf /data/sentinel.conf; redis-server /data/sentinel.conf --sentinel"]
             [{| cp_Name := "sentinel"; cp_ContainerPort := 26379 |}])
    (newSentinelContainer instance).

(** Dereferences [instance.Spec.Resources]. *)
Definition newKVRocksContainer (instance : KVRocks) : outcome Container :=
  match sp_Resources (kv_Spec instance) with
  | None => Panic
  | Some res =>
      let probe := ping_probe ["sh"; "/var/lib/kvrocks/conf/readiness_probe.sh"] in
      Ok {| c_Name := "kvrocks";
            c_Image := sp_Image (kv_Spec instance);
            c_ImagePullPolicy := sp_ImagePullPolicy (kv_Spec instance);
            c_Command := [];
            c_Args := [];
            c_Ports := [];
            c_Resources := Some res;
            c_VolumeMounts := [mount "data" "/var/lib/kvrocks"; mount "conf" "/var/lib/kvrocks/conf"];
            c_ReadinessProbe := Some probe;
            c_LivenessProbe := Some probe |}
  end.

Definition NewInstanceContainer (instance : KVRocks) : outcome Container :=
  omap_ok (set_c_Command_Ports ["sh"; "/var/lib/kvrocks/conf/start.sh"]
             [{| cp_Name := "kvrocks"; cp_ContainerPort := KVRocksPort |}])
    (newKVRocksContainer instance).

Definition NewExporterContainer (instance : KVRocks) : Container :=
  {| c_Name := "kvrocks-exporter";
     c_Image := "hulkdev/kvrocks-exporter:latest";
     c_ImagePullPolicy := EmptyString;
     c_Command := [];
     c_Args := ["--kvrocks.addr=http://localhost:" +:+ Itoa KVRocksPort;
                "--kvrocks.password=" +:+ sp_Password (kv_Spec instance)];
     c_Ports := [{| cp_Name := "exporter"; cp_ContainerPort := 9121 |}];
     c_Resources := None;
     c_VolumeMounts := [];
     c_ReadinessProbe := None;
     c_LivenessProbe := None |}.

(** *** statefulset.go *)

Definition TerminationGracePeriodSeconds : Z := 20.
Definition DefaultStorageSize : Quantity := "10Gi".

Definition getAffinity (instance : KVRocks) (labels : gmap string string) : Affinity :=
  let affinity := default {| af_NodeAffinity := None; af_PodAffinity := None; af_PodAntiAffinity := None |}
                    (sp_Affinity (kv_Spec instance)) in
  let anti := default {| paa_Required := []; paa_Preferred := [] |} (af_PodAntiAffinity affinity) in
  let weak := {| pat_Weight := 100; pat_TopologyKey := "kubernetes.io/hostname"; pat_MatchLabels := labels |} in
  {| af_NodeAffinity := af_NodeAffinity affinity;
     af_PodAffinity := af_PodAffinity affinity;
     af_PodAntiAffinity := Some {| paa_Required := paa_Required anti;
                                   paa_Preferred := paa_Preferred anti ++ [weak] |} |}.

Definition getPersistentClaim (instance : KVRocks) (labels : gmap string string) : PersistentVolumeClaim :=
  let storage := sp_Storage (kv_Spec instance) in
  {| pvc_Meta :=
       {| om_Name := "data"; om_Namespace := EmptyString; om_Labels := labels; om_Annotations := ∅;
          om_ResourceVersion := EmptyString; om_UID := EmptyString; om_DeletionTimestamp := None;
          om_Finalizers := []; om_OwnerReferences := [NewControllerRef instance] |};
     pvc_AccessModes := ["ReadWriteOnce"];
     pvc_Storage :=
       match storage with
       | Some st => if Quantity_IsZero (ks_Size st) then DefaultStorageSize else ks_Size st
       | None => DefaultStorageSize
       end;
     pvc_StorageClassName :=
       match storage with
       | Some st => if String.eqb (ks_Class st) EmptyString then None else Some (ks_Class st)
       | None => None
       end;
     pvc_VolumeMode := "Filesystem" |}.

Definition NewStatefulSet (instance : KVRocks) (name : string) : StatefulSet :=
  let labels := MergeLabels [kv_Labels instance; StatefulSetLabels name] in
  {| ss_Meta := owned_meta instance name labels;
     ss_Replicas := sp_Replicas (kv_Spec instance);
     ss_PodManagementPolicy := "Parallel";
     ss_MatchLabels := labels;
     ss_UpdateStrategy := ("InPlaceIfPossible", false, 10);
     ss_ReserveOrdinals := [];
     ss_Template :=
       {| pt_Labels := labels;
          pt_Affinity := Some (getAffinity instance labels);
          pt_NodeSelector := sp_NodeSelector (kv_Spec instance);
          pt_Tolerations := sp_Toleration (kv_Spec instance);
          pt_TerminationGracePeriodSeconds := Some TerminationGracePeriodSeconds;
          pt_ReadinessGates := ["InPlaceUpdateReady"];
          pt_Volumes := [{| v_Name := "conf"; v_Source := ConfigMapVolume (kv_Name instance) |}];
          pt_Containers := [] |};
     ss_VolumeClaimTemplates := [getPersistentClaim instance labels];
     ss_ReadyReplicas := 0 |}.

(** Appending the given containers to the template of a set. *)
Definition with_containers (s : StatefulSet) (cs : list Container) : StatefulSet :=
  set_ss_Containers (pt_Containers (ss_Template s) ++ cs) s.

Definition NewSentinelStatefulSet (instance : KVRocks) : outcome StatefulSet :=
  omap_ok (fun c => with_containers (NewStatefulSet instance (GetStatefulSetName (kv_Name instance) None)) [c])
    (NewSentinelContainer instance).

Definition NewReplicationStatefulSet (instance : KVRocks) : outcome StatefulSet :=
  omap_ok (fun c => with_containers (NewStatefulSet instance (GetStatefulSetName (kv_Name instance) None))
                      [c; NewExporterContainer instance])
    (NewInstanceContainer instance).

Definition NewClusterStatefulSet (instance : KVRocks) (index : Z) : outcome StatefulSet :=
  omap_ok (fun c => with_containers (NewStatefulSet instance (GetStatefulSetName (kv_Name instance) (Some index)))
                      [c; NewExporterContainer instance])
    (NewInstanceContainer instance).

(** A pod template with containers and volumes only. *)
Definition plain_template (labels : gmap string string) (vols : list Volume) (cs : list Container) : PodTemplateSpec :=
  {| pt_Labels := labels; pt_Affinity := None; pt_NodeSelector := ∅; pt_Tolerations := [];
     pt_TerminationGracePeriodSeconds := None; pt_ReadinessGates := [];
     pt_Volumes := vols; pt_Containers := cs |}.

(** A container given by name, image, arguments, ports and mounts only. *)
Definition plain_container (name image : string) (args : list string) (ports : list ContainerPort)
    (mounts : list VolumeMount) : Container :=
  {| c_Name := name; c_Image := image; c_ImagePullPolicy := EmptyString; c_Command := [];
     c_Args := args; c_Ports := ports; c_Resources := None; c_VolumeMounts := mounts;
     c_ReadinessProbe := None; c_LivenessProbe := None |}.

Definition NewEtcdStatefulSet (instance : KVRocks) : NativeStatefulSet :=
  let labels : gmap string string := {["app" := "etcd"]} in
  {| ns_Meta := owned_meta instance EtcdStatefulName ∅;
     ns_Replicas := 1;
     ns_MatchLabels := labels;
     ns_ServiceName := EtcdServiceName;
     ns_Template := plain_template labels []
       [plain_container "etcd" "quay.io/coreos/etcd:latest"
          ["/usr/local/bin/etcd"; "--name=etcd0";
           "--listen-peer-urls=http://0.0.0.0:" +:+ Itoa EtcdServerPort;
           "--listen-client-urls=http://0.0.0.0:" +:+ Itoa EtcdClientPort;
           "--advertise-client-urls=http://" +:+ EtcdServiceName +:+ ":" +:+ Itoa EtcdClientPort;
           "--initial-advertise-peer-urls=http://" +:+ EtcdServiceName +:+ ":" +:+ Itoa EtcdServerPort;
           "--initial-cluster=etcd0=http://" +:+ EtcdServiceName +:+ ":" +:+ Itoa EtcdServerPort;
           "--initial-cluster-state=new"]
          [{| cp_Name := EmptyString; cp_ContainerPort := EtcdServerPort |};
           {| cp_Name := EmptyString; cp_ContainerPort := EtcdClientPort |}] []];
     ns_ReadyReplicas := 0 |}.

(** *** deployment.go *)

Definition getSentinelDataVolume (instance : KVRocks) : Volume :=
  {| v_Name := "data"; v_Source := EmptyDirVolume |}.

Definition NewSentinelDeployment (instance : KVRocks) : outcome Deployment :=
  let name := GetDeploymentName (kv_Name instance) None in
  let labels := MergeLabels [kv_Labels instance; DeploymentLabels name] in
  omap_ok (fun c =>
    {| d_Meta := owned_meta instance name labels;
       d_Replicas := sp_Replicas (kv_Spec instance);
       d_MatchLabels := labels;
       d_Template :=
         {| pt_Labels := labels;
            pt_Affinity := Some (getAffinity instance labels);
            pt_NodeSelector := sp_NodeSelector (kv_Spec instance);
            pt_Tolerations := sp_Toleration (kv_Spec instance);
            pt_TerminationGracePeriodSeconds := Some TerminationGracePeriodSeconds;
            pt_ReadinessGates := [];
            pt_Volumes := [{| v_Name := "conf"; v_Source := ConfigMapVolume (kv_Name instance) |};
                           getSentinelDataVolume instance];
            pt_Containers := [c] |};
       d_ReadyReplicas := 0 |}) (NewSentinelContainer instance).

Definition NewKVRocksControllerDeployment (instance : KVRocks) : Deployment :=
  let labels : gmap string string := {["app" := "kvrocks-controller"]} in
  {| d_Meta := owned_meta instance ControllerDeploymentName ∅;
     d_Replicas := 1;
     d_MatchLabels := labels;
     d_Template := plain_template labels
       [{| v_Name := "config-volume"; v_Source := ConfigMapVolume "controller-config" |}]
       [plain_container "controller" "jinxu95/kvrocks-controller:latest" []
          [{| cp_Name := EmptyString; cp_ContainerPort := ControllerPort |}]
          [{| vm_Name := "config-volume"; vm_MountPath := "/var/lib/kvctl/config.yaml"; vm_SubPath := "config.yaml" |}]];
     d_ReadyReplicas := 0 |}.

(** *** service.go *)

Definition port (name : string) (p : Z) : ServicePort :=
  {| svp_Name := name; svp_Protocol := EmptyString; svp_Port := p; svp_TargetPort := None |}.

Definition NewSentinelService (instance : KVRocks) : Service :=
  {| sv_Meta := owned_meta instance (kv_Name instance) (kv_Labels instance);
     sv_Type := "ClusterIP";
     sv_Ports := [port "sentinel" SentinelPort];
     sv_Selector := kv_Labels instance;
     sv_ClusterIP := EmptyString |}.

Definition NewKVRocksService (instance : KVRocks) : Service :=
  {| sv_Meta := owned_meta instance (kv_Name instance) (kv_Labels instance);
     sv_Type := "ClusterIP";
     sv_Ports := [port "kvrocks" KVRocksPort];
     sv_Selector := MergeLabels [kv_Labels instance; {[KvrocksRole := RoleMaster]}];
     sv_ClusterIP := EmptyString |}.

Definition NewEtcdService (instance : KVRocks) : Service :=
  {| sv_Meta := owned_meta instance EtcdServiceName {["app" := "etcd"]};
     sv_Type := EmptyString;
     sv_Ports := [{| svp_Name := "client"; svp_Protocol := EmptyString; svp_Port := EtcdClientPort;
                     svp_TargetPort := Some EtcdClientPort |};
                  {| svp_Name := "server"; svp_Protocol := EmptyString; svp_Port := EtcdServerPort;
                     svp_TargetPort := Some EtcdServerPort |}];
     sv_Selector := {["app" := "etcd"]};
     sv_ClusterIP := EmptyString |}.

Definition NewKVRocksControllerService (instance : KVRocks) : Service :=
  {| sv_Meta := owned_meta instance ControllerServiceName {["app" := "kvrocks-controller"]};
     sv_Type := EmptyString;
     sv_Ports := [{| svp_Name := EmptyString; svp_Protocol := "TCP"; svp_Port := ControllerPort;
                     svp_TargetPort := Some ControllerPort |}];
     sv_Selector := {["app" := "kvrocks-controller"]};
     sv_ClusterIP := EmptyString |}.
End builders.

(** ** Lemmas on names and labels *)

Lemma MergeLabels_app ls l : MergeLabels (ls ++ [l]) = l ∪ MergeLabels ls.
Proof. unfold MergeLabels. by rewrite foldl_app. Qed.

Lemma MergeLabels_two a b : MergeLabels [a; b] = b ∪ a.
Proof. unfold MergeLabels. simpl. by rewrite (right_id_L ∅ (∪)). Qed.

(** The last map that has the key decides. *)
Lemma MergeLabels_lookup ls k : MergeLabels ls !! k = foldl (fun r l => (l : gmap string string) !! k ∪ r) None ls.
Proof.
  induction ls as [|l ls IH] using rev_ind; [apply lookup_empty|].
  rewrite MergeLabels_app, foldl_app, lookup_union, IH. done.
Qed.

Lemma GetPVCOrPodIndex_app s i :
  0 <= i <= MaxInt -> GetPVCOrPodIndex (s +:+ "-" +:+ Itoa i) = Ok i.
Proof.
  intros Hi. unfold GetPVCOrPodIndex.
  change ("-" +:+ Itoa i) with (String "-" (Itoa i)).
  rewrite LastIndex_app by (apply Itoa_lacks_dash; lia).
  replace (Z.to_nat (Z.of_nat (String.length s) + 1)) with (S (String.length s)) by lia.
  rewrite drop_chars_S_app, Atoi_Itoa; [done|]. unfold is_int, MinInt. lia.
Qed.

Lemma string_app_inv_head (s a b : string) : s +:+ a = s +:+ b -> a = b.
Proof. induction s as [|c s IH]; [done|]. intros E. injection E as E. by apply IH. Qed.

Lemma GetStatefulSetName_inj name i j :
  is_int i -> is_int j ->
  GetStatefulSetName name (Some i) = GetStatefulSetName name (Some j) -> i = j.
Proof.
  intros Hi Hj E. unfold GetStatefulSetName in E.
  apply string_app_inv_head, (string_app_inv_head "-") in E. by apply Itoa_inj.
Qed.

(** A label selector selects a pod when the pod has all its labels. *)
Definition selects (selector labels : gmap string string) : Prop := selector ⊆ labels.

#[export] Instance selects_dec selector labels : Decision (selects selector labels).
Proof. unfold selects. apply _. Defined.

(** The labels of a pod of a stateful set once its role has been written. *)
Definition pod_labels (s : StatefulSet) (role : string) : gmap string string :=
  <[KvrocksRole := role]> (pt_Labels (ss_Template s)).

(** An instance name built from a system id without dashes and any name is
    taken apart into the same two parts. *)
Lemma ParseRedisName_cluster (systemId name : string) :
  lacks "-" systemId = true ->
  ParseRedisName (GetClusterName systemId name) = (systemId, name).
Proof.
  intros Hs. unfold ParseRedisName, GetClusterName, SplitN.
  change ("kvrocks-cluster-" +:+ systemId +:+ "-" +:+ name)
    with ("kvrocks" +:+ String "-" ("cluster" +:+ String "-" (systemId +:+ String "-" name))).
  rewrite split_app by (done || lia).
  cbn [fmap option_fmap option_map pred].
  rewrite split_app by (done || lia). cbn [fmap option_fmap option_map pred].
  rewrite split_app by (done || lia). cbn [fmap option_fmap option_map pred].
  by rewrite split_one.
Qed.

(** ** Properties *)

(** The ordinal the handlers read from a pod or claim name is the ordinal
    the name was built with, whatever the rest of the name. *)
Theorem pod_index_roundtrip (name : string) (shard : option Z) (i : Z) :
  0 <= i <= MaxInt ->
  GetPVCOrPodIndex (GetStatefulSetName (GetStatefulSetName name shard) (Some i)) = Ok i /\
  GetPVCOrPodIndex ("data-" +:+ GetStatefulSetName (GetStatefulSetName name shard) (Some i)) = Ok i.
Proof.
  intros Hi. split; [by apply GetPVCOrPodIndex_app|].
  change (GetStatefulSetName (GetStatefulSetName name shard) (Some i))
    with (GetStatefulSetName name shard +:+ "-" +:+ Itoa i).
  change ("data-" +:+ GetStatefulSetName name shard +:+ "-" +:+ Itoa i)
    with (("data-" +:+ GetStatefulSetName name shard) +:+ "-" +:+ Itoa i).
  by apply GetPVCOrPodIndex_app.
Qed.

Lemma pod_index_roundtrip_witness :
  (0 <= 12 <= MaxInt) /\
  GetStatefulSetName (GetStatefulSetName "kv" (Some 2)) (Some 12) = "kv-2-12" /\
  GetPVCOrPodIndex "kv-2-12" = Ok 12 /\ GetPVCOrPodIndex "data-kv-2-12" = Ok 12.
Proof.
  assert (H : 0 <= 12 <= MaxInt) by (unfold MaxInt; lia).
  split; [exact H|]. split; [vm_compute; reflexivity|].
  exact (pod_index_roundtrip "kv" (Some 2) 12 H).
Defined.

(** The numbers of masters and sentinels [ValidateKVRocks] accepts. *)
Definition counts_ok (spec : KVRocksSpec) : Prop :=
  (sp_Type spec = SentinelType -> 3 <= sp_Replicas spec /\ Z.Odd (sp_Replicas spec)) /\
  (sp_Type spec = StandardType -> sp_Master spec = 1) /\
  (sp_Type spec = ClusterType -> 3 <= sp_Master spec).

Lemma rem2_odd r : 0 <= r -> (Z.rem r 2 =? 0) = negb (Z.odd r).
Proof.
  intros H. rewrite Z.rem_mod_nonneg by lia. rewrite Zmod_odd. by destruct (Z.odd r).
Qed.

(** The [switch] of [ValidateKVRocks]. *)
Lemma validate_counts (instance : KVRocks) r :
  sp_Password (kv_Spec instance) <> EmptyString -> sp_Resources (kv_Spec instance) = Some r ->
  (ValidateKVRocks instance = None /\ counts_ok (kv_Spec instance)) \/
  (ValidateKVRocks instance = Some ErrorReplicasUnreasonable /\ ~ counts_ok (kv_Spec instance)).
Proof.
  intros Hpw Hr. unfold ValidateKVRocks, counts_ok. set (spec := kv_Spec instance) in *.
  destruct (String.eqb_spec (sp_Password spec) EmptyString) as [E|E]; [done|]. rewrite Hr.
  destruct (String.eqb_spec (sp_Type spec) SentinelType) as [->|E1].
  { destruct (Z.ltb_spec (sp_Replicas spec) 2) as [Hlt|Hge]; simpl.
    - right. split; [done|]. intros [Hs _]. destruct (Hs eq_refl). lia.
    - rewrite rem2_odd by lia. rewrite <- Z.odd_spec.
      destruct (Z.odd (sp_Replicas spec)) eqn:Eo; simpl.
      + assert (sp_Replicas spec <> 2) by (by intros E2; rewrite E2 in Eo).
        left. split; [done|]. repeat split; try done; lia.
      + right. split; [done|]. intros [Hs _]. by destruct (Hs eq_refl). }
  destruct (String.eqb_spec (sp_Type spec) StandardType) as [->|E2].
  { destruct (Z.eqb_spec (sp_Master spec) 1); simpl; naive_solver. }
  destruct (String.eqb_spec (sp_Type spec) ClusterType) as [->|E3].
  { destruct (Z.ltb_spec (sp_Master spec) 3); simpl; [|naive_solver].
    right. split; [done|]. intros (_ & _ & Hc). specialize (Hc eq_refl). lia. }
  naive_solver.
Qed.


Section selectors.
Context `{GoLib}.

Lemma statefulset_labels instance name :
  ss_MatchLabels (NewStatefulSet instance name) = StatefulSetLabels name ∪ kv_Labels instance /\
  pt_Labels (ss_Template (NewStatefulSet instance name)) = StatefulSetLabels name ∪ kv_Labels instance.
Proof. by rewrite <- MergeLabels_two. Qed.

Definition sts_key : string := "kvrocks/statefulset".

(** C35: the client service of an instance selects a pod of the instance's
    stateful sets exactly when the pod carries the master role, and the
    stateful sets of two shards never select each other's pods. *)
Theorem pod_selection (instance : KVRocks) (role : string) (i j : Z) :
  kv_Labels instance !! sts_key = None -> is_int i -> is_int j ->
  let set k := NewStatefulSet instance (GetStatefulSetName (kv_Name instance) (Some k)) in
  (selects (sv_Selector (NewKVRocksService instance)) (pod_labels (set i) role) <-> role = RoleMaster) /\
  (selects (ss_MatchLabels (set i)) (pod_labels (set j) role) <->
     i = j /\ (kv_Labels instance !! KvrocksRole = None \/ kv_Labels instance !! KvrocksRole = Some role)).
Proof.
  intros Hk Hi Hj set. subst set. unfold pod_labels, selects.
  rewrite !(proj1 (statefulset_labels _ _)), !(proj2 (statefulset_labels _ _)).
  cbn [sv_Selector NewKVRocksService]. rewrite MergeLabels_two.
  split; [split|split].
  - intros Hsub. eapply (lookup_weaken _ _ KvrocksRole RoleMaster) in Hsub; [|by simplify_map_eq].
    rewrite lookup_insert_eq in Hsub. congruence.
  - intros ->. apply map_subseteq_spec. intros k v. rewrite lookup_union_Some_raw.
    intros [Hm|[Hm Hl]]; [apply lookup_singleton_Some in Hm as [<- <-]; by rewrite lookup_insert_eq|].
    apply lookup_singleton_None in Hm. rewrite lookup_insert_ne by done.
    apply lookup_union_Some_raw. right. split; [|done]. apply lookup_singleton_None.
    intros E. rewrite <- E in Hl. unfold sts_key in Hk. congruence.
  - intros Hsub. split.
    + eapply (lookup_weaken _ _ sts_key) in Hsub; [|by apply lookup_union_Some_l, lookup_singleton_eq].
      rewrite lookup_insert_ne in Hsub by done.
      rewrite (lookup_union_Some_l _ _ _ (GetStatefulSetName (kv_Name instance) (Some j))) in Hsub
        by apply lookup_singleton_eq.
      injection Hsub as E. symmetry. by apply GetStatefulSetName_inj in E.
    + destruct (kv_Labels instance !! KvrocksRole) as [v|] eqn:Ev; [right|by left].
      eapply (lookup_weaken _ _ KvrocksRole v) in Hsub; [by rewrite lookup_insert_eq in Hsub|].
      apply lookup_union_Some_raw. right. split; [by apply lookup_singleton_ne|done].
  - intros [<- Hrole]. apply map_subseteq_spec. intros k v Hkv.
    destruct (decide (k = KvrocksRole)) as [->|Hne].
    + rewrite lookup_insert_eq. apply lookup_union_Some_raw in Hkv as [Hm|[_ Hl]].
      * unfold StatefulSetLabels in Hm. by apply lookup_singleton_Some in Hm as [? _].
      * destruct Hrole as [Hr|Hr]; rewrite Hr in Hl; congruence.
    + by rewrite lookup_insert_ne.
Qed.
End selectors.

(** A concrete library and instance, for witnesses. *)
Definition sampleLib : GoLib := {|
  NewControllerRef := fun k =>
    {| ow_APIVersion := kv_APIVersion k; ow_Kind := kv_Kind k; ow_Name := kv_Name k;
       ow_UID := om_UID (kv_Meta k); ow_Controller := true; ow_BlockOwnerDeletion := true |};
  Quantity_IsZero := fun q => String.eqb q "0";
  range_map := fun A m => map_to_list m;
  range_map_perm := fun A m => Permutation_refl _;
  ContainsFinalizer := fun k f => bool_decide (f ∈ om_Finalizers (kv_Meta k));
  AddFinalizer := fun k f => set_kv_Meta (fun m => set_om_Finalizers (om_Finalizers m ++ [f]) m) k;
  RemoveFinalizer := fun k f => set_kv_Meta (fun m => set_om_Finalizers (filter (fun x => x <> f) (om_Finalizers m)) m) k;
  ContainsFinalizer_spec := fun k f => eq_refl;
  AddFinalizer_spec := fun k f _ => eq_refl;
  RemoveFinalizer_spec := fun k f => eq_refl;
|}.

Definition sample_spec (ty : string) (replicas master : Z) : KVRocksSpec :=
  {| sp_Image := "kvrocks:2.5"; sp_ImagePullPolicy := "Always"; sp_Type := ty;
     sp_KVRocksConfig := {["maxclients" := "1000"]}; sp_Replicas := replicas; sp_Master := master;
     sp_Password := "secret"; sp_Resources := Some "limits"; sp_NodeSelector := ∅;
     sp_Toleration := []; sp_Affinity := None; sp_Storage := None |}.

Definition sample_instance (ty name : string) (replicas master : Z) : KVRocks :=
  {| kv_APIVersion := "kvrocks.apache.org/v1alpha1"; kv_Kind := "KVRocks";
     kv_Meta := empty_meta name "default"; kv_Spec := sample_spec ty replicas master;
     kv_Status := zero_status |}.

Lemma pod_selection_witness :
  let instance := sample_instance ClusterType "kvrocks-cluster-1-demo" 2 3 in
  let set k := @NewStatefulSet sampleLib instance (GetStatefulSetName (kv_Name instance) (Some k)) in
  selects (sv_Selector (@NewKVRocksService sampleLib instance)) (pod_labels (set 0) RoleMaster) /\
  ~ selects (ss_MatchLabels (set 0)) (pod_labels (set 1) RoleMaster).
Proof.
  assert (H0 : is_int 0) by (unfold is_int, MinInt, MaxInt; lia).
  assert (H1 : is_int 1) by (unfold is_int, MinInt, MaxInt; lia).
  assert (Hk : kv_Labels (sample_instance ClusterType "kvrocks-cluster-1-demo" 2 3) !! sts_key = None)
    by (vm_compute; reflexivity).
  intros instance set.
  destruct (@pod_selection sampleLib instance RoleMaster 0 1 Hk H0 H1) as [Hs Hd].
  split; [exact (proj2 Hs eq_refl)|].
  intros Hsel. destruct (proj1 Hd Hsel) as [E _]. discriminate.
Defined.
