(* ===== verification/ResourcesProps.v ===== *)
(** * Properties of the objects the operator builds

    The type of a well-formed workload, that every builder of pkg/resources
    returns one, that the files its containers run exist in the configuration
    map it mounts, and the form of generated node ids. *)

From S2P Require Import Prelude GoStd Types Resources.
From Stdlib Require Import Ascii.
Local Open Scope Z_scope.

(** ** Well-formed workloads *)

(** What the builders of stateful sets and deployments have in common. *)
Record Workload := {
  wl_Meta : ObjectMeta;
  wl_MatchLabels : gmap string string;
  wl_Template : PodTemplateSpec;
  wl_Claims : list PersistentVolumeClaim;
}.

Definition of_set (s : StatefulSet) : Workload :=
  {| wl_Meta := ss_Meta s; wl_MatchLabels := ss_MatchLabels s; wl_Template := ss_Template s; wl_Claims := ss_VolumeClaimTemplates s |}.
Definition of_native (s : NativeStatefulSet) : Workload :=
  {| wl_Meta := ns_Meta s; wl_MatchLabels := ns_MatchLabels s; wl_Template := ns_Template s; wl_Claims := [] |}.
Definition of_deployment (d : Deployment) : Workload :=
  {| wl_Meta := d_Meta d; wl_MatchLabels := d_MatchLabels d; wl_Template := d_Template d; wl_Claims := [] |}.

(** The volumes a container can mount: those of the template and one per
    claim template. *)
Definition volume_names (w : Workload) : list string :=
  (v_Name <$> pt_Volumes (wl_Template w)) ++ ((fun c => om_Name (pvc_Meta c)) <$> wl_Claims w).
Definition container_ports (w : Workload) : list Z :=
  pt_Containers (wl_Template w) ≫= fun c => cp_ContainerPort <$> c_Ports c.

Section wellformed.
Context `{GoLib}.

Record workload_wf (instance : KVRocks) (w : Workload) : Prop := {
  ww_owned : om_OwnerReferences (wl_Meta w) = [NewControllerRef instance];
  ww_namespace : om_Namespace (wl_Meta w) = kv_Namespace instance;
  ww_selector : selects (wl_MatchLabels w) (pt_Labels (wl_Template w));
  ww_selects : wl_MatchLabels w <> ∅;
  ww_running : pt_Containers (wl_Template w) <> [];
  ww_names : NoDup (c_Name <$> pt_Containers (wl_Template w));
  ww_ports : NoDup (container_ports w);
  ww_volumes : NoDup (volume_names w);
  ww_mounts : Forall (fun c => Forall (fun m => vm_Name m ∈ volume_names w) (c_VolumeMounts c)) (pt_Containers (wl_Template w));
}.

Lemma labels_nonempty (m : gmap string string) k v : m !! k = Some v -> m <> ∅.
Proof. intros Hk ->. by rewrite lookup_empty in Hk. Qed.

Lemma merged_nonempty a k v : MergeLabels [a; {[k := v]}] <> ∅.
Proof. rewrite MergeLabels_two. apply (labels_nonempty _ k v). by apply lookup_union_Some_l, lookup_singleton_eq. Qed.

(** What the claims say of names, ports and volumes does not depend on the
    instance and is decided by computation. *)
Ltac decided := apply (bool_decide_unpack _); vm_compute; exact I.
Ltac wf :=
  split; [done|done|done| |discriminate|decided|decided|decided|decided];
  first [apply merged_nonempty | by apply (labels_nonempty _ "app" _ (lookup_singleton_eq _ _))].

(** C21: an instance that passes the validation gets well-formed workloads from
    every builder, whatever its labels and specification: each is owned by
    the instance and in its namespace, selects its own pods by a selector
    that is not empty, runs containers with different names and ports, and
    every volume a container mounts is a volume or a claim of the pod. *)
Theorem built_workloads_wf instance :
  ValidateKVRocks instance = None ->
  (exists s, NewReplicationStatefulSet instance = Ok s /\ workload_wf instance (of_set s)) /\
  (forall i, exists s, NewClusterStatefulSet instance i = Ok s /\ workload_wf instance (of_set s)) /\
  (exists s, NewSentinelStatefulSet instance = Ok s /\ workload_wf instance (of_set s)) /\
  (exists d, NewSentinelDeployment instance = Ok d /\ workload_wf instance (of_deployment d)) /\
  workload_wf instance (of_native (NewEtcdStatefulSet instance)) /\
  workload_wf instance (of_deployment (NewKVRocksControllerDeployment instance)).
Proof.
  intros Hv. assert (Hr : exists r, sp_Resources (kv_Spec instance) = Some r).
  { unfold ValidateKVRocks in Hv. destruct (String.eqb _ _); [done|]. destruct (sp_Resources _); [eauto|done]. }
  destruct Hr as [r Hr].
  unfold NewReplicationStatefulSet, NewClusterStatefulSet, NewSentinelStatefulSet, NewSentinelDeployment,
    NewInstanceContainer, NewSentinelContainer, newKVRocksContainer, newSentinelContainer. rewrite Hr. cbn [omap_ok].
  split; [|split; [intros i|split; [|split; [|split]]]].
  1-4: eexists; split; [reflexivity|].
  all: wf.
Qed.
End wellformed.

Lemma built_workloads_wf_witness :
  exists s, @NewClusterStatefulSet sampleLib (sample_instance ClusterType "kvrocks-cluster-1-demo" 2 3) 1 = Ok s /\
            "data" ∈ volume_names (of_set s).
Proof.
  destruct (proj1 (proj2 (@built_workloads_wf sampleLib (sample_instance ClusterType "kvrocks-cluster-1-demo" 2 3)
    ltac:(vm_compute; reflexivity))) 1) as (s & Hs & Hwf).
  exists s. split; [exact Hs|]. destruct Hwf as [_ _ _ _ _ _ _ _ Hm]. injection Hs as <-.
  apply Forall_cons in Hm as [Hm _]. by apply Forall_cons in Hm as [Hm _].
Defined.

(** ** Node ids *)

(** How often a character occurs. *)
Fixpoint occurrences (c : ascii) (s : string) : nat :=
  match s with
  | EmptyString => 0
  | String c' s' => (if Ascii.eqb c' c then 1 else 0) + occurrences c s'
  end.

Lemma occurrences_lacks c s : occurrences c s = 0%nat <-> lacks c s = true.
Proof.
  induction s as [|c' s IH]; [done|]. rewrite lacks_cons. cbn [occurrences].
  destruct (Ascii.eqb_spec c' c); [split; [lia|naive_solver]|]. rewrite Nat.add_0_l, IH. naive_solver.
Qed.

Lemma occurrences_app c s t : occurrences c (s +:+ t) = (occurrences c s + occurrences c t)%nat.
Proof.
  induction s as [|d s IH]; [done|]. change (String d s +:+ t) with (String d (s +:+ t)). cbn [occurrences]. rewrite IH. lia.
Qed.

Lemma length_concat (s t : string) : String.length (s +:+ t) = (String.length s + String.length t)%nat.
Proof. induction s as [|d s IH]; [done|]. cbn. by rewrite <- IH. Qed.

Lemma replace_first_count s new :
  occurrences "-" new = 0%nat -> (0 < occurrences "-" s)%nat ->
  occurrences "-" (ReplaceFirst s "-" new) = pred (occurrences "-" s) /\
  (String.length (ReplaceFirst s "-" new) + 1 = String.length s + String.length new)%nat.
Proof.
  intros Hn. induction s as [|c s IH]; cbn [occurrences ReplaceFirst]; [lia|].
  destruct (Ascii.eqb c "-") eqn:E; cbn [occurrences String.length].
  - intros _. rewrite occurrences_app, length_concat. lia.
  - rewrite E. intros Hs. destruct (IH Hs) as [Ho Hl]. lia.
Qed.

Lemma id_chars_no_dash : Forall (fun c => occurrences "-" (String c EmptyString) = 0%nat) id_chars.
Proof. repeat constructor. Qed.

Lemma replace_dash_spec u draw :
  (draw.1 < 36)%nat -> (draw.2 < 36)%nat -> (0 < occurrences "-" u)%nat ->
  exists u', replace_dash u draw = Ok u' /\ occurrences "-" u' = pred (occurrences "-" u) /\
             String.length u' = S (String.length u).
Proof.
  intros H1 H2 Hu. destruct (lookup_lt_is_Some_2 id_chars draw.1 H1) as [a Ha], (lookup_lt_is_Some_2 id_chars draw.2 H2) as [b Hb].
  unfold replace_dash. rewrite Ha, Hb. pose proof id_chars_no_dash as Hall. rewrite Forall_lookup in Hall.
  specialize (Hall _ _ Ha) as Hda. specialize (Hall _ _ Hb) as Hdb. cbn [occurrences] in Hda, Hdb.
  destruct (replace_first_count u (String a (String b EmptyString))) as [Ho Hl]; [cbn [occurrences]; lia|done|].
  cbn [String.length] in Hl. eexists. split; [reflexivity|]. lia.
Qed.

(** A node id made from a UUID (36 characters, four of them dashes) has the
    40 characters kvrocks requires and no dash left, whatever characters are
    drawn. *)
Theorem node_id_form uid Intn :
  String.length uid = 36%nat -> occurrences "-" uid = 4%nat -> (forall k, (Intn k < 36)%nat) ->
  exists id, SetClusterNodeId uid Intn = Ok id /\ String.length id = 40%nat /\ lacks "-" id = true.
Proof.
  intros Hlen Hd Hr. assert (Hround : forall u k, (0 < occurrences "-" u)%nat ->
    exists u', replace_dash u (Intn (2 * k), Intn (2 * k + 1))%nat = Ok u' /\
      occurrences "-" u' = pred (occurrences "-" u) /\ String.length u' = S (String.length u)).
  { intros u k. apply replace_dash_spec; apply Hr. }
  unfold SetClusterNodeId. cbn [seq foldl].
  destruct (Hround uid 0%nat) as (u1 & -> & O1 & L1); [lia|]. destruct (Hround u1 1%nat) as (u2 & -> & O2 & L2); [lia|].
  destruct (Hround u2 2%nat) as (u3 & -> & O3 & L3); [lia|]. destruct (Hround u3 3%nat) as (u4 & -> & O4 & L4); [lia|].
  exists u4. split; [done|]. split; [lia|]. apply occurrences_lacks. lia.
Qed.

Lemma node_id_form_witness :
  exists id, SetClusterNodeId "123e4567-e89b-12d3-a456-426614174000" (fun k => k mod 36)%nat = Ok id /\ lacks "-" id = true.
Proof.
  destruct (node_id_form "123e4567-e89b-12d3-a456-426614174000" (fun k => k mod 36)%nat) as (id & Hid & _ & Hl);
    [reflexivity|reflexivity|intros k; apply Nat.mod_upper_bound; discriminate|].
  exists id. split; [exact Hid|exact Hl].
Defined.
