(* ===== verification/Scale.v ===== *)
(** * Scaling a stateful set up and down

    The ordinals a scale-down removes are chosen by the same loops in
    [cluster/kubernetes.go] ([getReserveIndex]), [standard/kubernetes.go]
    ([resizeStatefulSet]) and [common/kubernetes.go] ([ResizeStatefulSet]);
    a scale-up releases reserved ordinals.  Which pods then run is decided by
    OpenKruise, whose documented reading of [replicas] and [reserveOrdinals] is
    the interface [Kruise] below. *)

From S2P Require Import Prelude GoStd Types.
Local Open Scope Z_scope.

(** ** Choosing the pods to remove *)

(** The first loop, over the nodes from the last to the first: the pod
    indices of the non-master nodes met until [delta] are found, and the index
    of the last master met (initially 0).  A nil node panics. *)
Fixpoint reserve_scan (rnodes : list (option Node)) (delta : Z) (reserve : list Z) (masterID : Z) : outcome (list Z * Z) :=
  match rnodes with
  | [] => Ok (reserve, masterID)
  | n :: rest =>
      let step :=
        if 0 <? delta then
          match n with
          | None => Panic
          | Some node =>
              if negb (String.eqb (n_Role node) RoleMaster)
              then Ok (delta - 1, reserve ++ [n_PodIndex node], masterID)
              else Ok (delta, reserve, n_PodIndex node)
          end
        else Ok (delta, reserve, masterID) in
      match step with
      | Ok (delta', reserve', masterID') =>
          if delta' =? 0 then Ok (reserve', masterID')
          else reserve_scan rest delta' reserve' masterID'
      | Err e => Err e
      | Panic => Panic
      | Hangs => Hangs
      end
  end.

(** [nodes[id] = nil] *)
Definition set_nil (nodes : list (option Node)) (id : Z) : outcome (list (option Node)) :=
  if (0 <=? id) && (id <? Z.of_nat (length nodes))
  then Ok (<[Z.to_nat id := None]> nodes) else Panic.

(** The second loop, over the chosen indices in the order given: clears the
    node at that position and keeps the indices that are not above the master. *)
Fixpoint clear_reserved (ids : list Z) (masterID : Z) (nodes : list (option Node)) (result : list Z)
    : outcome (list (option Node) * list Z) :=
  match ids with
  | [] => Ok (nodes, result)
  | id :: rest =>
      match set_nil nodes id with
      | Ok nodes' =>
          if masterID <? id then clear_reserved rest masterID nodes' result
          else clear_reserved rest masterID nodes' (result ++ [id])
      | Err e => Err e
      | Panic => Panic
      | Hangs => Hangs
      end
  end.

(** The second loop of the standard handler, which stops at the first index
    above the master and clears nothing. *)
Fixpoint take_reserved (ids : list Z) (masterID : Z) : list Z :=
  match ids with
  | [] => []
  | id :: rest => if masterID <? id then [] else id :: take_reserved rest masterID
  end.

(** [getReserveIndex]: the ordinals to reserve (nil when nothing is to be
    removed) and the nodes with the removed positions cleared. *)
Definition getReserveIndex (replicas : Z) (nodes : list (option Node)) : outcome (slice Z * list (option Node)) :=
  let delta := Z.of_nat (length nodes) - replicas in
  if 0 <? delta then
    match reserve_scan (reverse nodes) delta [] 0 with
    | Ok (reserve, masterID) =>
        match clear_reserved (reverse reserve) masterID nodes [] with
        | Ok (nodes', result) => Ok (Some result, nodes')
        | Err e => Err e
        | Panic => Panic
        | Hangs => Hangs
        end
    | Err e => Err e
    | Panic => Panic
    | Hangs => Hangs
    end
  else Ok (None, nodes).

(** The loop of a scale-up: [for delta > 0 && len(reserve) > 0]. *)
Fixpoint release_reserved (delta : Z) (reserve : list Z) : list Z :=
  match reserve with
  | [] => []
  | _ :: rest => if 0 <? delta then release_reserved (delta - 1) rest else reserve
  end.

(** ** What OpenKruise runs *)

(** [ordinals reserve n]: the ordinals of the pods of a stateful set with [n]
    replicas and the reserved ordinals [reserve]: the [n] smallest ordinals
    that are not reserved. *)
Class Kruise := {
  ordinals : list Z -> nat -> list Z;
  ordinals_length : forall r n, length (ordinals r n) = n;
  ordinals_sorted : forall r n, StronglySorted Z.lt (ordinals r n);
  ordinals_nonneg : forall r n x, x ∈ ordinals r n -> 0 <= x;
  ordinals_free : forall r n x, x ∈ ordinals r n -> x ∉ r;
  ordinals_dense : forall r n x y, x ∈ ordinals r n -> 0 <= y < x -> y ∉ r -> y ∈ ordinals r n;
}.

Section kruise.
Context `{Kruise}.

Lemma sorted_lt_nodup (l : list Z) : StronglySorted Z.lt l -> NoDup l.
Proof.
  induction 1 as [|x l Hs IH Hlt]; constructor; [|done].
  rewrite Forall_forall in Hlt. intros Hx. specialize (Hlt x Hx). lia.
Qed.

Lemma sorted_lt_perm_eq (l k : list Z) :
  StronglySorted Z.lt l -> StronglySorted Z.lt k -> l ≡ₚ k -> l = k.
Proof. apply (StronglySorted_unique_strong Z.lt). intros; lia. Qed.

(** The interface determines the ordinals: any list with its properties is
    the list of ordinals. *)
Lemma ordinals_unique (l r : list Z) :
  StronglySorted Z.lt l -> Forall (Z.le 0) l -> (forall x, x ∈ l -> x ∉ r) ->
  (forall x y, x ∈ l -> 0 <= y < x -> y ∉ r -> y ∈ l) ->
  l = ordinals r (length l).
Proof.
  intros Hs Hnn Hfree Hdense. rewrite Forall_forall in Hnn.
  set (k := ordinals r (length l)).
  assert (Hk : StronglySorted Z.lt k) by apply ordinals_sorted.
  assert (Hcmp : l ⊆ k \/ k ⊆ l).
  { destruct (decide (Forall (fun x => x ∈ k) l)) as [Hall|Hex]; [left; by rewrite Forall_forall in Hall|].
    apply not_Forall_Exists in Hex; [|apply _]. apply Exists_exists in Hex as (a & Ha & Hak).
    right. intros b Hb. destruct (decide (b ∈ l)) as [|Hbl]; [done|]. exfalso.
    assert (a <> b) by (by intros ->).
    destruct (decide (a < b)).
    - apply Hak. eapply ordinals_dense; [exact Hb|split; [by apply Hnn|lia]|by apply Hfree].
    - apply Hbl. eapply Hdense; [exact Ha| |by eapply ordinals_free].
      split; [by eapply ordinals_nonneg|lia]. }
  assert (Hlen : length k = length l) by apply ordinals_length.
  apply sorted_lt_perm_eq; [done|done|].
  destruct Hcmp as [Hsub|Hsub].
  - apply submseteq_length_Permutation; [|lia].
    apply NoDup_submseteq; [by apply sorted_lt_nodup|done].
  - symmetry. apply submseteq_length_Permutation; [|lia].
    apply NoDup_submseteq; [by apply sorted_lt_nodup|done].
Qed.
End kruise.

(** ** The two loops on nodes that are all present *)

Definition nonmaster (n : Node) : Prop := n_Role n <> RoleMaster.

#[export] Instance nonmaster_dec n : Decision (nonmaster n).
Proof. unfold nonmaster. apply _. Defined.

Definition master (n : Node) : Prop := n_Role n = RoleMaster.

#[export] Instance master_dec n : Decision (master n).
Proof. unfold master. apply _. Defined.

(** The scan stops right after the prefix that holds [delta] non-masters. *)
Lemma reserve_scan_spec (rn : list Node) (delta : Z) (acc : list Z) (mid : Z) :
  0 < delta -> (Z.to_nat delta <= length (filter nonmaster rn))%nat ->
  exists pre suf, rn = pre ++ suf /\ Z.of_nat (length (filter nonmaster pre)) = delta /\
    reserve_scan (Some <$> rn) delta acc mid =
      Ok (acc ++ (n_PodIndex <$> filter nonmaster pre),
          default mid (last (n_PodIndex <$> filter master pre))).
Proof.
  revert delta acc mid. induction rn as [|n rn IH]; intros delta acc mid Hd Hlen; [simpl in Hlen; lia|].
  cbn [fmap list_fmap reserve_scan]. replace (0 <? delta) with true by lia.
  destruct (String.eqb_spec (n_Role n) RoleMaster) as [Hm|Hm]; simpl negb; cbn iota.
  - rewrite filter_cons_False in Hlen by (intros HH; by apply HH).
    replace (delta =? 0) with false by lia.
    destruct (IH delta acc (n_PodIndex n)) as (pre & suf & -> & Hpre & Hscan); [done|done|].
    exists (n :: pre), suf. split; [done|].
    rewrite filter_cons_False by (intros HH; by apply HH). split; [done|].
    rewrite Hscan. rewrite (filter_cons_True master) by done. cbn [fmap list_fmap].
    by rewrite last_cons; destruct (last (n_PodIndex <$> filter master pre)).
  - rewrite filter_cons_True in Hlen by done. cbn [length] in Hlen.
    destruct (delta - 1 =? 0) eqn:E.
    + exists [n], rn. split; [done|]. rewrite filter_cons_True by done.
      rewrite filter_cons_False by done. simpl. split; [lia|done].
    + destruct (IH (delta - 1) (acc ++ [n_PodIndex n]) mid) as (pre & suf & -> & Hpre & Hscan); [lia|lia|].
      exists (n :: pre), suf. split; [done|].
      rewrite filter_cons_True by done. cbn [length]. split; [lia|].
      rewrite Hscan, (filter_cons_False master) by done. by rewrite <- app_assoc.
Qed.

Lemma clear_reserved_spec ids mid nodes acc :
  Forall (fun id => 0 <= id < Z.of_nat (length nodes)) ids ->
  clear_reserved ids mid nodes acc =
    Ok (foldl (fun ns id => <[Z.to_nat id := None]> ns) nodes ids, acc ++ filter (fun id => id <= mid) ids).
Proof.
  revert nodes acc. induction ids as [|id ids IH]; intros nodes acc Hids; [by rewrite app_nil_r|].
  apply Forall_cons in Hids as [Hid Hids]. cbn [clear_reserved]. unfold set_nil.
  replace ((0 <=? id) && (id <? Z.of_nat (length nodes))) with true by lia.
  assert (Hids' : Forall (fun i => 0 <= i < Z.of_nat (length (<[Z.to_nat id := None]> nodes))) ids)
    by (by rewrite length_insert).
  destruct (Z.ltb_spec mid id).
  - rewrite IH by done. by rewrite filter_cons_False by lia.
  - rewrite IH by done. rewrite filter_cons_True by lia. by rewrite <- app_assoc.
Qed.

Lemma clear_reserved_result ids mid nodes acc nodes' result :
  clear_reserved ids mid nodes acc = Ok (nodes', result) ->
  result = acc ++ filter (fun id => id <= mid) ids.
Proof.
  revert nodes acc. induction ids as [|id ids IH]; intros nodes acc; cbn [clear_reserved].
  - intros [= _ <-]. by rewrite app_nil_r.
  - destruct (set_nil nodes id) as [ns| | |]; try done. destruct (Z.ltb_spec mid id); intros E.
    + rewrite filter_cons_False by lia. by eapply IH.
    + rewrite filter_cons_True by lia. rewrite (IH _ _ E). by rewrite <- app_assoc.
Qed.

Lemma clear_reserved_panics ids mid nodes acc id :
  id ∈ ids -> ~ (0 <= id < Z.of_nat (length nodes)) -> clear_reserved ids mid nodes acc = Panic.
Proof.
  revert nodes acc. induction ids as [|i ids IH]; intros nodes acc Hin Hid; [by apply elem_of_nil in Hin|].
  cbn [clear_reserved]. unfold set_nil.
  destruct ((0 <=? i) && (i <? Z.of_nat (length nodes))) eqn:E; [|done].
  apply elem_of_cons in Hin as [->|Hin]; [lia|].
  destruct (mid <? i); (apply IH; [done|]; by rewrite length_insert).
Qed.

(** On ascending indices, stopping at the first one above the master and
    skipping every one above it are the same. *)
Lemma take_reserved_filter ids mid :
  StronglySorted Z.lt ids -> take_reserved ids mid = filter (fun id => id <= mid) ids.
Proof.
  induction 1 as [|id ids Hs IH Hlt]; [done|]. cbn [take_reserved].
  destruct (Z.ltb_spec mid id).
  - rewrite filter_cons_False by lia. symmetry. apply list_filter_none.
    rewrite Forall_forall in Hlt. intros x Hx. specialize (Hlt x Hx). lia.
  - rewrite filter_cons_True by lia. by rewrite IH.
Qed.

(** ** Which pods survive *)

(** Nodes in the order of their pods, with one master: what the handlers have
    when they scale down. *)
Record shard_ok (nodes : list Node) (m : Node) : Prop := {
  so_sorted : StronglySorted Z.lt (n_PodIndex <$> nodes);
  so_nonneg : Forall (Z.le 0) (n_PodIndex <$> nodes);
  so_master : filter master nodes = [m];
}.

Lemma filter_master_length (l : list Node) :
  length l = (length (filter master l) + length (filter nonmaster l))%nat.
Proof.
  induction l as [|n l IH]; [done|]. cbn [length]. destruct (decide (master n)).
  - rewrite (filter_cons_True master), (filter_cons_False nonmaster) by (done || (intros HH; by apply HH)).
    cbn [length]. lia.
  - rewrite (filter_cons_False master), (filter_cons_True nonmaster) by done. cbn [length]. lia.
Qed.

(** The removed pods are the non-masters of a final segment [top]; among them
    the ones kept in the result are those below the master. *)
Lemma choose_spec (nodes : list Node) (m : Node) (delta : Z) :
  shard_ok nodes m -> 0 < delta < Z.of_nat (length nodes) ->
  exists low top mid, nodes = low ++ top /\
    Z.of_nat (length (filter nonmaster top)) = delta /\
    reserve_scan (reverse (Some <$> nodes)) delta [] 0 =
      Ok (reverse (n_PodIndex <$> filter nonmaster top), mid) /\
    forall id, id ∈ n_PodIndex <$> filter nonmaster top -> (id <= mid <-> id < n_PodIndex m).
Proof.
  intros [Hsort Hnn Hm] Hd.
  destruct (reserve_scan_spec (reverse nodes) delta [] 0) as (pre & suf & Hrev & Hlen & Hscan); [lia| |].
  { rewrite filter_reverse, length_reverse.
    pose proof (filter_master_length nodes) as Hl. rewrite Hm in Hl. simpl in Hl. lia. }
  assert (Hnodes : nodes = reverse suf ++ reverse pre).
  { by rewrite <- reverse_app, <- Hrev, reverse_involutive. }
  exists (reverse suf), (reverse pre), (default 0 (last (n_PodIndex <$> filter master pre))).
  split; [done|]. rewrite filter_reverse, length_reverse. split; [done|].
  rewrite <- !fmap_reverse, Hscan, reverse_involutive. split; [done|].
  intros id Hid. rewrite fmap_reverse, elem_of_reverse in Hid.
  rewrite Hnodes, filter_app, !filter_reverse in Hm.
  rewrite Hnodes, fmap_app in Hsort. apply StronglySorted_app in Hsort as (Hlt & _ & Hst).
  rewrite Hnodes, fmap_app, Forall_app, !Forall_forall in Hnn. destruct Hnn as [Hn1 Hn2].
  apply list_elem_of_fmap in Hid as (n & -> & Hn). apply list_elem_of_filter in Hn as [Hnm Hn].
  destruct (filter master pre) as [|m' [|m'' l]] eqn:Ep.
  - (* the master was not reached: it is below every chosen pod *)
    simpl. rewrite app_nil_r in Hm.
    assert (Hms : m ∈ suf).
    { assert (Hin : m ∈ reverse (filter master suf)) by (rewrite Hm; by left).
      rewrite elem_of_reverse in Hin. by apply list_elem_of_filter in Hin as [_ ?]. }
    assert (n_PodIndex m < n_PodIndex n) by (apply Hlt; apply list_elem_of_fmap_2; by apply elem_of_reverse).
    assert (0 <= n_PodIndex m) by (apply Hn1, list_elem_of_fmap_2; by apply elem_of_reverse). lia.
  - (* the master was met: it is the one whose index was kept *)
    assert (Hmm : filter master suf = [] /\ m' = m).
    { destruct (filter master suf) as [|x xs] using rev_ind; [by injection Hm as ->|].
      rewrite reverse_snoc in Hm. injection Hm as _ Hm. by destruct (reverse xs). }
    destruct Hmm as [_ ->]. simpl.
    assert (Hin : m ∈ filter master pre) by (rewrite Ep; by left).
    apply list_elem_of_filter in Hin as [Hmm Hin].
    assert (n_PodIndex n <> n_PodIndex m).
    { intros E. apply Hnm. enough (n = m) as -> by done.
      apply (nodup_fmap_inj n_PodIndex (reverse pre)); [by apply sorted_lt_nodup|by apply elem_of_reverse..|done]. }
    lia.
  - (* two masters *)
    exfalso. apply (f_equal length) in Hm. rewrite length_app, !length_reverse in Hm. simpl in Hm. lia.
Qed.

Lemma elem_of_pods (f : Node -> Z) (nodes : list Node) (P : Node -> Prop) `{!forall n, Decision (P n)} x :
  x ∈ f <$> filter P nodes <-> exists n, x = f n /\ P n /\ n ∈ nodes.
Proof. rewrite list_elem_of_fmap. setoid_rewrite list_elem_of_filter. naive_solver. Qed.

Section scale_down.
Context `{Kruise}.

(** The nodes left when the non-masters of [top] are removed from
    [low ++ top]. *)
Definition survivors (low top : list Node) : list Node := low ++ filter master top.

Lemma elem_of_survivors low top n : n ∈ survivors low top <-> n ∈ low \/ master n /\ n ∈ top.
Proof. unfold survivors. by rewrite elem_of_app, list_elem_of_filter. Qed.

Section segments.
Context (low top : list Node) (m : Node) (Hok : shard_ok (low ++ top) m).

Lemma pods_sorted :
  StronglySorted Z.lt (n_PodIndex <$> low) /\ StronglySorted Z.lt (n_PodIndex <$> top) /\
  forall a b, a ∈ low -> b ∈ top -> n_PodIndex a < n_PodIndex b.
Proof.
  destruct Hok as [Hs _ _]. rewrite fmap_app in Hs. apply StronglySorted_app in Hs as (Hlt & Hl & Ht).
  split; [done|]. split; [done|]. intros a b Ha Hb. apply Hlt; by apply list_elem_of_fmap_2.
Qed.

Lemma pods_inj a b : a ∈ low ++ top -> b ∈ low ++ top -> n_PodIndex a = n_PodIndex b -> a = b.
Proof. apply nodup_fmap_inj, sorted_lt_nodup, Hok. Qed.

Lemma only_master n : n ∈ low ++ top -> master n -> n = m.
Proof.
  intros Hn Hm. assert (Hin : n ∈ filter master (low ++ top)) by (by apply list_elem_of_filter).
  rewrite (so_master _ _ Hok) in Hin. by apply list_elem_of_singleton in Hin.
Qed.

Lemma master_in : master m /\ m ∈ low ++ top.
Proof.
  assert (Hin : m ∈ filter master (low ++ top)) by (rewrite (so_master _ _ Hok); by left).
  by apply list_elem_of_filter in Hin.
Qed.

Lemma master_survives : m ∈ survivors low top.
Proof.
  destruct master_in as [Hm Hin]. apply elem_of_survivors. apply elem_of_app in Hin. tauto.
Qed.

Lemma survivors_sub n : n ∈ survivors low top -> n ∈ low ++ top.
Proof. rewrite elem_of_survivors, elem_of_app. tauto. Qed.

Lemma survivors_sorted : StronglySorted Z.lt (n_PodIndex <$> survivors low top).
Proof.
  destruct pods_sorted as (Hl & Ht & Hlt). unfold survivors. rewrite fmap_app.
  apply StronglySorted_app. split; [|split; [done|by apply sorted_fmap_filter]].
  intros x y Hx Hy. apply list_elem_of_fmap in Hx as (a & -> & Ha).
  apply elem_of_pods in Hy as (b & -> & _ & Hb). by apply Hlt.
Qed.

Lemma removed_not_survivor n k :
  n ∈ survivors low top -> k ∈ top -> nonmaster k -> n_PodIndex n <> n_PodIndex k.
Proof.
  intros Hn Hk Hkm E. destruct pods_sorted as (_ & _ & Hlt).
  assert (n = k) as -> by (apply pods_inj; [by apply survivors_sub|apply elem_of_app; by right|done]).
  apply elem_of_survivors in Hn as [Hn|[Hn _]]; [|by apply Hkm].
  specialize (Hlt k k Hn Hk). lia.
Qed.

(** Above a removed pod only the master can survive. *)
Lemma above_removed n k :
  n ∈ survivors low top -> k ∈ top -> nonmaster k -> n_PodIndex k < n_PodIndex n -> n = m.
Proof.
  intros Hn Hk Hkm Hlt'. destruct pods_sorted as (_ & _ & Hlt).
  apply elem_of_survivors in Hn as [Hn|[Hnm Hn]].
  - specialize (Hlt n k Hn Hk). lia.
  - apply only_master; [apply elem_of_app; by right|done].
Qed.

(** Reserving the removed ordinals below the master, beside the ordinals
    already reserved, makes OpenKruise run exactly the survivors. *)
Lemma survivors_ordinals (old result : list Z) :
  n_PodIndex <$> low ++ top = ordinals old (length (low ++ top)) ->
  (forall id, id ∈ result <-> id ∈ n_PodIndex <$> filter nonmaster top /\ id < n_PodIndex m) ->
  n_PodIndex <$> survivors low top = ordinals (old ++ result) (length (survivors low top)).
Proof.
  intros Hord Hres. rewrite <- (length_fmap n_PodIndex (survivors low top)).
  assert (Hpod : forall n, n ∈ survivors low top -> n_PodIndex n ∈ ordinals old (length (low ++ top))).
  { intros n Hn. rewrite <- Hord. by apply list_elem_of_fmap_2, survivors_sub. }
  apply ordinals_unique; [apply survivors_sorted| | |].
  - rewrite Forall_forall. intros x (n & -> & Hn)%list_elem_of_fmap. by eapply ordinals_nonneg, Hpod.
  - intros x (n & -> & Hn)%list_elem_of_fmap. rewrite elem_of_app, Hres.
    intros [Hold|[(k & E & Hk & Hkt)%elem_of_pods _]]; [by eapply ordinals_free; [apply Hpod|]|].
    by eapply removed_not_survivor.
  - intros x y (n & -> & Hn)%list_elem_of_fmap Hy Hfree. rewrite elem_of_app, Hres in Hfree.
    assert (Hyp : y ∈ n_PodIndex <$> low ++ top).
    { rewrite Hord. eapply ordinals_dense; [by apply Hpod|exact Hy|tauto]. }
    apply list_elem_of_fmap in Hyp as (k & -> & Hk). apply list_elem_of_fmap_2, elem_of_survivors.
    apply elem_of_app in Hk as [Hk|Hk]; [by left|]. right. split; [|done].
    destruct (decide (master k)) as [|Hkm]; [done|exfalso]. apply Hfree. right.
    split; [apply elem_of_pods; eauto|].
    rewrite <- (above_removed n k) by (done || lia). lia.
Qed.
End segments.
End scale_down.

Lemma filter_partition_length (low top : list Node) :
  (length (survivors low top) + length (filter nonmaster top) = length (low ++ top))%nat.
Proof. unfold survivors. rewrite !length_app, (filter_master_length top). lia. Qed.

Lemma clear_lookup ids (ns : list (option Node)) (i : nat) :
  Forall (Z.le 0) ids -> (i < length ns)%nat ->
  foldl (fun ns id => <[Z.to_nat id := None]> ns) ns ids !! i =
    if decide (Z.of_nat i ∈ ids) then Some None else ns !! i.
Proof.
  revert ns. induction ids as [|id ids IH]; intros ns Hnn Hi; cbn [foldl].
  - by rewrite decide_False by apply not_elem_of_nil.
  - apply Forall_cons in Hnn as [Hid Hnn]. rewrite IH by (done || by rewrite length_insert).
    destruct (decide (Z.of_nat i ∈ ids)) as [Hin|Hin].
    + by rewrite decide_True by (by right).
    + destruct (decide (Z.of_nat i = id)) as [<-|Hne].
      * rewrite decide_True by (by left). rewrite Nat2Z.id. by apply list_lookup_insert_eq.
      * rewrite decide_False by (rewrite elem_of_cons; tauto). apply list_lookup_insert_ne. lia.
Qed.

Lemma clear_length ids (ns : list (option Node)) :
  length (foldl (fun ns id => <[Z.to_nat id := None]> ns) ns ids) = length ns.
Proof. revert ns. induction ids as [|id ids IH]; intros ns; [done|]. cbn [foldl]. by rewrite IH, length_insert. Qed.

(** When pods sit at the position of their ordinal, clearing positions clears
    the pods. *)
Lemma clear_pods (nodes : list Node) ids :
  (forall i n, nodes !! i = Some n -> n_PodIndex n = Z.of_nat i) -> Forall (Z.le 0) ids ->
  foldl (fun ns id => <[Z.to_nat id := None]> ns) (Some <$> nodes) ids =
    (fun n => if decide (n_PodIndex n ∈ ids) then None else Some n) <$> nodes.
Proof.
  intros Hpos Hnn. apply list_eq_same_length with (length nodes);
    [by rewrite length_fmap|by rewrite clear_length, length_fmap|].
  intros i x y Hi. rewrite clear_lookup by (done || by rewrite length_fmap).
  rewrite !list_lookup_fmap. destruct (nodes !! i) as [n|] eqn:En; [|by destruct (decide _)].
  cbn. rewrite (Hpos _ _ En). destruct (decide _); congruence.
Qed.

Section scale_theorems.
Context `{Kruise}.

Lemma ordinals_none (n : nat) : irange 0 (Z.of_nat n - 1) = ordinals [] n.
Proof.
  rewrite (ordinals_unique (irange 0 (Z.of_nat n - 1)) []) at 1.
  - f_equal. rewrite length_irange. lia.
  - unfold irange. generalize 0%nat at 1. induction (Z.to_nat _) as [|k IH]; intros a; [constructor|].
    cbn [seq fmap list_fmap]. constructor; [apply IH|]. rewrite Forall_forall.
    intros x (j & -> & Hj)%list_elem_of_fmap. apply elem_of_seq in Hj. lia.
  - rewrite Forall_forall. intros x Hx. apply elem_of_irange in Hx. lia.
  - intros x _. apply not_elem_of_nil.
  - intros x y Hx Hy _. apply elem_of_irange in Hx. apply elem_of_irange. lia.
Qed.

(** The chosen ordinals, whether or not the nodes can be cleared. *)
Lemma getReserveIndex_result nodes m old replicas result nodes' :
  shard_ok nodes m -> n_PodIndex <$> nodes = ordinals old (length nodes) ->
  1 <= replicas < Z.of_nat (length nodes) ->
  getReserveIndex replicas (Some <$> nodes) = Ok (Some result, nodes') ->
  exists low top, nodes = low ++ top /\
    length (survivors low top) = Z.to_nat replicas /\
    n_PodIndex <$> survivors low top = ordinals (old ++ result) (Z.to_nat replicas).
Proof.
  intros Hok Hord Hrep. unfold getReserveIndex. rewrite length_fmap.
  replace (0 <? Z.of_nat (length nodes) - replicas) with true by lia.
  destruct (choose_spec nodes m (Z.of_nat (length nodes) - replicas)) as (low & top & mid & -> & Hlen & -> & Hmid);
    [done|lia|].
  destruct (clear_reserved _ _ _ _) as [[ns res]| | |] eqn:Ec; [|done..]. intros [= <- <-].
  apply clear_reserved_result in Ec. rewrite reverse_involutive in Ec. simpl in Ec.
  assert (Hsl : length (survivors low top) = Z.to_nat replicas).
  { pose proof (filter_partition_length low top). lia. }
  exists low, top. split; [done|]. split; [done|]. rewrite <- Hsl.
  apply (survivors_ordinals low top m Hok); [done|]. intros id. rewrite Ec, list_elem_of_filter.
  split; [intros [Hle Hin]|intros [Hin Hlt]]; split; try done; by apply (Hmid id Hin).
Qed.
End scale_theorems.

Lemma irange_lookup b e (i : nat) x : irange b e !! i = Some x -> x = b + Z.of_nat i.
Proof.
  unfold irange. rewrite list_lookup_fmap, fmap_Some. intros (k & Hk & ->).
  apply lookup_seq in Hk. lia.
Qed.

(** The nodes whose ordinal was not chosen are the survivors. *)
Lemma kept_nodes `{Kruise} low top m :
  shard_ok (low ++ top) m ->
  filter (fun n => ~ n_PodIndex n ∈ n_PodIndex <$> filter nonmaster top) (low ++ top) = survivors low top.
Proof.
  intros Hok. rewrite filter_app. unfold survivors. f_equal.
  - apply list_filter_all. intros n Hn (k & E & Hk & Hkt)%elem_of_pods.
    eapply removed_not_survivor; [done| |done|done|done]. apply elem_of_survivors. by left.
  - apply list_filter_ext. intros n Hn. split.
    + intros Hno. destruct (decide (master n)) as [|Hm]; [done|]. destruct Hno. apply elem_of_pods. eauto.
    + intros Hm (k & E & Hk & Hkt)%elem_of_pods.
      eapply removed_not_survivor; [done| |done|done|done]. apply elem_of_survivors. by right.
Qed.

Section scale_up.
Context `{Kruise}.

Lemma release_reserved_drop delta reserve :
  release_reserved delta reserve = drop (Z.to_nat delta) reserve.
Proof.
  revert delta. induction reserve as [|x reserve IH]; intros delta; cbn [release_reserved]; [by rewrite drop_nil|].
  destruct (Z.ltb_spec 0 delta).
  - rewrite IH. replace (Z.to_nat delta) with (S (Z.to_nat (delta - 1))) by lia. done.
  - by replace (Z.to_nat delta) with 0%nat by lia.
Qed.

(** Releasing at most [k] ordinals while adding [k] replicas keeps every pod:
    otherwise all pods of the larger set would be below one of the old pods,
    and there is not enough room for them there. *)
Lemma ordinals_grow (r : list Z) (n k : nat) x :
  x ∈ ordinals r n -> x ∈ ordinals (drop k r) (n + k).
Proof.
  intros Hx. destruct (decide (x ∈ ordinals (drop k r) (n + k))) as [|Hno]; [done|exfalso].
  assert (Hfree : x ∉ drop k r).
  { intros Hd. apply (ordinals_free r n x Hx). rewrite <- (take_drop k r), elem_of_app. by right. }
  set (big := ordinals (drop k r) (n + k)) in *.
  assert (Hlow : forall y, y ∈ big -> y ∈ (filter (fun z => z <> x) (ordinals r n)) ++ take k r).
  { intros y Hy. assert (y <> x) by (by intros ->).
    assert (Hyx : y < x).
    { destruct (decide (y < x)); [done|]. destruct Hno. eapply ordinals_dense; [exact Hy| |done].
      split; [by eapply ordinals_nonneg|lia]. }
    apply elem_of_app. destruct (decide (y ∈ take k r)) as [|Ht]; [by right|left].
    apply list_elem_of_filter. split; [done|]. eapply ordinals_dense; [exact Hx| |].
    - split; [by eapply ordinals_nonneg|done].
    - rewrite <- (take_drop k r), elem_of_app. intros [?|Hd]; [done|].
      by apply (ordinals_free (drop k r) (n + k) y). }
  assert (Hle : (length big <= length (filter (fun z => z <> x) (ordinals r n) ++ take k r))%nat).
  { apply submseteq_length, NoDup_submseteq; [|done]. apply sorted_lt_nodup, ordinals_sorted. }
  unfold big in Hle. rewrite ordinals_length, length_app, length_take in Hle.
  assert (Hlt : (length (filter (fun z => z <> x) (ordinals r n)) < n)%nat).
  { rewrite <- (ordinals_length r n) at 2. apply (length_filter_lt _ _ x); [done|]. intros HH. by apply HH. }
  lia.
Qed.
End scale_up.

Section properties.
Context `{Kruise}.

(** On a shard without reserved ordinals every pod sits at the position of its
    ordinal: the scale-down always succeeds, and the nodes it leaves in the
    handler's table are exactly the pods OpenKruise keeps. *)
Definition fresh (nodes : list Node) : Prop := n_PodIndex <$> nodes = irange 0 (Z.of_nat (length nodes) - 1).

Definition clear_ids (ids : list Z) (nodes : list Node) : list (option Node) :=
  (fun n => if decide (n_PodIndex n ∈ ids) then None else Some n) <$> nodes.

Lemma fresh_position nodes i n : fresh nodes -> nodes !! i = Some n -> n_PodIndex n = Z.of_nat i.
Proof.
  intros Hpos Hi. assert (Hl : (n_PodIndex <$> nodes) !! i = Some (n_PodIndex n)) by (by rewrite list_lookup_fmap, Hi).
  rewrite Hpos in Hl. by apply irange_lookup in Hl.
Qed.

Lemma fresh_range nodes n : fresh nodes -> n ∈ nodes -> 0 <= n_PodIndex n < Z.of_nat (length nodes).
Proof.
  intros Hpos Hin. apply (list_elem_of_fmap_2 n_PodIndex) in Hin. rewrite Hpos in Hin. apply elem_of_irange in Hin. lia.
Qed.

Lemma fresh_shrink nodes m replicas :
  shard_ok nodes m -> fresh nodes -> 1 <= replicas < Z.of_nat (length nodes) ->
  exists result ids, getReserveIndex replicas (Some <$> nodes) = Ok (Some result, clear_ids ids nodes) /\
    m ∈ filter (fun n => n_PodIndex n ∉ ids) nodes /\
    n_PodIndex <$> filter (fun n => n_PodIndex n ∉ ids) nodes = ordinals result (Z.to_nat replicas).
Proof.
  intros Hok Hpos Hrep. pose proof Hpos as Hord. unfold fresh in Hord. rewrite ordinals_none in Hord.
  destruct (choose_spec nodes m (Z.of_nat (length nodes) - replicas)) as (low & top & mid & E & Hlen & Hscan & Hmid);
    [done|lia|].
  set (ids := n_PodIndex <$> filter nonmaster top) in *.
  assert (Hids : Forall (fun id => 0 <= id < Z.of_nat (length (Some <$> nodes))) ids).
  { rewrite Forall_forall. intros x (k & -> & _ & Hk)%elem_of_pods. rewrite length_fmap.
    apply fresh_range; [done|]. rewrite E. apply elem_of_app. by right. }
  exists (filter (fun id => id <= mid) ids), ids. split.
  { unfold getReserveIndex. rewrite length_fmap.
    replace (0 <? Z.of_nat (length nodes) - replicas) with true by lia.
    rewrite Hscan, reverse_involutive, clear_reserved_spec by done. rewrite clear_pods; [done| |].
    - intros i n. by apply fresh_position.
    - eapply Forall_impl; [exact Hids|]. simpl. lia. }
  assert (Hkept : filter (fun n => n_PodIndex n ∉ ids) nodes = survivors low top).
  { rewrite E. apply (kept_nodes low top m). by rewrite <- E. }
  rewrite Hkept. subst nodes. split; [by apply master_survives|].
  assert (Hsl : length (survivors low top) = Z.to_nat replicas)
    by (pose proof (filter_partition_length low top); lia).
  rewrite <- Hsl. apply (survivors_ordinals low top m Hok [] _ Hord).
  intros id. rewrite list_elem_of_filter.
  split; [intros [Hle Hin]|intros [Hin Hlt]]; split; try done; by apply (Hmid id Hin).
Qed.

(** C1: scaling a shard down in cluster mode never removes its master.  With
    the ordinals [getReserveIndex] returns added to the ones reserved before,
    OpenKruise keeps the requested number of pods; the master is among them
    and every other kept pod is below every removed one. *)
Theorem shrink_keeps_master nodes m old replicas result nodes' :
  shard_ok nodes m -> n_PodIndex <$> nodes = ordinals old (length nodes) ->
  1 <= replicas < Z.of_nat (length nodes) ->
  getReserveIndex replicas (Some <$> nodes) = Ok (Some result, nodes') ->
  exists kept, n_PodIndex <$> kept = ordinals (old ++ result) (Z.to_nat replicas) /\
    kept `sublist_of` nodes /\ length kept = Z.to_nat replicas /\ m ∈ kept /\
    forall k r, k ∈ kept -> k <> m -> r ∈ nodes -> r ∉ kept -> n_PodIndex k < n_PodIndex r.
Proof.
  intros Hok Hord Hrep Hrun.
  destruct (getReserveIndex_result _ _ _ _ _ _ Hok Hord Hrep Hrun) as (low & top & -> & Hlen & Hsurv).
  exists (survivors low top). split; [done|].
  split; [apply sublist_app; [done|apply sublist_filter]|]. split; [done|].
  split; [by apply master_survives|]. intros k r Hk Hkm Hr Hrk.
  assert (Hrt : r ∈ top /\ nonmaster r).
  { rewrite elem_of_survivors in Hrk. apply elem_of_app in Hr as [Hr|Hr]; [tauto|].
    split; [done|]. intros Hm. apply Hrk. by right. }
  destruct Hrt as [Hrt Hrm].
  destruct (decide (n_PodIndex r < n_PodIndex k)); [by destruct Hkm; eapply above_removed|].
  pose proof (removed_not_survivor _ _ _ Hok _ _ Hk Hrt Hrm). lia.
Qed.

(** C26: scaling up never removes a running pod, although it takes ordinals
    from the front of the reserved list: every pod of the set before the
    update is a pod of the set after it. *)
Theorem scale_up_keeps_pods (reserve : list Z) (n delta : nat) :
  forall x, x ∈ ordinals reserve n ->
    x ∈ ordinals (release_reserved (Z.of_nat delta) reserve) (n + delta).
Proof. intros x Hx. rewrite release_reserved_drop, Nat2Z.id. by apply ordinals_grow. Qed.
End properties.

Lemma clear_reserved_cases ids mid nodes acc :
  Forall (fun id => 0 <= id) ids ->
  (exists r, clear_reserved ids mid nodes acc = Ok r /\ Forall (fun id => id < Z.of_nat (length nodes)) ids) \/
  (clear_reserved ids mid nodes acc = Panic /\ Exists (fun id => Z.of_nat (length nodes) <= id) ids).
Proof.
  intros Hnn. destruct (decide (Forall (fun id => id < Z.of_nat (length nodes)) ids)) as [Hf|Hf].
  - left. rewrite clear_reserved_spec; [eauto|]. apply Forall_and. by split.
  - right. apply not_Forall_Exists in Hf; [|solve_decision]. apply Exists_exists in Hf as (id & Hin & Hid). unfold compose in Hid.
    split; [|apply Exists_exists; exists id; split; [done|lia]].
    apply (clear_reserved_panics _ _ _ _ id); [done|lia].
Qed.

(** The last of the nodes that are no masters is the highest of them, and it
    is among those a scale-down removes. *)
Lemma last_removed (low top : list Node) n :
  StronglySorted Z.lt (n_PodIndex <$> low ++ top) -> filter nonmaster top <> [] ->
  last (filter nonmaster (low ++ top)) = Some n ->
  n ∈ filter nonmaster top /\ forall x, x ∈ filter nonmaster top -> n_PodIndex x <= n_PodIndex n.
Proof.
  intros Hs Hne Hlast. rewrite filter_app, last_app in Hlast.
  destruct (last (filter nonmaster top)) as [n'|] eqn:El; [|by apply last_None in El]. injection Hlast as ->.
  split; [by apply last_Some_elem_of|]. intros x Hx.
  apply last_Some in El as [pre El]. rewrite El in Hx. apply elem_of_app in Hx as [Hx|Hx]; [|apply list_elem_of_singleton in Hx as ->; lia].
  rewrite fmap_app in Hs. apply StronglySorted_app in Hs as (_ & _ & Hs).
  assert (Hs' : StronglySorted Z.lt (n_PodIndex <$> filter nonmaster top)).
  { by apply sorted_fmap_filter. }
  rewrite El, fmap_app in Hs'. apply StronglySorted_app in Hs' as (Hsep & _ & _).
  enough (n_PodIndex x < n_PodIndex n) by lia. apply Hsep; [by apply list_elem_of_fmap_2|by left].
Qed.

(** C40: [getReserveIndex] uses the ordinal of a pod as its position in the
    node table: a scale-down of a shard returns exactly when the highest pod
    that is not the master has an ordinal below the number of nodes, and
    panics with an index out of range exactly when its ordinal is beyond, as
    it is after a scale-down that left a gap below that pod. *)
Theorem shrink_gap_panics nodes (n m : Node) replicas :
  shard_ok nodes m -> 1 <= replicas < Z.of_nat (length nodes) ->
  last (filter nonmaster nodes) = Some n ->
  (getReserveIndex replicas (Some <$> nodes) = Panic <-> Z.of_nat (length nodes) <= n_PodIndex n) /\
  ((exists r, getReserveIndex replicas (Some <$> nodes) = Ok r) <-> n_PodIndex n < Z.of_nat (length nodes)).
Proof.
  intros Hok Hrep Hlast. unfold getReserveIndex. rewrite length_fmap.
  replace (0 <? Z.of_nat (length nodes) - replicas) with true by lia.
  destruct (choose_spec _ m (Z.of_nat (length nodes) - replicas) Hok) as (low & top & mid & E & Hlen & -> & _);
    [lia|]. rewrite reverse_involutive. pose proof (so_sorted _ _ Hok) as Hs. rewrite E in Hlast, Hs.
  destruct (last_removed low top n Hs) as [Hn Hmax]; [intros Hnil; rewrite Hnil in Hlen; simpl in Hlen; lia|done|].
  destruct (clear_reserved_cases (n_PodIndex <$> filter nonmaster top) mid (Some <$> nodes) []) as [([ns l] & -> & Hf)|[-> Hex]].
  - pose proof (so_nonneg _ _ Hok) as Hnn. rewrite Forall_forall in Hnn. apply Forall_forall. intros id Hid. apply Hnn.
    rewrite E, fmap_app. apply elem_of_app. right. apply elem_of_pods in Hid as (x & -> & _ & Hx). by apply list_elem_of_fmap_2.
  - rewrite length_fmap, Forall_forall in Hf. specialize (Hf _ (list_elem_of_fmap_2 n_PodIndex _ _ Hn)).
    split; [split; [done|lia]|split; [done|eauto]].
  - rewrite length_fmap in Hex. apply Exists_exists in Hex as (id & (x & -> & Hx)%list_elem_of_fmap & Hid). specialize (Hmax x Hx).
    split; [split; [lia|done]|split; [by intros [r Hr]|lia]].
Qed.

(** ** A concrete OpenKruise, for witnesses *)

Definition first_free (r : list Z) (n : nat) : list Z :=
  take n (filter (fun x => x ∉ r) (irange 0 (Z.of_nat (n + length r)))).

Lemma irange_sorted b e : StronglySorted Z.lt (irange b e).
Proof.
  unfold irange. generalize 0%nat. induction (Z.to_nat _) as [|k IH]; intros a; [constructor|].
  cbn [seq fmap list_fmap]. constructor; [apply IH|]. rewrite Forall_forall.
  intros x (j & -> & Hj)%list_elem_of_fmap. apply elem_of_seq in Hj. lia.
Qed.

Lemma first_free_enough r n :
  (n <= length (filter (fun x => x ∉ r) (irange 0 (Z.of_nat (n + length r)))))%nat.
Proof.
  set (l := irange 0 (Z.of_nat (n + length r))).
  assert (Hlen : length l = S (n + length r)) by (unfold l; rewrite length_irange; lia).
  assert (Hpart : (length (filter (fun x => x ∈ r) l) + length (filter (fun x => x ∉ r) l) = length l)%nat).
  { rewrite <- length_app. apply Permutation_length, filter_app_complement. }
  assert ((length (filter (fun x => x ∈ r) l) <= length r)%nat); [|lia].
  apply submseteq_length, NoDup_submseteq.
  - apply NoDup_filter, sorted_lt_nodup, irange_sorted.
  - intros x. rewrite list_elem_of_filter. tauto.
Qed.

Lemma take_sorted_dense (l : list Z) n x y :
  StronglySorted Z.lt l -> x ∈ take n l -> y ∈ l -> y < x -> y ∈ take n l.
Proof.
  intros Hs Hx Hy Hlt. rewrite <- (take_drop n l) in Hs, Hy.
  apply StronglySorted_app in Hs as (Hsep & _ & _).
  apply elem_of_app in Hy as [Hy|Hy]; [done|]. specialize (Hsep x y Hx Hy). lia.
Qed.

Lemma elem_of_first_free r n x :
  x ∈ first_free r n -> 0 <= x /\ (x ∉ r) /\ x <= Z.of_nat (n + length r).
Proof.
  unfold first_free. intros Hx. apply elem_of_take in Hx as (i & Hi & _).
  apply list_elem_of_lookup_2 in Hi. rewrite list_elem_of_filter, elem_of_irange in Hi. tauto.
Qed.

Definition sampleKruise : Kruise.
Proof.
  refine {| ordinals := first_free |}.
  - intros r n. unfold first_free. rewrite length_take. pose proof (first_free_enough r n). lia.
  - intros r n. unfold first_free.
    pose proof (strongly_sorted_filter Z.lt (fun x => x ∉ r) _ (irange_sorted 0 (Z.of_nat (n + length r)))) as Hs.
    rewrite <- (take_drop n) in Hs. by apply StronglySorted_app in Hs as (_ & ? & _).
  - intros r n x Hx. apply elem_of_first_free in Hx. tauto.
  - intros r n x Hx. by apply elem_of_first_free in Hx as (_ & ? & _).
  - intros r n x y Hx Hy Hr. pose proof (elem_of_first_free _ _ _ Hx) as (_ & _ & Hle).
    unfold first_free in *. eapply take_sorted_dense; [|exact Hx| |lia].
    + apply strongly_sorted_filter, irange_sorted.
    + apply list_elem_of_filter. split; [done|]. apply elem_of_irange. lia.
Defined.

Definition sample_node (role : string) (i : Z) : Node := set_n_Role role (new_node EmptyString i).

(** A shard with pods 0, 1, 2 whose master is pod 1. *)
Definition sample_shard : list Node := [sample_node RoleSlaver 0; sample_node RoleMaster 1; sample_node RoleSlaver 2].

Lemma shrink_keeps_master_witness :
  exists kept, n_PodIndex <$> kept = [1] /\ sample_node RoleMaster 1 ∈ kept.
Proof.
  assert (Hok : shard_ok sample_shard (sample_node RoleMaster 1)).
  { split; [vm_compute; repeat constructor|vm_compute; repeat constructor; discriminate|reflexivity]. }
  destruct (@shrink_keeps_master sampleKruise sample_shard (sample_node RoleMaster 1) [] 1 [0]
    [None; Some (sample_node RoleMaster 1); None] Hok) as (kept & Hk & _ & _ & Hm & _);
    [vm_compute; reflexivity|simpl; lia|vm_compute; reflexivity|].
  exists kept. split; [exact Hk|exact Hm].
Defined.

(** After pod 1 was removed and the ordinal reserved, pods 0, 2 and 3 are left. *)
Definition gap_shard : list Node := [sample_node RoleMaster 0; sample_node RoleSlaver 2; sample_node RoleSlaver 3].

Lemma shrink_gap_panics_witness :
  getReserveIndex 1 (Some <$> gap_shard) = Panic /\
  exists r, getReserveIndex 1 (Some <$> [sample_node RoleSlaver 0; sample_node RoleMaster 2]) = Ok r.
Proof.
  split.
  - apply (shrink_gap_panics gap_shard (sample_node RoleSlaver 3) (sample_node RoleMaster 0) 1).
    + split; [vm_compute; repeat constructor|vm_compute; repeat constructor; discriminate|reflexivity].
    + simpl. lia.
    + reflexivity.
    + simpl. lia.
  - apply (shrink_gap_panics [sample_node RoleSlaver 0; sample_node RoleMaster 2] (sample_node RoleSlaver 0) (sample_node RoleMaster 2) 1).
    + split; [vm_compute; repeat constructor|vm_compute; repeat constructor; discriminate|reflexivity].
    + simpl. lia.
    + reflexivity.
    + simpl. lia.
Defined.

Lemma scale_up_keeps_pods_witness : 3 ∈ @ordinals sampleKruise (release_reserved 2 [1]) 5.
Proof.
  apply (@scale_up_keeps_pods sampleKruise [1] 3 2 3). apply (bool_decide_unpack _). vm_compute. exact I.
Defined.
