(* ===== verification/Env.v ===== *)
(** * The outside world

    Everything the operator talks to, as interfaces over an abstract world
    [W]: the Kubernetes API behind controller-runtime's client, the Redis
    commands of go-redis, the HTTP transport to kvrocks-controller, the clock,
    and the queue of failover messages.  A call changes the world and returns
    a value or an error; it does not panic. *)

From S2P Require Import Prelude GoStd Types.
Local Open Scope Z_scope.

Definition call (W A : Type) : Type := W -> (A + goerr) * W.

Definition perform {W A} (c : call W A) : M W A := fun w =>
  match c w with
  | (inl a, w') => (Ok a, w')
  | (inr e, w') => (Err e, w')
  end.

Lemma wp_perform {W A} (c : call W A) (Q : outcome A -> W -> Prop) w :
  (forall a w', c w = (inl a, w') -> Q (Ok a) w') ->
  (forall e w', c w = (inr e, w') -> Q (Err e) w') ->
  wp (perform c) Q w.
Proof. unfold wp, perform. destruct (c w) as [[a|e] w']; simpl; eauto. Qed.

Lemma keeps_perform {W A} (P : W -> Prop) (c : call W A) : (forall w, P w -> P (c w).2) -> keeps P (perform c).
Proof. intros Hc w Hw. unfold perform. specialize (Hc w Hw). by destruct (c w) as [[a|e] w']. Qed.

(** ** Kubernetes API, per kind of object

    [Create] and [Update] return the stored object, which the client writes
    back into its argument; [api_delete_nil] is [Delete] of a nil pointer. *)
Class ApiKind (W K : Type) := {
  api_get : NamespacedName -> call W K;
  api_create : K -> call W K;
  api_update : K -> call W K;
  api_delete : K -> call W unit;
  api_delete_nil : call W unit;
  api_list : string -> gmap string string -> call W (list K);
}.

Class Kube (W : Type) := {
  kube_kvrocks :: ApiKind W KVRocks;
  kube_configmap :: ApiKind W ConfigMap;
  kube_service :: ApiKind W Service;
  kube_deployment :: ApiKind W Deployment;
  kube_statefulset :: ApiKind W StatefulSet;
  kube_native_statefulset :: ApiKind W NativeStatefulSet;
  kube_pod :: ApiKind W Pod;
  kube_pvc :: ApiKind W PersistentVolumeClaim;
}.

(** ** Redis commands; [addr] is "host:port" *)
Class Redis (W : Type) := {
  redis_role : forall (addr password : string), call W (list string);
  redis_config_get : forall (addr password key : string), call W (list string);
  redis_config_set : forall (addr password key value : string), call W unit;
  redis_pipeline_config_set : forall (addr password : string) (kvs : list (string * string)), call W unit;
  redis_slaveof : forall (addr password host port : string), call W unit;
  redis_info : forall (addr password section : string), call W string;
  redis_cluster_nodes : forall (addr password : string), call W string;
  redis_ping : forall (addr password : string), call W unit;
  sentinel_master : forall (addr user password name : string), call W (gmap string string);
  sentinel_remove : forall (addr user password name : string), call W unit;
  sentinel_monitor : forall (addr user password name ip port quorum : string), call W unit;
  sentinel_set : forall (addr user password name option value : string), call W unit;
  sentinel_reset : forall (addr user password name : string), call W unit;
}.

(** ** HTTP with JSON bodies *)

#[warnings="-register-all"]
Inductive json : Type :=
| JNull
| JBool (b : bool)
| JNum (z : Z)
| JFloat (text : string)
| JStr (s : string)
| JArr (l : list json)
| JObj (members : list (string * json)).

Inductive http_method : Type := GET | POST | DELETE.

#[export] Instance http_method_eq_dec : EqDecision http_method.
Proof. solve_decision. Defined.

Record http_request := {
  rq_Method : http_method;
  rq_URL : string;
  rq_Body : option json;
}.

(** [rs_Body] is [None] when the body cannot be read or is not JSON. *)
Record http_response := {
  rs_StatusCode : Z;
  rs_Body : option json;
}.

Class Http (W : Type) := { http_do : http_request -> call W http_response }.

(** ** Clock and failover messages *)
Class Clock (W : Type) := {
  clock_now : W -> Z;
  clock_sleep : Z -> W -> W;
}.

(** [events.SendFailoverMsg] *)
Class FailoverSink (W : Type) := {
  send_failover : forall (ip : string) (key : NamespacedName) (partition : Z), W -> W;
}.

Class Env (W : Type) := {
  env_kube :: Kube W;
  env_redis :: Redis W;
  env_http :: Http W;
  env_clock :: Clock W;
  env_sink :: FailoverSink W;
}.
