(* ===== verification/K8sClient.v ===== *)
(** * The Kubernetes client (pkg/client/k8s)

    Thin operations over the API of [Env]: creation that tolerates an existing
    object, creation or update with the stored resource version, listing by
    label selectors, deletion that tolerates a missing object. *)

From S2P Require Import Prelude GoStd Types Env.
Local Open Scope Z_scope.
Local Open Scope go_scope.

(** [errors.IsNotFound], [errors.IsAlreadyExists] of the API machinery. *)
Definition IsNotFound (e : goerr) : bool := bool_decide (e = ENotFound).
Definition IsAlreadyExists (e : goerr) : bool := bool_decide (e = EAlreadyExists).
Definition IsConflict (e : goerr) : bool := bool_decide (e = EConflict).
Definition IsForbidden (e : goerr) : bool := bool_decide (e = EForbidden).
Definition IsInvalid (e : goerr) : bool := bool_decide (e = EInvalid).

Section client.
Context {W : Type} `{Kube W}.

(** [if err := c.client.Create(ctx, obj); err != nil && !errors.IsAlreadyExists(err)]:
    the object as it is after the call. *)
Definition create_if_not_exists {K} `{ApiKind W K} (obj : K) : M W K :=
  let! r := catch (perform (api_create obj)) in
  match r with
  | inl stored => ret stored
  | inr e => if IsAlreadyExists e then ret obj else throw e
  end.

(** *** configmap.go *)

Definition GetConfigMap (key : NamespacedName) : M W ConfigMap := perform (api_get key).
Definition UpdateConfigMap (cm : ConfigMap) : M W unit := perform (api_update cm) ;;; ret tt.
Definition CreateIfNotExistsConfigMap (cm : ConfigMap) : M W unit := create_if_not_exists cm ;;; ret tt.

Definition CreateOrUpdateConfigMap (cm : ConfigMap) : M W unit :=
  let! r := catch (GetConfigMap (NN (om_Namespace (cm_Meta cm)) (om_Name (cm_Meta cm)))) in
  match r with
  | inr e => if IsNotFound e then CreateIfNotExistsConfigMap cm else throw e
  | inl oldCM =>
      UpdateConfigMap (set_cm_Meta (set_om_ResourceVersion (om_ResourceVersion (cm_Meta oldCM))) cm)
  end.

Definition DeleteConfigMap (key : NamespacedName) : M W unit :=
  let! cm := GetConfigMap key in perform (api_delete cm).

(** *** deployment.go *)

Definition CreateIfNotExistsDeployment (d : Deployment) : M W unit := create_if_not_exists d ;;; ret tt.
Definition GetDeployment (key : NamespacedName) : M W Deployment := perform (api_get key).
Definition UpdateDeployment (d : Deployment) : M W unit := perform (api_update d) ;;; ret tt.

Definition DeleteDeployment (key : NamespacedName) : M W unit :=
  let! d := GetDeployment key in perform (api_delete d).

Definition ListDeploymentPods (key : NamespacedName) : M W (list Pod) :=
  let! d := GetDeployment key in
  perform (api_list (om_Namespace (d_Meta d)) (d_MatchLabels d)).

(** *** kvrocks.go *)

Definition GetKVRocks (key : NamespacedName) : M W KVRocks := perform (api_get key).

(** Returns the instance with what the server wrote back. *)
Definition UpdateKVRocks (instance : KVRocks) : M W KVRocks := perform (api_update instance).
Definition ListKVRocks (namespace : string) (labels : gmap string string) : M W (list KVRocks) :=
  perform (api_list namespace labels).
(** Returns the instance with what the server wrote back. *)
Definition CreateIfNotExistsKVRocks (instance : KVRocks) : M W KVRocks := create_if_not_exists instance.

(** *** pod.go *)

Definition GetPod (key : NamespacedName) : M W Pod := perform (api_get key).
Definition UpdatePod (pod : Pod) : M W unit := perform (api_update pod) ;;; ret tt.

(** When the pod is not found, [GetPod] returned a nil pointer: it is passed
    to [Delete], and the log line after it reads the name of the nil pod. *)
Definition DeletePodImmediately (podName namespace : string) : M W unit :=
  let! r := catch (GetPod (NN namespace podName)) in
  match r with
  | inr e =>
      if IsNotFound e
      then ignore IsNotFound (perform (api_delete_nil (K := Pod))) ;;; panic
      else throw e
  | inl pod => ignore IsNotFound (perform (api_delete pod))
  end.

(** *** statefulset.go *)

(** This and the next operations return the set with what the server wrote
    back. *)
Definition CreateIfNotExistsStatefulSet (sts : StatefulSet) : M W StatefulSet := create_if_not_exists sts.
Definition GetStatefulSet (key : NamespacedName) : M W StatefulSet := perform (api_get key).

Definition UpdateStatefulSet (sts : StatefulSet) : M W StatefulSet := perform (api_update sts).

Definition ListStatefulSetPods (key : NamespacedName) : M W (list Pod) :=
  let! sts := GetStatefulSet key in
  perform (api_list (ss_Namespace sts) (ss_MatchLabels sts)).

Definition CreateOrUpdateStatefulSet (sts : StatefulSet) : M W StatefulSet :=
  let! r := catch (GetStatefulSet (NN (ss_Namespace sts) (ss_Name sts))) in
  match r with
  | inr e => if IsNotFound e then CreateIfNotExistsStatefulSet sts else throw e
  | inl oldSts =>
      UpdateStatefulSet (set_ss_Meta (set_om_ResourceVersion (om_ResourceVersion (ss_Meta oldSts))) sts)
  end.

(** The images of the first two containers; indexing panics when the stored
    set has fewer. *)
Definition container_image (sts : StatefulSet) (i : nat) : M W string :=
  let! c := deref (pt_Containers (ss_Template sts) !! i) in ret (c_Image c).

Definition CreateStatefulSetOrUpdateImage (sts : StatefulSet) : M W StatefulSet :=
  let! r := catch (GetStatefulSet (NN (ss_Namespace sts) (ss_Name sts))) in
  match r with
  | inr e => if IsNotFound e then CreateIfNotExistsStatefulSet sts else throw e
  | inl oldSts =>
      let! old0 := container_image oldSts 0 in
      let! new0 := container_image sts 0 in
      let! same :=
        (if String.eqb old0 new0 then
           let! old1 := container_image oldSts 1 in
           let! new1 := container_image sts 1 in
           ret (String.eqb old1 new1)
         else ret false) in
      if (same : bool) then ret sts
      else
        UpdateStatefulSet (set_ss_Meta (set_om_ResourceVersion (om_ResourceVersion (ss_Meta oldSts))) sts)
  end.

Definition ListStatefulSets (namespace : string) (labels : gmap string string) : M W (list StatefulSet) :=
  perform (api_list namespace labels).

(** Every error of the lookup is taken for "nothing to delete". *)
Definition DeleteStatefulSetIfExists (key : NamespacedName) : M W unit :=
  let! r := catch (GetStatefulSet key) in
  match r with
  | inr e => ret tt
  | inl sts => perform (api_delete sts)
  end.

Definition CreateIfNotExistsNativeStatefulSet (sts : NativeStatefulSet) : M W unit := create_if_not_exists sts ;;; ret tt.
Definition GetNativeStatefulSet (key : NamespacedName) : M W NativeStatefulSet := perform (api_get key).

Definition DeleteNativeStatefulSet (key : NamespacedName) : M W unit :=
  let! sts := GetNativeStatefulSet key in perform (api_delete sts).

(** *** pvc.go *)

Definition ListStatefulSetPVC (key : NamespacedName) : M W (list PersistentVolumeClaim) :=
  let! sts := GetStatefulSet key in
  perform (api_list (nn_Namespace key) (ss_MatchLabels sts)).

Definition DeletePVC (pvc : PersistentVolumeClaim) : M W unit :=
  ignore IsNotFound (perform (api_delete pvc)).

Definition ListPVC (namespace : string) (labels : gmap string string) : M W (list PersistentVolumeClaim) :=
  perform (api_list namespace labels).

(** Errors of the lookup are dropped. *)
Definition DeletePVCByPod (podName namespace : string) : M W unit :=
  let! r := catch (perform (api_get (NN namespace ("data-" +:+ podName)))) in
  match r with
  | inl pvc => DeletePVC pvc
  | inr _ => ret tt
  end.

(** *** service.go *)

Definition CreateIfNotExistsService (s : Service) : M W unit := create_if_not_exists s ;;; ret tt.
Definition GetService (key : NamespacedName) : M W Service := perform (api_get key).

Definition DeleteService (key : NamespacedName) : M W unit :=
  let! s := GetService key in perform (api_delete s).
End client.
