(* ===== verification/KvClient.v ===== *)
(** * The kvrocks and sentinel client (pkg/client/kvrocks)

    The methods of the interface [kvrocks.Client] over the Redis commands of
    [Env]: [standard.go], [cluster.go] and [sentinel.go]. *)

From S2P Require Import Prelude GoStd Types Env Slots.
From Stdlib Require Import Ascii.
Local Open Scope Z_scope.
Local Open Scope go_scope.

(** [net.JoinHostPort] *)
Definition JoinHostPort (host port : string) : string :=
  if Contains host ":" then "[" +:+ host +:+ "]:" +:+ port else host +:+ ":" +:+ port.

(** Addresses of [kvrocksClient] and [kvrocksSentinelClient]. *)
Definition kvrocks_addr (ip : string) : string := JoinHostPort ip (Itoa KVRocksPort).
Definition sentinel_addr (ip : string) : string := JoinHostPort ip (Itoa SentinelPort).

(** A subscription of go-redis: where it connects, as whom, and the channel. *)
Record PubSub := {
  ps_Addr : string;
  ps_Username : string;
  ps_Password : string;
  ps_Channel : string;
}.

(** [SubOdownMsg]: closing the subscription and its client is left to
    go-redis. *)
Definition SubOdownMsg (ip password : string) : PubSub :=
  {| ps_Addr := sentinel_addr ip; ps_Username := SuperUser; ps_Password := password; ps_Channel := "+odown" |}.

(** The class [[0-9a-zA-Z.]] of the pattern in [GetMaster]. *)
Definition host_char (c : ascii) : bool :=
  let n := nat_of_ascii c in
  ((48 <=? n) && (n <=? 57) || (65 <=? n) && (n <=? 90) || (97 <=? n) && (n <=? 122) || (n =? 46))%nat.

Fixpoint take_host (s : string) : string :=
  match s with
  | EmptyString => EmptyString
  | String c s' => if host_char c then String c (take_host s') else EmptyString
  end.

Definition master_host : string := "master_host:".

(** The submatch of the leftmost match of [master_host:([0-9a-zA-Z\.]+)]. *)
Fixpoint find_master_host (s : string) : option string :=
  match s with
  | EmptyString => None
  | String _ s' =>
      let host := take_host (drop_chars (String.length master_host) s) in
      if HasPrefix s master_host && negb (String.eqb host EmptyString)
      then Some host else find_master_host s'
  end.

Definition crlf : string := String (ascii_of_nat 13) (String (ascii_of_nat 10) EmptyString).

Section client.
Context {W : Type} `{Redis W}.

(** *** standard.go *)

(** An empty reply leaves the node zero. *)
Definition NodeInfo (ip password : string) : M W Node :=
  let! resp := perform (redis_role (kvrocks_addr ip) password) in
  match resp with
  | [] => ret (new_node EmptyString 0)
  | role :: _ => ret (set_n_Role role (new_node ip 0))
  end.

Definition GetConfig (ip password key : string) : M W string :=
  let! value := perform (redis_config_get (kvrocks_addr ip) password key) in
  match value with
  | [_; v] => ret v
  | _ => throw (EMsg ("invalid config key: " +:+ key))
  end.

Definition SetConfig (ip password key value : string) : M W unit :=
  perform (redis_config_set (kvrocks_addr ip) password key value).

Definition ChangePassword (ip password newPassword : string) : M W unit :=
  perform (redis_pipeline_config_set (kvrocks_addr ip) password
             [("masterauth", newPassword); ("requirepass", newPassword)]).

Definition ChangeMyselfToMaster (ip password : string) : M W unit :=
  perform (redis_slaveof (kvrocks_addr ip) password "NO" "ONE").

Definition GetMaster (ip password : string) : M W string :=
  let! info := perform (redis_info (kvrocks_addr ip) password "replication") in
  ret (default EmptyString (find_master_host info)).

Definition SlaveOf (slaveIP masterIP password : string) : M W unit :=
  perform (redis_slaveof (kvrocks_addr slaveIP) password masterIP (Itoa KVRocksPort)).

(** The first line with the prefix decides; a prefix line without a colon
    panics. *)
Fixpoint offset_of_lines (ls : list string) : M W Z :=
  match ls with
  | [] => ret (-1)
  | line :: rest =>
      if HasPrefix line "slave_repl_offset" then
        let! v := deref (Split line ":" !! 1%nat) in ret (Atoi v).1
      else offset_of_lines rest
  end.

Definition GetOffset (ip password : string) : M W Z :=
  let! msg := perform (redis_info (kvrocks_addr ip) password "replication") in
  offset_of_lines (Split msg crlf).

Definition Ping (ip password : string) : M W bool :=
  let! r := catch (perform (redis_ping (kvrocks_addr ip) password)) in
  match r with
  | inl _ => ret true
  | inr _ => ret false
  end.

(** *** cluster.go *)

Definition ClusterNodeInfo (ip password : string) : M W Node :=
  let! info := perform (redis_cluster_nodes (kvrocks_addr ip) password) in
  lift (parseNodeInfo info).

(** *** sentinel.go *)

Definition GetMasterFromSentinel (sentinelIP sentinelPassword master : string) : M W string :=
  let! res := perform (sentinel_master (sentinel_addr sentinelIP) SuperUser sentinelPassword master) in
  ret (default EmptyString (res !! "ip")).

Definition RemoveMonitor (sentinelIP password master : string) : M W unit :=
  perform (sentinel_remove (sentinel_addr sentinelIP) SuperUser password master).

Definition CreateMonitor (sentinelIP password master ip kvPass : string) : M W unit :=
  let addr := sentinel_addr sentinelIP in
  perform (sentinel_monitor addr SuperUser password master ip (Itoa KVRocksPort) (Itoa Quorum)) ;;;
  perform (sentinel_set addr SuperUser password master "AUTH-PASS" kvPass) ;;;
  perform (sentinel_set addr SuperUser password master "failover-timeout" "30000") ;;;
  perform (sentinel_set addr SuperUser password master "down-after-milliseconds" "10000").

Definition ResetMonitor (sentinelIP sentinelPassword master password : string) : M W unit :=
  let addr := sentinel_addr sentinelIP in
  perform (sentinel_reset addr SuperUser sentinelPassword master) ;;;
  perform (sentinel_set addr SuperUser sentinelPassword master "AUTH-PASS" password).
End client.
