(* ===== verification/ControllerClient.v ===== *)
(** * The client of kvrocks-controller (pkg/client/controller)

    REST calls over the transport of [Env].  Bodies are JSON values; the
    decoding of replies into the client's structs follows [encoding/json]:
    members in order, names matched without regard to case, [null] leaves a
    field alone, a value of the wrong type is an error. *)

From S2P Require Import Prelude GoStd Types Env K8sClient.
From Stdlib Require Import Ascii.
Local Open Scope Z_scope.
Local Open Scope go_scope.

Record Controller := {
  ct_EndPoint : string;
  ct_Namespace : string;
  ct_ClusterName : string;
}.

(** The controller of [NewClient]. *)
Definition NewClient : Controller :=
  {| ct_EndPoint := EmptyString; ct_Namespace := "cluster-demo"; ct_ClusterName := "cluster-demo" |}.

(** [controller.Node] *)
Record CNode := {
  cn_ID : string;
  cn_Addr : string;
  cn_Role : string;
  cn_Password : string;
  cn_CreatedAt : Z;
}.

Record ShardData := {
  sd_Nodes : list CNode;
  sd_SlotRanges : list string;
  sd_ImportSlot : Z;
  sd_MigratingSlot : Z;
}.

(** ** Encoding of requests *)

Definition ClusterOption (name : string) (nodes : list string) (replicas : Z) (password : string) : json :=
  JObj [("name", JStr name); ("nodes", JArr (JStr <$> nodes)); ("replicas", JNum replicas); ("password", JStr password)].
Definition NodeOption (addr role password : string) : json :=
  JObj [("addr", JStr addr); ("role", JStr role); ("password", JStr password)].
Definition MigrationOption (source target slot : Z) : json :=
  JObj [("source", JNum source); ("target", JNum target); ("slot", JNum slot)].
Definition ShardOption (nodes : list string) (password : string) : json :=
  JObj [("nodes", JArr (JStr <$> nodes)); ("password", JStr password)].

(** ** Decoding of replies *)

Definition lower (c : ascii) : ascii :=
  let n := nat_of_ascii c in
  if ((65 <=? n) && (n <=? 90))%nat then ascii_of_nat (n + 32) else c.

Fixpoint eq_fold (a b : string) : bool :=
  match a, b with
  | EmptyString, EmptyString => true
  | String x a', String y b' => Ascii.eqb (lower x) (lower y) && eq_fold a' b'
  | _, _ => false
  end.

(** Decoders: [None] is a type error. *)
Definition dec_string (old : string) (v : json) : option string :=
  match v with JStr s => Some s | JNull => Some old | _ => None end.
Definition dec_int (old : Z) (v : json) : option Z :=
  match v with
  | JNum z => if (MinInt <=? z) && (z <=? MaxInt) then Some z else None
  | JNull => Some old
  | _ => None
  end.
Definition dec_list {A} (dec : json -> option A) (old : list A) (v : json) : option (list A) :=
  match v with
  | JArr l => mapM dec l
  | JNull => Some []
  | _ => None
  end.

(** Decoding an object into a struct: each member goes to the field its name
    selects, unknown members are skipped. *)
Definition dec_struct {A} (field : string -> A -> json -> option A) (zero : A) (v : json) : option A :=
  match v with
  | JObj members => foldl (fun acc m => acc ≫= fun a => field m.1 a m.2) (Some zero) members
  | JNull => Some zero
  | _ => None
  end.

Definition cnode_field (name : string) (n : CNode) (v : json) : option CNode :=
  if eq_fold name "id" then
    (fun s => {| cn_ID := s; cn_Addr := cn_Addr n; cn_Role := cn_Role n; cn_Password := cn_Password n;
                 cn_CreatedAt := cn_CreatedAt n |}) <$> dec_string (cn_ID n) v
  else if eq_fold name "addr" then
    (fun s => {| cn_ID := cn_ID n; cn_Addr := s; cn_Role := cn_Role n; cn_Password := cn_Password n;
                 cn_CreatedAt := cn_CreatedAt n |}) <$> dec_string (cn_Addr n) v
  else if eq_fold name "role" then
    (fun s => {| cn_ID := cn_ID n; cn_Addr := cn_Addr n; cn_Role := s; cn_Password := cn_Password n;
                 cn_CreatedAt := cn_CreatedAt n |}) <$> dec_string (cn_Role n) v
  else if eq_fold name "password" then
    (fun s => {| cn_ID := cn_ID n; cn_Addr := cn_Addr n; cn_Role := cn_Role n; cn_Password := s;
                 cn_CreatedAt := cn_CreatedAt n |}) <$> dec_string (cn_Password n) v
  else if eq_fold name "created_at" then
    (fun z => {| cn_ID := cn_ID n; cn_Addr := cn_Addr n; cn_Role := cn_Role n; cn_Password := cn_Password n;
                 cn_CreatedAt := z |}) <$> dec_int (cn_CreatedAt n) v
  else Some n.

Definition zero_cnode : CNode :=
  {| cn_ID := EmptyString; cn_Addr := EmptyString; cn_Role := EmptyString; cn_Password := EmptyString; cn_CreatedAt := 0 |}.
Definition dec_cnode : json -> option CNode := dec_struct cnode_field zero_cnode.

Definition shard_field (name : string) (d : ShardData) (v : json) : option ShardData :=
  if eq_fold name "nodes" then
    (fun l => {| sd_Nodes := l; sd_SlotRanges := sd_SlotRanges d; sd_ImportSlot := sd_ImportSlot d;
                 sd_MigratingSlot := sd_MigratingSlot d |}) <$> dec_list dec_cnode (sd_Nodes d) v
  else if eq_fold name "slot_ranges" then
    (fun l => {| sd_Nodes := sd_Nodes d; sd_SlotRanges := l; sd_ImportSlot := sd_ImportSlot d;
                 sd_MigratingSlot := sd_MigratingSlot d |}) <$> dec_list (dec_string EmptyString) (sd_SlotRanges d) v
  else if eq_fold name "import_slot" then
    (fun z => {| sd_Nodes := sd_Nodes d; sd_SlotRanges := sd_SlotRanges d; sd_ImportSlot := z;
                 sd_MigratingSlot := sd_MigratingSlot d |}) <$> dec_int (sd_ImportSlot d) v
  else if eq_fold name "migrating_slot" then
    (fun z => {| sd_Nodes := sd_Nodes d; sd_SlotRanges := sd_SlotRanges d; sd_ImportSlot := sd_ImportSlot d;
                 sd_MigratingSlot := z |}) <$> dec_int (sd_MigratingSlot d) v
  else Some d.

Definition zero_shard : ShardData :=
  {| sd_Nodes := []; sd_SlotRanges := []; sd_ImportSlot := 0; sd_MigratingSlot := 0 |}.
Definition dec_shard : json -> option ShardData := dec_struct shard_field zero_shard.

(** [map[string]T]: the last member of a name wins. *)
Definition dec_map {A} (dec : json -> option A) (v : json) : option (gmap string A) :=
  match v with
  | JObj members =>
      foldl (fun acc m => acc ≫= fun r => (fun a => <[m.1 := a]> r) <$> dec m.2) (Some ∅) members
  | JNull => Some ∅
  | _ => None
  end.

Definition lookup2 {A} (m : gmap string (gmap string A)) (k1 k2 : string) : option A :=
  m !! k1 ≫= fun m' => m' !! k2.

Definition dec_error_message : json -> option string :=
  dec_struct (fun name msg v =>
    if eq_fold name "error" then
      dec_struct (fun name' msg' v' => if eq_fold name' "message" then dec_string msg' v' else Some msg') msg v
    else Some msg) EmptyString.

Definition StatusOK : Z := 200.
Definition StatusCreated : Z := 201.

Definition err_json : goerr := EMsg "unreadable response body".
Definition err_format : goerr := EMsg "unexpected response format".
Definition err_status (code : Z) : goerr := EMsg ("unexpected response status code: " +:+ Itoa code).

Section client.
Context {W : Type} `{Kube W, Http W}.

Definition http_get (url : string) : M W http_response :=
  perform (http_do {| rq_Method := GET; rq_URL := url; rq_Body := None |}).
Definition http_post (url : string) (body : option json) : M W http_response :=
  perform (http_do {| rq_Method := POST; rq_URL := url; rq_Body := body |}).
Definition http_delete (url : string) : M W http_response :=
  perform (http_do {| rq_Method := DELETE; rq_URL := url; rq_Body := None |}).

(** [c.controller.EndPoint + "/namespaces/" + ... + "/clusters/" + ... + "/shards"] *)
Definition shards_url (c : Controller) : string :=
  ct_EndPoint c +:+ "/namespaces/" +:+ ct_Namespace c +:+ "/clusters/" +:+ ct_ClusterName c +:+ "/shards".
Definition shard_url (c : Controller) (shardIndex : Z) : string :=
  shards_url c +:+ "/" +:+ Itoa shardIndex.

(** Reading and decoding a body. *)
Definition read_json {A} (dec : json -> option A) (resp : http_response) : M W A :=
  match rs_Body resp with
  | None => throw err_json
  | Some v => match dec v with None => throw err_json | Some a => ret a end
  end.

Definition SetEndPoint (c : Controller) (namespace : string) : M W Controller :=
  let! service := GetService (NN namespace ControllerServiceName) in
  ret {| ct_EndPoint := "http://" +:+ sv_ClusterIP service +:+ ":" +:+ Itoa ControllerPort +:+ "/api/v1";
         ct_Namespace := ct_Namespace c; ct_ClusterName := ct_ClusterName c |}.

Definition CreateIfNotExistsNamespace (c : Controller) : M W unit :=
  let! resp := http_post (ct_EndPoint c +:+ "/namespaces") (Some (JObj [("namespace", JStr (ct_Namespace c))])) in
  if rs_StatusCode resp =? StatusCreated then ret tt
  else
    let! msg := read_json dec_error_message resp in
    if String.eqb msg "the entry already existed" then ret tt else throw (EMsg msg).

(** A status other than 201 returns the nil error of the transport. *)
Definition CreateCluster (c : Controller) (replicas : Z) (nodes : list string) (password : string) : M W unit :=
  let! resp := http_post (ct_EndPoint c +:+ "/namespaces/" +:+ ct_Namespace c +:+ "/clusters")
                 (Some (ClusterOption (ct_ClusterName c) nodes replicas password)) in
  if negb (rs_StatusCode resp =? StatusCreated) then ret tt else ret tt.

Definition CreateShard (c : Controller) (nodes : list string) (password : string) : M W unit :=
  let! resp := http_post (shards_url c) (Some (ShardOption nodes password)) in
  if rs_StatusCode resp =? StatusCreated then ret tt else throw (err_status (rs_StatusCode resp)).

(** A status other than 200 returns no shards and no error. *)
Definition GetShards (c : Controller) : M W (list ShardData) :=
  let! resp := http_get (shards_url c) in
  if rs_StatusCode resp =? StatusOK then
    let! m := read_json (dec_map (dec_map (dec_list dec_shard []))) resp in
    match lookup2 m "data" "shards" with
    | Some l => ret l
    | None => throw err_format
    end
  else ret [].

Definition DeleteShard (c : Controller) (shardIndex : Z) : M W unit :=
  let! resp := http_delete (shard_url c shardIndex) in
  if rs_StatusCode resp =? StatusOK then ret tt else throw (err_status (rs_StatusCode resp)).

(** A status other than 200 returns a nil pointer and no error. *)
Definition GetNodes (c : Controller) (shardIndex : Z) : M W (option ShardData) :=
  let! resp := http_get (shard_url c shardIndex) in
  if rs_StatusCode resp =? StatusOK then
    let! m := read_json (dec_map (dec_map dec_shard)) resp in
    match lookup2 m "data" "shard" with
    | Some d => ret (Some d)
    | None => throw err_format
    end
  else ret None.

Definition DeleteNode (c : Controller) (shardIndex : Z) (nodeID : string) : M W unit :=
  let! resp := http_delete (shard_url c shardIndex +:+ "/nodes/" +:+ nodeID) in
  if rs_StatusCode resp =? StatusOK then ret tt else throw (err_status (rs_StatusCode resp)).

Definition AddNode (c : Controller) (shardIndex : Z) (addr role password : string) : M W unit :=
  let! resp := http_post (shard_url c shardIndex +:+ "/nodes") (Some (NodeOption addr role password)) in
  if rs_StatusCode resp =? StatusCreated then ret tt else throw (err_status (rs_StatusCode resp)).

Definition FailoverShard (c : Controller) (shardIndex : Z) : M W unit :=
  let! resp := http_post (shard_url c shardIndex +:+ "/failover") None in
  if rs_StatusCode resp =? StatusOK then ret tt else throw (err_status (rs_StatusCode resp)).

Definition MigrateSlotAndData (c : Controller) (source target slot : Z) : M W unit :=
  let! resp := http_post (shards_url c +:+ "/migration/slot_data") (Some (MigrationOption source target slot)) in
  if rs_StatusCode resp =? StatusOK then ret tt else throw (err_status (rs_StatusCode resp)).
End client.
