(* ===== verification/Common.v ===== *)
(** * Commands shared by the handlers (pkg/controllers/common)

    [CommandHandler] holds the instance and the password the nodes currently
    accept; its methods bring configuration, stateful set size and sentinel
    monitors in line with the specification. *)

From S2P Require Import Prelude GoStd Types Env K8sClient KvClient Resources Scale.
Local Open Scope Z_scope.
Local Open Scope go_scope.

Record CommandHandler := NewCommandHandler {
  ch_instance : KVRocks;
  ch_password : string;
}.

(** [CommandHandler.ChangePassword] *)
Definition ch_ChangePassword (h : CommandHandler) (password : string) : CommandHandler :=
  NewCommandHandler (ch_instance h) password.

(** The interface [KVRocksHandler] of kvrocks_controller.go. *)
Class KVRocksHandler (H W : Type) := {
  handler_Handle : M (H * W) (option goerr * bool);
  handler_Finializer : M (H * W) unit;
  handler_Requeue : H -> bool;
}.

(** [err = m; if err != nil || h.requeue { return err, false }] before the
    statements [k], the shape of every [Handle]. *)
Definition stage {H W} (requeued : H -> bool) (m : M (H * W) unit) (k : M (H * W) (option goerr * bool))
    : M (H * W) (option goerr * bool) :=
  let! r := catch m in
  let! h := geth in
  match r with
  | inr e => ret (Some e, false)
  | inl _ => if requeued h then ret (None, false) else k
  end.

(** The pod takes the role as its label.  A write to the labels of a pod
    without labels is a write to a nil map. *)
Definition label_pod {W} `{Kube W} (key : NamespacedName) (role : string) : M W unit :=
  let! pod := GetPod key in
  let labels := om_Labels (pod_Meta pod) in
  when (negb (String.eqb (default EmptyString (labels !! KvrocksRole)) role))
    (if bool_decide (labels = ∅) then panic
     else UpdatePod (set_pod_Meta (set_om_Labels (<[KvrocksRole := role]> labels)) pod)).

Section common.
Context {W : Type} `{Env W, GoLib}.

(** *** config.go *)

(** The body of the inner loop: one configuration key of one node. *)
Definition ensure_key (h : CommandHandler) (p : option Node) (kv : string * string) : M W unit :=
  let! node := deref p in
  let! curValue := GetConfig (n_IP node) (ch_password h) kv.1 in
  when (negb (String.eqb curValue kv.2)) (SetConfig (n_IP node) (ch_password h) kv.1 kv.2).

Definition EnsureConfig (h : CommandHandler) (nodes : list (option Node)) : M W unit :=
  let spec := kv_Spec (ch_instance h) in
  let config := ParseKVRocksConfigs (sp_KVRocksConfig spec) in
  forM nodes (fun p =>
    forM (range_map config) (ensure_key h p) ;;;
    when (negb (String.eqb (ch_password h) (sp_Password spec)))
      (let! node := deref p in ChangePassword (n_IP node) (ch_password h) (sp_Password spec))).

(** *** sentinel.go *)

(** [GetSentinel]: the pods and the password of the sentinel, the requeue
    flag, and the error. *)
Definition GetSentinel (key : NamespacedName) : M W (option (list Pod * string) * bool * option goerr) :=
  let! r := catch (GetKVRocks key) in
  match r with
  | inr e => ret (None, true, Some e)
  | inl sentinel =>
      if negb (String.eqb (st_Status (kv_Status sentinel)) StatusRunning) then ret (None, true, None)
      else
        let! r' := catch (ListDeploymentPods key) in
        match r' with
        | inr e => ret (None, false, Some e)
        | inl pods => ret (Some (pods, sp_Password (kv_Spec sentinel)), false, None)
        end
  end.

Definition GetOrCreateSentinel (h : CommandHandler) : M W (option (list Pod * string) * bool * option goerr) :=
  let sentinel := GetSentinelInstance (ch_instance h) in
  let! r := catch (CreateIfNotExistsKVRocks sentinel) in
  match r with
  | inr e => ret (None, false, Some e)
  | inl sentinel => GetSentinel (NN (kv_Namespace sentinel) (kv_Name sentinel))
  end.

(** [masterName] with the shard index appended when one is given. *)
Definition shard_master_name (masterName : string) (index : option Z) : string :=
  match index with
  | Some i => masterName +:+ "-" +:+ Itoa i
  | None => masterName
  end.

(** One sentinel of [EnsureSentinel] (and of the sentinel handler's
    [ensureMonitor]): monitor the master, replacing a stale entry. *)
Definition ensure_monitor_at (sentinelIP sentinelPassword masterName masterIP password : string) : M W unit :=
  let! r := catch (GetMasterFromSentinel sentinelIP sentinelPassword masterName) in
  let create :=
    catch (RemoveMonitor sentinelIP sentinelPassword masterName) ;;;
    CreateMonitor sentinelIP sentinelPassword masterName masterIP password in
  match r with
  | inr _ => create
  | inl m =>
      if negb (String.eqb m masterIP) then create
      else ResetMonitor sentinelIP sentinelPassword masterName password
  end.

Definition EnsureSentinel (h : CommandHandler) (masterIP : string) (index : option Z) : M W (bool * option goerr) :=
  let! (r, requeue, err) := GetOrCreateSentinel h in
  match r, requeue, err with
  | Some (pods, sentinelPassword), false, None =>
      let masterName := shard_master_name (ParseRedisName (kv_Name (ch_instance h))).2 index in
      let! r' := catch (forM pods (fun sentinel =>
        ensure_monitor_at (pod_PodIP sentinel) sentinelPassword masterName masterIP (ch_password h))) in
      match r' with
      | inr e => ret (false, Some e)
      | inl _ => ret (false, None)
      end
  | _, _, _ => ret (requeue, err)
  end.

(** One sentinel of [CommandHandler.RemoveMonitor]. *)
Definition remove_monitor_at (sentinelIP sentinelPassword masterName : string) : M W unit :=
  let! r := catch (GetMasterFromSentinel sentinelIP sentinelPassword masterName) in
  match r with
  | inl _ => RemoveMonitor sentinelIP sentinelPassword masterName
  | inr _ => ret tt
  end.

(** [CommandHandler.RemoveMonitor] *)
Definition ch_RemoveMonitor (h : CommandHandler) (masterName : string) (index : option Z) : M W (bool * option goerr) :=
  let key := NN (kv_Namespace (ch_instance h)) (default EmptyString (kv_Labels (ch_instance h) !! MonitoredBy)) in
  let! (r, requeue, err) := GetSentinel key in
  match r, requeue, err with
  | Some (pods, sentinelPassword), false, None =>
      let! r' := catch (forM pods (fun sentinel =>
        remove_monitor_at (pod_PodIP sentinel) sentinelPassword (shard_master_name masterName index))) in
      match r' with
      | inr e => ret (false, Some e)
      | inl _ => ret (false, None)
      end
  | _, _, _ => ret (requeue, err)
  end.

(** *** kubernetes.go *)

(** Returns the requeue flag, the error and the nodes with the removed
    positions cleared. *)
Definition ResizeStatefulSet (h : CommandHandler) (stsNodes : list (option Node)) (index : option Z)
    : M W (bool * option goerr * list (option Node)) :=
  let instance := ch_instance h in
  let delta := Z.of_nat (length stsNodes) - sp_Replicas (kv_Spec instance) in
  if delta =? 0 then ret (false, None, stsNodes)
  else if 0 <? delta then
    let! sts := lift (NewReplicationStatefulSet instance) in
    let! sts := (match index with
                 | Some i => lift (NewClusterStatefulSet instance i)
                 | None => ret sts
                 end) in
    let! (reserve, masterID) := lift (reserve_scan (reverse stsNodes) delta [] 0) in
    let! (stsNodes', result) := lift (clear_reserved (reverse reserve) masterID stsNodes []) in
    let! r := catch (CreateOrUpdateStatefulSet (set_ss_ReserveOrdinals (ss_ReserveOrdinals sts ++ result) sts)) in
    match r with
    | inr e => ret (true, Some e, stsNodes')
    | inl _ => ret (true, None, stsNodes')
    end
  else ret (true, None, stsNodes).
End common.
