(* ===== verification/SentinelNotify.v ===== *)
(** * Notifying the sentinel (pkg/controllers/sentinel/kubernetes.go)

    [UpdateSentinelAnnotationCount], called by the standard and the cluster
    handlers to make the sentinel resource reconcile. *)

From S2P Require Import Prelude GoStd Types Env K8sClient.
Local Open Scope Z_scope.
Local Open Scope go_scope.

Definition change_count : string := "change-count".

Section notify.
Context {W : Type} `{Kube W}.

Definition UpdateSentinelAnnotationCount (namespace sentinelName : string) : M W unit :=
  let! sentinel := GetKVRocks (NN namespace sentinelName) in
  let annotations := om_Annotations (kv_Meta sentinel) in
  let count := default "0" (annotations !! change_count) in
  match Atoi count with
  | (_, Some e) => throw (atoi_err e)
  | (countInt, None) =>
      UpdateKVRocks (set_kv_Meta (set_om_Annotations (<[change_count := Itoa (int64 (countInt + 1))]> annotations)) sentinel) ;;;
      ret tt
  end.
End notify.
