(* ===== verification/Cluster.v ===== *)
(** * The cluster handler (pkg/controllers/cluster)

    [KVRocksClusterHandler] and its methods, one definition per method:
    [handler.go], [controller.go], [kubernetes.go], [kvrocks.go],
    [rebalance.go] and [sentinel.go].  The handler's node table is a slice of
    slices of pointers; a node is updated in place through its position. *)

From S2P Require Import Prelude GoStd Types Slots Resources Scale Env K8sClient KvClient ControllerClient Common SentinelNotify.
Local Open Scope Z_scope.
Local Open Scope go_scope.

Record ClusterHandler := {
  hc_instance : KVRocks;
  hc_password : string;
  hc_requeue : bool;
  hc_stsNodes : list (slice (option Node));
  hc_key : NamespacedName;
  hc_version : Z;
  hc_masters : gmap string (nat * nat);
  hc_controller : Controller;
}.

Definition NewKVRocksClusterHandler (key : NamespacedName) (instance : KVRocks) (controllerClient : Controller) : ClusterHandler :=
  {| hc_instance := instance; hc_password := EmptyString; hc_requeue := false; hc_stsNodes := [];
     hc_key := key; hc_version := 0; hc_masters := ∅; hc_controller := controllerClient |}.

(** Assignments to the handler's fields. *)
Definition hc_set_instance (f : KVRocks -> KVRocks) (h : ClusterHandler) : ClusterHandler :=
  {| hc_instance := f (hc_instance h); hc_password := hc_password h; hc_requeue := hc_requeue h;
     hc_stsNodes := hc_stsNodes h; hc_key := hc_key h; hc_version := hc_version h;
     hc_masters := hc_masters h; hc_controller := hc_controller h |}.
Definition hc_set_password (v : string) (h : ClusterHandler) : ClusterHandler :=
  {| hc_instance := hc_instance h; hc_password := v; hc_requeue := hc_requeue h;
     hc_stsNodes := hc_stsNodes h; hc_key := hc_key h; hc_version := hc_version h;
     hc_masters := hc_masters h; hc_controller := hc_controller h |}.
Definition hc_set_requeue (v : bool) (h : ClusterHandler) : ClusterHandler :=
  {| hc_instance := hc_instance h; hc_password := hc_password h; hc_requeue := v;
     hc_stsNodes := hc_stsNodes h; hc_key := hc_key h; hc_version := hc_version h;
     hc_masters := hc_masters h; hc_controller := hc_controller h |}.
Definition hc_set_stsNodes (f : list (slice (option Node)) -> list (slice (option Node))) (h : ClusterHandler) : ClusterHandler :=
  {| hc_instance := hc_instance h; hc_password := hc_password h; hc_requeue := hc_requeue h;
     hc_stsNodes := f (hc_stsNodes h); hc_key := hc_key h; hc_version := hc_version h;
     hc_masters := hc_masters h; hc_controller := hc_controller h |}.
Definition hc_set_version (v : Z) (h : ClusterHandler) : ClusterHandler :=
  {| hc_instance := hc_instance h; hc_password := hc_password h; hc_requeue := hc_requeue h;
     hc_stsNodes := hc_stsNodes h; hc_key := hc_key h; hc_version := v;
     hc_masters := hc_masters h; hc_controller := hc_controller h |}.
Definition hc_set_masters (v : gmap string (nat * nat)) (h : ClusterHandler) : ClusterHandler :=
  {| hc_instance := hc_instance h; hc_password := hc_password h; hc_requeue := hc_requeue h;
     hc_stsNodes := hc_stsNodes h; hc_key := hc_key h; hc_version := hc_version h;
     hc_masters := v; hc_controller := hc_controller h |}.
Definition hc_set_controller (v : Controller) (h : ClusterHandler) : ClusterHandler :=
  {| hc_instance := hc_instance h; hc_password := hc_password h; hc_requeue := hc_requeue h;
     hc_stsNodes := hc_stsNodes h; hc_key := hc_key h; hc_version := hc_version h;
     hc_masters := hc_masters h; hc_controller := v |}.

(** The node table: reading and writing [h.stsNodes[i][j]]. *)
Definition lookup_node (t : list (slice (option Node))) (i j : nat) : option Node :=
  match t !! i with
  | Some sts => match items sts !! j with Some (Some n) => Some n | _ => None end
  | None => None
  end.

Definition alter_node (f : Node -> Node) (i j : nat) (t : list (slice (option Node))) : list (slice (option Node)) :=
  alter (smap (alter (option_map f) j)) i t.

(** ** The status topology *)

(** [sort.Ints] in [SlotsToString] sorts the slices of the node in place. *)
Definition sort_migrate (m : NodeMigrateMsg) : NodeMigrateMsg :=
  {| nm_Shard := nm_Shard m; nm_Slots := sort_ints (nm_Slots m) |}.

Definition sort_node (n : Node) : Node :=
  set_n_Migrate (smap (fmap sort_migrate) (n_Migrate n)) (set_n_Slots (sort_ints (n_Slots n)) n).

Definition migrate_topo (m : NodeMigrateMsg) : MigrateMsg :=
  {| mg_Shard := nm_Shard m; mg_Slots := SlotsToString (nm_Slots m) |}.

Definition node_topo (partitionName : string) (j : nat) (n : Node) : KVRocksTopology :=
  {| t_Pod := partitionName +:+ "-" +:+ Itoa (Z.of_nat j);
     t_Role := n_Role n;
     t_NodeId := n_NodeId n;
     t_Ip := n_IP n;
     t_Port := KVRocksPort;
     t_Slots := SlotsToString (n_Slots n);
     t_MasterId := n_Master n;
     t_Migrate := sappend None (migrate_topo <$> items (n_Migrate n));
     t_Failover := false |}.

(** The inner loop of [ensureStatusTopoMsg]: nil nodes are skipped, the pod is
    named after the position. *)
Fixpoint topo_nodes (partitionName : string) (j : nat) (sts : list (option Node)) : list KVRocksTopology :=
  match sts with
  | [] => []
  | None :: rest => topo_nodes partitionName (S j) rest
  | Some n :: rest => node_topo partitionName j n :: topo_nodes partitionName (S j) rest
  end.

(** The outer loop: nil shards are skipped. *)
Fixpoint topo_shards (name : string) (i : nat) (t : list (slice (option Node))) : list KVRocksTopoPartitions :=
  match t with
  | [] => []
  | None :: rest => topo_shards name (S i) rest
  | Some sts :: rest =>
      {| p_PartitionName := GetStatefulSetName name (Some (Z.of_nat i));
         p_Shard := Z.of_nat i;
         p_Topology := topo_nodes (GetStatefulSetName name (Some (Z.of_nat i))) 0 sts |}
        :: topo_shards name (S i) rest
  end.

(** The table after the loops: every node written to the topology is sorted. *)
Definition sort_table (t : list (slice (option Node))) : list (slice (option Node)) :=
  smap (fmap (option_map sort_node)) <$> t.

(** "fix topo message" of [ensureKubernetes]: what one entry of the stored
    topology writes into its node. *)
Definition load_migrate (m : MigrateMsg) : outcome NodeMigrateMsg :=
  omap_ok (fun slots => {| nm_Shard := mg_Shard m; nm_Slots := slots |}) (SlotsToInt (mg_Slots m)).

Fixpoint load_migrates (ms : list MigrateMsg) : outcome (list NodeMigrateMsg) :=
  match ms with
  | [] => Ok []
  | m :: rest =>
      match load_migrate m with
      | Ok x => omap_ok (cons x) (load_migrates rest)
      | Err e => Err e
      | Panic => Panic
      | Hangs => Hangs
      end
  end.

Definition load_topo (topo : KVRocksTopology) (slots : list Z) (migrates : list NodeMigrateMsg) (n : Node) : Node :=
  let n := set_n_NodeId (t_NodeId topo) n in
  let n := set_n_Role (t_Role topo) n in
  let n := set_n_Master (t_MasterId topo) n in
  let n := set_n_Slots slots n in
  let n := set_n_Failover (t_Failover topo) n in
  set_n_Migrate (sappend (n_Migrate n) migrates) n.

(** "init h.stsNode": the pods of one stateful set, in the order of their
    ordinals ([sort.Slice]). *)
Definition node_le (a b : option Node) : Prop :=
  match a, b with
  | Some x, Some y => n_PodIndex x <= n_PodIndex y
  | _, _ => True
  end.

#[export] Instance node_le_dec a b : Decision (node_le a b).
Proof. destruct a, b; simpl; apply _. Defined.

Section cluster.
Context {W : Type} `{Env W, GoLib}.
#[local] Abbreviation C := (M (ClusterHandler * W)).

Definition get_node (i j : nat) : C Node :=
  let! h := geth in deref (lookup_node (hc_stsNodes h) i j).

(** [h.stsNodes[i][j]] updated in place. *)
Definition mod_node (i j : nat) (f : Node -> Node) : C unit :=
  get_node i j ;;; modh (hc_set_stsNodes (alter_node f i j)).

Definition requeue (b : bool) : C unit := modh (hc_set_requeue b).

(** [h.k8s.UpdateKVRocks(h.instance)]: the instance takes what the server
    returned. *)
Definition update_instance : C unit :=
  let! h := geth in
  let! stored := onW (UpdateKVRocks (hc_instance h)) in
  modh (hc_set_instance (fun _ => stored)).

(** [for i, sts := range h.stsNodes { f i sts }] *)
Definition at_shard (f : nat -> list (option Node) -> C unit) (i : nat) : C unit :=
  let! h := geth in
  let! sts := deref (hc_stsNodes h !! i) in
  f i (items sts).

Definition for_shards (f : nat -> list (option Node) -> C unit) : C unit :=
  let! h := geth in
  forM (seq 0 (length (hc_stsNodes h))) (at_shard f).

(** [for j, node := range sts { f j }], for loops that update nodes. *)
Definition for_nodes (sts : list (option Node)) (f : nat -> C unit) : C unit :=
  forM (seq 0 (length sts)) f.

Definition commHandler (h : ClusterHandler) : CommandHandler :=
  NewCommandHandler (hc_instance h) (hc_password h).

(** ** controller.go *)

Definition createControllerNamespace : C unit :=
  let! h := geth in onW (CreateIfNotExistsNamespace (hc_controller h)).

Definition ensureController : C unit :=
  let! h := geth in
  let instance := hc_instance h in
  let ns := kv_Namespace instance in
  onW (CreateIfNotExistsService (NewEtcdService instance)) ;;;
  onW (CreateIfNotExistsNativeStatefulSet (NewEtcdStatefulSet instance)) ;;;
  let! etcd := onW (GetNativeStatefulSet (NN ns EtcdStatefulName)) in
  if negb (ns_ReadyReplicas etcd =? ns_Replicas etcd) then requeue true
  else
    onW (CreateIfNotExistsConfigMap (NewKVRocksControllerConfigmap instance)) ;;;
    onW (CreateIfNotExistsService (NewKVRocksControllerService instance)) ;;;
    onW (CreateIfNotExistsDeployment (NewKVRocksControllerDeployment instance)) ;;;
    let! dep := onW (GetDeployment (NN ns ControllerDeploymentName)) in
    if negb (d_ReadyReplicas dep =? d_Replicas dep) then requeue true
    else
      let! c := onW (SetEndPoint (hc_controller h) ns) in
      modh (hc_set_controller c) ;;;
      createControllerNamespace.

Definition removeController : C bool :=
  let! h := geth in
  let ns := kv_Namespace (hc_instance h) in
  onW (DeleteDeployment (NN ns ControllerDeploymentName)) ;;;
  onW (DeleteService (NN ns ControllerServiceName)) ;;;
  onW (DeleteConfigMap (NN ns "controller-config")) ;;;
  onW (DeleteNativeStatefulSet (NN ns EtcdStatefulName)) ;;;
  onW (DeleteService (NN ns EtcdServiceName)) ;;;
  ret false.

(** ** kubernetes.go *)

(** [h.instance.Status.Topo] and [Version] from the node table, and the
    update of the resource. *)
Definition ensureStatusTopoMsg : C unit :=
  modh (fun h => hc_set_instance (set_kv_Status (fun st =>
    set_st_Version (hc_version h)
      (set_st_Topo (sappend None (topo_shards (kv_Name (hc_instance h)) 0 (hc_stsNodes h))) st))) h) ;;;
  modh (hc_set_stsNodes sort_table) ;;;
  let! r := catch update_instance in
  match r with
  | inr e => requeue true ;;; throw e
  | inl _ => ret tt
  end.

Definition int_Master (instance : KVRocks) : Z := int64 (sp_Master (kv_Spec instance)).

(** "scaling up": one stateful set. *)
Definition scale_up_set (i : Z) : C unit :=
  let! h := geth in
  let! sts := lift (NewClusterStatefulSet (hc_instance h) i) in
  let! oldSts := onW (GetStatefulSet (NN (kv_Namespace (hc_instance h)) (ss_Name sts))) in
  let sts := set_ss_Meta (set_om_ResourceVersion (om_ResourceVersion (ss_Meta oldSts))) sts in
  let delta := int32 (ss_Replicas sts - ss_Replicas oldSts) in
  when (0 <? delta)
    (onW (UpdateStatefulSet (set_ss_ReserveOrdinals (release_reserved delta (ss_ReserveOrdinals oldSts)) sts)) ;;; ret tt).

Definition init_pod (i : nat) (pod : Pod) : C (ctl unit) :=
  match om_DeletionTimestamp (pod_Meta pod) with
  | Some _ => requeue true ;;; ret (Return tt)
  | None =>
      let! podIndex := lift (GetPVCOrPodIndex (om_Name (pod_Meta pod))) in
      modh (hc_set_stsNodes (alter (fun sts => sappend sts [Some (new_node (pod_PodIP pod) podIndex)]) i)) ;;;
      ret Next
  end.

Definition init_set (i : nat) : C (ctl unit) :=
  let! h := geth in
  let key := NN (kv_Namespace (hc_instance h)) (GetStatefulSetName (kv_Name (hc_instance h)) (Some (Z.of_nat i))) in
  let! sts := onW (GetStatefulSet key) in
  if negb (ss_ReadyReplicas sts =? ss_Replicas sts) then requeue true ;;; ret (Return tt)
  else
    let! pods := onW (ListStatefulSetPods key) in
    let! c := forR pods (init_pod i) in
    match c with
    | Return r => ret (Return r)
    | Next => modh (hc_set_stsNodes (alter (smap (merge_sort node_le)) i)) ;;; ret Next
    end.

(** "fix topo message" *)
Definition load_node (i j : nat) (topo : KVRocksTopology) : C unit :=
  get_node i j ;;;
  let! slots := lift (SlotsToInt (t_Slots topo)) in
  let! migrates := lift (load_migrates (items (t_Migrate topo))) in
  mod_node i j (load_topo topo slots migrates).

Definition fix_topo : C unit :=
  let! h := geth in
  forM (imap pair (items (st_Topo (kv_Status (hc_instance h))))) (fun p =>
    forM (imap pair (p_Topology p.2)) (fun q => load_node p.1 q.1 q.2)).

Definition ensureKubernetes : C unit :=
  let! h := geth in
  let instance := hc_instance h in
  onW (CreateIfNotExistsConfigMap (NewKVRocksConfigMap instance)) ;;;
  onW (CreateIfNotExistsService (NewKVRocksService instance)) ;;;
  let! r := onW (catch (GetConfigMap (hc_key h))) in
  match r with
  | inr e => if IsNotFound e then requeue true else throw e
  | inl oldCM =>
      modh (hc_set_password (default EmptyString (cm_Data oldCM !! "password"))) ;;;
      forM (irange 0 (int_Master instance - 1)) (fun i =>
        let! sts := lift (NewClusterStatefulSet instance i) in
        onW (CreateStatefulSetOrUpdateImage sts) ;;; ret tt) ;;;
      let! curStsList := onW (ListStatefulSets (kv_Namespace instance) (SelectorLabels instance)) in
      let n := length curStsList in
      if Z.of_nat n <? int_Master instance then requeue true
      else
        modh (hc_set_stsNodes (fun _ => replicate n None)) ;;;
        forM (seq 0 n) (fun i => scale_up_set (Z.of_nat i)) ;;;
        after (forR (seq 0 n) init_set)
          (let! curInstance := onW (GetKVRocks (hc_key h)) in
           if negb (String.eqb (om_ResourceVersion (kv_Meta instance)) (om_ResourceVersion (kv_Meta curInstance)))
           then requeue true
           else
             fix_topo ;;;
             modh (hc_set_version (st_Version (kv_Status instance))))
  end.

(** [h.requeue, err = m] for the commands that return both. *)
Definition set_requeue_err (m : M W (bool * option goerr)) : C unit :=
  let! (b, err) := onW m in
  requeue b ;;;
  match err with
  | Some e => throw e
  | None => ret tt
  end.

Definition masterName (h : ClusterHandler) : string := (ParseRedisName (kv_Name (hc_instance h))).2.

(** The reserve map of [ensureShrink]: [getReserveIndex] on every wanted
    shard, whose cleared nodes stay cleared in the table. *)
Definition shrink_shard (reserves : gmap string (list Z)) (i : Z) : C (gmap string (list Z)) :=
  let! h := geth in
  let! sts := deref (hc_stsNodes h !! Z.to_nat i) in
  let! (reserve, nodes) := lift (getReserveIndex (sp_Replicas (kv_Spec (hc_instance h))) (items sts)) in
  modh (hc_set_stsNodes (alter (smap (fun _ => nodes)) (Z.to_nat i))) ;;;
  match reserve with
  | Some r => ret (<[GetStatefulSetName (kv_Name (hc_instance h)) (Some i) := r]> reserves)
  | None => ret reserves
  end.

(** A shard beyond [Spec.Master] is taken out of the table. *)
Definition drop_shard (shrinkIndex : list Z) (i : Z) : C (list Z) :=
  let! h := geth in
  set_requeue_err (ch_RemoveMonitor (commHandler h) (masterName h) (Some i)) ;;;
  modh (hc_set_stsNodes (alter (fun _ => None) (Z.to_nat i))) ;;;
  ret (shrinkIndex ++ [i]).

Definition ensureShrink : C unit :=
  let! h := geth in
  if st_Rebalance (kv_Status (hc_instance h)) then ret tt
  else
    let master := int_Master (hc_instance h) in
    let! shrinkIndex := foldM drop_shard [] (irange master (Z.of_nat (length (hc_stsNodes h)) - 1)) in
    let! reserves := foldM shrink_shard ∅ (irange 0 (master - 1)) in
    if bool_decide (shrinkIndex = []) && bool_decide (reserves = ∅) then ret tt
    else
      modh (hc_set_instance (set_kv_Status (set_st_Shrink
        (Some {| sh_Partition := shrinkIndex; sh_ReserveMsg := reserves |})))) ;;;
      ensureStatusTopoMsg.

(** One entry of the reserve message of [cleanStatefulSet].  The set gets the
    value behind the pointer to [instance.Spec.Replicas], which nothing changes
    before the set is sent. *)
Definition apply_reserve (kv : string * list Z) : C unit :=
  let! h := geth in
  let instance := hc_instance h in
  let! sts := onW (GetStatefulSet (NN (kv_Namespace instance) kv.1)) in
  onW (UpdateStatefulSet (set_ss_ReserveOrdinals (ss_ReserveOrdinals sts ++ kv.2)
         (set_ss_Replicas (sp_Replicas (kv_Spec instance)) sts))) ;;;
  ret tt.

Definition cleanStatefulSet : C unit :=
  let! h := geth in
  let instance := hc_instance h in
  let! shrink := deref (st_Shrink (kv_Status instance)) in
  forM (sh_Partition shrink) (fun index =>
    onW (DeleteStatefulSetIfExists (NN (kv_Namespace instance) (GetStatefulSetName (kv_Name instance) (Some index))))) ;;;
  forM (range_map (sh_ReserveMsg shrink)) apply_reserve ;;;
  modh (hc_set_instance (set_kv_Status (fun st => set_st_Version (int64 (st_Version st + 1)) (set_st_Shrink None st)))) ;;;
  update_instance.

(** [h.stsNodes[stsIdx][i].PodIndex >= podIdx], the closure of [sort.Search]. *)
Definition pod_index_at (nodes : list (option Node)) (i : nat) : outcome Z :=
  match nodes !! i with
  | Some (Some n) => Ok (n_PodIndex n)
  | _ => Panic
  end.

(** Whether the claim of pod [podIdx] is to be removed. *)
Definition pvc_unused (nodes : list (option Node)) (podIdx : Z) : outcome bool :=
  match Search (length nodes) (fun i => omap_ok (fun x => podIdx <=? x) (pod_index_at nodes i)) with
  | Ok pos =>
      if (length nodes <=? pos)%nat then Ok true
      else omap_ok (fun x => negb (x =? podIdx)) (pod_index_at nodes pos)
  | Err e => Err e
  | Panic => Panic
  | Hangs => Hangs
  end.

(** [fields[len(fields)-2]] and [fields[len(fields)-1]] as numbers, errors
    of [Atoi] dropped. *)
Definition pvc_indices (name : string) : option (Z * Z) :=
  match reverse (Split name "-") with
  | pod :: sts :: _ => Some ((Atoi sts).1, (Atoi pod).1)
  | _ => None
  end.

Definition clean_pvc (pvc : PersistentVolumeClaim) : C unit :=
  let! h := geth in
  let! (stsIdx, podIdx) := deref (pvc_indices (om_Name (pvc_Meta pvc))) in
  let! remove :=
    (if int_Master (hc_instance h) <=? stsIdx then ret true
     else if stsIdx <? 0 then panic
     else
       let! sts := deref (hc_stsNodes h !! Z.to_nat stsIdx) in
       lift (pvc_unused (items sts) podIdx)) in
  when remove (onW (DeletePVC pvc)).

Definition cleanPersistentVolumeClaim : C unit :=
  let! h := geth in
  match st_Shrink (kv_Status (hc_instance h)) with
  | Some _ => ret tt
  | None =>
      let! pvcList := onW (ListPVC (kv_Namespace (hc_instance h)) (SelectorLabels (hc_instance h))) in
      forM pvcList clean_pvc
  end.

(** ** kvrocks.go *)

Definition updatePodLabels (key : NamespacedName) (role : string) : M W unit := label_pod key role.

(** The pod of node [j] of shard [i] takes the node's role. *)
Definition label_node (i j : nat) : C unit :=
  let! h := geth in
  let! node := get_node i j in
  let set := GetStatefulSetName (kv_Name (hc_instance h)) (Some (Z.of_nat i)) in
  onW (updatePodLabels (NN (kv_Namespace (hc_instance h)) (set +:+ "-" +:+ Itoa (n_PodIndex node))) (n_Role node)).

Definition ensureKVRocksConfig : C unit :=
  let! h := geth in
  for_shards (fun _ sts => onW (EnsureConfig (commHandler h) sts)) ;;;
  modh (hc_set_password (sp_Password (kv_Spec (hc_instance h)))) ;;;
  onW (UpdateConfigMap (NewKVRocksConfigMap (hc_instance h))).

Definition initCluster : C unit :=
  for_shards (fun i _ => mod_node i 0 (set_n_Role RoleMaster)) ;;;
  for_shards (fun i sts => for_nodes sts (fun j =>
    when (negb (j =? 0)%nat) (mod_node i j (set_n_Role RoleSlaver)) ;;;
    label_node i j)).

(** The node id of the first master of a shard, [""] when there is none. *)
Fixpoint find_master (sts : list (option Node)) : outcome string :=
  match sts with
  | [] => Ok EmptyString
  | None :: _ => Panic
  | Some n :: rest => if String.eqb (n_Role n) RoleMaster then Ok (n_NodeId n) else find_master rest
  end.

(** What [ensureReplication] does to a node of a shard led by [masterNodeID]. *)
Definition follow (masterNodeID : string) (n : Node) : Node :=
  if negb (String.eqb (n_NodeId n) masterNodeID) && negb (String.eqb (n_Master n) masterNodeID)
  then set_n_Role RoleSlaver (set_n_Master masterNodeID n) else n.

Definition ensureReplication : C unit :=
  for_shards (fun i sts =>
    let! found := lift (find_master sts) in
    let! masterNodeID :=
      (if String.eqb found EmptyString then
         mod_node i 0 (set_n_Role RoleMaster) ;;;
         let! node := get_node i 0 in ret (n_NodeId node)
       else ret found) in
    for_nodes sts (fun j => mod_node i j (follow masterNodeID) ;;; label_node i j)).

(** [ensureVersion]: whether the stored topology differs from the table.
    [h.stsNodes[i]] and [h.stsNodes[i][j]] are read under the preceding
    length tests; a nil node panics. *)
Fixpoint topo_differs (topos : list KVRocksTopology) (sts : list (option Node)) : outcome bool :=
  match topos, sts with
  | [], _ => Ok false
  | topo :: topos', Some n :: sts' =>
      if negb (String.eqb (t_Ip topo) (n_IP n)) then Ok true
      else if negb (String.eqb (t_Role topo) (n_Role n)) then Ok true
      else topo_differs topos' sts'
  | _ :: _, _ => Panic
  end.

Fixpoint partitions_differ (ps : list KVRocksTopoPartitions) (t : list (slice (option Node))) : outcome bool :=
  match ps, t with
  | [], _ => Ok false
  | p :: ps', sts :: t' =>
      if negb (length (p_Topology p) =? length (items sts))%nat then Ok true
      else match topo_differs (p_Topology p) (items sts) with
           | Ok false => partitions_differ ps' t'
           | r => r
           end
  | _ :: _, [] => Panic
  end.

Definition version_changes (topo : slice KVRocksTopoPartitions) (t : list (slice (option Node))) : outcome bool :=
  match topo with
  | None => Ok true
  | Some ps => if negb (length t =? length ps)%nat then Ok true else partitions_differ ps t
  end.

(** [h.version++] *)
Definition bump_version : C unit := modh (fun h => hc_set_version (int64 (hc_version h + 1)) h).

Definition ensureVersion : C unit :=
  let! h := geth in
  let! changed := lift (version_changes (st_Topo (kv_Status (hc_instance h))) (hc_stsNodes h)) in
  when changed bump_version.

(** The body of the loops of [ensureFailover]: the pod is named after the
    position of the node.  Returns whether the topology changed. *)
Definition failover_node (i j : nat) : C bool :=
  let! h := geth in
  let! node := get_node i j in
  if n_Failover node then
    requeue true ;;;
    let! alive := onW (Ping (n_IP node) (hc_password h)) in
    if (alive : bool) then mod_node i j (set_n_Failover false) ;;; ret true
    else
      let podName := kv_Name (hc_instance h) +:+ "-" +:+ Itoa (Z.of_nat i) +:+ "-" +:+ Itoa (Z.of_nat j) in
      onW (DeletePVCByPod podName (kv_Namespace (hc_instance h))) ;;;
      onW (DeletePodImmediately podName (kv_Namespace (hc_instance h))) ;;;
      mod_node i j (set_n_Failover false) ;;; ret true
  else
    let! alive := onW (Ping (n_IP node) (hc_password h)) in
    when (negb alive)
      (requeue true ;;;
       onW (modify (send_failover (n_IP node) (hc_key h) (Z.of_nat i)))) ;;;
    ret false.

Definition ensureFailover : C unit :=
  let! h := geth in
  let! change :=
    foldM (fun change i =>
      let! h := geth in
      let! sts := deref (hc_stsNodes h !! i) in
      foldM (fun change j => let! b := failover_node i j in ret (change || b))
        change (seq 0 (length (items sts))))
      false (seq 0 (length (hc_stsNodes h))) in
  when change (bump_version ;;; ensureStatusTopoMsg).

Definition simplyIp (ip : string) : string := hd EmptyString (Split ip ":").

(** [node.IP + ":" + strconv.Itoa(kvrocks.KVRocksPort)] for every node. *)
Fixpoint node_addrs (sts : list (option Node)) : outcome (list string) :=
  match sts with
  | [] => Ok []
  | None :: _ => Panic
  | Some n :: rest => omap_ok (cons (n_IP n +:+ ":" +:+ Itoa KVRocksPort)) (node_addrs rest)
  end.

Fixpoint table_addrs (t : list (slice (option Node))) : outcome (list string) :=
  match t with
  | [] => Ok []
  | sts :: rest =>
      match node_addrs (items sts) with
      | Ok l => omap_ok (app l) (table_addrs rest)
      | r => r
      end
  end.

(** What a member of the controller's shard writes into the node with its
    address. *)
Definition adopt (masterID : string) (slots : list Z) (shard : CNode) (n : Node) : Node :=
  let n := set_n_NodeId (cn_ID shard) n in
  if String.eqb (cn_Role shard) "master"
  then set_n_Slots slots (set_n_Master EmptyString (set_n_Role RoleMaster n))
  else set_n_Slots slots (set_n_Master masterID (set_n_Role RoleSlaver n)).

Definition shard_masterID (d : ShardData) : string :=
  default EmptyString (cn_ID <$> List.find (fun s => String.eqb (cn_Role s) "master") (sd_Nodes d)).

Definition member_at (ip : string) (d : ShardData) : option CNode :=
  List.find (fun s => String.eqb (simplyIp (cn_Addr s)) ip) (sd_Nodes d).

Definition set_node_id (i j : nat) (masterID : string) (d : ShardData) : C unit :=
  let! node := get_node i j in
  match member_at (n_IP node) d with
  | Some shard =>
      let! slots := lift (SlotsToInt (sd_SlotRanges d)) in
      mod_node i j (adopt masterID slots shard)
  | None => ret tt
  end ;;;
  label_node i j.

(** One shard; a shard the controller does not know is a nil pointer. *)
Definition set_shard_ids (i : nat) (sts : list (option Node)) : C unit :=
  let! h := geth in
  let! r := onW (GetNodes (hc_controller h) (Z.of_nat i)) in
  let! d := deref r in
  let masterID := shard_masterID d in
  if String.eqb masterID EmptyString then throw (EMsg ("no master node in shard " +:+ Itoa (Z.of_nat i)))
  else for_nodes sts (fun j => set_node_id i j masterID d).

Definition ensureSetNodeID : C unit := for_shards set_shard_ids.

(** Whether a node of the shard has the address [ip]. *)
Fixpoint has_ip (ip : string) (sts : list (option Node)) : outcome bool :=
  match sts with
  | [] => Ok false
  | None :: _ => Panic
  | Some n :: rest => if String.eqb ip (n_IP n) then Ok true else has_ip ip rest
  end.

(** "remove node": shard [i]. *)
Definition remove_stale (i : nat) (sts : list (option Node)) : C unit :=
  let! h := geth in
  let! r := onW (GetNodes (hc_controller h) (Z.of_nat i)) in
  match r with
  | None =>
      let! nodes := lift (node_addrs sts) in
      onW (CreateShard (hc_controller h) nodes (hc_password h))
  | Some d =>
      forM (sd_Nodes d) (fun shard =>
        let! found := lift (has_ip (simplyIp (cn_Addr shard)) sts) in
        when (negb found) (onW (DeleteNode (hc_controller h) (Z.of_nat i) (cn_ID shard))))
  end.

(** "add node": one node of shard [i]; the shard the controller does not
    know is a nil pointer. *)
Definition add_missing (i j : nat) (r : option ShardData) : C unit :=
  let! h := geth in
  let! d := deref r in
  let! node := get_node i j in
  match member_at (n_IP node) d with
  | Some _ => ret tt
  | None =>
      onW (AddNode (hc_controller h) (Z.of_nat i) (n_IP node +:+ ":" +:+ Itoa KVRocksPort)
             (n_Role node) (hc_password h))
  end.

Definition updateCluster : C unit :=
  for_shards remove_stale ;;;
  for_shards (fun i sts =>
    let! h := geth in
    let! r := onW (GetNodes (hc_controller h) (Z.of_nat i)) in
    for_nodes sts (fun j => add_missing i j r)) ;;;
  let! h := geth in
  let! shards := onW (GetShards (hc_controller h)) in
  forM (reverse (irange (Z.of_nat (length (hc_stsNodes h))) (Z.of_nat (length shards) - 1)))
    (fun i => onW (DeleteShard (hc_controller h) i)).

Definition is_creating (h : ClusterHandler) : bool :=
  String.eqb (st_Status (kv_Status (hc_instance h))) StatusCreating.

(** Returns the requeue flag and the error. *)
Definition ensureCluster : C (bool * option goerr) :=
  let! h := geth in
  let! nodes := lift (table_addrs (hc_stsNodes h)) in
  let! r := catch (if is_creating h
                   then onW (CreateCluster (hc_controller h) (sp_Replicas (kv_Spec (hc_instance h))) nodes (hc_password h))
                   else updateCluster) in
  match r with
  | inr e => ret (false, Some e)
  | inl _ =>
      let! r := catch ensureSetNodeID in
      match r with
      | inr e => ret (false, Some e)
      | inl _ =>
          modh (hc_set_instance (set_kv_Status (set_st_Status StatusRunning))) ;;;
          let! r := catch update_instance in
          match r with
          | inr e => ret (true, Some e)
          | inl _ => ret (false, None)
          end
      end
  end.

Definition ensureKVRocksStatus : C unit :=
  ensureKVRocksConfig ;;;
  let! h := geth in
  (if is_creating h then initCluster else ensureReplication) ;;;
  let! (b, err) := ensureCluster in
  requeue b ;;;
  match err with
  | Some e => throw e
  | None =>
      ensureVersion ;;;
      ensureStatusTopoMsg ;;;
      modh (fun h => hc_set_version (st_Version (kv_Status (hc_instance h))) h)
  end.

(** ** rebalance.go *)

Definition err_migrate_timeout : goerr := EMsg "slot migrate timeout".

(** [moveSlots:] with [left] retries to go; [wait] is in nanoseconds. *)
Fixpoint move_slot (c : Controller) (src dest slot : Z) (left : nat) (wait : Z) : M W unit :=
  let! r := catch (MigrateSlotAndData c src dest slot) in
  match r with
  | inl _ => ret tt
  | inr _ =>
      match left with
      | O => throw err_migrate_timeout
      | S left' => modify (clock_sleep wait) ;;; move_slot c src dest slot left' (wait * 10)
      end
  end.

Definition MaxRetry : nat := 5.
Definition FirstWait : Z := 10 * 1000000.

(** One iteration: the message is the head of [node.Migrate], whose slots
    [ensureStatusTopoMsg] may have sorted in place. *)
Definition migrate_head (src : Z) (i j : nat) : C unit :=
  let! h := geth in
  let! node := get_node i j in
  let! migrate := deref (head (items (n_Migrate node))) in
  forM (nm_Slots migrate) (fun slot =>
    onW (move_slot (hc_controller h) src (nm_Shard migrate) slot MaxRetry FirstWait)) ;;;
  (if (length (n_Slots node) <? length (nm_Slots migrate))%nat then panic
   else mod_node i j (fun n =>
          set_n_Migrate (smap tail (n_Migrate n)) (set_n_Slots (drop (length (nm_Slots migrate)) (n_Slots n)) n))) ;;;
  ensureStatusTopoMsg.

Definition ensureReBalanceTopo (src : Z) (i j : nat) : C unit :=
  let! node := get_node i j in
  forM (items (n_Migrate node)) (fun _ => migrate_head src i j).

(** The masters with their positions in the table. *)
Fixpoint masters_in (i j : nat) (sts : list (option Node)) : outcome (list (nat * nat * Node)) :=
  match sts with
  | [] => Ok []
  | None :: _ => Panic
  | Some n :: rest =>
      omap_ok (fun l => if String.eqb (n_Role n) RoleMaster then (i, j, n) :: l else l) (masters_in i (S j) rest)
  end.

Fixpoint masters_from (i : nat) (t : list (slice (option Node))) : outcome (list (nat * nat * Node)) :=
  match t with
  | [] => Ok []
  | sts :: rest =>
      match masters_in i 0 (items sts) with
      | Ok l => omap_ok (app l) (masters_from (S i) rest)
      | r => r
      end
  end.

(** The first master with a non-nil [Migrate], with its index. *)
Fixpoint first_migrating (index : Z) (ms : list (nat * nat * Node)) : option (Z * nat * nat) :=
  match ms with
  | [] => None
  | (i, j, n) :: rest =>
      match n_Migrate n with
      | Some _ => Some (index, i, j)
      | None => first_migrating (index + 1) rest
      end
  end.

Definition ensureMigrate : C unit :=
  let! h := geth in
  let! masters := lift (masters_from 0 (hc_stsNodes h)) in
  modh (hc_set_masters (foldl (fun acc m => <[n_NodeId m.2 := m.1]> acc) ∅ masters)) ;;;
  match first_migrating 0 masters with
  | Some (index, i, j) => requeue true ;;; ensureReBalanceTopo index i j
  | None => ensureStatusTopoMsg
  end.

(** ** sentinel.go *)

Definition ensureSentinel : C unit :=
  let! h := geth in
  match st_Shrink (kv_Status (hc_instance h)) with
  | Some _ => ret tt
  | None =>
      when (negb (ContainsFinalizer (hc_instance h) KVRocksFinalizer))
        (modh (hc_set_instance (fun k => AddFinalizer k KVRocksFinalizer)) ;;; update_instance) ;;;
      let! h := geth in
      match kv_Labels (hc_instance h) !! MonitoredBy with
      | Some v => onW (UpdateSentinelAnnotationCount (kv_Namespace (hc_instance h)) v)
      | None => ret tt
      end
  end.

(** ** handler.go *)

Definition Requeue (h : ClusterHandler) : bool := hc_requeue h.

Definition Handle : C (option goerr * bool) :=
  stage Requeue ensureController (
  let! h := geth in
  (if bool_decide (st_Shrink (kv_Status (hc_instance h)) = None) then id else stage Requeue cleanStatefulSet) (
  stage Requeue ensureKubernetes (
  stage Requeue ensureFailover (
  stage Requeue ensureKVRocksStatus (
  stage Requeue ensureMigrate (
  stage Requeue ensureShrink (
  stage Requeue ensureSentinel (
  stage Requeue cleanPersistentVolumeClaim (
  ret (None, true)))))))))).

Definition Finializer : C unit :=
  let! h := geth in
  match kv_Labels (hc_instance h) !! MonitoredBy with
  | None => ret tt
  | Some _ =>
      forM (irange 0 (int_Master (hc_instance h) - 1)) (fun index =>
        set_requeue_err (ch_RemoveMonitor (commHandler h) (masterName h) (Some index))) ;;;
      let! r := catch removeController in
      match r with
      | inl b => requeue b
      | inr e => requeue false ;;; throw e
      end
  end.

#[export] Instance cluster_handler : KVRocksHandler ClusterHandler W :=
  {| handler_Handle := Handle; handler_Finializer := Finializer; handler_Requeue := Requeue |}.
End cluster.
