(* ===== verification/Standard.v ===== *)
(** * The standard handler (pkg/controllers/standard)

    [KVRocksStandardHandler]: one stateful set with one master and its
    replicas.  [handler.go], [kubernetes.go] and [kvrocks.go], one definition
    per method. *)

From S2P Require Import Prelude GoStd Types Resources Scale Env K8sClient KvClient Common SentinelNotify.
Local Open Scope Z_scope.
Local Open Scope go_scope.

(** The pointers of [stsNodes] all come from [&node] and are not nil. *)
Record StandardHandler := {
  hs_instance : KVRocks;
  hs_password : string;
  hs_stsNodes : list Node;
  hs_requeue : bool;
  hs_key : NamespacedName;
}.

Definition NewKVRocksStandardHandler (key : NamespacedName) (instance : KVRocks) : StandardHandler :=
  {| hs_instance := instance; hs_password := EmptyString; hs_stsNodes := []; hs_requeue := false; hs_key := key |}.

(** Assignments to the handler's fields. *)
Definition hs_set_instance (f : KVRocks -> KVRocks) (h : StandardHandler) : StandardHandler :=
  {| hs_instance := f (hs_instance h); hs_password := hs_password h; hs_stsNodes := hs_stsNodes h;
     hs_requeue := hs_requeue h; hs_key := hs_key h |}.
Definition hs_set_password (v : string) (h : StandardHandler) : StandardHandler :=
  {| hs_instance := hs_instance h; hs_password := v; hs_stsNodes := hs_stsNodes h;
     hs_requeue := hs_requeue h; hs_key := hs_key h |}.
Definition hs_set_stsNodes (f : list Node -> list Node) (h : StandardHandler) : StandardHandler :=
  {| hs_instance := hs_instance h; hs_password := hs_password h; hs_stsNodes := f (hs_stsNodes h);
     hs_requeue := hs_requeue h; hs_key := hs_key h |}.
Definition hs_set_requeue (v : bool) (h : StandardHandler) : StandardHandler :=
  {| hs_instance := hs_instance h; hs_password := hs_password h; hs_stsNodes := hs_stsNodes h;
     hs_requeue := v; hs_key := hs_key h |}.

(** The order of [sort.Slice]. *)
Definition pod_le (a b : Node) : Prop := n_PodIndex a <= n_PodIndex b.

#[export] Instance pod_le_dec a b : Decision (pod_le a b).
Proof. unfold pod_le. apply _. Defined.

Definition err_two_masters : goerr := EMsg "more than one master exist".

(** The scan for the master of a running instance: [EmptyString] when there
    is none, an error when two addresses claim the role. *)
Fixpoint scan_master (masterIP : string) (nodes : list Node) : outcome string :=
  match nodes with
  | [] => Ok masterIP
  | node :: rest =>
      if String.eqb (n_Role node) RoleMaster then
        if String.eqb masterIP EmptyString then scan_master (n_IP node) rest
        else if negb (String.eqb masterIP (n_IP node)) then Err err_two_masters
        else scan_master masterIP rest
      else scan_master masterIP rest
  end.

Section standard.
Context {W : Type} `{Env W, GoLib}.
#[local] Abbreviation C := (M (StandardHandler * W)).

Definition requeue (b : bool) : C unit := modh (hs_set_requeue b).

Definition get_node (i : nat) : C Node :=
  let! h := geth in deref (hs_stsNodes h !! i).

Definition set_role (i : nat) (role : string) : C unit :=
  modh (hs_set_stsNodes (alter (set_n_Role role) i)).

(** [h.k8s.UpdateKVRocks(h.instance)] *)
Definition update_instance : C unit :=
  let! h := geth in
  let! stored := onW (UpdateKVRocks (hs_instance h)) in
  modh (hs_set_instance (fun _ => stored)).

(** ** kubernetes.go *)

(** [v, err := m; if IsNotFound(err) { h.requeue = true; return nil }] *)
Definition get_or_requeue {A} (m : M W A) (k : A -> C unit) : C unit :=
  let! r := onW (catch m) in
  match r with
  | inr e => if IsNotFound e then requeue true else throw e
  | inl a => k a
  end.

(** The node of one pod. *)
Definition init_pod (pod : Pod) : C unit :=
  let! h := geth in
  let! node := onW (NodeInfo (pod_PodIP pod) (hs_password h)) in
  let! index := lift (GetPVCOrPodIndex (om_Name (pod_Meta pod))) in
  modh (hs_set_stsNodes (fun l => l ++ [set_n_PodIndex index node])).

(** "we can resize statefulSet directly if scaling up": the set whose
    readiness is looked at next. *)
Definition scale_up (sts oldSts : StatefulSet) : M W StatefulSet :=
  let sts := set_ss_Meta (set_om_ResourceVersion (om_ResourceVersion (ss_Meta oldSts))) sts in
  let delta := int32 (ss_Replicas sts - ss_Replicas oldSts) in
  if 0 <? delta
  then UpdateStatefulSet (set_ss_ReserveOrdinals (release_reserved delta (ss_ReserveOrdinals oldSts)) sts)
  else ret oldSts.

Definition ensureKubernetes : C unit :=
  let! h := geth in
  let instance := hs_instance h in
  onW (CreateIfNotExistsConfigMap (NewKVRocksConfigMap instance)) ;;;
  onW (CreateIfNotExistsService (NewKVRocksService instance)) ;;;
  get_or_requeue (GetConfigMap (hs_key h)) (fun oldCM =>
    modh (hs_set_password (default EmptyString (cm_Data oldCM !! "password"))) ;;;
    let! sts := lift (NewReplicationStatefulSet instance) in
    let! sts := onW (CreateStatefulSetOrUpdateImage sts) in
    get_or_requeue (GetStatefulSet (hs_key h)) (fun oldSts =>
      let! oldSts := onW (scale_up sts oldSts) in
      if negb (ss_ReadyReplicas oldSts =? ss_Replicas oldSts) then requeue true
      else
        let! pods := onW (ListStatefulSetPods (hs_key h)) in
        forM pods init_pod ;;;
        modh (hs_set_stsNodes (merge_sort pod_le)))).

(** The set a scale-down sends: the reserved ordinals are those chosen now. *)
Definition resized (instance : KVRocks) (nodes : list Node) (delta : Z) : outcome StatefulSet :=
  match NewReplicationStatefulSet instance with
  | Ok sts =>
      match reserve_scan (reverse (Some <$> nodes)) delta [] 0 with
      | Ok (reserve, masterID) =>
          Ok (set_ss_ReserveOrdinals (ss_ReserveOrdinals sts ++ take_reserved (reverse reserve) masterID) sts)
      | Err e => Err e
      | Panic => Panic
      | Hangs => Hangs
      end
  | r => r
  end.

Definition resizeStatefulSet : C unit :=
  let! h := geth in
  let delta := Z.of_nat (length (hs_stsNodes h)) - sp_Replicas (kv_Spec (hs_instance h)) in
  when (0 <? delta)
    (let! sts := lift (resized (hs_instance h) (hs_stsNodes h) delta) in
     onW (CreateOrUpdateStatefulSet sts) ;;;
     requeue true).

Definition cleanPersistentVolumeClaim : C unit :=
  let! h := geth in
  let! pvcList := onW (ListStatefulSetPVC (hs_key h)) in
  let exitsPod : gset Z := list_to_set (n_PodIndex <$> hs_stsNodes h) in
  forM pvcList (fun pvc =>
    let! index := lift (GetPVCOrPodIndex (om_Name (pvc_Meta pvc))) in
    when (bool_decide (index ∉ exitsPod)) (onW (DeletePVC pvc))).

(** ** kvrocks.go *)

Definition ensureKVRocksConfig : C unit :=
  let! h := geth in
  onW (EnsureConfig (NewCommandHandler (hs_instance h) (hs_password h)) (Some <$> hs_stsNodes h)) ;;;
  modh (hs_set_password (sp_Password (kv_Spec (hs_instance h)))) ;;;
  onW (UpdateConfigMap (NewKVRocksConfigMap (hs_instance h))).

Definition updateKVRocksRole (podID : Z) (role : string) : C unit :=
  let! h := geth in
  onW (label_pod (NN (kv_Namespace (hs_instance h)) (kv_Name (hs_instance h) +:+ "-" +:+ Itoa podID)) role).

(** [node] is the node at position [i]. *)
Definition SlaveOfMaster (i : nat) (masterIP : string) : C unit :=
  let! h := geth in
  let! node := get_node i in
  let! curMasterIP := onW (GetMaster (n_IP node) (hs_password h)) in
  when (negb (String.eqb curMasterIP masterIP)) (onW (SlaveOf (n_IP node) masterIP (hs_password h))) ;;;
  updateKVRocksRole (n_PodIndex node) RoleSlaver ;;;
  set_role i RoleSlaver.

(** A creating instance: the first node becomes the master. *)
Definition init_node (masterIP : string) (i : nat) : C string :=
  let! h := geth in
  let! node := get_node i in
  if (i =? 0)%nat then
    onW (ChangeMyselfToMaster (n_IP node) (hs_password h)) ;;;
    updateKVRocksRole (n_PodIndex node) RoleMaster ;;;
    set_role i RoleMaster ;;;
    ret (n_IP node)
  else SlaveOfMaster i masterIP ;;; ret masterIP.

(** A running instance: every node but the master follows it. *)
Definition follow_node (masterIP : string) (i : nat) : C unit :=
  let! node := get_node i in
  if negb (String.eqb (n_IP node) masterIP) then SlaveOfMaster i masterIP
  else updateKVRocksRole (n_PodIndex node) RoleMaster.

Definition ensureKVRocksReplication : C unit :=
  let! h := geth in
  let positions := seq 0 (length (hs_stsNodes h)) in
  if String.eqb (st_Status (kv_Status (hs_instance h))) StatusCreating then
    foldM init_node EmptyString positions ;;;
    modh (hs_set_instance (set_kv_Status (set_st_Status StatusRunning))) ;;;
    update_instance
  else
    let! masterIP := lift (scan_master EmptyString (hs_stsNodes h)) in
    if String.eqb masterIP EmptyString then requeue true
    else
      forM positions (follow_node masterIP) ;;;
      when (negb (ContainsFinalizer (hs_instance h) KVRocksFinalizer))
        (modh (hs_set_instance (fun k => AddFinalizer k KVRocksFinalizer)) ;;; update_instance) ;;;
      let! h := geth in
      match kv_Labels (hs_instance h) !! MonitoredBy with
      | Some v => onW (UpdateSentinelAnnotationCount (kv_Namespace (hs_instance h)) v)
      | None => ret tt
      end.

Definition ensureKVRocksStatus : C unit :=
  ensureKVRocksConfig ;;;
  let! h := geth in
  if hs_requeue h then ret tt else ensureKVRocksReplication.

(** ** handler.go *)

Definition Requeue (h : StandardHandler) : bool := hs_requeue h.

Definition Handle : C (option goerr * bool) :=
  stage Requeue ensureKubernetes (
  stage Requeue ensureKVRocksStatus (
  stage Requeue resizeStatefulSet (
  stage Requeue cleanPersistentVolumeClaim (
  ret (None, true))))).

Definition Finializer : C unit :=
  let! h := geth in
  match kv_Labels (hs_instance h) !! MonitoredBy with
  | None => ret tt
  | Some _ =>
      let! (b, err) := onW (ch_RemoveMonitor (NewCommandHandler (hs_instance h) (hs_password h))
                             (ParseRedisName (kv_Name (hs_instance h))).2 None) in
      requeue b ;;;
      match err with
      | Some e => throw e
      | None => ret tt
      end
  end.

#[export] Instance standard_handler : KVRocksHandler StandardHandler W :=
  {| handler_Handle := Handle; handler_Finializer := Finializer; handler_Requeue := Requeue |}.
End standard.
