(* ===== verification/Sentinel.v ===== *)
(** * The sentinel handler (pkg/controllers/sentinel)

    [KVRocksSentinelHandler]: the deployment of the sentinels, and the
    monitors of every instance that carries the label of this sentinel. *)

From S2P Require Import Prelude GoStd Types Resources Scale Env K8sClient KvClient Common.
Local Open Scope Z_scope.
Local Open Scope go_scope.

Record SentinelHandler := {
  hn_instance : KVRocks;
  hn_key : NamespacedName;
  hn_pods : list string;
  hn_requeue : bool;
}.

Definition NewKVRocksSentinelHandler (key : NamespacedName) (instance : KVRocks) : SentinelHandler :=
  {| hn_instance := instance; hn_key := key; hn_pods := []; hn_requeue := false |}.

Definition hn_set_instance (f : KVRocks -> KVRocks) (h : SentinelHandler) : SentinelHandler :=
  {| hn_instance := f (hn_instance h); hn_key := hn_key h; hn_pods := hn_pods h; hn_requeue := hn_requeue h |}.
Definition hn_set_pods (f : list string -> list string) (h : SentinelHandler) : SentinelHandler :=
  {| hn_instance := hn_instance h; hn_key := hn_key h; hn_pods := f (hn_pods h); hn_requeue := hn_requeue h |}.
Definition hn_set_requeue (v : bool) (h : SentinelHandler) : SentinelHandler :=
  {| hn_instance := hn_instance h; hn_key := hn_key h; hn_pods := hn_pods h; hn_requeue := v |}.

Definition err_no_master : goerr := EMsg "master not found".

Section sentinel.
Context {W : Type} `{Env W, GoLib}.
#[local] Abbreviation C := (M (SentinelHandler * W)).

Definition requeue (b : bool) : C unit := modh (hn_set_requeue b).

(** ** kubernetes.go *)

Definition ensureKubernetes : C unit :=
  let! h := geth in
  let instance := hn_instance h in
  onW (CreateOrUpdateConfigMap (NewSentinelConfigMap instance)) ;;;
  onW (CreateIfNotExistsService (NewSentinelService instance)) ;;;
  let! dep := lift (NewSentinelDeployment instance) in
  onW (CreateIfNotExistsDeployment dep) ;;;
  let! dep := onW (GetDeployment (hn_key h)) in
  if negb (d_ReadyReplicas dep =? d_Replicas dep) then requeue true
  else
    let! pods := onW (ListDeploymentPods (hn_key h)) in
    modh (hn_set_pods (fun l => l ++ (pod_PodIP <$> pods))).

(** ** monitor.go *)

Definition getMasterMsg (key : NamespacedName) (password : string) : M W Node :=
  let! pods := ListStatefulSetPods key in
  let! c := forR pods (fun pod =>
    let! node := NodeInfo (pod_PodIP pod) password in
    if String.eqb (n_Role node) RoleMaster then ret (Return node) else ret Next) in
  match c with
  | Return node => ret node
  | Next => throw err_no_master
  end.

Definition ensureMonitor (masterIP masterName password : string) : C unit :=
  let! h := geth in
  forM (hn_pods h) (fun sentinelIP =>
    onW (ensure_monitor_at sentinelIP (sp_Password (kv_Spec (hn_instance h))) masterName masterIP password)).

(** One instance of the list.  The first running standard instance ends the
    loop. *)
Definition monitor_instance (kvrocks : KVRocks) : C (ctl unit) :=
  match kv_Labels kvrocks !! MonitoredBy with
  | None => ret Next
  | Some _ =>
      if negb (String.eqb (st_Status (kv_Status kvrocks)) StatusRunning) then requeue true ;;; ret Next
      else
        let password := sp_Password (kv_Spec kvrocks) in
        let name := (ParseRedisName (kv_Name kvrocks)).2 in
        if String.eqb (sp_Type (kv_Spec kvrocks)) StandardType then
          let! node := onW (getMasterMsg (NN (kv_Namespace kvrocks) (kv_Name kvrocks)) password) in
          ensureMonitor (n_IP node) name password ;;;
          ret (Return tt)
        else
          forM (irange 0 (int64 (sp_Master (kv_Spec kvrocks)) - 1)) (fun index =>
            let! node := onW (getMasterMsg (NN (kv_Namespace kvrocks) (kv_Name kvrocks +:+ "-" +:+ Itoa index)) password) in
            ensureMonitor (n_IP node) (name +:+ "-" +:+ Itoa index) password) ;;;
          ret Next
  end.

Definition ensureSentinel : C unit :=
  let! h := geth in
  let! kvrockses := onW (ListKVRocks (nn_Namespace (hn_key h)) (MonitorLabels (nn_Name (hn_key h)))) in
  after (forR kvrockses monitor_instance) (ret tt).

(** ** handler.go *)

Definition Requeue (h : SentinelHandler) : bool := hn_requeue h.

Definition Handle : C (option goerr * bool) :=
  stage Requeue ensureKubernetes (
  stage Requeue ensureSentinel (
  modh (hn_set_instance (set_kv_Status (set_st_Status StatusRunning))) ;;;
  let! h := geth in
  let! r := onW (catch (UpdateKVRocks (hn_instance h))) in
  match r with
  | inr e => ret (Some e, false)
  | inl stored => modh (hn_set_instance (fun _ => stored)) ;;; ret (None, true)
  end)).

Definition Finializer : C unit := ret tt.

#[export] Instance sentinel_handler : KVRocksHandler SentinelHandler W :=
  {| handler_Handle := Handle; handler_Finializer := Finializer; handler_Requeue := Requeue |}.
End sentinel.
