(* ===== verification/Events.v ===== *)
(** * Failover messages (pkg/controllers/events)

    The messages, the producer that subscribes to the sentinels, the reading
    of their messages, and the body of the handling of a failover.  [event.go],
    [cron.go], [handler.go].  The queue with its set of addresses in progress
    is shared between goroutines: see [EventLoop]. *)

From S2P Require Import Prelude GoStd Types Resources Env K8sClient KvClient ControllerClient Common.
Local Open Scope Z_scope.
Local Open Scope go_scope.

Record eventMessage := {
  em_ip : string;
  em_port : string;
  em_key : NamespacedName;
  em_partition : Z;
  em_timeout : Z;
}.

Record produceMessage := {
  pm_ip : string;
  pm_password : string;
  pm_key : string;
  pm_systemId : string;
}.

(** The capacity of the channel of messages. *)
Definition chan_cap : nat := Z.to_nat 1000.

(** [time.Second * 30] in nanoseconds. *)
Definition FailoverTimeout : Z := 30 * 1000000000.

(** ** The messages of a sentinel *)

(** The body of the loop of [listen] before it takes the lock: the key and the
    shard a payload names; a message for the master of a standard instance is
    skipped. *)
Definition odown_target (systemId namespaceName payload : string) : outcome (option (NamespacedName * Z)) :=
  let namespace := hd EmptyString (Split namespaceName "/") in
  let fileds := Split payload " " in
  match fileds !! 1%nat with
  | None => Panic
  | Some master =>
      match Split master "-" with
      | name :: part :: _ => Ok (Some (NN namespace (GetClusterName systemId name), (Atoi part).1))
      | _ => Ok None
      end
  end.

(** With the lock taken: the message, with its address, port and deadline. *)
Definition odown_message (now : Z) (target : NamespacedName * Z) (payload : string) : outcome eventMessage :=
  let fileds := Split payload " " in
  match fileds !! 2%nat, fileds !! 3%nat with
  | Some ip, Some port =>
      Ok {| em_ip := ip; em_port := port; em_key := target.1; em_partition := target.2; em_timeout := now + FailoverTimeout |}
  | _, _ => Panic
  end.

(** ** Handling a failover *)

Definition ErrNoSuitableSlaver : string := "ErrNoSuitableSlaver".
Definition ErrNoMaster : string := "ErrNoMaster".

(** [kvrocksv1alpha1.KVRocksStatus{Status: StatusFailed, Reason: reason}] *)
Definition failed_status (reason : string) : KVRocksStatus :=
  {| st_Status := StatusFailed; st_Reason := reason; st_Version := 0; st_Rebalance := false;
     st_Topo := None; st_Shrink := None |}.

(** Whether the first topology entry with the address, entries in failover
    left out, is a master. *)
Fixpoint is_master_failover (ip : string) (topos : list KVRocksTopology) : bool :=
  match topos with
  | [] => false
  | topo :: rest =>
      if t_Failover topo then is_master_failover ip rest
      else if String.eqb (t_Ip topo) ip then String.eqb (t_Role topo) RoleMaster
      else is_master_failover ip rest
  end.

Definition set_t_Role (v : string) (t : KVRocksTopology) : KVRocksTopology :=
  {| t_Pod := t_Pod t; t_Role := v; t_NodeId := t_NodeId t; t_Ip := t_Ip t; t_Port := t_Port t;
     t_Slots := t_Slots t; t_MasterId := t_MasterId t; t_Migrate := t_Migrate t; t_Failover := t_Failover t |}.
Definition set_t_MasterId (v : string) (t : KVRocksTopology) : KVRocksTopology :=
  {| t_Pod := t_Pod t; t_Role := t_Role t; t_NodeId := t_NodeId t; t_Ip := t_Ip t; t_Port := t_Port t;
     t_Slots := t_Slots t; t_MasterId := v; t_Migrate := t_Migrate t; t_Failover := t_Failover t |}.
Definition set_t_Failover (v : bool) (t : KVRocksTopology) : KVRocksTopology :=
  {| t_Pod := t_Pod t; t_Role := t_Role t; t_NodeId := t_NodeId t; t_Ip := t_Ip t; t_Port := t_Port t;
     t_Slots := t_Slots t; t_MasterId := t_MasterId t; t_Migrate := t_Migrate t; t_Failover := v |}.

(** One member of the shard against the topology entry [topo], written to
    [cur]. *)
Definition failover_member (ip masterID : string) (topo cur : KVRocksTopology) (node : CNode) : KVRocksTopology :=
  let cur :=
    if String.eqb (t_NodeId topo) (cn_ID node) then
      let cur := set_t_Role (cn_Role node) (set_t_Failover false cur) in
      if String.eqb (cn_Role node) RoleSlaver then set_t_MasterId masterID cur else cur
    else cur in
  if String.eqb (t_Ip topo) ip then set_t_Failover true cur else cur.

Definition failover_topo (ip masterID : string) (nodes : list CNode) (topo : KVRocksTopology) : KVRocksTopology :=
  foldl (failover_member ip masterID topo) topo nodes.

Definition set_p_Topology (f : list KVRocksTopology -> list KVRocksTopology) (p : KVRocksTopoPartitions) : KVRocksTopoPartitions :=
  {| p_PartitionName := p_PartitionName p; p_Shard := p_Shard p; p_Topology := f (p_Topology p) |}.

(** The first master of the shard. *)
Definition new_masterID (nodes : list CNode) : string :=
  default EmptyString (cn_ID <$> List.find (fun node => String.eqb (cn_Role node) RoleMaster) nodes).

(** [instance.Status.Topo[partition]] *)
Definition partition_at (topo : slice KVRocksTopoPartitions) (partition : Z) : option KVRocksTopoPartitions :=
  if partition <? 0 then None else items topo !! Z.to_nat partition.

(** A goroutine of [listen]: its subscription, the system id and the key of
    the pod. *)
Record listener := {
  li_pubsub : PubSub;
  li_systemId : string;
  li_namespaceName : string;
}.

(** The [event] object: the pods it listens to, the listeners it started, and
    the controller client, whose endpoint it sets.  Its queue is the variable
    [message] of the package. *)
Record event := {
  e_producerSentinels : gset string;
  e_listeners : list listener;
  e_controller : Controller;
}.

Definition NewEvent (c : Controller) : event :=
  {| e_producerSentinels := ∅; e_listeners := []; e_controller := c |}.

Definition e_set_controller (c : Controller) (e : event) : event :=
  {| e_producerSentinels := e_producerSentinels e;
     e_listeners := e_listeners e; e_controller := c |}.
(** [sentDownMessage] starts a listener; the entry marks the pod as served. *)
Definition sentDownMessage (msg : produceMessage) (e : event) : event :=
  {| e_producerSentinels := {[pm_key msg]} ∪ e_producerSentinels e;
     e_listeners := e_listeners e ++ [{| li_pubsub := SubOdownMsg (pm_ip msg) (pm_password msg);
                                         li_systemId := pm_systemId msg; li_namespaceName := pm_key msg |}];
     e_controller := e_controller e |}.
(** The end of [listen]. *)
Definition listen_exit (namespaceName : string) (e : event) : event :=
  {| e_producerSentinels := e_producerSentinels e ∖ {[namespaceName]};
     e_listeners := e_listeners e; e_controller := e_controller e |}.

(** The condition of the deferred function of [handleFailover]:
    [err != nil && time.Since(msg.timeout) < 0 && requeue]. *)
Definition resends (t : Z) (msg : eventMessage) (err : option goerr) (requeue : bool) : bool :=
  bool_decide (err <> None) && (t <? em_timeout msg) && requeue.

Section events.
Context {W : Type} `{Env W, GoLib}.
#[local] Abbreviation C := (M (event * W)).

(** One pod of a sentinel. *)
Definition produce_pod (sentinel : KVRocks) (systemId : string) (pod : Pod) : C unit :=
  let key := nn_String (NN (om_Namespace (pod_Meta pod)) (om_Name (pod_Meta pod))) in
  let! e := geth in
  when (bool_decide (key ∉ e_producerSentinels e))
    (modh (sentDownMessage {| pm_ip := pod_PodIP pod; pm_password := sp_Password (kv_Spec sentinel);
                              pm_key := key; pm_systemId := systemId |})).

Definition produce_sentinel (sentinel : KVRocks) : C (ctl unit) :=
  if negb (String.eqb (st_Status (kv_Status sentinel)) StatusRunning) then ret Next
  else
    let! systemId := deref (Split (kv_Name sentinel) "-" !! 1%nat) in
    let! r := onW (catch (ListDeploymentPods (NN (kv_Namespace sentinel) (kv_Name sentinel)))) in
    match r with
    | inr _ => ret (Return tt)
    | inl pods => forM pods (produce_pod sentinel systemId) ;;; ret Next
    end.

(** [corev1.NamespaceAll] is the empty string. *)
Definition producer : C unit :=
  let! r := onW (catch (ListKVRocks EmptyString SentinelLabels)) in
  match r with
  | inr _ => ret tt
  | inl sentinels => after (forR sentinels produce_sentinel) (ret tt)
  end.

(** The instance is marked failed; the message is dropped when that could be
    stored. *)
Definition mark_failed (instance : KVRocks) (reason : string) : C (option goerr * bool) :=
  let! r := onW (catch (UpdateKVRocks (set_kv_Status (fun _ => failed_status reason) instance))) in
  match r with
  | inl _ => ret (None, false)
  | inr e => ret (Some e, true)
  end.

(** The instance after a failover of its shard. *)
Definition failed_over (msg : eventMessage) (d : ShardData) (instance : KVRocks) : KVRocks :=
  set_kv_Status (fun st =>
    set_st_Version (int64 (st_Version st + 1))
      (set_st_Topo (smap (alter (set_p_Topology (fmap (failover_topo (em_ip msg) (new_masterID (sd_Nodes d)) (sd_Nodes d))))
                            (Z.to_nat (em_partition msg))) (st_Topo st)) st)) instance.

(** The body of [handleFailover] up to its deferred function: the final
    values of [err] and [requeue]. *)
Definition failover_body (msg : eventMessage) : C (option goerr * bool) :=
  let! r := onW (catch (GetKVRocks (em_key msg))) in
  match r with
  | inr e => ret (Some e, false)
  | inl instance =>
      if negb (String.eqb (sp_Type (kv_Spec instance)) ClusterType) then ret (None, false)
      else if negb (bool_decide (om_DeletionTimestamp (kv_Meta instance) = None))
              || String.eqb (st_Status (kv_Status instance)) StatusFailed then ret (None, false)
      else
        let commHandler := NewCommandHandler instance (sp_Password (kv_Spec instance)) in
        let! e := geth in
        let! r := onW (catch (SetEndPoint (e_controller e) (kv_Namespace instance))) in
        match r with
        | inr e => ret (Some e, true)
        | inl c =>
            modh (e_set_controller c) ;;;
            let! r := onW (catch (FailoverShard c (em_partition msg))) in
            match r with
            | inr _ => mark_failed instance ErrNoSuitableSlaver
            | inl _ =>
                let! p := deref (partition_at (st_Topo (kv_Status instance)) (em_partition msg)) in
                when (is_master_failover (em_ip msg) (p_Topology p))
                  (onW (ch_RemoveMonitor commHandler (ParseRedisName (nn_Name (em_key msg))).2 (Some (em_partition msg))) ;;;
                   ret tt) ;;;
                let! r := onW (catch (GetNodes c (em_partition msg))) in
                match r with
                | inr e => ret (Some e, true)
                | inl r =>
                    let! d := deref r in
                    if String.eqb (new_masterID (sd_Nodes d)) EmptyString then mark_failed instance ErrNoMaster
                    else
                      let! r := onW (catch (UpdateKVRocks (failed_over msg d instance))) in
                      match r with
                      | inr e => ret (Some e, true)
                      | inl _ => ret (None, true)
                      end
                end
            end
        end
  end.
End events.
