(* ===== verification/Reconcile.v ===== *)
(** * The reconciler (pkg/controllers/kvrocks_controller.go)

    One reconciliation of one resource: the choice of the handler, the
    deletion path, the validation of the specification, the initialisation of
    labels and status, and what the result asks the work queue to do. *)

From S2P Require Import Prelude GoStd Types Resources Scale Env K8sClient KvClient ControllerClient Common.
From S2P Require Import Cluster Standard Sentinel Events.
Local Open Scope Z_scope.
Local Open Scope go_scope.

(** [ctrl.Result] with the error next to it; [res_RequeueAfter] in seconds. *)
Record Result := {
  res_RequeueAfter : Z;
  res_Err : option goerr;
}.

Definition done_result : Result := {| res_RequeueAfter := 0; res_Err := None |}.
Definition retry_later : Result := {| res_RequeueAfter := 10; res_Err := None |}.
Definition failed_with (e : goerr) : Result := {| res_RequeueAfter := 0; res_Err := Some e |}.

Definition shouldRetry (err : option goerr) : bool :=
  match err with
  | Some e => IsNotFound e || IsConflict e
  | None => false
  end.

Definition shouldNotRetry (err : option goerr) : bool :=
  match err with
  | Some e => IsForbidden e || IsInvalid e
  | None => false
  end.

(** [KVRocksReconciler]: whether [once] has run, and the events objects whose
    [Run] was started. *)
Record KVRocksReconciler := {
  rc_once : bool;
  rc_events : list event;
}.

Definition new_reconciler : KVRocksReconciler := {| rc_once := false; rc_events := [] |}.

(** [r.once.Do(func() { event := events.NewEvent(...); go event.Run() })]: of
    all the calls of [Do] the first one runs the function. *)
Definition start_events (r : KVRocksReconciler) : KVRocksReconciler :=
  if rc_once r then r else {| rc_once := true; rc_events := rc_events r ++ [NewEvent NewClient] |}.

Section reconcile.
Context {W : Type} `{Env W, GoLib}.

(** Runs [m] on a fresh handler; the handler's final state is returned with
    the outcome. *)
Definition with_handler {Hd A} (h : Hd) (m : M (Hd * W) A) : M W (A * Hd) := fun w =>
  match m (h, w) with
  | (Ok a, (h', w')) => (Ok (a, h'), w')
  | (Err e, (_, w')) => (Err e, w')
  | (Panic, (_, w')) => (Panic, w')
  | (Hangs, (_, w')) => (Hangs, w')
  end.

(** [handler.Finializer()] followed by [handler.Requeue()]. *)
Definition run_finalizer {Hd} `{KVRocksHandler Hd W} (h : Hd) : M W (option goerr * bool) :=
  let! (r, h') := with_handler h (catch handler_Finializer) in
  ret (match r with inl _ => None | inr e => Some e end, handler_Requeue h').

(** [handler.Handle()] followed by [handler.Requeue()]. *)
Definition run_handle {Hd} `{KVRocksHandler Hd W} (h : Hd) : M W (option goerr * bool) :=
  let! ((err, _), h') := with_handler h handler_Handle in
  ret (err, handler_Requeue h').

(** The [switch] over the type, and the call on the handler it made; for
    another type the handler is nil. *)
Definition on_handler {A} (type : string) (key : NamespacedName) (instance : KVRocks)
    (k : forall Hd (_ : KVRocksHandler Hd W), Hd -> M W A) : M W A :=
  if String.eqb type SentinelType then
    k _ Sentinel.sentinel_handler (Sentinel.NewKVRocksSentinelHandler key instance)
  else if String.eqb type StandardType then
    k _ Standard.standard_handler (Standard.NewKVRocksStandardHandler key instance)
  else if String.eqb type ClusterType then
    k _ Cluster.cluster_handler (Cluster.NewKVRocksClusterHandler key instance NewClient)
  else panic.

(** [Some] when the specification is refused; errors of the update are
    dropped. *)
Definition checkSpecification (instance : KVRocks) : M W (option goerr) :=
  match ValidateKVRocks instance with
  | Some reason =>
      catch (UpdateKVRocks (set_kv_Status (fun st => set_st_Reason reason (set_st_Status StatusFailed st)) instance)) ;;;
      ret (Some (EMsg ("field is unreasonable error: " +:+ reason)))
  | None => ret None
  end.

(** The labels of an instance, as they should be. *)
Definition wanted_labels (instance : KVRocks) : gmap string string :=
  let labels := MergeLabels [kv_Labels instance; SelectorLabels instance] in
  if String.eqb (sp_Type (kv_Spec instance)) SentinelType then MergeLabels [labels; SentinelLabels] else labels.

(** Returns the instance as it is after the updates. *)
Definition runIfInitialize (instance : KVRocks) : M W KVRocks :=
  let labels := wanted_labels instance in
  let! instance :=
    (if bool_decide (labels = kv_Labels instance) then ret instance
     else UpdateKVRocks (set_kv_Meta (set_om_Labels labels) instance)) in
  if String.eqb (st_Status (kv_Status instance)) StatusNone then
    UpdateKVRocks (set_kv_Status (set_st_Status StatusCreating) instance)
  else ret instance.

(** The deletion path. *)
Definition reconcile_delete (key : NamespacedName) (instance : KVRocks) : M W Result :=
  if negb (ContainsFinalizer instance KVRocksFinalizer) then ret done_result
  else
    let! (err, requeue) := on_handler (sp_Type (kv_Spec instance)) key instance (fun Hd _ h => run_finalizer h) in
    if (requeue : bool) || shouldRetry err then ret retry_later
    else
      match err with
      | Some _ => ret done_result
      | None =>
          let! r := catch (UpdateKVRocks (RemoveFinalizer instance KVRocksFinalizer)) in
          match r with
          | inr e => if shouldRetry (Some e) then ret retry_later else ret done_result
          | inl _ => ret done_result
          end
      end.

(** What the result of [Handle] asks of the work queue. *)
Definition handle_result (err : option goerr) (requeue : bool) : Result :=
  if requeue || shouldRetry err then retry_later
  else if shouldNotRetry err then done_result
  else {| res_RequeueAfter := 0; res_Err := err |}.

(** What happens to an instance that was found. *)
Definition reconcile_instance (key : NamespacedName) (instance : KVRocks) : M W Result :=
  match om_DeletionTimestamp (kv_Meta instance) with
  | Some _ => reconcile_delete key instance
  | None =>
      if String.eqb (st_Status (kv_Status instance)) StatusFailed then ret done_result
      else
        let! refused := checkSpecification instance in
        match refused with
        | Some _ => ret done_result
        | None =>
            let! r := catch (runIfInitialize instance) in
            match r with
            | inr _ => ret done_result
            | inl instance' =>
                let! (err, requeue) :=
                  on_handler (sp_Type (kv_Spec instance)) key instance' (fun Hd _ h => run_handle h) in
                ret (handle_result err requeue)
            end
        end
  end.

Definition Reconcile (key : NamespacedName) : M (KVRocksReconciler * W) Result :=
  let! r := onW (catch (GetKVRocks key)) in
  match r with
  | inr e => if IsNotFound e then ret done_result else ret (failed_with e)
  | inl instance =>
      modh start_events ;;;
      onW (reconcile_instance key instance)
  end.
End reconcile.
