(* ===== verification/World.v ===== *)
(** * A concrete environment

    An instance of [Env] small enough to compute with: object stores keyed by
    name, a table of node roles and configurations, a fixed HTTP server and a
    log of the failover messages.  The theorems of the development quantify
    over every environment; this one shows that their hypotheses can hold. *)

From S2P Require Import Prelude GoStd Types Resources Env.
Local Open Scope Z_scope.

Record World := {
  w_kvrocks : gmap NamespacedName KVRocks;
  w_configmaps : gmap NamespacedName ConfigMap;
  w_services : gmap NamespacedName Service;
  w_deployments : gmap NamespacedName Deployment;
  w_sets : gmap NamespacedName StatefulSet;
  w_native : gmap NamespacedName NativeStatefulSet;
  w_pods : gmap NamespacedName Pod;
  w_claims : gmap NamespacedName PersistentVolumeClaim;
  w_roles : gmap string string;
  w_config : gmap string (gmap string string);
  w_monitors : gmap string (gmap string string);
  w_http : http_request -> http_response;
  w_clock : Z;
  w_sent : list (string * NamespacedName * Z);
  w_slots : gmap Z Z;
}.

Definition empty_world : World :=
  {| w_kvrocks := ∅; w_configmaps := ∅; w_services := ∅; w_deployments := ∅; w_sets := ∅; w_native := ∅;
     w_pods := ∅; w_claims := ∅; w_roles := ∅; w_config := ∅; w_monitors := ∅;
     w_http := fun _ => {| rs_StatusCode := 404; rs_Body := None |}; w_clock := 0; w_sent := []; w_slots := ∅ |}.

Definition w_set_kvrocks v (w : World) : World :=
  {| w_kvrocks := v; w_configmaps := w_configmaps w; w_services := w_services w; w_deployments := w_deployments w;
     w_sets := w_sets w; w_native := w_native w; w_pods := w_pods w; w_claims := w_claims w; w_roles := w_roles w;
     w_config := w_config w; w_monitors := w_monitors w; w_http := w_http w; w_clock := w_clock w; w_sent := w_sent w; w_slots := w_slots w |}.
Definition w_set_configmaps v (w : World) : World :=
  {| w_kvrocks := w_kvrocks w; w_configmaps := v; w_services := w_services w; w_deployments := w_deployments w;
     w_sets := w_sets w; w_native := w_native w; w_pods := w_pods w; w_claims := w_claims w; w_roles := w_roles w;
     w_config := w_config w; w_monitors := w_monitors w; w_http := w_http w; w_clock := w_clock w; w_sent := w_sent w; w_slots := w_slots w |}.
Definition w_set_services v (w : World) : World :=
  {| w_kvrocks := w_kvrocks w; w_configmaps := w_configmaps w; w_services := v; w_deployments := w_deployments w;
     w_sets := w_sets w; w_native := w_native w; w_pods := w_pods w; w_claims := w_claims w; w_roles := w_roles w;
     w_config := w_config w; w_monitors := w_monitors w; w_http := w_http w; w_clock := w_clock w; w_sent := w_sent w; w_slots := w_slots w |}.
Definition w_set_deployments v (w : World) : World :=
  {| w_kvrocks := w_kvrocks w; w_configmaps := w_configmaps w; w_services := w_services w; w_deployments := v;
     w_sets := w_sets w; w_native := w_native w; w_pods := w_pods w; w_claims := w_claims w; w_roles := w_roles w;
     w_config := w_config w; w_monitors := w_monitors w; w_http := w_http w; w_clock := w_clock w; w_sent := w_sent w; w_slots := w_slots w |}.
Definition w_set_sets v (w : World) : World :=
  {| w_kvrocks := w_kvrocks w; w_configmaps := w_configmaps w; w_services := w_services w; w_deployments := w_deployments w;
     w_sets := v; w_native := w_native w; w_pods := w_pods w; w_claims := w_claims w; w_roles := w_roles w;
     w_config := w_config w; w_monitors := w_monitors w; w_http := w_http w; w_clock := w_clock w; w_sent := w_sent w; w_slots := w_slots w |}.
Definition w_set_native v (w : World) : World :=
  {| w_kvrocks := w_kvrocks w; w_configmaps := w_configmaps w; w_services := w_services w; w_deployments := w_deployments w;
     w_sets := w_sets w; w_native := v; w_pods := w_pods w; w_claims := w_claims w; w_roles := w_roles w;
     w_config := w_config w; w_monitors := w_monitors w; w_http := w_http w; w_clock := w_clock w; w_sent := w_sent w; w_slots := w_slots w |}.
Definition w_set_pods v (w : World) : World :=
  {| w_kvrocks := w_kvrocks w; w_configmaps := w_configmaps w; w_services := w_services w; w_deployments := w_deployments w;
     w_sets := w_sets w; w_native := w_native w; w_pods := v; w_claims := w_claims w; w_roles := w_roles w;
     w_config := w_config w; w_monitors := w_monitors w; w_http := w_http w; w_clock := w_clock w; w_sent := w_sent w; w_slots := w_slots w |}.
Definition w_set_claims v (w : World) : World :=
  {| w_kvrocks := w_kvrocks w; w_configmaps := w_configmaps w; w_services := w_services w; w_deployments := w_deployments w;
     w_sets := w_sets w; w_native := w_native w; w_pods := w_pods w; w_claims := v; w_roles := w_roles w;
     w_config := w_config w; w_monitors := w_monitors w; w_http := w_http w; w_clock := w_clock w; w_sent := w_sent w; w_slots := w_slots w |}.
Definition w_set_roles v (w : World) : World :=
  {| w_kvrocks := w_kvrocks w; w_configmaps := w_configmaps w; w_services := w_services w; w_deployments := w_deployments w;
     w_sets := w_sets w; w_native := w_native w; w_pods := w_pods w; w_claims := w_claims w; w_roles := v;
     w_config := w_config w; w_monitors := w_monitors w; w_http := w_http w; w_clock := w_clock w; w_sent := w_sent w; w_slots := w_slots w |}.
Definition w_set_config v (w : World) : World :=
  {| w_kvrocks := w_kvrocks w; w_configmaps := w_configmaps w; w_services := w_services w; w_deployments := w_deployments w;
     w_sets := w_sets w; w_native := w_native w; w_pods := w_pods w; w_claims := w_claims w; w_roles := w_roles w;
     w_config := v; w_monitors := w_monitors w; w_http := w_http w; w_clock := w_clock w; w_sent := w_sent w; w_slots := w_slots w |}.
Definition w_set_monitors v (w : World) : World :=
  {| w_kvrocks := w_kvrocks w; w_configmaps := w_configmaps w; w_services := w_services w; w_deployments := w_deployments w;
     w_sets := w_sets w; w_native := w_native w; w_pods := w_pods w; w_claims := w_claims w; w_roles := w_roles w;
     w_config := w_config w; w_monitors := v; w_http := w_http w; w_clock := w_clock w; w_sent := w_sent w; w_slots := w_slots w |}.
Definition w_set_http v (w : World) : World :=
  {| w_kvrocks := w_kvrocks w; w_configmaps := w_configmaps w; w_services := w_services w; w_deployments := w_deployments w;
     w_sets := w_sets w; w_native := w_native w; w_pods := w_pods w; w_claims := w_claims w; w_roles := w_roles w;
     w_config := w_config w; w_monitors := w_monitors w; w_http := v; w_clock := w_clock w; w_sent := w_sent w; w_slots := w_slots w |}.
Definition w_set_clock v (w : World) : World :=
  {| w_kvrocks := w_kvrocks w; w_configmaps := w_configmaps w; w_services := w_services w; w_deployments := w_deployments w;
     w_sets := w_sets w; w_native := w_native w; w_pods := w_pods w; w_claims := w_claims w; w_roles := w_roles w;
     w_config := w_config w; w_monitors := w_monitors w; w_http := w_http w; w_clock := v; w_sent := w_sent w; w_slots := w_slots w |}.
Definition w_set_sent v (w : World) : World :=
  {| w_kvrocks := w_kvrocks w; w_configmaps := w_configmaps w; w_services := w_services w; w_deployments := w_deployments w;
     w_sets := w_sets w; w_native := w_native w; w_pods := w_pods w; w_claims := w_claims w; w_roles := w_roles w;
     w_config := w_config w; w_monitors := w_monitors w; w_http := w_http w; w_clock := w_clock w; w_sent := v; w_slots := w_slots w |}.
Definition w_set_slots v (w : World) : World :=
  {| w_kvrocks := w_kvrocks w; w_configmaps := w_configmaps w; w_services := w_services w; w_deployments := w_deployments w;
     w_sets := w_sets w; w_native := w_native w; w_pods := w_pods w; w_claims := w_claims w; w_roles := w_roles w;
     w_config := w_config w; w_monitors := w_monitors w; w_http := w_http w; w_clock := w_clock w; w_sent := w_sent w; w_slots := v |}.

(** ** Object stores *)

Section store.
Context {K : Type} (meta : K -> ObjectMeta) (getter : World -> gmap NamespacedName K)
  (setter : gmap NamespacedName K -> World -> World).

Definition key_of (v : K) : NamespacedName := NN (om_Namespace (meta v)) (om_Name (meta v)).

Definition store_kind : ApiKind World K := {|
  api_get := fun k w => match getter w !! k with Some v => (inl v, w) | None => (inr ENotFound, w) end;
  api_create := fun v w =>
    match getter w !! key_of v with
    | Some _ => (inr EAlreadyExists, w)
    | None => (inl v, setter (<[key_of v := v]> (getter w)) w)
    end;
  api_update := fun v w =>
    match getter w !! key_of v with
    | Some _ => (inl v, setter (<[key_of v := v]> (getter w)) w)
    | None => (inr ENotFound, w)
    end;
  api_delete := fun v w =>
    match getter w !! key_of v with
    | Some _ => (inl tt, setter (delete (key_of v) (getter w)) w)
    | None => (inr ENotFound, w)
    end;
  api_delete_nil := fun w => (inr ENotFound, w);
  api_list := fun ns labels w =>
    (inl (filter (fun v => (ns = EmptyString \/ om_Namespace (meta v) = ns) /\ labels ⊆ om_Labels (meta v))
            (map_to_list (getter w)).*2), w);
|}.
End store.

Definition worldKube : Kube World := {|
  kube_kvrocks := store_kind kv_Meta w_kvrocks w_set_kvrocks;
  kube_configmap := store_kind cm_Meta w_configmaps w_set_configmaps;
  kube_service := store_kind sv_Meta w_services w_set_services;
  kube_deployment := store_kind d_Meta w_deployments w_set_deployments;
  kube_statefulset := store_kind ss_Meta w_sets w_set_sets;
  kube_native_statefulset := store_kind ns_Meta w_native w_set_native;
  kube_pod := store_kind pod_Meta w_pods w_set_pods;
  kube_pvc := store_kind pvc_Meta w_claims w_set_claims;
|}.

(** ** Redis: a node answers when it has a role *)

Definition err_down : goerr := EMsg "connection refused".

Definition when_up {A} (addr : string) (f : World -> (A + goerr) * World) (w : World) : (A + goerr) * World :=
  match w_roles w !! addr with
  | Some _ => f w
  | None => (inr err_down, w)
  end.

Definition set_configs (addr : string) (kvs : list (string * string)) (w : World) : World :=
  w_set_config (<[addr := foldl (fun m kv => <[kv.1 := kv.2]> m) (default ∅ (w_config w !! addr)) kvs]> (w_config w)) w.

Definition worldRedis : Redis World := {|
  redis_role := fun addr _ w =>
    match w_roles w !! addr with Some r => (inl [r], w) | None => (inr err_down, w) end;
  redis_config_get := fun addr _ key =>
    when_up addr (fun w => (inl [key; default EmptyString (default ∅ (w_config w !! addr) !! key)], w));
  redis_config_set := fun addr _ key value => when_up addr (fun w => (inl tt, set_configs addr [(key, value)] w));
  redis_pipeline_config_set := fun addr _ kvs => when_up addr (fun w => (inl tt, set_configs addr kvs w));
  redis_slaveof := fun addr _ host _ =>
    when_up addr (fun w => (inl tt, w_set_roles (<[addr := if String.eqb host "NO" then RoleMaster else RoleSlaver]> (w_roles w)) w));
  redis_info := fun addr _ _ => when_up addr (fun w => (inl EmptyString, w));
  redis_cluster_nodes := fun addr _ => when_up addr (fun w => (inl EmptyString, w));
  redis_ping := fun addr _ => when_up addr (fun w => (inl tt, w));
  sentinel_master := fun addr _ _ name w =>
    match default ∅ (w_monitors w !! addr) !! name with
    | Some ip => (inl {["ip" := ip]}, w)
    | None => (inr (EMsg "No such master with that name"), w)
    end;
  sentinel_remove := fun addr _ _ name w =>
    (inl tt, w_set_monitors (<[addr := delete name (default ∅ (w_monitors w !! addr))]> (w_monitors w)) w);
  sentinel_monitor := fun addr _ _ name ip _ _ w =>
    (inl tt, w_set_monitors (<[addr := <[name := ip]> (default ∅ (w_monitors w !! addr))]> (w_monitors w)) w);
  sentinel_set := fun _ _ _ _ _ _ w => (inl tt, w);
  sentinel_reset := fun _ _ _ _ w => (inl tt, w);
|}.

(** A migration the controller accepts moves its slot. *)
Definition migrated (rq : http_request) (w : World) : World :=
  match rq_Body rq with
  | Some (JObj [("source", JNum _); ("target", JNum target); ("slot", JNum slot)]) =>
      if rs_StatusCode (w_http w rq) =? 200 then w_set_slots (<[slot := target]> (w_slots w)) w else w
  | _ => w
  end.
Definition worldHttp : Http World := {| http_do := fun rq w => (inl (w_http w rq), migrated rq w) |}.
Definition worldClock : Clock World := {| clock_now := w_clock; clock_sleep := fun d w => w_set_clock (w_clock w + d) w |}.
Definition worldSink : FailoverSink World :=
  {| send_failover := fun ip key p w => w_set_sent (w_sent w ++ [(ip, key, p)]) w |}.

Definition worldEnv : Env World := {|
  env_kube := worldKube; env_redis := worldRedis; env_http := worldHttp; env_clock := worldClock; env_sink := worldSink
|}.

(** Building objects for examples. *)
Definition sample_meta (name : string) (labels : gmap string string) : ObjectMeta :=
  {| om_Name := name; om_Namespace := "default"; om_Labels := labels; om_Annotations := ∅;
     om_ResourceVersion := "1"; om_UID := EmptyString; om_DeletionTimestamp := None;
     om_Finalizers := []; om_OwnerReferences := [] |}.
Definition sample_pod (name ip : string) : Pod :=
  {| pod_Meta := sample_meta name {["app" := "kvrocks"]}; pod_PodIP := ip |}.
Definition sample_claim (name : string) (labels : gmap string string) : PersistentVolumeClaim :=
  {| pvc_Meta := sample_meta name labels; pvc_AccessModes := []; pvc_Storage := EmptyString;
     pvc_StorageClassName := None; pvc_VolumeMode := EmptyString |}.
