(* ===== verification/ClusterProps.v ===== *)
(** * Properties of the cluster handler *)

From S2P Require Import Prelude GoStd Types Slots Resources Scale Env K8sClient KvClient ControllerClient Common SentinelNotify Cluster World.
From Stdlib Require Import Ascii.
Local Open Scope Z_scope.
Local Open Scope go_scope.

(** A node table without nil entries, as [ensureKubernetes] builds it. *)
Definition full (l : list Node) : slice (option Node) := Some (Some <$> l).
Definition present (t : list (list Node)) : list (slice (option Node)) := full <$> t.

(** What a node update in place does to every position. *)
Lemma lookup_alter_node f t i j i' j' :
  lookup_node (alter_node f i j t) i' j' =
    if decide (i = i' /\ j = j') then f <$> lookup_node t i' j' else lookup_node t i' j'.
Proof.
  unfold lookup_node, alter_node. destruct (decide (i = i')) as [<-|Hi].
  - rewrite list_lookup_alter_eq. destruct (t !! i) as [[l|]|]; cbn; try by case_decide.
    destruct (decide (j = j')) as [<-|Hj].
    + rewrite list_lookup_alter_eq, decide_True by done. by destruct (l !! j) as [[n|]|].
    + rewrite list_lookup_alter_ne by done. by rewrite decide_False by naive_solver.
  - rewrite list_lookup_alter_ne by done. by rewrite decide_False by naive_solver.
Qed.

(** ** Version *)

(** What [ensureVersion] compares: addresses and roles, shard by shard. *)
Definition topo_end (t : KVRocksTopology) : string * string := (t_Ip t, t_Role t).
Definition node_end (n : Node) : string * string := (n_IP n, n_Role n).
Definition partition_view (p : KVRocksTopoPartitions) : list (string * string) := topo_end <$> p_Topology p.
Definition shard_view (l : list Node) : list (string * string) := node_end <$> l.
Definition topo_view (ps : list KVRocksTopoPartitions) : list (list (string * string)) := partition_view <$> ps.
Definition table_view (t : list (list Node)) : list (list (string * string)) := shard_view <$> t.

Lemma topo_differs_spec (topos : list KVRocksTopology) (l : list Node) :
  length topos = length l ->
  topo_differs topos (Some <$> l) = Ok (bool_decide (topo_end <$> topos <> shard_view l)).
Proof.
  unfold shard_view. revert l. induction topos as [|t topos IH]; intros [|n l] Hlen; try done.
  rewrite !fmap_cons. cbn [topo_differs]. injection Hlen as Hlen. rewrite IH by done.
  change (topo_end t) with (t_Ip t, t_Role t). change (node_end n) with (n_IP n, n_Role n).
  destruct (String.eqb_spec (t_Ip t) (n_IP n)) as [->|Hip]; simpl negb; cbn iota;
    [|f_equal; symmetry; apply bool_decide_eq_true; congruence].
  destruct (String.eqb_spec (t_Role t) (n_Role n)) as [->|Hr]; simpl negb; cbn iota;
    [|f_equal; symmetry; apply bool_decide_eq_true; congruence].
  f_equal. apply bool_decide_ext. split; congruence.
Qed.

Lemma partitions_differ_spec (ps : list KVRocksTopoPartitions) (t : list (list Node)) :
  length ps = length t ->
  partitions_differ ps (present t) = Ok (bool_decide (topo_view ps <> table_view t)).
Proof.
  unfold topo_view, table_view, present.
  revert t. induction ps as [|p ps IH]; intros [|l t] Hlen; try done.
  injection Hlen as Hlen. rewrite !fmap_cons. cbn [partitions_differ].
  change (items (full l)) with (Some <$> l). rewrite length_fmap.
  destruct (Nat.eqb_spec (length (p_Topology p)) (length l)) as [El|El]; simpl negb; cbn iota.
  - rewrite topo_differs_spec by done. change (topo_end <$> p_Topology p) with (partition_view p).
    case_bool_decide as Hd.
    + f_equal. symmetry. apply bool_decide_eq_true. congruence.
    + rewrite IH by done. f_equal. apply bool_decide_ext. rewrite Hd. split; congruence.
  - f_equal. symmetry. apply bool_decide_eq_true.
    intros [= E _]. apply (f_equal length) in E. unfold partition_view, shard_view in E. by rewrite !length_fmap in E.
Qed.

Lemma version_changes_spec (topo : slice KVRocksTopoPartitions) (t : list (list Node)) :
  version_changes topo (present t) = Ok (bool_decide (topo_view <$> topo <> Some (table_view t))).
Proof.
  unfold version_changes. destruct topo as [ps|]; [|done].
  unfold present at 1. rewrite length_fmap.
  destruct (Nat.eqb_spec (length t) (length ps)) as [El|El]; simpl negb; cbn iota.
  - rewrite partitions_differ_spec by done. f_equal. apply bool_decide_ext. simpl. split; congruence.
  - f_equal. symmetry. apply bool_decide_eq_true. intros [= E].
    apply (f_equal length) in E. unfold topo_view, table_view in E. rewrite !length_fmap in E. done.
Qed.

Section version.
Context {W : Type} `{Env W, GoLib}.

(** C33: [ensureVersion] never panics on a table of live nodes; it increments
    the version, with the wrap-around of [int], exactly when the stored
    topology and the table disagree in the number of shards or nodes or in
    the address or role of some node, and changes nothing else. *)
Theorem version_bump (h : ClusterHandler) (t : list (list Node)) (w : W) :
  hc_stsNodes h = present t ->
  ensureVersion (h, w) =
    (Ok tt,
     (if decide (topo_view <$> st_Topo (kv_Status (hc_instance h)) = Some (table_view t))
      then h else hc_set_version (int64 (hc_version h + 1)) h, w)).
Proof.
  intros Ht. unfold ensureVersion, bind, geth, lift. cbn [fst snd].
  rewrite Ht, version_changes_spec. unfold when, bump_version, modh, ret. cbn [fst snd].
  destruct (decide _) as [E|E].
  - by rewrite bool_decide_eq_false_2 by (intros HH; by apply HH).
  - by rewrite bool_decide_eq_true_2.
Qed.
End version.

(** ** Claims in use *)

Lemma pod_index_present (l : list Node) i :
  pod_index_at (Some <$> l) i = match l !! i with Some n => Ok (n_PodIndex n) | None => Panic end.
Proof. unfold pod_index_at. rewrite list_lookup_fmap. by destruct (l !! i). Qed.

(** The binary search decides membership. *)
Lemma pvc_unused_spec (l : list Node) (p : Z) :
  StronglySorted Z.lt (n_PodIndex <$> l) ->
  pvc_unused (Some <$> l) p = Ok (bool_decide (p ∉ n_PodIndex <$> l)).
Proof.
  intros Hs. unfold pvc_unused. rewrite length_fmap.
  set (ix := n_PodIndex <$> l) in *.
  assert (Hix : forall i, omap_ok (fun x => p <=? x) (pod_index_at (Some <$> l) i) =
                match ix !! i with Some x => Ok (p <=? x) | None => Panic end).
  { intros i. rewrite pod_index_present. unfold ix. rewrite list_lookup_fmap. by destruct (l !! i). }
  assert (Hmono : forall i j x y, (i < j)%nat -> ix !! i = Some x -> ix !! j = Some y -> x < y).
  { intros i j x y Hij Hi Hj. rewrite <- (take_drop_middle ix i x Hi) in Hs.
    apply StronglySorted_app in Hs as (_ & _ & Hs). apply StronglySorted_inv in Hs as [_ Hall].
    rewrite Forall_forall in Hall. apply Hall. apply list_elem_of_lookup_2 with (j - S i)%nat.
    rewrite lookup_drop. by replace (S i + (j - S i))%nat with j by lia. }
  destruct (Search_spec (length l) (fun i => omap_ok (fun x => p <=? x) (pod_index_at (Some <$> l) i))
              (fun i => match ix !! i with Some x => p <=? x | None => true end)) as (r & Hr & Hb & Hlo & Hhi).
  { intros k Hk. rewrite Hix. destruct (ix !! k) as [x|] eqn:E; [done|].
    apply lookup_ge_None in E. unfold ix in E. rewrite length_fmap in E. lia. }
  { intros k k' Hk. destruct (ix !! k) as [x|] eqn:E, (ix !! k') as [y|] eqn:E'; try done.
    - destruct (decide (k = k')) as [->|]; [by simplify_eq|].
      pose proof (Hmono k k' x y ltac:(lia) E E'). lia.
    - apply lookup_ge_None in E. unfold ix in E. rewrite length_fmap in E. lia. }
  rewrite Hr.
  assert (Hin : p ∈ ix <-> ix !! r = Some p).
  { split; [|apply list_elem_of_lookup_2]. intros [k Hk]%list_elem_of_lookup.
    destruct (lt_eq_lt_dec k r) as [[Hlt| ->]|Hgt]; [|done|].
    - specialize (Hlo k Hlt). rewrite Hk in Hlo. lia.
    - assert (Hkl : (k < length ix)%nat) by (by eapply lookup_lt_Some).
      destruct (lookup_lt_is_Some_2 ix r) as [x Hx]; [lia|].
      assert (x < p) by (by eapply (Hmono r k)).
      unfold ix in Hkl. rewrite length_fmap in Hkl.
      specialize (Hhi r ltac:(lia)). rewrite Hx in Hhi. lia. }
  destruct (Nat.leb_spec (length l) r).
  - f_equal. symmetry. apply bool_decide_eq_true. rewrite Hin.
    intros Hp. apply lookup_lt_Some in Hp. unfold ix in Hp. rewrite length_fmap in Hp. lia.
  - rewrite pod_index_present. destruct (l !! r) as [n|] eqn:El; [|apply lookup_ge_None in El; lia].
    cbn [omap_ok]. f_equal.
    assert (Hn : ix !! r = Some (n_PodIndex n)) by (unfold ix; by rewrite list_lookup_fmap, El).
    rewrite Hn in Hin. destruct (Z.eqb_spec (n_PodIndex n) p) as [Heq|Hne]; simpl negb; symmetry.
    + apply bool_decide_eq_false. intros HH. apply HH, Hin. congruence.
    + apply bool_decide_eq_true. rewrite Hin. congruence.
Qed.

(** The claim of pod [p] of shard [i]: the template's name, then the pod's. *)
Definition claim_name (name : string) (i p : Z) : string :=
  "data-" +:+ GetStatefulSetName name (Some i) +:+ "-" +:+ Itoa p.

Lemma pvc_indices_claim name i p :
  0 <= i -> is_int i -> 0 <= p -> is_int p -> pvc_indices (claim_name name i p) = Some (i, p).
Proof.
  intros Hi Hi' Hp Hp'. unfold pvc_indices, claim_name, GetStatefulSetName.
  change ("-" +:+ Itoa p) with (String "-" (Itoa p)). change ("-" +:+ Itoa i) with (String "-" (Itoa i)).
  rewrite <- string_app_assoc, split_snoc by (by apply Itoa_lacks_dash).
  rewrite <- string_app_assoc, split_snoc by (by apply Itoa_lacks_dash).
  rewrite !reverse_snoc, !Atoi_Itoa by done. done.
Qed.

(** The claims the cleaning removes: of shards beyond [Spec.Master], and of
    ordinals without a node. *)
Definition claim_unused (master : Z) (t : list (list Node)) (c : Z * Z * PersistentVolumeClaim) : Prop :=
  master <= c.1.1 \/ c.1.2 ∉ n_PodIndex <$> (t !!! Z.to_nat c.1.1).

#[export] Instance claim_unused_dec master t c : Decision (claim_unused master t c).
Proof. unfold claim_unused. apply _. Defined.

Section clean.
Context {W : Type} `{Env W, GoLib}.
Context (h : ClusterHandler) (t : list (list Node)).
Hypothesis Htable : hc_stsNodes h = present t.
Hypothesis Hsorted : Forall (fun l => StronglySorted Z.lt (n_PodIndex <$> l)) t.
Hypothesis Hmaster : int_Master (hc_instance h) <= Z.of_nat (length t).

Definition named (name : string) (c : Z * Z * PersistentVolumeClaim) : Prop :=
  0 <= c.1.1 /\ is_int c.1.1 /\ 0 <= c.1.2 /\ is_int c.1.2 /\ om_Name (pvc_Meta c.2) = claim_name name c.1.1 c.1.2.

Lemma clean_pvc_spec name c (w : W) :
  named name c ->
  clean_pvc c.2 (h, w) =
    if decide (claim_unused (int_Master (hc_instance h)) t c) then onW (DeletePVC c.2) (h, w) else (Ok tt, (h, w)).
Proof.
  destruct c as [[i p] pvc]. intros (Hi & Hi' & Hp & Hp' & Hname). cbn [fst snd] in *.
  unfold clean_pvc, bind at 1, geth. cbn [fst snd]. rewrite Hname, pvc_indices_claim by done.
  unfold deref at 1, bind at 1, ret at 1. unfold claim_unused. cbn [fst snd].
  destruct (Z.leb_spec (int_Master (hc_instance h)) i) as [Hge|Hlt].
  - rewrite decide_True by (by left). done.
  - replace (i <? 0) with false by lia.
    rewrite Htable. unfold present. rewrite list_lookup_fmap.
    destruct (lookup_lt_is_Some_2 t (Z.to_nat i)) as [l Hl]; [lia|]. rewrite Hl.
    rewrite Forall_forall in Hsorted. pose proof (Hsorted l (list_elem_of_lookup_2 _ _ _ Hl)) as Hs.
    pose proof (list_lookup_total_correct t _ l Hl) as Htot. cbn [fmap option_fmap option_map].
    unfold deref, bind, ret, lift. change (items (full l)) with (Some <$> l).
    rewrite pvc_unused_spec by done. unfold when, onW, ret. cbn [fst snd].
    destruct (decide (p ∈ n_PodIndex <$> l)).
    + rewrite bool_decide_eq_false_2 by tauto. rewrite decide_False; [done|]. rewrite Htot. intros [?|?]; [lia|done].
    + rewrite bool_decide_eq_true_2 by done. rewrite decide_True; [done|]. rewrite Htot. by right.
Qed.

Lemma clean_loop name cs (w : W) :
  Forall (named name) cs ->
  forM (snd <$> cs) clean_pvc (h, w) =
    onW (forM (snd <$> filter (claim_unused (int_Master (hc_instance h)) t) cs) DeletePVC) (h, w).
Proof.
  revert w. induction cs as [|c cs IH]; intros w Hcs; [done|].
  apply Forall_cons in Hcs as [Hc Hcs]. rewrite fmap_cons. cbn [forM]. unfold bind at 1.
  rewrite (clean_pvc_spec name) by done. destruct (decide _) as [Hu|Hu].
  - rewrite filter_cons_True by done. rewrite fmap_cons. cbn [forM]. unfold onW, bind. cbn [fst snd].
    destruct (DeletePVC c.2 w) as [[[]|e| |] w']; [|done..]. cbn [fst snd]. by rewrite IH.
  - rewrite filter_cons_False by done. by rewrite IH.
Qed.

(** C9: with no shrink pending, the claim cleaning of a cluster deletes, in
    the order of the listing, exactly the claims of shards beyond
    [Spec.Master] and of ordinals that have no node; the claim of a live
    node is never deleted, and the binary search never indexes out of
    range. *)
Theorem live_claims_kept name cs (w w' : W) :
  st_Shrink (kv_Status (hc_instance h)) = None ->
  ListPVC (kv_Namespace (hc_instance h)) (SelectorLabels (hc_instance h)) w = (Ok (snd <$> cs), w') ->
  Forall (named name) cs ->
  cleanPersistentVolumeClaim (h, w) =
    onW (forM (snd <$> filter (claim_unused (int_Master (hc_instance h)) t) cs) DeletePVC) (h, w').
Proof.
  intros Hsh Hlist Hcs. unfold cleanPersistentVolumeClaim, bind at 1, geth. cbn [fst snd]. rewrite Hsh.
  unfold bind at 1, onW at 1. cbn [fst snd]. rewrite Hlist. by apply (clean_loop name).
Qed.
End clean.

(** ** Save and restore of the topology *)

Definition map_nodes (f : Node -> Node) (t : list (list Node)) : list (list Node) := list_fmap _ _ (list_fmap _ _ f) t.

(** What a restart keeps of a node: a freshly listed pod has only its address
    and ordinal; the rest comes back from the stored topology. *)
Definition relisted (n : Node) : Node := new_node (n_IP n) (n_PodIndex n).

Definition restored (n : Node) : Node :=
  {| n_IP := n_IP n; n_Role := n_Role n; n_PodIndex := n_PodIndex n; n_Slots := sort_ints (n_Slots n);
     n_NodeId := n_NodeId n; n_Master := n_Master n; n_Expected := 0; n_Failover := false;
     n_Migrate := sappend None (sort_migrate <$> items (n_Migrate n)) |}.

Definition node_ok (n : Node) : Prop :=
  Forall slot_ok (n_Slots n) /\ Forall (fun m => Forall slot_ok (nm_Slots m)) (items (n_Migrate n)).

Lemma load_migrate_topo (ms : list NodeMigrateMsg) :
  Forall (fun m => Forall slot_ok (nm_Slots m)) ms ->
  load_migrates (migrate_topo <$> ms) = Ok (sort_migrate <$> ms).
Proof.
  induction 1 as [|m ms Hm Hms IH]; [done|]. rewrite !fmap_cons. cbn [load_migrates]. rewrite IH.
  unfold load_migrate, migrate_topo, sort_migrate. cbn [mg_Shard mg_Slots]. by rewrite SlotsToInt_SlotsToString.
Qed.

Lemma sappend_items {A} (l : list A) : items (sappend None l) = l.
Proof. by destruct l. Qed.

(** [n'] is [n] with what the stored entry [topo] decodes to. *)
Definition loads (topo : KVRocksTopology) (n n' : Node) : Prop :=
  exists slots ms, SlotsToInt (t_Slots topo) = Ok slots /\ load_migrates (items (t_Migrate topo)) = Ok ms /\
    n' = load_topo topo slots ms n.

Lemma load_node_topo part j n : node_ok n -> loads (node_topo part j n) (relisted n) (restored n).
Proof.
  intros [Hs Hm]. exists (sort_ints (n_Slots n)), (sort_migrate <$> items (n_Migrate n)). split; [|split].
  - cbn [node_topo t_Slots]. by apply SlotsToInt_SlotsToString.
  - cbn [node_topo t_Migrate]. rewrite sappend_items. by apply load_migrate_topo.
  - reflexivity.
Qed.

Lemma topo_nodes_full part j (l : list Node) :
  topo_nodes part j (Some <$> l) = imap (fun k n => node_topo part (j + k)%nat n) l.
Proof.
  revert j. induction l as [|n l IH]; intros j; [done|].
  rewrite fmap_cons. cbn [topo_nodes]. rewrite imap_cons, IH. f_equal; [by rewrite Nat.add_0_r|].
  apply imap_ext. intros k x _. unfold compose. f_equal. lia.
Qed.

Definition partition_topo (name : string) (i : nat) (l : list Node) : KVRocksTopoPartitions :=
  {| p_PartitionName := GetStatefulSetName name (Some (Z.of_nat i)); p_Shard := Z.of_nat i;
     p_Topology := imap (fun k n => node_topo (GetStatefulSetName name (Some (Z.of_nat i))) k n) l |}.

Lemma topo_shards_present name i (t : list (list Node)) :
  topo_shards name i (present t) = imap (fun k l => partition_topo name (i + k)%nat l) t.
Proof.
  revert i. induction t as [|l t IH]; intros i; [done|].
  unfold present. rewrite fmap_cons. cbn [topo_shards full]. rewrite imap_cons. f_equal.
  - rewrite Nat.add_0_r. unfold partition_topo. f_equal. by rewrite topo_nodes_full.
  - change (full <$> t) with (present t). rewrite IH. apply imap_ext. intros k x _. unfold compose. f_equal. lia.
Qed.

Section restore.
Context {W : Type} `{Env W, GoLib}.

Lemma mod_node_at (h : ClusterHandler) (w : W) t i (pre : list Node) n post f :
  hc_stsNodes h = t -> t !! i = Some (full (pre ++ n :: post)) ->
  mod_node i (length pre) f (h, w) =
    (Ok tt, (hc_set_stsNodes (fun _ => <[i := full (pre ++ f n :: post)]> t) h, w)).
Proof.
  intros Ht Hi. unfold mod_node, get_node, bind, geth, lookup_node. cbn [fst snd]. rewrite Ht, Hi.
  change (items (full (pre ++ n :: post))) with (Some <$> (pre ++ n :: post)).
  rewrite list_lookup_fmap, list_lookup_middle by done. unfold modh, deref, ret. cbn [fmap option_fmap option_map fst snd].
  unfold hc_set_stsNodes. rewrite Ht. do 4 f_equal. unfold alter_node.
  apply list_eq. intros k. destruct (decide (k = i)) as [->|Hne].
  - rewrite list_lookup_alter_eq, Hi, list_lookup_insert_eq by (by eapply lookup_lt_Some). simpl. do 2 f_equal.
    rewrite !fmap_app, !fmap_cons. rewrite alter_app_r_alt by (by rewrite length_fmap).
    rewrite length_fmap, Nat.sub_diag. unfold full. by rewrite fmap_app, fmap_cons.
  - by rewrite list_lookup_alter_ne, list_lookup_insert_ne by done.
Qed.

Lemma load_node_at (h : ClusterHandler) (w : W) t i (pre : list Node) n n' post topo :
  hc_stsNodes h = t -> t !! i = Some (full (pre ++ n :: post)) -> loads topo n n' ->
  load_node i (length pre) topo (h, w) =
    (Ok tt, (hc_set_stsNodes (fun _ => <[i := full (pre ++ n' :: post)]> t) h, w)).
Proof.
  intros Ht Hi (slots & ms & Hs & Hm & ->). unfold load_node, bind at 1.
  assert (Hg : get_node i (length pre) (h, w) = (Ok n, (h, w))).
  { unfold get_node, bind, geth, lookup_node. cbn [fst snd]. rewrite Ht, Hi.
    change (items (full (pre ++ n :: post))) with (Some <$> (pre ++ n :: post)).
    by rewrite list_lookup_fmap, list_lookup_middle. }
  rewrite Hg, Hs, Hm. unfold bind at 1, lift at 1, bind at 1, lift at 1. by apply mod_node_at.
Qed.

Lemma load_loop i (pre l l' : list Node) (tl : list KVRocksTopology) (h : ClusterHandler) (w : W) t :
  hc_stsNodes h = t -> t !! i = Some (full (pre ++ l)) -> Forall3 loads tl l l' ->
  forM (imap (fun k q => ((length pre + k)%nat, q)) tl) (fun q => load_node i q.1 q.2) (h, w) =
    (Ok tt, (hc_set_stsNodes (fun _ => <[i := full (pre ++ l')]> t) h, w)).
Proof.
  intros Ht Hi Hall. revert pre h t Ht Hi. induction Hall as [|q n n' tl l l' Hq Hall IH]; intros pre h t Ht Hi.
  - cbn [imap forM]. unfold ret. rewrite list_insert_id by done. rewrite <- Ht. by destruct h.
  - rewrite imap_cons. cbn [forM fst snd]. rewrite Nat.add_0_r. unfold bind.
    rewrite (load_node_at _ _ _ _ _ _ _ _ _ Ht Hi Hq).
    rewrite (imap_ext _ (fun k x => ((length (pre ++ [n']) + k)%nat, x)))
      by (intros k x _; unfold compose; rewrite length_app; simpl; f_equal; lia).
    change (n' :: l) with ([n'] ++ l). rewrite app_assoc.
    erewrite IH; [|reflexivity|].
    + rewrite <- app_assoc. unfold hc_set_stsNodes. cbn [hc_stsNodes]. by rewrite list_insert_insert_eq.
    + cbn [hc_set_stsNodes hc_stsNodes]. apply list_lookup_insert_eq. by eapply lookup_lt_Some.
Qed.

Lemma load_shards (pre t t' : list (list Node)) ps (h : ClusterHandler) (w : W) :
  hc_stsNodes h = present (pre ++ t) -> Forall3 (fun p l l' => Forall3 loads (p_Topology p) l l') ps t t' ->
  forM (imap (fun k p => ((length pre + k)%nat, p)) ps)
    (fun p => forM (imap pair (p_Topology p.2)) (fun q => load_node p.1 q.1 q.2)) (h, w) =
    (Ok tt, (hc_set_stsNodes (fun _ => present (pre ++ t')) h, w)).
Proof.
  intros Ht Hall. revert pre h Ht. induction Hall as [|p l l' ps t t' Hl Hall IH]; intros pre h Ht.
  - cbn [imap forM]. unfold ret. rewrite <- Ht. by destruct h.
  - rewrite imap_cons. cbn [forM fst snd]. rewrite Nat.add_0_r. unfold bind.
    change (imap pair (p_Topology p)) with (imap (fun k q => ((length (@nil Node) + k)%nat, q)) (p_Topology p)).
    rewrite (load_loop (length pre) [] l l' (p_Topology p) h w (present (pre ++ l :: t))); [|done| |done].
    2: { unfold present. by rewrite list_lookup_fmap, list_lookup_middle. }
    rewrite (imap_ext _ (fun k x => ((length (pre ++ [l']) + k)%nat, x)))
      by (intros k x _; unfold compose; rewrite length_app; simpl; f_equal; lia).
    rewrite IH.
    + by rewrite <- app_assoc.
    + cbn [hc_set_stsNodes hc_stsNodes]. unfold present. rewrite <- app_assoc, !fmap_app, !fmap_cons.
      rewrite insert_app_r_alt by (by rewrite length_fmap). by rewrite length_fmap, Nat.sub_diag.
Qed.

(** What [imap] builds relates to what a map makes of the same list. *)
Lemma Forall3_imap {A B C D} (R : B -> C -> D -> Prop) (f : nat -> A -> B) (g : A -> C) (k : A -> D) (l : list A) :
  (forall i x, x ∈ l -> R (f i x) (g x) (k x)) -> Forall3 R (imap f l) (list_fmap _ _ g l) (list_fmap _ _ k l).
Proof.
  revert f. induction l as [|x l IH]; intros f HR; [constructor|]. rewrite imap_cons. constructor; [apply HR; by left|].
  apply IH. intros i y Hy. apply HR. by right.
Qed.

(** C4: the topology the operator stores is enough to rebuild its node table
    after the pods are listed again: decoding it returns, and every node gets
    its role, node id, master, slots (sorted) and unfinished migrations back,
    migrations that were finished come back as nil, and the failover flag is
    dropped.  Slots are below the largest [int]. *)
Theorem topology_roundtrip (h : ClusterHandler) (name : string) (t : list (list Node)) (w : W) :
  Forall (Forall node_ok) t ->
  hc_stsNodes h = present (map_nodes relisted t) ->
  st_Topo (kv_Status (hc_instance h)) = sappend None (topo_shards name 0 (present t)) ->
  fix_topo (h, w) = (Ok tt, (hc_set_stsNodes (fun _ => present (map_nodes restored t)) h, w)).
Proof.
  intros Hok Ht Htopo. unfold fix_topo, bind at 1, geth. cbn [fst snd].
  rewrite Htopo, sappend_items, topo_shards_present.
  set (ps := imap _ t).
  change (imap pair ps) with (imap (fun k p => ((length (@nil (list Node)) + k)%nat, p)) ps).
  apply (load_shards [] (map_nodes relisted t) (map_nodes restored t)); [done|].
  apply Forall3_imap. intros i l Hl. apply Forall3_imap. intros j n Hn. apply load_node_topo.
  rewrite Forall_forall in Hok. specialize (Hok l Hl). rewrite Forall_forall in Hok. by apply Hok.
Qed.
End restore.

(** ** Witnesses *)

Definition mk_node (ip role id : string) (pod : Z) (slots : list Z) (mig : slice NodeMigrateMsg) : Node :=
  set_n_Migrate mig (set_n_Slots slots (set_n_NodeId id (set_n_Role role (new_node ip pod)))).

(** Three shards of two pods; the first master has slots to move. *)
Definition sample_table : list (list Node) :=
  [[mk_node "10.0.0.1" RoleMaster "a" 0 [2; 0; 1] (Some [{| nm_Shard := 1; nm_Slots := [0; 1] |}]);
    mk_node "10.0.0.2" RoleSlaver "b" 1 [2; 0; 1] None];
   [mk_node "10.0.0.3" RoleMaster "c" 0 [5] None; mk_node "10.0.0.4" RoleSlaver "d" 2 [5] None];
   [mk_node "10.0.0.5" RoleMaster "e" 0 [] (Some []); mk_node "10.0.0.6" RoleSlaver "f" 1 [] None]].

Definition demo : string := "kvrocks-cluster-1-demo".
Definition sample_cr : KVRocks := sample_instance ClusterType demo 2 3.
Definition sample_handler (t : list (list Node)) : ClusterHandler :=
  hc_set_stsNodes (fun _ => present t) (NewKVRocksClusterHandler (NN "default" demo) sample_cr NewClient).

Lemma version_bump_witness :
  hc_version (@ensureVersion World (sample_handler sample_table, empty_world)).2.1 = 1.
Proof.
  rewrite (@version_bump World (sample_handler sample_table) sample_table empty_world eq_refl).
  reflexivity.
Defined.

(** Claims of a dropped shard, of a dropped ordinal, and of a live node, in
    the order the sample world lists them. *)
Definition sample_claims : list (Z * Z * PersistentVolumeClaim) :=
  [(3, 0, sample_claim (claim_name demo 3 0) (SelectorLabels sample_cr));
   (1, 1, sample_claim (claim_name demo 1 1) (SelectorLabels sample_cr));
   (1, 2, sample_claim (claim_name demo 1 2) (SelectorLabels sample_cr))].

Definition claims_world : World :=
  w_set_claims (list_to_map ((fun c => (key_of pvc_Meta c.2, c.2)) <$> sample_claims)) empty_world.

Lemma live_claims_kept_witness :
  let w := (@cleanPersistentVolumeClaim World worldEnv (sample_handler sample_table, claims_world)).2.2 in
  (fun c => bool_decide (is_Some (w_claims w !! key_of pvc_Meta c.2))) <$> sample_claims = [false; false; true].
Proof.
  rewrite (@live_claims_kept World worldEnv (sample_handler sample_table) sample_table eq_refl) with
    (name := demo) (cs := sample_claims) (w' := claims_world).
  - vm_compute. reflexivity.
  - vm_compute. repeat constructor.
  - vm_compute. discriminate.
  - reflexivity.
  - vm_compute. reflexivity.
  - repeat constructor; cbn [fst snd]; unfold is_int, MinInt, MaxInt; lia.
Defined.

Definition stored_handler : ClusterHandler :=
  hc_set_instance (set_kv_Status (set_st_Topo (sappend None (topo_shards demo 0 (present sample_table)))))
    (sample_handler (map_nodes relisted sample_table)).

Lemma topology_roundtrip_witness :
  hc_stsNodes (@fix_topo World (stored_handler, empty_world)).2.1 = present (map_nodes restored sample_table).
Proof.
  rewrite (@topology_roundtrip World stored_handler demo sample_table empty_world);
    [reflexivity| |reflexivity|reflexivity].
  repeat constructor; cbn; unfold slot_ok, MaxInt; lia.
Defined.
