(* ===== verification/ClusterRoles.v ===== *)
(** * Roles, replication and node identities of a cluster

    What [initCluster], [ensureReplication] and [ensureSetNodeID] do to the
    node table when they succeed, and how [ensureSetNodeID] and
    [updateCluster] fail when the controller does not know a shard. *)

From S2P Require Import Prelude GoStd Types Slots Resources Scale Env K8sClient KvClient ControllerClient Common SentinelNotify Cluster World ClusterProps.
Local Open Scope Z_scope.
Local Open Scope go_scope.

Section loops.
Context {W : Type} `{Env W, GoLib}.
#[local] Abbreviation C := (M (ClusterHandler * W)).

Definition with_table (t : list (slice (option Node))) (h : ClusterHandler) : ClusterHandler :=
  hc_set_stsNodes (fun _ => t) h.

Lemma with_table_id h t : hc_stsNodes h = t -> h = with_table t h.
Proof. intros <-. by destruct h. Qed.

(** A successful run of [body] at position [j] of shard [i] applies [f j]
    to the node there and changes nothing else of the handler. *)
Definition steps_node (i : nat) (body : nat -> C unit) (f : nat -> Node -> Node) : Prop :=
  forall h w h' w' (pre : list Node) n post,
    hc_stsNodes h !! i = Some (full (pre ++ n :: post)) ->
    body (length pre) (h, w) = (Ok tt, (h', w')) ->
    h' = with_table (<[i := full (pre ++ f (length pre) n :: post)]> (hc_stsNodes h)) h.

Lemma node_loop i body f (pre l : list Node) h w h' w' :
  steps_node i body f -> hc_stsNodes h !! i = Some (full (pre ++ l)) ->
  forM (seq (length pre) (length l)) body (h, w) = (Ok tt, (h', w')) ->
  h' = with_table (<[i := full (pre ++ imap (fun k => f (length pre + k)%nat) l)]> (hc_stsNodes h)) h.
Proof.
  intros Hbody. revert pre h w. induction l as [|n l IH]; intros pre h w Hi.
  - cbn [length seq forM imap]. intros [= <- <-]. rewrite list_insert_id by done. by apply with_table_id.
  - cbn [length seq forM]. unfold bind. destruct (body (length pre) (h, w)) as [[[]|e| |] [h1 w1]] eqn:Eb; [|done..].
    intros Hrun. pose proof (Hbody _ _ _ _ _ _ _ Hi Eb) as ->.
    replace (S (length pre)) with (length (pre ++ [f (length pre) n])) in Hrun by (rewrite length_app; simpl; lia).
    apply IH in Hrun as ->.
    + unfold with_table, hc_set_stsNodes. cbn [hc_stsNodes]. rewrite list_insert_insert_eq, <- app_assoc.
      rewrite imap_cons, Nat.add_0_r. simpl. do 4 f_equal. f_equal. apply imap_ext.
      intros k x _. unfold compose. f_equal. rewrite length_app. simpl. lia.
    + cbn [with_table hc_set_stsNodes hc_stsNodes]. rewrite list_lookup_insert_eq by (by eapply lookup_lt_Some).
      by rewrite <- app_assoc.
Qed.

(** What every successful run of the body needs of its node. *)
Lemma node_loop_all (P : Node -> Prop) i body f (pre l : list Node) h w h' w' :
  steps_node i body f ->
  (forall h w h' w' pre n post, hc_stsNodes h !! i = Some (full (pre ++ n :: post)) ->
     body (length pre) (h, w) = (Ok tt, (h', w')) -> P n) ->
  hc_stsNodes h !! i = Some (full (pre ++ l)) ->
  forM (seq (length pre) (length l)) body (h, w) = (Ok tt, (h', w')) -> Forall P l.
Proof.
  intros Hbody HP. revert pre h w. induction l as [|n l IH]; intros pre h w Hi; [constructor|].
  cbn [length seq forM]. unfold bind. destruct (body (length pre) (h, w)) as [[[]|e| |] [h1 w1]] eqn:Eb; [|done..].
  intros Hrun. constructor; [by eapply HP|]. pose proof (Hbody _ _ _ _ _ _ _ Hi Eb) as ->.
  replace (S (length pre)) with (length (pre ++ [f (length pre) n])) in Hrun by (rewrite length_app; simpl; lia).
  apply IH in Hrun; [done|]. cbn [with_table hc_set_stsNodes hc_stsNodes].
  rewrite list_lookup_insert_eq by (by eapply lookup_lt_Some). by rewrite <- app_assoc.
Qed.

(** The same for a shard, related by [R], in a handler that talks to the
    controller [c]. *)
Definition steps_shard (c : Controller) (body : nat -> list (option Node) -> C unit) (R : nat -> list Node -> list Node -> Prop) : Prop :=
  forall h w h' w' i (l : list Node),
    hc_controller h = c -> hc_stsNodes h !! i = Some (full l) ->
    body i (Some <$> l) (h, w) = (Ok tt, (h', w')) ->
    exists l', R i l l' /\ h' = with_table (<[i := full l']> (hc_stsNodes h)) h.

Lemma shard_loop body R (pre t : list (list Node)) h w h' w' :
  steps_shard (hc_controller h) body R -> hc_stsNodes h = present (pre ++ t) ->
  forM (seq (length pre) (length t)) (fun i =>
    let! h := geth in let! sts := deref (hc_stsNodes h !! i) in body i (items sts)) (h, w) = (Ok tt, (h', w')) ->
  exists t', length t' = length t /\
    (forall i l l', t !! i = Some l -> t' !! i = Some l' -> R (length pre + i)%nat l l') /\
    h' = with_table (present (pre ++ t')) h.
Proof.
  revert pre h w. induction t as [|l t IH]; intros pre h w Hbody Ht.
  - cbn [length seq forM]. intros [= <- <-]. exists []. split; [done|]. split; [done|].
    by apply with_table_id.
  - assert (Hi : hc_stsNodes h !! length pre = Some (full l)).
    { rewrite Ht. unfold present. by rewrite list_lookup_fmap, list_lookup_middle. }
    cbn [length seq forM]. unfold bind at 1, bind at 1, geth at 1. cbn [fst snd].
    unfold bind at 1. rewrite Hi. unfold deref at 1, ret at 1. change (items (full l)) with (Some <$> l).
    destruct (body (length pre) (Some <$> l) (h, w)) as [[[]|e| |] [h1 w1]] eqn:Eb; [|done..].
    intros Hrun. destruct (Hbody _ _ _ _ _ _ eq_refl Hi Eb) as (l1 & HR & ->).
    replace (S (length pre)) with (length (pre ++ [l1])) in Hrun by (rewrite length_app; simpl; lia).
    apply IH in Hrun as (t' & Hlen & HR' & ->).
    + exists (l1 :: t'). split; [simpl; lia|]. split; [|by rewrite <- app_assoc].
      intros [|i] a b Ha Hb; [simplify_eq/=; by rewrite Nat.add_0_r|].
      specialize (HR' i a b Ha Hb). rewrite length_app in HR'. simpl in HR'.
      by replace (length pre + S i)%nat with (length pre + 1 + i)%nat by lia.
    + exact Hbody.
    + cbn [with_table hc_set_stsNodes hc_stsNodes]. rewrite Ht. unfold present.
      rewrite <- app_assoc, !fmap_app, !fmap_cons. rewrite insert_app_r_alt by (by rewrite length_fmap).
      by rewrite length_fmap, Nat.sub_diag.
Qed.

Lemma for_shards_spec body R (t : list (list Node)) h w h' w' :
  steps_shard (hc_controller h) body R -> hc_stsNodes h = present t ->
  for_shards body (h, w) = (Ok tt, (h', w')) ->
  exists t', length t' = length t /\ (forall i l l', t !! i = Some l -> t' !! i = Some l' -> R i l l') /\
    h' = with_table (present t') h.
Proof.
  intros Hbody Ht Hrun. apply (shard_loop body R [] t h w h' w' Hbody Ht).
  unfold for_shards, bind at 1, geth in Hrun. cbn [fst snd] in Hrun.
  rewrite Ht in Hrun. unfold present in Hrun. by rewrite length_fmap in Hrun.
Qed.

Lemma get_node_at i h (w : W) (pre : list Node) n post :
  hc_stsNodes h !! i = Some (full (pre ++ n :: post)) -> get_node i (length pre) (h, w) = (Ok n, (h, w)).
Proof.
  intros Hi. unfold get_node, bind, geth, lookup_node. cbn [fst snd]. rewrite Hi.
  change (items (full (pre ++ n :: post))) with (Some <$> (pre ++ n :: post)).
  by rewrite list_lookup_fmap, list_lookup_middle.
Qed.

(** The calls on the world leave the handler alone. *)
Lemma label_node_frame i j h w o h' w' : label_node i j (h, w) = (o, (h', w')) -> h' = h.
Proof.
  unfold label_node, bind, geth, get_node, bind, geth. cbn [fst snd].
  destruct (lookup_node _ _ _) as [n|]; unfold deref, ret, panic; [apply onW_frame|by intros [= _ -> _]].
Qed.

Lemma mod_label_steps i (f : Node -> Node) :
  steps_node i (fun j => mod_node i j f ;;; label_node i j) (fun _ => f).
Proof.
  intros h w h' w' pre n post Hi. unfold bind.
  rewrite (mod_node_at h w (hc_stsNodes h) i pre n post f eq_refl Hi).
  intros Hl. apply label_node_frame in Hl as ->. done.
Qed.
End loops.

(** ** Replication *)

(** The identity of the first master of a shard. *)
Definition lead (l : list Node) : string := default EmptyString (n_NodeId <$> List.find (fun n => String.eqb (n_Role n) RoleMaster) l).

Lemma find_master_full (l : list Node) : find_master (Some <$> l) = Ok (lead l).
Proof.
  induction l as [|n l IH]; [done|]. rewrite fmap_cons. cbn [find_master]. unfold lead. cbn [List.find].
  destruct (String.eqb (n_Role n) RoleMaster); [done|exact IH].
Qed.

(** What a successful pass makes of a shard. *)
Definition replicated (l : list Node) : list Node :=
  if String.eqb (lead l) EmptyString then
    match l with
    | [] => []
    | n :: rest => follow (n_NodeId n) <$> set_n_Role RoleMaster n :: rest
    end
  else follow (lead l) <$> l.

Lemma follow_end id n : n_NodeId (follow id n) = id \/ n_Master (follow id n) = id.
Proof.
  unfold follow. destruct (String.eqb_spec (n_NodeId n) id); [by left|].
  destruct (String.eqb_spec (n_Master n) id); [by right|]. by right.
Qed.

Lemma follow_self id n : n_NodeId n = id -> follow id n = n.
Proof. unfold follow. intros ->. by rewrite String.eqb_refl. Qed.

Lemma follow_master id n :
  n_Role (follow id n) = RoleMaster -> n_Master n <> id -> n_NodeId (follow id n) = id.
Proof.
  unfold follow. destruct (String.eqb_spec (n_NodeId n) id); [done|].
  destruct (String.eqb_spec (n_Master n) id); [done|]. intros [=].
Qed.

Lemma follow_frame id n :
  n_IP (follow id n) = n_IP n /\ n_PodIndex (follow id n) = n_PodIndex n /\ n_NodeId (follow id n) = n_NodeId n.
Proof. unfold follow. by destruct (_ && _). Qed.

(** What the operator relies on after [ensureReplication]: the shard has a
    master [id], and every node is that master or replicates it. *)
Definition led_by (id : string) (l : list Node) : Prop :=
  (exists m, m ∈ l /\ n_Role m = RoleMaster /\ n_NodeId m = id) /\
  forall n, n ∈ l -> n_NodeId n = id \/ n_Master n = id.

Lemma lead_found (l : list Node) : lead l <> EmptyString ->
  exists m, m ∈ l /\ n_Role m = RoleMaster /\ n_NodeId m = lead l.
Proof.
  unfold lead. destruct (List.find _ l) as [m|] eqn:Ef; [|done]. intros _.
  apply List.find_some in Ef as [Hin Hr]. exists m.
  split; [by apply list_elem_of_In|]. split; [by apply String.eqb_eq|done].
Qed.

Lemma replicated_led (l : list Node) : l <> [] -> exists id, led_by id (replicated l).
Proof.
  intros Hl. unfold replicated, led_by. destruct (String.eqb_spec (lead l) EmptyString) as [E|E].
  - destruct l as [|n rest]; [done|]. exists (n_NodeId n). split.
    + exists (set_n_Role RoleMaster n). split; [|done].
      apply list_elem_of_fmap. exists (set_n_Role RoleMaster n). split; [by rewrite follow_self|by left].
    + intros x (y & -> & _)%list_elem_of_fmap. apply follow_end.
  - exists (lead l). destruct (lead_found l E) as (m & Hm & Hr & Hid). split.
    + exists m. split; [|done]. apply list_elem_of_fmap. exists m. split; [by rewrite follow_self|done].
    + intros x (y & -> & _)%list_elem_of_fmap. apply follow_end.
Qed.

(** When masters follow nobody, as the controller reports them, one master is
    left. *)
Lemma replicated_one_master (l : list Node) n :
  lead l <> EmptyString -> (forall m, m ∈ l -> n_Role m = RoleMaster -> n_Master m = EmptyString) ->
  n ∈ replicated l -> n_Role n = RoleMaster -> n_NodeId n = lead l.
Proof.
  intros Hlead Hm. unfold replicated. destruct (String.eqb_spec (lead l) EmptyString); [done|].
  intros (y & -> & Hy)%list_elem_of_fmap Hr. destruct (decide (n_Role y = RoleMaster)) as [Hy'|Hy'].
  - apply follow_master; [done|]. rewrite (Hm y) by done. congruence.
  - exfalso. unfold follow in Hr. by destruct (_ && _).
Qed.

(** What identifies a node. *)
Definition node_key (n : Node) : string * Z * string := (n_IP n, n_PodIndex n, n_NodeId n).

Lemma replicated_frame (l : list Node) :
  node_key <$> replicated l = node_key <$> l.
Proof.
  assert (Hf : forall id (k : list Node), node_key <$> (follow id <$> k) =
                            node_key <$> k).
  { intros id k. rewrite <- list_fmap_compose. apply list_fmap_ext. intros i n _. unfold compose, node_key.
    by destruct (follow_frame id n) as (-> & -> & ->). }
  unfold replicated. destruct (String.eqb _ _); [|apply Hf]. destruct l as [|n rest]; [done|]. by rewrite Hf.
Qed.

Section replication.
Context {W : Type} `{Env W, GoLib}.

Lemma ensureReplication_shard c :
  steps_shard (W := W) c (fun i sts =>
    let! found := lift (find_master sts) in
    let! masterNodeID :=
      (if String.eqb found EmptyString then
         mod_node i 0 (set_n_Role RoleMaster) ;;;
         let! node := get_node i 0 in ret (n_NodeId node)
       else ret found) in
    for_nodes sts (fun j => mod_node i j (follow masterNodeID) ;;; label_node i j))
    (fun _ l l' => l <> [] /\ l' = replicated l).
Proof.
  intros h w h' w' i l _ Hi. unfold bind at 1, lift. rewrite find_master_full. unfold bind at 1, replicated.
  destruct (String.eqb_spec (lead l) EmptyString) as [E|E].
  - destruct l as [|n rest].
    { unfold bind at 1, mod_node, bind at 1, get_node, bind at 1, geth, lookup_node. cbn [fst snd]. by rewrite Hi. }
    unfold bind at 1. rewrite (mod_node_at h w _ i [] n rest _ eq_refl Hi).
    set (h1 := hc_set_stsNodes _ h).
    assert (Hi1 : hc_stsNodes h1 !! i = Some (full (set_n_Role RoleMaster n :: rest))).
    { apply list_lookup_insert_eq. by eapply lookup_lt_Some. }
    pose proof (get_node_at i h1 w [] _ _ Hi1) as Hg. cbn [length] in Hg.
    unfold bind at 1. rewrite Hg. unfold ret, for_nodes. rewrite length_fmap. intros Hrun.
    apply (node_loop i _ (fun _ => follow (n_NodeId n)) [] (set_n_Role RoleMaster n :: rest)) in Hrun as ->;
      [|apply mod_label_steps|done].
    eexists. split; [split; [done|reflexivity]|]. unfold h1, with_table, hc_set_stsNodes. cbn [hc_stsNodes].
    rewrite list_insert_insert_eq. do 3 f_equal. apply imap_const.
  - unfold ret at 1, for_nodes. rewrite length_fmap. intros Hrun.
    apply (node_loop i _ (fun _ => follow (lead l)) [] l) in Hrun as ->; [|apply mod_label_steps|done].
    eexists. split; [split; [|reflexivity]|do 3 f_equal; apply imap_const].
    intros ->. done.
Qed.

(** C17: when [ensureReplication] succeeds on a table of live nodes, every
    shard has a master and every node of the shard is that master or
    replicates it; addresses, ordinals and identities are unchanged, and if
    the shard had a known master and masters follow nobody, that master is
    the only one left. *)
Theorem replication_follows_master h w h' w' (t : list (list Node)) :
  hc_stsNodes h = present t ->
  ensureReplication (W := W) (h, w) = (Ok tt, (h', w')) ->
  exists t', hc_stsNodes h' = present t' /\ length t' = length t /\
    forall i l l', t !! i = Some l -> t' !! i = Some l' ->
      (exists id, led_by id l') /\
      node_key <$> l' = node_key <$> l /\
      (lead l <> EmptyString -> (forall m, m ∈ l -> n_Role m = RoleMaster -> n_Master m = EmptyString) ->
         forall n, n ∈ l' -> n_Role n = RoleMaster -> n_NodeId n = lead l).
Proof.
  intros Ht Hrun. destruct (for_shards_spec _ _ t h w h' w' (ensureReplication_shard _) Ht Hrun) as (t' & Hlen & HR & ->).
  exists t'. split; [done|]. split; [done|]. intros i l l' Hl Hl'. destruct (HR i l l' Hl Hl') as [Hne ->].
  split; [by apply replicated_led|]. split; [apply replicated_frame|].
  intros Hlead Hm n Hn. by apply replicated_one_master.
Qed.
End replication.

(** ** First start *)

(** The roles of a new shard: the first pod leads. *)
Definition initial_roles (l : list Node) : list Node :=
  imap (fun j n => set_n_Role (if (j =? 0)%nat then RoleMaster else RoleSlaver) n) l.

Section init.
Context {W : Type} `{Env W, GoLib}.

Lemma init_master_shard c :
  steps_shard (W := W) c (fun i _ => mod_node i 0 (set_n_Role RoleMaster))
    (fun _ l l' => exists n rest, l = n :: rest /\ l' = set_n_Role RoleMaster n :: rest).
Proof.
  intros h w h' w' i [|n rest] _ Hi.
  { unfold mod_node, bind at 1, get_node, bind at 1, geth, lookup_node. cbn [fst snd]. by rewrite Hi. }
  pose proof (mod_node_at h w _ i [] n rest (set_n_Role RoleMaster) eq_refl Hi) as Hm. cbn [length] in Hm.
  rewrite Hm. intros [= <- _]. eexists. split; [by exists n, rest|]. done.
Qed.

Lemma init_slaves_shard c :
  steps_shard (W := W) c (fun i sts => for_nodes sts (fun j =>
      when (negb (j =? 0)%nat) (mod_node i j (set_n_Role RoleSlaver)) ;;; label_node i j))
    (fun _ l l' => l' = imap (fun j n => if (j =? 0)%nat then n else set_n_Role RoleSlaver n) l).
Proof.
  intros h w h' w' i l _ Hi. unfold for_nodes. rewrite length_fmap. intros Hrun.
  apply (node_loop i _ (fun j n => if (j =? 0)%nat then n else set_n_Role RoleSlaver n) [] l) in Hrun as ->; [|clear|done].
  { eexists. split; [reflexivity|]. done. }
  intros h w h' w' pre n post Hi. unfold bind, when.
  destruct (Nat.eqb_spec (length pre) 0) as [E|E]; cbn [negb].
  - unfold ret. intros Hl. apply label_node_frame in Hl as ->.
    rewrite list_insert_id by done. by apply with_table_id.
  - rewrite (mod_node_at h w _ i pre n post _ eq_refl Hi). intros Hl. by apply label_node_frame in Hl as ->.
Qed.

Lemma init_roles_shape h w h' w' (t : list (list Node)) :
  hc_stsNodes h = present t ->
  initCluster (W := W) (h, w) = (Ok tt, (h', w')) ->
  h' = with_table (present (map initial_roles t)) h /\ Forall (fun l => l <> []) t.
Proof.
  intros Ht. unfold initCluster, bind at 1.
  destruct (for_shards _ (h, w)) as [[[]|e| |] [h1 w1]] eqn:E1; [|done..]. intros E2.
  apply (for_shards_spec _ _ t _ _ _ _ (init_master_shard _) Ht) in E1 as (t1 & Hlen1 & HR1 & ->).
  apply (for_shards_spec _ _ t1 (with_table (present t1) h) _ _ _ (init_slaves_shard _) eq_refl) in E2 as (t2 & Hlen2 & HR2 & ->).
  assert (Hall : forall i l, t !! i = Some l -> l <> [] /\ t2 !! i = Some (initial_roles l)).
  { intros i l Hl. destruct (lookup_lt_is_Some_2 t1 i) as [l1 Hl1]; [rewrite Hlen1; by eapply lookup_lt_Some|].
    destruct (lookup_lt_is_Some_2 t2 i) as [l2 Hl2]; [rewrite Hlen2; by eapply lookup_lt_Some|].
    destruct (HR1 i l l1 Hl Hl1) as (n & rest & -> & ->). rewrite (HR2 i _ _ Hl1 Hl2) in Hl2.
    split; [done|]. rewrite Hl2. unfold initial_roles. by rewrite !imap_cons. }
  split.
  - unfold with_table, hc_set_stsNodes. cbn. do 3 f_equal. apply list_eq. intros i.
    rewrite list_lookup_fmap. destruct (t !! i) as [l|] eqn:El; [by apply Hall|].
    apply lookup_ge_None in El. apply lookup_ge_None. lia.
  - apply Forall_forall. intros l [i Hi]%list_elem_of_lookup. by apply Hall in Hi as [? _].
Qed.

(** When [initCluster] succeeds on a table of live nodes, in every shard
    the first pod is the master and every other pod a slave, and nothing
    else of the nodes changed. *)
Theorem init_roles h w h' w' (t : list (list Node)) :
  hc_stsNodes h = present t ->
  initCluster (W := W) (h, w) = (Ok tt, (h', w')) ->
  h' = with_table (present (map initial_roles t)) h /\ Forall (fun l => l <> []) t.
Proof. apply init_roles_shape. Qed.
End init.

(** ** Identities from the controller *)

(** The slots of a shard, as far as they decode. *)
Definition shard_slots (d : ShardData) : list Z :=
  match SlotsToInt (sd_SlotRanges d) with
  | Ok slots => slots
  | _ => []
  end.

Definition adopted (d : ShardData) (n : Node) : Node :=
  match member_at (n_IP n) d with
  | Some shard => adopt (shard_masterID d) (shard_slots d) shard n
  | None => n
  end.

(** A node the controller lists in a shard whose slots decode, or one it does
    not list. *)
Definition adoptable (d : ShardData) (n : Node) : Prop :=
  member_at (n_IP n) d = None \/ SlotsToInt (sd_SlotRanges d) = Ok (shard_slots d).

Section identities.
Context {W : Type} `{Env W, GoLib}.

Lemma set_node_id_run i d h (w : W) h' w' pre n post :
  hc_stsNodes h !! i = Some (full (pre ++ n :: post)) ->
  set_node_id i (length pre) (shard_masterID d) d (h, w) = (Ok tt, (h', w')) ->
  adoptable d n /\ h' = with_table (<[i := full (pre ++ adopted d n :: post)]> (hc_stsNodes h)) h.
Proof.
  intros Hi. unfold set_node_id, bind at 1.
  rewrite (get_node_at i h w pre n post Hi). unfold adoptable, adopted, shard_slots, bind at 1.
  destruct (member_at (n_IP n) d) as [shard|].
  - unfold bind at 1, lift at 1. destruct (SlotsToInt (sd_SlotRanges d)) as [slots|e| |]; [|done..].
    rewrite (mod_node_at h w _ i pre n post _ eq_refl Hi). intros Hl. apply label_node_frame in Hl as ->. by split; [right|].
  - unfold ret. intros Hl. apply label_node_frame in Hl as ->. split; [by left|].
    rewrite list_insert_id by done. by apply with_table_id.
Qed.

Lemma set_node_id_steps i d :
  steps_node (W := W) i (fun j => set_node_id i j (shard_masterID d) d) (fun _ => adopted d).
Proof. intros h w h' w' pre n post Hi Hrun. by apply (set_node_id_run i d h w h' w' pre n post Hi). Qed.

(** The controller [c] answered for shard [i] with the data [d]. *)
Definition answered (c : Controller) (i : nat) (d : ShardData) : Prop :=
  exists w w' : W, GetNodes c (Z.of_nat i) w = (Ok (Some d), w').

Lemma ensureSetNodeID_shard c :
  steps_shard (W := W) c set_shard_ids
    (fun i l l' => exists d, answered c i d /\ shard_masterID d <> EmptyString /\ Forall (adoptable d) l /\ l' = adopted d <$> l).
Proof.
  intros h w h' w' i l <- Hi. unfold set_shard_ids, bind at 1, geth at 1. cbn [fst snd]. unfold bind at 1.
  destruct (onW _ (h, w)) as [[r|e| |] [h1 w1]] eqn:Eg; [|done..]. pose proof Eg as Eg'. apply onW_frame in Eg as ->.
  destruct r as [d|]; [|done]. unfold bind at 1, deref, ret at 1.
  destruct (String.eqb_spec (shard_masterID d) EmptyString) as [E|E]; [done|].
  unfold for_nodes. rewrite length_fmap. intros Hrun. pose proof Hrun as Hall.
  apply (node_loop_all (adoptable d) i _ (fun _ => adopted d) [] l) in Hall; [|apply set_node_id_steps| |done].
  2: { intros h2 w2 h3 w3 pre n post Hn Hr. by apply (set_node_id_run i d h2 w2 h3 w3 pre n post Hn). }
  apply (node_loop i _ (fun _ => adopted d) [] l) in Hrun as ->; [|apply set_node_id_steps|done].
  eexists. split; [exists d; split; [|split; [done|split; [done|reflexivity]]]|]; [|do 3 f_equal; apply imap_const].
  exists w, w1. unfold onW in Eg'. cbn [fst snd] in Eg'. destruct (GetNodes _ _ w) as [o w0]. by injection Eg' as -> ->.
Qed.

(** What a node looks like after it took over the controller's view. *)
Definition agrees (d : ShardData) (n : Node) : Prop :=
  match member_at (n_IP n) d with
  | Some s =>
      n_NodeId n = cn_ID s /\ SlotsToInt (sd_SlotRanges d) = Ok (n_Slots n) /\
      (cn_Role s = "master" -> n_Role n = RoleMaster /\ n_Master n = EmptyString) /\
      (cn_Role s <> "master" -> n_Role n = RoleSlaver /\ n_Master n = shard_masterID d)
  | None => True
  end.

Lemma adopted_agrees d n : adoptable d n -> agrees d (adopted d n).
Proof.
  unfold adoptable, agrees, adopted. destruct (member_at (n_IP n) d) as [s|] eqn:E; [|by rewrite E]. intros [?|Hs]; [done|].
  replace (n_IP (adopt (shard_masterID d) (shard_slots d) s n)) with (n_IP n) by (unfold adopt; by destruct (String.eqb _ _)).
  rewrite E, Hs. unfold adopt. by destruct (String.eqb_spec (cn_Role s) "master").
Qed.

Lemma node_ids_adopted h w h' w' (t : list (list Node)) :
  hc_stsNodes h = present t ->
  ensureSetNodeID (W := W) (h, w) = (Ok tt, (h', w')) ->
  exists t', h' = with_table (present t') h /\ length t' = length t /\
    forall i l l', t !! i = Some l -> t' !! i = Some l' ->
      exists d, answered (hc_controller h) i d /\ shard_masterID d <> EmptyString /\ Forall (agrees d) l' /\
        (fun n => (n_IP n, n_PodIndex n)) <$> l' = (fun n => (n_IP n, n_PodIndex n)) <$> l.
Proof.
  intros Ht Hrun. destruct (for_shards_spec _ _ t h w h' w' (ensureSetNodeID_shard _) Ht Hrun) as (t' & Hlen & HR & ->).
  exists t'. split; [done|]. split; [done|]. intros i l l' Hl Hl'. destruct (HR i l l' Hl Hl') as (d & Ha & Hd & Had & ->).
  exists d. split; [done|]. split; [done|]. split.
  - apply Forall_fmap. eapply Forall_impl; [exact Had|]. intros n. apply adopted_agrees.
  - rewrite <- list_fmap_compose. apply list_fmap_ext. intros j n _. unfold compose, adopted, adopt.
    destruct (member_at _ _); [|done]. by destruct (String.eqb _ _).
Qed.

(** C18: when [ensureSetNodeID] succeeds, for every shard the controller
    reported a master, and every node whose address the controller knows has
    the controller's id, role and slots: a master follows nobody, any other
    member follows the shard's master. *)
Theorem node_ids_follow_controller h w h' w' (t : list (list Node)) :
  hc_stsNodes h = present t ->
  ensureSetNodeID (W := W) (h, w) = (Ok tt, (h', w')) ->
  exists t', h' = with_table (present t') h /\ length t' = length t /\
    forall i l l', t !! i = Some l -> t' !! i = Some l' ->
      exists d, answered (hc_controller h) i d /\ shard_masterID d <> EmptyString /\ Forall (agrees d) l' /\
        (fun n => (n_IP n, n_PodIndex n)) <$> l' = (fun n => (n_IP n, n_PodIndex n)) <$> l.
Proof. apply node_ids_adopted. Qed.

(** C39: the controller's answer about a shard with a status other than 200
    (not created, or the controller unavailable behind a proxy) is returned as
    a nil pointer without an error, and [ensureSetNodeID] dereferences it:
    whatever shard it is, once the shards before it are done the operator
    panics, and nothing after that request is sent. *)
Theorem unknown_shard_panics i h w h1 w1 w2 resp (l : slice (option Node)) :
  (i < length (hc_stsNodes h))%nat ->
  forM (seq 0 i) (at_shard set_shard_ids) (h, w) = (Ok tt, (h1, w1)) -> hc_stsNodes h1 !! i = Some l ->
  http_get (shard_url (hc_controller h1) (Z.of_nat i)) w1 = (Ok resp, w2) ->
  rs_StatusCode resp <> StatusOK ->
  ensureSetNodeID (W := W) (h, w) = (Panic, (h1, w2)).
Proof.
  intros Hi Hpre Hl Hget Hst. unfold ensureSetNodeID, for_shards, bind at 1, geth at 1. cbn [fst snd].
  replace (length (hc_stsNodes h)) with (i + S (length (hc_stsNodes h) - S i))%nat by lia.
  rewrite seq_app, forM_app. unfold bind at 1. rewrite Hpre. cbn [Nat.add seq forM].
  unfold bind at 1, at_shard at 1, bind at 1, geth at 1. cbn [fst snd].
  unfold bind at 1. rewrite Hl. unfold deref at 1, ret at 1, set_shard_ids, bind at 1, geth at 1. cbn [fst snd].
  unfold bind at 1, onW, GetNodes, bind at 1. cbn [fst snd]. rewrite Hget.
  replace (rs_StatusCode resp =? StatusOK) with false by (symmetry; by apply Z.eqb_neq). done.
Qed.
End identities.

(** ** Witnesses *)

Definition table_pods (t : list (list Node)) : list (NamespacedName * Pod) :=
  concat (imap (fun i l => map (fun n =>
    let name := GetStatefulSetName demo (Some (Z.of_nat i)) +:+ "-" +:+ Itoa (n_PodIndex n) in
    (NN "default" name, sample_pod name (n_IP n))) l) t).

(** The pods of the sample table, and a controller that answers for every
    shard with the same two members. *)
Definition sample_reply : json :=
  JObj [("data", JObj [("shard", JObj [
    ("nodes", JArr [JObj [("id", JStr "x"); ("addr", JStr "10.0.0.2:6379"); ("role", JStr "master")];
                    JObj [("id", JStr "y"); ("addr", JStr "10.0.0.1:6379"); ("role", JStr "slave")]]);
    ("slot_ranges", JArr [JStr "0-2"])])])].

Definition roles_world : World :=
  w_set_http (fun _ => {| rs_StatusCode := 200; rs_Body := Some sample_reply |})
    (w_set_pods (list_to_map (table_pods sample_table)) empty_world).

Lemma replication_follows_master_witness :
  let run := @ensureReplication World worldEnv (sample_handler sample_table, roles_world) in
  exists t', hc_stsNodes run.2.1 = present t' /\ length t' = 3%nat.
Proof.
  intros run.
  assert (Hok : run.1 = Ok tt) by (vm_compute; reflexivity).
  destruct (@replication_follows_master World worldEnv (sample_handler sample_table) roles_world run.2.1 run.2.2
    sample_table eq_refl (run_eq _ _ _ Hok)) as (t' & Ht' & Hlen & _).
  exists t'. split; [exact Ht'|exact Hlen].
Defined.

Lemma init_roles_witness :
  let run := @initCluster World worldEnv (sample_handler sample_table, roles_world) in
  run.2.1 = with_table (present (map initial_roles sample_table)) (sample_handler sample_table).
Proof.
  intros run.
  assert (Hok : run.1 = Ok tt) by (vm_compute; reflexivity).
  exact (proj1 (@init_roles World worldEnv (sample_handler sample_table) roles_world run.2.1 run.2.2
    sample_table eq_refl (run_eq _ _ _ Hok))).
Defined.

Lemma node_ids_follow_controller_witness :
  let run := @ensureSetNodeID World worldEnv (sample_handler sample_table, roles_world) in
  exists t', run.2.1 = with_table (present t') (sample_handler sample_table) /\ length t' = 3%nat.
Proof.
  intros run.
  assert (Hok : run.1 = Ok tt) by (vm_compute; reflexivity).
  destruct (@node_ids_follow_controller World worldEnv (sample_handler sample_table) roles_world run.2.1 run.2.2
    sample_table eq_refl (run_eq _ _ _ Hok)) as (t' & Ht' & Hlen & _).
  exists t'. split; [exact Ht'|exact Hlen].
Defined.

(** The controller answers for shard 0 and has no shard 1. *)
Definition second_missing_world : World :=
  w_set_http (fun rq => if Contains (rq_URL rq) "/shards/1" then {| rs_StatusCode := 404; rs_Body := None |}
                        else {| rs_StatusCode := 200; rs_Body := Some sample_reply |})
    (w_set_pods (list_to_map (table_pods sample_table)) empty_world).

Lemma unknown_shard_panics_witness :
  (@ensureSetNodeID World worldEnv (sample_handler sample_table, second_missing_world)).1 = Panic.
Proof.
  pose (run := @forM _ _ (seq 0 1) (at_shard (@set_shard_ids World worldEnv)) (sample_handler sample_table, second_missing_world)).
  assert (Hok : run.1 = Ok tt) by (vm_compute; reflexivity).
  pose proof (@unknown_shard_panics World worldEnv 1 (sample_handler sample_table) second_missing_world run.2.1 run.2.2 run.2.2
    {| rs_StatusCode := 404; rs_Body := None |} (default None (hc_stsNodes run.2.1 !! 1%nat))
    ltac:(vm_compute; lia) (run_eq _ _ _ Hok) ltac:(vm_compute; reflexivity) ltac:(vm_compute; reflexivity) ltac:(discriminate)) as Hp.
  by rewrite Hp.
Defined.
