(* ===== verification/ClusterMigrate.v ===== *)
(** * Slot migration of a cluster (rebalance.go)

    The retry loop of one slot, where the slots are after a finished rebalance,
    and what it leaves in the node table. *)

From S2P Require Import Prelude GoStd Types Slots Resources Scale Env K8sClient KvClient ControllerClient Common SentinelNotify Cluster World ClusterProps.
Local Open Scope Z_scope.
Local Open Scope go_scope.

Section retry.
Context {W : Type} `{Env W}.
Context (c : Controller) (src dest slot : Z).

Lemma migrate_returns (w : W) :
  (MigrateSlotAndData c src dest slot w).1 <> Panic /\ (MigrateSlotAndData c src dest slot w).1 <> Hangs.
Proof.
  unfold MigrateSlotAndData, http_post, bind, perform.
  destruct (http_do _ w) as [[resp|e] w']; [|done]. by destruct (_ =? _).
Qed.

(** The world before attempt [k] when the first [k] attempts failed: each
    failure is followed by a sleep ten times the one before. *)
Fixpoint after_failures (k : nat) (wait : Z) (w : W) : option W :=
  match k with
  | O => Some w
  | S k' =>
      match MigrateSlotAndData c src dest slot w with
      | (Err _, w') => after_failures k' (wait * 10) (clock_sleep wait w')
      | _ => None
      end
  end.

Lemma move_slot_cases left wait (w : W) :
  (exists k wk w', (k <= left)%nat /\ after_failures k wait w = Some wk /\
     MigrateSlotAndData c src dest slot wk = (Ok tt, w') /\
     move_slot c src dest slot left wait w = (Ok tt, w')) \/
  (exists wk e w', after_failures left wait w = Some wk /\
     MigrateSlotAndData c src dest slot wk = (Err e, w') /\
     move_slot c src dest slot left wait w = (Err err_migrate_timeout, w')).
Proof.
  revert wait w. induction left as [|left IH]; intros wait w;
    destruct (migrate_returns w) as [Hp Hh];
    destruct (MigrateSlotAndData c src dest slot w) as [[[]|e| |] w1] eqn:Em; [| |done|done| | |done|done].
  - left. exists 0%nat, w, w1. cbn [move_slot]. unfold bind, catch. by rewrite Em.
  - right. exists w, e, w1. cbn [move_slot]. unfold bind, catch. by rewrite Em.
  - left. exists 0%nat, w, w1. split; [lia|]. cbn [move_slot]. unfold bind, catch. by rewrite Em.
  - assert (Hstep : move_slot c src dest slot (S left) wait w =
                    move_slot c src dest slot left (wait * 10) (clock_sleep wait w1)).
    { cbn [move_slot]. unfold bind at 1, catch. by rewrite Em. }
    rewrite Hstep.
    destruct (IH (wait * 10) (clock_sleep wait w1)) as [(k & wk & w' & Hk & Ha & Hm & Hr)|(wk & e' & w' & Ha & Hm & Hr)].
    + left. exists (S k), wk, w'. split; [lia|]. cbn [after_failures]. by rewrite Em.
    + right. exists wk, e', w'. cbn [after_failures]. by rewrite Em.
Qed.

(** C28: moving a slot always ends, after at most six requests: it succeeds
    with the first request that succeeds, and reports the timeout error
    exactly when six requests in a row failed, with sleeps of 10 ms to 100 s
    between them; it never panics and hides every other error. *)
Theorem move_slot_bounded (w : W) :
  (exists k wk w', (k <= 5)%nat /\ after_failures k FirstWait w = Some wk /\
     MigrateSlotAndData c src dest slot wk = (Ok tt, w') /\
     move_slot c src dest slot MaxRetry FirstWait w = (Ok tt, w')) \/
  (exists wk e w', after_failures 5 FirstWait w = Some wk /\
     MigrateSlotAndData c src dest slot wk = (Err e, w') /\
     move_slot c src dest slot MaxRetry FirstWait w = (Err err_migrate_timeout, w')).
Proof. apply move_slot_cases. Qed.
End retry.

(** ** Where the slots are *)

(** The controller's placement of slots, [home w x] the shard of slot [x]: a
    migration it accepts moves the slot to the target, one it refuses (or
    accepts) moves no other slot, and neither sleeping nor an update of the
    resource moves any. *)
Class SlotLaws {W} `{Env W} (home : W -> Z -> option Z) : Prop := {
  home_moved : forall c src dest slot w w',
    MigrateSlotAndData c src dest slot w = (Ok tt, w') -> home w' slot = Some dest;
  home_other : forall c src dest slot w x, x <> slot -> home (MigrateSlotAndData c src dest slot w).2 x = home w x;
  home_sleep : forall d w x, home (clock_sleep d w) x = home w x;
  home_update : forall k w x, home (UpdateKVRocks k w).2 x = home w x;
}.

Section placement.
Context {W : Type} `{Env W} (home : W -> Z -> option Z) `{!SlotLaws home}.

Lemma move_slot_home c src dest slot left wait (w w' : W) :
  move_slot c src dest slot left wait w = (Ok tt, w') ->
  home w' slot = Some dest /\ forall x, x <> slot -> home w' x = home w x.
Proof.
  revert wait w. induction left as [|left IH]; intros wait w; cbn [move_slot]; unfold bind at 1, catch;
    pose proof (fun x => home_other c src dest slot w x) as Hother;
    destruct (MigrateSlotAndData c src dest slot w) as [[[]|e| |] w1] eqn:Em; try done.
  - intros [= <-]. split; [by eapply home_moved|exact Hother].
  - intros [= <-]. split; [by eapply home_moved|exact Hother].
  - unfold bind, modify. intros Hrun. apply IH in Hrun as [Hs Ho]. split; [done|].
    intros x Hx. rewrite Ho, home_sleep by done. by apply Hother.
Qed.

Lemma move_slots_home c src dest slots (w w' : W) :
  NoDup slots -> forM slots (fun slot => move_slot c src dest slot MaxRetry FirstWait) w = (Ok tt, w') ->
  (forall x, x ∈ slots -> home w' x = Some dest) /\ forall x, x ∉ slots -> home w' x = home w x.
Proof.
  intros Hnd. revert w. induction Hnd as [|slot slots Hnot Hnd IH]; intros w; cbn [forM].
  - intros [= <-]. split; [by intros x ?%elem_of_nil|done].
  - unfold bind. destruct (move_slot _ _ _ _ _ _ w) as [[[]|e| |] w1] eqn:Em; [|done..]. intros Hrun.
    apply move_slot_home in Em as [Hs Ho]. destruct (IH w1 Hrun) as [Hin Hout]. split.
    + intros x [->|Hx]%elem_of_cons; [by rewrite Hout|by apply Hin].
    + intros x [Hne Hx]%not_elem_of_cons. rewrite Hout by done. by apply Ho.
Qed.
End placement.

(** ** The table after a rebalance *)

Lemma lookup_sort_table t i j : lookup_node (sort_table t) i j = sort_node <$> lookup_node t i j.
Proof.
  unfold lookup_node, sort_table. rewrite list_lookup_fmap.
  destruct (t !! i) as [[sts|]|]; [|done..].
  change (match (option_map sort_node <$> sts) !! j with Some (Some n) => Some n | _ => None end =
    sort_node <$> match sts !! j with Some (Some n) => Some n | _ => None end).
  rewrite list_lookup_fmap.
  by destruct (sts !! j) as [[n|]|].
Qed.

Definition msize (m : NodeMigrateMsg) : nat := length (nm_Slots m).

Lemma msize_sort m : msize (sort_migrate m) = msize m.
Proof. unfold msize, sort_migrate. cbn [nm_Slots]. by rewrite sort_ints_perm. Qed.

Section rebalance.
Context {W : Type} `{Env W, GoLib}.

Lemma status_topo_run h (w : W) h' w' :
  ensureStatusTopoMsg (h, w) = (Ok tt, (h', w')) ->
  hc_stsNodes h' = sort_table (hc_stsNodes h) /\ hc_controller h' = hc_controller h /\ exists k, w' = (UpdateKVRocks k w).2.
Proof.
  unfold ensureStatusTopoMsg, bind, modh, catch, update_instance, bind, geth, onW. cbn [fst snd].
  destruct (UpdateKVRocks _ w) as [[k|e| |] w1] eqn:Eu; unfold modh, requeue, modh, throw, ret; cbn [fst snd]; [|done..].
  intros [= <- <-]. split; [done|]. split; [done|]. eexists. by rewrite Eu.
Qed.

(** One message of the node at [(i, j)]. *)
Lemma migrate_head_spec src i j h (w : W) h' w' n m ms :
  lookup_node (hc_stsNodes h) i j = Some n -> n_Migrate n = Some (m :: ms) ->
  migrate_head src i j (h, w) = (Ok tt, (h', w')) ->
  hc_controller h' = hc_controller h /\
  (exists n', lookup_node (hc_stsNodes h') i j = Some n' /\
    n_Migrate n' = Some (sort_migrate <$> ms) /\ (msize m <= length (n_Slots n))%nat /\
    n_Slots n' = sort_ints (drop (msize m) (n_Slots n))) /\
  exists w1 k, forM (nm_Slots m) (fun slot => move_slot (hc_controller h) src (nm_Shard m) slot MaxRetry FirstWait) w = (Ok tt, w1) /\
    w' = (UpdateKVRocks k w1).2.
Proof.
  intros Hn Hmig. unfold migrate_head, bind at 1, geth. cbn [fst snd].
  assert (Hg : forall w : W, get_node i j (h, w) = (Ok n, (h, w))) by (intros w0; unfold get_node, bind, geth; cbn [fst snd]; by rewrite Hn).
  unfold bind at 1. rewrite Hg, Hmig. change (head (items (Some (m :: ms)))) with (Some m).
  unfold bind at 1, deref, ret at 1.
  unfold bind at 1.
  rewrite (forM_onW (nm_Slots m) (fun slot => move_slot (hc_controller h) src (nm_Shard m) slot MaxRetry FirstWait)).
  unfold onW at 1. cbn [fst snd]. destruct (forM (nm_Slots m) _ w) as [[[]|e| |] w1] eqn:Em; [|done..].
  destruct (Nat.ltb_spec (length (n_Slots n)) (length (nm_Slots m))) as [Hlt|Hge]; [done|].
  unfold bind at 1, mod_node, bind at 1. rewrite Hg. unfold modh. cbn [fst snd]. intros Hrun.
  apply status_topo_run in Hrun as (Htab & Hc & k & ->). split; [done|]. split; [|eauto].
  rewrite Htab. cbn [hc_set_stsNodes hc_stsNodes].
  rewrite lookup_sort_table, lookup_alter_node, decide_True, Hn by done. cbn [fmap option_fmap option_map].
  eexists. split; [reflexivity|]. rewrite Hmig. done.
Qed.

Context (home : W -> Z -> option Z) `{!SlotLaws home}.

(** The slots the messages name are where the messages want them, the others
    where they were. *)
Definition placed (ms : list NodeMigrateMsg) (w w' : W) : Prop :=
  (forall m x, m ∈ ms -> x ∈ nm_Slots m -> home w' x = Some (nm_Shard m)) /\
  (forall x, x ∉ ms ≫= nm_Slots -> home w' x = home w x).

Lemma placed_sorted ms w w' : placed (sort_migrate <$> ms) w w' -> placed ms w w'.
Proof.
  intros [Hin Hout]. split.
  - intros m x Hm Hx. apply (Hin (sort_migrate m) x); [by apply list_elem_of_fmap_2|].
    unfold sort_migrate. cbn. by rewrite sort_ints_perm.
  - intros x Hx. apply Hout. intros (m & Hxm & (m0 & -> & Hm0)%list_elem_of_fmap)%list_elem_of_bind.
    apply Hx, list_elem_of_bind. exists m0. split; [|done]. cbn in Hxm. by rewrite sort_ints_perm in Hxm.
Qed.

Lemma named_sorted (ms : list NodeMigrateMsg) : (sort_migrate <$> ms) ≫= nm_Slots ≡ₚ ms ≫= nm_Slots.
Proof. induction ms as [|m ms IH]; [done|]. cbn. by rewrite sort_ints_perm, IH. Qed.

Lemma placed_cons m ms w w1 k w' :
  NoDup (nm_Slots m ++ (ms ≫= nm_Slots)) ->
  (forall x, x ∈ nm_Slots m -> home w1 x = Some (nm_Shard m)) -> (forall x, x ∉ nm_Slots m -> home w1 x = home w x) ->
  placed ms (UpdateKVRocks k w1).2 w' -> placed (m :: ms) w w'.
Proof.
  intros (_ & Hdisj & _)%NoDup_app Hin Hout [Hin' Hout']. split.
  - intros m0 x [->|Hm]%elem_of_cons Hx; [|by apply (Hin' m0)].
    rewrite Hout', home_update by (by apply Hdisj). by apply Hin.
  - intros x. cbn. rewrite not_elem_of_app. intros [Hx Hx']. rewrite Hout', home_update by done. by apply Hout.
Qed.

Lemma rebalance_loop src i j h' w' ks ms h (w : W) n :
  length ks = length ms -> lookup_node (hc_stsNodes h) i j = Some n -> n_Migrate n = Some ms ->
  StronglySorted Z.le (n_Slots n) -> NoDup (ms ≫= nm_Slots) ->
  forM (A := NodeMigrateMsg) ks (fun _ => migrate_head src i j) (h, w) = (Ok tt, (h', w')) ->
  placed ms w w' /\
  exists n', lookup_node (hc_stsNodes h') i j = Some n' /\ n_Migrate n' = Some [] /\
    (sum_list (msize <$> ms) <= length (n_Slots n))%nat /\
    n_Slots n' = drop (sum_list (msize <$> ms)) (n_Slots n).
Proof.
  revert ms h w n. induction ks as [|k ks IH]; intros [|m ms] h w n Hlen Hn Hmig Hs Hnd; try done.
  - cbn [forM]. intros [= <- <-]. split; [split; [by intros m x ?%elem_of_nil|done]|].
    exists n. split; [done|]. split; [done|]. split; [simpl; lia|done].
  - injection Hlen as Hlen. cbn [forM]. unfold bind.
    destruct (migrate_head src i j (h, w)) as [[[]|e| |] [h1 w1]] eqn:Em; [|done..]. intros Hrun.
    destruct (migrate_head_spec _ _ _ _ _ _ _ _ _ _ Hn Hmig Em) as (_ & (n1 & Hn1 & Hmig1 & Hle & Hs1) & w2 & k2 & Hmoves & ->).
    assert (Hrest : StronglySorted Z.le (drop (msize m) (n_Slots n))).
    { rewrite <- (take_drop (msize m) (n_Slots n)) in Hs. by apply StronglySorted_app in Hs as (_ & _ & ?). }
    rewrite sort_ints_id in Hs1 by done. cbn in Hnd. pose proof Hnd as (Hnd1 & _ & Hnd2)%NoDup_app.
    assert (Hsz1 : msize <$> (sort_migrate <$> ms) = msize <$> ms).
    { rewrite <- list_fmap_compose. apply list_fmap_ext. intros ? x _. apply msize_sort. }
    destruct (IH (sort_migrate <$> ms) h1 (UpdateKVRocks k2 w2).2 n1) as (Hpl & n' & Hn' & Hm' & Hle' & Hs');
      [by rewrite length_fmap|done|done|by rewrite Hs1|by rewrite named_sorted|done|].
    split; [apply (move_slots_home home) in Hmoves as [Hin Hout]; [|done]; by eapply placed_cons, placed_sorted|].
    exists n'. split; [done|]. split; [done|]. rewrite Hsz1, Hs1, length_drop in Hle'. rewrite Hsz1, Hs1 in Hs'.
    rewrite fmap_cons. cbn [sum_list_with]. change (id (msize m)) with (msize m).
    split; [lia|]. rewrite Hs', drop_drop. f_equal.
Qed.

(** C29: a rebalance that succeeds has moved the slots the node's migration
    messages name to the shards the messages name, and no other slot
    (interface [SlotLaws], the messages naming each slot once); it leaves an
    empty non-nil list of messages.  The slots the node record keeps are its
    slots without the first ones, as many as were moved, whatever slots the
    messages named. *)
Theorem rebalance_drains src i j h (w : W) h' w' n ms :
  lookup_node (hc_stsNodes h) i j = Some n -> n_Migrate n = Some ms ->
  StronglySorted Z.le (n_Slots n) -> NoDup (ms ≫= nm_Slots) ->
  ensureReBalanceTopo src i j (h, w) = (Ok tt, (h', w')) ->
  placed ms w w' /\
  exists n', lookup_node (hc_stsNodes h') i j = Some n' /\ n_Migrate n' = Some [] /\
    (sum_list (msize <$> ms) <= length (n_Slots n))%nat /\
    n_Slots n' = drop (sum_list (msize <$> ms)) (n_Slots n).
Proof.
  intros Hn Hmig Hs Hnd. unfold ensureReBalanceTopo, bind at 1.
  assert (Hg : get_node i j (h, w) = (Ok n, (h, w))) by (unfold get_node, bind, geth; cbn [fst snd]; by rewrite Hn).
  rewrite Hg, Hmig. cbn [items default]. change (items (Some ms)) with ms.
  by apply rebalance_loop.
Qed.
End rebalance.

(** ** Witness: the messages name slots 2 and 3, the record drops 0 and 1 *)

Definition rebalance_table : list (list Node) :=
  [[mk_node "10.0.0.1" RoleMaster "a" 0 [0; 1; 2; 3] (Some [{| nm_Shard := 1; nm_Slots := [3] |}; {| nm_Shard := 1; nm_Slots := [2] |}])]].

Definition rebalance_world : World :=
  w_set_http (fun _ => {| rs_StatusCode := 200; rs_Body := None |})
    (w_set_kvrocks {[NN "default" demo := sample_cr]} empty_world).

Lemma worldSlots : @SlotLaws World worldEnv (fun w x => w_slots w !! x).
Proof.
  split.
  - intros c src dest slot w w'. unfold MigrateSlotAndData, http_post, bind, perform. cbn -[Z.eqb shards_url].
    change StatusOK with 200. repeat match goal with |- context [rs_StatusCode ?r =? 200] => destruct (rs_StatusCode r =? 200) end; [|done].
    intros [= <-]. apply lookup_insert_eq.
  - intros c src dest slot w x Hx. unfold MigrateSlotAndData, http_post, bind, perform. cbn -[Z.eqb shards_url].
    change StatusOK with 200. repeat match goal with |- context [rs_StatusCode ?r =? 200] => destruct (rs_StatusCode r =? 200) end; [|done].
    by apply lookup_insert_ne.
  - done.
  - intros k w x. unfold UpdateKVRocks, perform. cbn. by repeat case_match; simplify_eq/=.
Qed.

Lemma rebalance_drains_witness :
  let run := @ensureReBalanceTopo World worldEnv 0 0 0 (sample_handler rebalance_table, rebalance_world) in
  w_slots run.2.2 !! 2 = Some 1 /\
  exists n', lookup_node (hc_stsNodes run.2.1) 0 0 = Some n' /\ n_Slots n' = [2; 3].
Proof.
  intros run.
  assert (Hok : run.1 = Ok tt) by (vm_compute; reflexivity).
  destruct (@rebalance_drains World worldEnv (fun w x => w_slots w !! x) worldSlots
    0 0 0 (sample_handler rebalance_table) rebalance_world run.2.1 run.2.2
    (mk_node "10.0.0.1" RoleMaster "a" 0 [0; 1; 2; 3] (Some [{| nm_Shard := 1; nm_Slots := [3] |}; {| nm_Shard := 1; nm_Slots := [2] |}]))
    [{| nm_Shard := 1; nm_Slots := [3] |}; {| nm_Shard := 1; nm_Slots := [2] |}]) as ([Hin _] & n' & Hn & _ & _ & Hs);
    [reflexivity|reflexivity|repeat constructor; lia|apply (bool_decide_unpack _); vm_compute; exact I|exact (run_eq _ _ _ Hok)|].
  split; [|exists n'; split; [exact Hn|exact Hs]].
  apply (Hin {| nm_Shard := 1; nm_Slots := [2] |} 2); [right; left|left].
Defined.
