(* ===== verification/ClusterReady.v ===== *)
(** * What [ensureKubernetes] of the cluster handler establishes *)

From S2P Require Import Prelude GoStd Types Slots Resources Scale Env K8sClient KvClient ControllerClient Common SentinelNotify Cluster World ClusterProps ClusterMigrate.
Local Open Scope Z_scope.
Local Open Scope go_scope.

(** A shard of the table: live nodes in the order of their ordinals. *)
Definition shard_listed (sts : slice (option Node)) : Prop :=
  exists l : list Node, items sts = Some <$> l /\ StronglySorted Z.le (n_PodIndex <$> l).

Definition pods_only (sts : slice (option Node)) : Prop := exists l : list Node, items sts = Some <$> l.

Lemma items_smap_alter (f : Node -> Node) j (sts : slice (option Node)) (l : list Node) :
  items sts = Some <$> l -> items (smap (alter (option_map f) j) sts) = Some <$> alter f j l.
Proof.
  destruct sts as [k|]; cbn [items default smap option_map from_option id]; intros E.
  - change (items (Some k)) with k in E. change (items (Some ?x)) with x. subst k.
    symmetry. apply list_fmap_alter. by apply Forall_true.
  - by destruct l.
Qed.

(** Sorting the pods of a shard. *)
Lemma sort_pods (l : list Node) : exists l',
  merge_sort node_le (Some <$> l) = Some <$> l' /\ l' ≡ₚ l /\ StronglySorted Z.le (n_PodIndex <$> l').
Proof.
  pose proof (merge_sort_Permutation node_le (Some <$> l)) as Hp.
  apply Permutation_map_inv in Hp as (l' & E & Hp).
  exists l'. split; [exact E|]. split; [by symmetry|].
  assert (Total node_le) as Htot.
  { intros [a|] [b|]; simpl; [|auto..]. lia. }
  pose proof (Sorted_merge_sort node_le (Some <$> l)) as Hs. rewrite E in Hs.
  apply Sorted_StronglySorted; [intros ??? ? ?; lia|].
  clear -Hs. induction l' as [|a l' IH]; [constructor|]. apply Sorted_inv in Hs as [Hs Hhd].
  constructor; [by apply IH|]. destruct l' as [|b l']; [constructor|].
  apply HdRel_inv in Hhd. by constructor.
Qed.

Lemma hc_set_ext f g h : f (hc_stsNodes h) = g (hc_stsNodes h) -> hc_set_stsNodes f h = hc_set_stsNodes g h.
Proof. unfold hc_set_stsNodes. by intros ->. Qed.

Lemma hc_set_compose f g h : hc_set_stsNodes f (hc_set_stsNodes g h) = hc_set_stsNodes (fun t => f (g t)) h.
Proof. done. Qed.

Section ready.
Context {W : Type} `{Env W, GoLib}.

(** A run that is only of interest when no requeue was asked for. *)
Definition quiet {A} (Q : A -> ClusterHandler -> Prop) : outcome A -> ClusterHandler * W -> Prop :=
  onOk (fun a s => hc_requeue s.1 = false -> Q a s.1).

Lemma wp_onW_any {A} (m : M W A) (Q : outcome A -> ClusterHandler * W -> Prop) s :
  (forall o w', Q o (s.1, w')) -> wp (onW m) Q s.
Proof. intros HQ. rewrite wp_onW. apply wp_intro. auto. Qed.

Lemma scale_up_frame i h w h' w' o : scale_up_set (W := W) i (h, w) = (o, (h', w')) -> h' = h.
Proof.
  unfold scale_up_set, bind at 1, geth. cbn [fst snd]. unfold bind at 1, lift.
  destruct (NewClusterStatefulSet _ _); [|by intros [= _ -> _]..]. unfold bind at 1.
  destruct (onW _ (h, w)) as [[sts|e| |] [h1 w1]] eqn:E1; apply onW_frame in E1 as ->; [|by intros [= _ -> _]..].
  unfold when. destruct (_ <? _); [|by intros [= _ -> _]]. unfold bind.
  destruct (onW _ (h, w1)) as [[x|e| |] [h2 w2]] eqn:E2; apply onW_frame in E2 as ->; by intros [= _ -> _].
Qed.

(** Listing one pod appends one live node, or asks for a requeue. *)
Lemma init_pod_spec i pod h w h' w' c :
  init_pod (W := W) i pod (h, w) = (Ok c, (h', w')) ->
  match c with
  | Next => exists n, h' = hc_set_stsNodes (alter (fun sts => sappend sts [Some n]) i) h
  | Return _ => hc_requeue h' = true
  end.
Proof.
  unfold init_pod. destruct (om_DeletionTimestamp _).
  - unfold bind, requeue, modh, ret. by intros [= <- <- _].
  - unfold bind, lift, modh, ret. destruct (GetPVCOrPodIndex _); [|done..].
    intros [= <- <- _]. by eexists.
Qed.

Lemma init_pods_spec i pods h w h' w' c :
  forR pods (init_pod (W := W) i) (h, w) = (Ok c, (h', w')) ->
  match c with
  | Next => exists l, h' = hc_set_stsNodes (alter (fun sts => sappend sts (Some <$> l)) i) h
  | Return _ => hc_requeue h' = true
  end.
Proof.
  revert h w. induction pods as [|pod pods IH]; intros h w; cbn [forR].
  - unfold ret. intros [= <- <- _]. exists []. destruct h. unfold hc_set_stsNodes. cbn. f_equal.
    symmetry. apply list_alter_id. done.
  - unfold bind. destruct (init_pod i pod (h, w)) as [[[|r]|e| |] [h1 w1]] eqn:E1; [| |done..]; apply init_pod_spec in E1.
    + destruct E1 as [n ->]. intros Hrun. apply IH in Hrun. destruct c as [|r]; [|done].
      destruct Hrun as [l ->]. exists (n :: l). rewrite hc_set_compose. apply hc_set_ext.
      rewrite list_alter_alter_eq. apply list_alter_ext; [|done]. intros sts _. unfold compose.
      destruct l; [done|]. unfold sappend. rewrite !fmap_cons. simpl. unfold items. by rewrite <- app_assoc.
    + unfold ret. by intros [= <- <- _].
Qed.

Lemma init_set_spec i h w h' w' c :
  hc_stsNodes h !! i = Some None ->
  init_set (W := W) i (h, w) = (Ok c, (h', w')) ->
  match c with
  | Next => exists sts, shard_listed sts /\ h' = hc_set_stsNodes (<[i := sts]>) h
  | Return _ => hc_requeue h' = true
  end.
Proof.
  intros Hi. unfold init_set, bind at 1, geth. cbn [fst snd]. unfold bind at 1.
  destruct (onW _ (h, w)) as [[sts|e| |] [h1 w1]] eqn:E1; [|done..]. apply onW_frame in E1 as ->.
  destruct (negb _).
  { unfold bind, requeue, modh, ret. by intros [= <- <- _]. }
  unfold bind at 1. destruct (onW _ (h, w1)) as [[pods|e| |] [h2 w2]] eqn:E2; [|done..]. apply onW_frame in E2 as ->.
  unfold bind at 1. destruct (forR pods _ (h, w2)) as [[c'|e| |] [h3 w3]] eqn:E3; [|done..].
  apply init_pods_spec in E3. destruct c' as [|r].
  - destruct E3 as [l ->]. unfold bind, modh, ret. intros [= <- <- _].
    destruct (sort_pods l) as (l' & El & _ & Hs).
    exists (smap (merge_sort node_le) (sappend None (Some <$> l))). split.
    + exists l'. split; [|done]. destruct l as [|n l]; [|exact El].
      simpl. symmetry in El. by destruct l'.
    + cbn [fst snd]. rewrite hc_set_compose. apply hc_set_ext. rewrite list_alter_alter_eq.
      apply list_eq. intros k. destruct (decide (k = i)) as [->|Hne].
      * rewrite list_lookup_alter_eq, list_lookup_insert_eq by (by eapply lookup_lt_Some). exact (f_equal (fmap _) Hi).
      * by rewrite list_lookup_alter_ne, list_lookup_insert_ne by done.
  - unfold ret. by intros [= <- <- _].
Qed.

(** Every shard of the table from 0 to [k] is listed, the others are nil. *)
Definition listed_to (k : nat) (t : list (slice (option Node))) : Prop :=
  forall i sts, t !! i = Some sts -> if (i <? k)%nat then shard_listed sts else sts = None.

Lemma init_sets_spec k m h w h' w' c :
  length (hc_stsNodes h) = (k + m)%nat -> listed_to k (hc_stsNodes h) ->
  forR (seq k m) (init_set (W := W)) (h, w) = (Ok c, (h', w')) ->
  match c with
  | Next => length (hc_stsNodes h') = (k + m)%nat /\ listed_to (k + m) (hc_stsNodes h') /\
            hc_instance h' = hc_instance h
  | Return _ => hc_requeue h' = true
  end.
Proof.
  revert k h w. induction m as [|m IH]; intros k h w Hlen Hl; cbn [seq forR].
  - unfold ret. intros [= <- <- _]. by rewrite Nat.add_0_r in *.
  - destruct (lookup_lt_is_Some_2 (hc_stsNodes h) k) as [sts Hk]; [lia|].
    pose proof (Hl k sts Hk) as Hnone. rewrite Nat.ltb_irrefl in Hnone. subst sts.
    unfold bind. destruct (init_set k (h, w)) as [[[|r]|e| |] [h1 w1]] eqn:E1; [| |done..]; apply init_set_spec in E1; try done.
    + destruct E1 as (sts & Hsts & ->). intros Hrun.
      replace (k + S m)%nat with (S k + m)%nat by lia. apply IH in Hrun.
      * destruct c; [|done]. by destruct Hrun as (? & ? & ?).
      * cbn [hc_set_stsNodes hc_stsNodes]. rewrite length_insert. lia.
      * intros i s Hs. cbn [hc_set_stsNodes hc_stsNodes] in Hs. destruct (decide (i = k)) as [->|Hne].
        -- rewrite list_lookup_insert_eq in Hs by lia. injection Hs as <-. by replace (k <? S k)%nat with true by (symmetry; apply Nat.ltb_lt; lia).
        -- rewrite list_lookup_insert_ne in Hs by done. specialize (Hl i s Hs).
           destruct (Nat.ltb_spec i (S k)), (Nat.ltb_spec i k); try done; lia.
    + unfold ret. by intros [= <- <- _].
Qed.

(** Reading the stored topology back keeps the nodes where they are. *)
Lemma mod_node_run i j f h w h' w' :
  mod_node (W := W) i j f (h, w) = (Ok tt, (h', w')) -> h' = hc_set_stsNodes (alter_node f i j) h.
Proof.
  unfold mod_node, get_node, bind, geth, modh. cbn [fst snd].
  destruct (lookup_node _ _ _); unfold deref, ret, panic; [|done]. by intros [= <- _].
Qed.

Lemma alter_listed f i j t :
  (forall n, n_PodIndex (f n) = n_PodIndex n) -> Forall shard_listed t -> Forall shard_listed (alter_node f i j t).
Proof.
  intros Hf Ht. unfold alter_node. apply Forall_alter; [done|].
  intros sts Hsts (l & El & Hs). exists (alter f j l). split; [by apply items_smap_alter|].
  replace (n_PodIndex <$> alter f j l) with (n_PodIndex <$> l); [done|].
  rewrite (list_fmap_alter n_PodIndex f id); [|apply Forall_true; intros; apply Hf].
  symmetry. by apply list_alter_id.
Qed.

Lemma load_node_run i j topo h w h' w' :
  load_node (W := W) i j topo (h, w) = (Ok tt, (h', w')) ->
  exists slots ms, h' = hc_set_stsNodes (alter_node (load_topo topo slots ms) i j) h.
Proof.
  unfold load_node, bind at 1, get_node at 1, bind at 1, geth at 1. cbn [fst snd].
  destruct (lookup_node _ _ _); unfold deref, ret, panic; [|done]. unfold bind at 1, lift at 1.
  destruct (SlotsToInt _) as [slots|e| |]; [|done..]. unfold bind at 1, lift at 1.
  destruct (load_migrates _) as [ms|e| |]; [|done..]. intros Hrun. exists slots, ms. by apply mod_node_run in Hrun.
Qed.

Definition listed_table (h : ClusterHandler) (n : nat) (s : ClusterHandler * W) : Prop :=
  Forall shard_listed (hc_stsNodes s.1) /\ length (hc_stsNodes s.1) = n /\ hc_instance s.1 = hc_instance h.

Lemma fix_topo_spec h w h' w' n :
  listed_table h n (h, w) -> fix_topo (W := W) (h, w) = (Ok tt, (h', w')) -> listed_table h n (h', w').
Proof.
  intros Hl. unfold fix_topo, bind at 1, geth. cbn [fst snd].
  apply forM_inv; [|done]. intros p s s'. apply forM_inv. intros q [h1 w1] [h2 w2] (Hf & Hlen & Hin) E.
  apply load_node_run in E as (slots & ms & ->). split; [|split; [|done]]; cbn [fst hc_set_stsNodes hc_stsNodes].
  - by apply alter_listed.
  - unfold alter_node. by rewrite length_alter.
Qed.

Lemma forM_frame {A} (f : A -> M (ClusterHandler * W) unit) (l : list A) h w h' w' :
  (forall a h w h' w' o, f a (h, w) = (o, (h', w')) -> h' = h) ->
  forM l f (h, w) = (Ok tt, (h', w')) -> h' = h.
Proof.
  intros Hf Hrun. apply (forM_inv (fun s => s.1 = h) f l (h, w) (h', w')) in Hrun; [done| |done].
  intros a [h1 w1] [h2 w2] Hs E. apply Hf in E. cbn in *. congruence.
Qed.

Lemma listed_start n : listed_to 0 (replicate n None).
Proof. intros i sts Hi. by apply lookup_replicate in Hi as [-> _]. Qed.

Lemma listed_all n t : length t = n -> listed_to n t -> Forall shard_listed t.
Proof.
  intros Hlen Hl. apply Forall_forall. intros sts [i Hi]%list_elem_of_lookup.
  specialize (Hl i sts Hi). apply lookup_lt_Some in Hi. by replace (i <? n)%nat with true in Hl by (symmetry; apply Nat.ltb_lt; lia).
Qed.

(** "init h.stsNode" and "fix topo message" from an empty table. *)
Lemma build_table n h w h' w' (k : KVRocks -> bool) v key :
  hc_stsNodes h = replicate n None ->
  after (forR (seq 0 n) (init_set (W := W)))
    (let! curInstance := onW (GetKVRocks key) in
     if k curInstance then requeue true
     else fix_topo ;;; modh (hc_set_version v)) (h, w) = (Ok tt, (h', w')) ->
  hc_requeue h' = false -> listed_table h n (h', w').
Proof.
  intros Ht. unfold after, bind at 1.
  destruct (forR _ _ (h, w)) as [[c|e| |] [h1 w1]] eqn:E1; [|done..].
  apply init_sets_spec in E1; [|rewrite Ht; apply length_replicate|rewrite Ht; apply listed_start].
  destruct c as [|[]]; [|unfold ret; intros [= <- _]; congruence].
  destruct E1 as (Hlen & Hl & Hin). unfold bind at 1.
  destruct (onW _ (h1, w1)) as [[cur|e| |] [h2 w2]] eqn:E2; [|done..]. apply onW_frame in E2 as ->.
  destruct (k cur); [unfold requeue, modh; by intros [= <- _]|].
  unfold bind. destruct (fix_topo (h1, w2)) as [[[]|e| |] [h3 w3]] eqn:E3; [|done..].
  unfold modh. intros [= <- <-] _. apply (fix_topo_spec h1 w2 h3 w3 n) in E3.
  - destruct E3 as (Hf & Hn & Hi). split; [done|]. split; [done|]. cbn in *. congruence.
  - split; [by eapply listed_all|done].
Qed.

Lemma table_ready h w h' w' :
  ensureKubernetes (W := W) (h, w) = (Ok tt, (h', w')) -> hc_requeue h' = false ->
  Forall shard_listed (hc_stsNodes h') /\
  int_Master (hc_instance h) <= Z.of_nat (length (hc_stsNodes h')) /\
  hc_instance h' = hc_instance h.
Proof.
  unfold ensureKubernetes, bind at 1, geth. cbn [fst snd]. unfold bind at 1.
  destruct (onW _ (h, w)) as [[[]|e| |] [h1 w1]] eqn:E1; [|done..]. apply onW_frame in E1 as ->. unfold bind at 1.
  destruct (onW _ (h, w1)) as [[[]|e| |] [h2 w2]] eqn:E2; [|done..]. apply onW_frame in E2 as ->. unfold bind at 1.
  destruct (onW _ (h, w2)) as [[[cm|e]|e| |] [h3 w3]] eqn:E3; [| |done..]; apply onW_frame in E3 as ->.
  2: { destruct (IsNotFound e); [unfold requeue, modh; by intros [= <- _]|done]. }
  unfold bind at 1, modh at 1. cbn [fst snd]. unfold bind at 1.
  set (hp := hc_set_password _ h).
  destruct (forM _ _ (hp, w3)) as [[[]|e| |] [h4 w4]] eqn:E4; [|done..]. apply forM_frame in E4 as ->.
  2: { intros i ha wa hb wb o. unfold bind, lift. destruct (NewClusterStatefulSet _ _); [|by intros [= _ -> _]..].
       destruct (onW _ (ha, wa)) as [[?|?| |] [hc wc]] eqn:E; apply onW_frame in E as ->; by intros [= _ -> _]. }
  unfold bind at 1.
  destruct (onW _ (hp, w4)) as [[cur|e| |] [h5 w5]] eqn:E5; [|done..]. apply onW_frame in E5 as ->.
  destruct (Z.ltb_spec (Z.of_nat (length cur)) (int_Master (hc_instance h))) as [Hlt|Hge].
  { unfold requeue, modh. by intros [= <- _]. }
  unfold bind at 1, modh at 1. cbn [fst snd]. unfold bind at 1.
  set (hr := hc_set_stsNodes _ hp).
  destruct (forM _ _ (hr, w5)) as [[[]|e| |] [h6 w6]] eqn:E6; [|done..].
  apply forM_frame in E6 as ->; [|intros *; apply scale_up_frame].
  intros Hrun Hq. apply (build_table (length cur)) in Hrun as (Hf & Hlen & Hin); [|done|done].
  cbn [fst] in *. split; [done|]. split; [lia|done].
Qed.

(** C6: when [ensureKubernetes] of the cluster handler returns without an
    error and without asking for a requeue, the node table has at least
    [Spec.Master] shards, holds no nil node, and lists the pods of every
    shard in the order of their ordinals; the instance is unchanged. *)
Theorem kubernetes_ready h w h' w' :
  ensureKubernetes (W := W) (h, w) = (Ok tt, (h', w')) -> hc_requeue h' = false ->
  Forall shard_listed (hc_stsNodes h') /\
  int_Master (hc_instance h) <= Z.of_nat (length (hc_stsNodes h')) /\
  hc_instance h' = hc_instance h.
Proof. apply table_ready. Qed.
End ready.

(** ** Witness: three ready sets of two pods *)

Definition ready_cr : KVRocks := set_kv_Meta (set_om_Labels (SelectorLabels sample_cr)) sample_cr.

Definition all_ready (s : StatefulSet) : StatefulSet :=
  {| ss_Meta := ss_Meta s; ss_Replicas := ss_Replicas s; ss_PodManagementPolicy := ss_PodManagementPolicy s;
     ss_MatchLabels := ss_MatchLabels s; ss_UpdateStrategy := ss_UpdateStrategy s;
     ss_ReserveOrdinals := ss_ReserveOrdinals s; ss_Template := ss_Template s;
     ss_VolumeClaimTemplates := ss_VolumeClaimTemplates s; ss_ReadyReplicas := ss_Replicas s |}.

Definition ready_sets : list StatefulSet :=
  omap (fun i => match @NewClusterStatefulSet sampleLib ready_cr i with Ok s => Some (all_ready s) | _ => None end) [0; 1; 2].

Definition ready_pods : list Pod :=
  concat (imap (fun i s => map (fun j =>
    let name := ss_Name s +:+ "-" +:+ Itoa j in
    {| pod_Meta := sample_meta name (ss_MatchLabels s); pod_PodIP := "10.0." +:+ Itoa (Z.of_nat i) +:+ "." +:+ Itoa j |})
    [1; 0]) ready_sets).

Definition ready_world : World :=
  w_set_kvrocks {[NN "default" demo := ready_cr]}
    (w_set_sets (list_to_map ((fun s => (key_of ss_Meta s, s)) <$> ready_sets))
      (w_set_pods (list_to_map ((fun p => (key_of pod_Meta p, p)) <$> ready_pods)) empty_world)).

Definition ready_handler : ClusterHandler := NewKVRocksClusterHandler (NN "default" demo) ready_cr NewClient.

Lemma kubernetes_ready_witness :
  let run := @ensureKubernetes World worldEnv sampleLib (ready_handler, ready_world) in
  Forall shard_listed (hc_stsNodes run.2.1) /\ 3 <= Z.of_nat (length (hc_stsNodes run.2.1)).
Proof.
  intros run.
  assert (Hok : run.1 = Ok tt) by (vm_compute; reflexivity).
  assert (Hq : hc_requeue run.2.1 = false) by (vm_compute; reflexivity).
  destruct (@kubernetes_ready World worldEnv sampleLib ready_handler ready_world run.2.1 run.2.2 (run_eq _ _ _ Hok) Hq)
    as (Hf & Hm & _).
  split; [exact Hf|exact Hm].
Defined.
