(* ===== verification/ClusterFailover.v ===== *)
(** * Failed nodes of a cluster

    What [ensureFailover] may delete and what it guarantees when it lets the
    reconciliation go on, and which members and shards [updateCluster] may
    take away from the controller. *)

From S2P Require Import Prelude GoStd Types Slots Resources Scale Env K8sClient KvClient ControllerClient Common SentinelNotify Cluster World ClusterProps ClusterRoles.
Local Open Scope Z_scope.
Local Open Scope go_scope.

(** The pod [ensureFailover] takes node [j] of shard [i] for. *)
Definition failover_pod (name : string) (i j : nat) : string :=
  name +:+ "-" +:+ Itoa (Z.of_nat i) +:+ "-" +:+ Itoa (Z.of_nat j).

Section failover.
Context {W : Type} `{Env W, GoLib}.
#[local] Abbreviation C := (M (ClusterHandler * W)).

(** The world after a ping. *)
Definition pinged (w w' : W) : Prop := exists ip pw b, Ping ip pw w = (Ok b, w').

(** A node that is not in failover and answered a ping sent in a world that
    only other pings separate from [w]. *)
Definition healthy (w : W) (h : ClusterHandler) (i j : nat) : Prop :=
  exists n w1 w2, lookup_node (hc_stsNodes h) i j = Some n /\ n_Failover n = false /\
    rtc pinged w w1 /\ Ping (n_IP n) (hc_password h) w1 = (Ok true, w2).

Lemma healthy_earlier w w' h i j : rtc pinged w w' -> healthy w' h i j -> healthy w h i j.
Proof.
  intros Hw (n & w1 & w2 & Hn & Hf & Hr & Hp). exists n, w1, w2. do 2 (split; [done|]).
  split; [by etrans|done].
Qed.

Lemma ping_total ip pw (w : W) : exists b w', Ping ip pw w = (Ok b, w').
Proof.
  unfold Ping, bind, catch, perform. destruct (redis_ping _ _ w) as [[[]|e] w1]; eauto.
Qed.

(** One node: without a request for a requeue it was healthy and nothing of
    the handler changed. *)
Lemma failover_node_quiet i j h (w : W) b h' w' :
  failover_node i j (h, w) = (Ok b, (h', w')) -> hc_requeue h' = false ->
  h' = h /\ b = false /\ rtc pinged w w' /\ healthy w h i j.
Proof.
  unfold failover_node, bind at 1, geth. cbn [fst snd]. unfold bind at 1, get_node, bind at 1, geth. cbn [fst snd].
  destruct (lookup_node (hc_stsNodes h) i j) as [n|] eqn:En; [|done]. unfold deref, ret at 1.
  destruct (n_Failover n) eqn:Ef.
  - intros Hrun Hq. exfalso. revert Hrun. set (m := bind _ _).
    enough (Hm : wp m (fun _ s => hc_requeue s.1 = true) (h, w)).
    { intros Hrun. pose proof (wp_run m (fun _ s => hc_requeue s.1 = true) _ _ _ Hrun Hm) as Ht.
      cbn in Ht. congruence. }
    unfold m. apply wp_bind. unfold wp, requeue, modh. cbn [bindQ fst snd].
    set (k := bind _ _). enough (Hk : keeps (fun s => hc_requeue s.1 = true) k) by (by apply Hk).
    unfold k, mod_node, get_node. clear.
    repeat first [apply keeps_bind; [|intros] | apply keeps_geth | apply keeps_deref | apply keeps_ret | case_match
      | apply keeps_modh | apply (keeps_onW_fields (fun h => hc_requeue h = true)) | by intros].
  - destruct (ping_total (n_IP n) (hc_password h) w) as (alive & w1 & Ep).
    unfold bind at 1, onW. cbn [fst snd]. rewrite Ep. destruct alive; cbn [negb when].
    + intros [= <- <- <-] _. do 2 (split; [done|]). split; [apply rtc_once; by eexists _, _, _|].
      exists n, w, w1. do 2 (split; [done|]). split; [apply rtc_refl|done].
    + unfold bind, requeue, modh, onW, modify. cbn [fst snd]. by intros [= <- <- <-].
Qed.

Definition failover_shard (change : bool) (i : nat) : C bool :=
  let! h := geth in
  let! sts := deref (hc_stsNodes h !! i) in
  foldM (fun change j => let! b := failover_node i j in ret (change || b)) change (seq 0 (length (items sts))).

(** A loop over positions, each of which leaves the handler as it was and
    reports no change unless it asks for a requeue. *)
Lemma quiet_fold {A} (R : W -> A -> Prop) (f : bool -> A -> C bool) h (l : list A) (w : W) b h' w' :
  foldM f false l (h, w) = (Ok b, (h', w')) -> hc_requeue h' = false ->
  (forall a b, keeps (fun s => hc_requeue s.1 = true) (f b a)) ->
  (forall a w1 w2, rtc pinged w1 w2 -> R w2 a -> R w1 a) ->
  (forall a w1 b1 h1 w2, f false a (h, w1) = (Ok b1, (h1, w2)) -> hc_requeue h1 = false ->
     h1 = h /\ b1 = false /\ rtc pinged w1 w2 /\ R w1 a) ->
  h' = h /\ b = false /\ rtc pinged w w' /\ Forall (R w) l.
Proof.
  intros Hrun Hq Hk HR Hf. revert w Hrun. induction l as [|a l IH]; intros w; cbn [foldM].
  - intros [= <- <- <-]. do 2 (split; [done|]). split; [apply rtc_refl|constructor].
  - unfold bind. destruct (f false a (h, w)) as [[b1|e| |] [h1 w1]] eqn:E; [|done..]. intros Hrun.
    destruct (hc_requeue h1) eqn:E1.
    + assert (Hm : keeps (fun s => hc_requeue s.1 = true) (foldM f b1 l)) by (apply keeps_foldM; auto).
      specialize (Hm (h1, w1) E1). rewrite Hrun in Hm. cbn in Hm. congruence.
    + destruct (Hf a w b1 h1 w1 E E1) as (-> & -> & Hp & Ha). destruct (IH w1 Hrun) as (-> & -> & Hp' & Hl).
      do 2 (split; [done|]). split; [by etrans|]. constructor; [done|]. eapply Forall_impl; [exact Hl|by eauto].
Qed.

Lemma failover_node_requeues i j : keeps (fun s => hc_requeue s.1 = true) (failover_node (W := W) i j).
Proof.
  unfold failover_node, mod_node, get_node, requeue.
  repeat first [apply keeps_bind; [|intros] | apply keeps_geth | apply keeps_deref | apply keeps_ret | case_match
    | apply keeps_when; intros | apply keeps_modh | apply (keeps_onW_fields (fun h => hc_requeue h = true)) | by intros].
Qed.

Lemma failover_shard_requeues b i : keeps (fun s => hc_requeue s.1 = true) (failover_shard b i).
Proof.
  unfold failover_shard. apply keeps_bind; [apply keeps_geth|intros h]. apply keeps_bind; [apply keeps_deref|intros sts].
  apply keeps_foldM. intros j b' _. apply keeps_bind; [apply failover_node_requeues|intros; apply keeps_ret].
Qed.

Definition healthy_shard (w : W) (h : ClusterHandler) (i : nat) : Prop :=
  forall sts, hc_stsNodes h !! i = Some sts -> Forall (healthy w h i) (seq 0 (length (items sts))).

Lemma failover_shard_quiet i h (w : W) b h' w' :
  failover_shard false i (h, w) = (Ok b, (h', w')) -> hc_requeue h' = false ->
  h' = h /\ b = false /\ rtc pinged w w' /\ healthy_shard w h i.
Proof.
  unfold failover_shard, bind at 1, geth. cbn [fst snd]. unfold bind at 1.
  destruct (hc_stsNodes h !! i) as [sts|] eqn:Es; [|done]. unfold deref, ret at 1. intros Hrun Hq.
  apply (quiet_fold (fun w => healthy w h i)) in Hrun as (-> & -> & Hp & HR); [|done| |eauto using healthy_earlier|].
  - do 3 (split; [done|]). unfold healthy_shard. rewrite Es. by intros ? [= <-].
  - intros j b'. apply keeps_bind; [apply failover_node_requeues|intros; apply keeps_ret].
  - intros j w1 b1 h1 w2. unfold bind. destruct (failover_node i j (h, w1)) as [[b2|e| |] [h2 w3]] eqn:E; [|done..].
    intros [= <- <- <-] Hq1. by eapply failover_node_quiet.
Qed.

Lemma topo_msg_requeue h (w : W) h' w' : ensureStatusTopoMsg (h, w) = (Ok tt, (h', w')) -> hc_requeue h' = hc_requeue h.
Proof.
  unfold ensureStatusTopoMsg, bind at 1, modh, bind at 1, bind at 1, catch, update_instance, bind, geth, onW. cbn [fst snd].
  destruct (UpdateKVRocks _ w) as [[k|e| |] w1]; [|done..]. by intros [= <- <-].
Qed.

Lemma quiet_failover h (w : W) h' w' :
  ensureFailover (h, w) = (Ok tt, (h', w')) -> hc_requeue h' = false ->
  h' = h /\ rtc pinged w w' /\
  forall i j sts, hc_stsNodes h !! i = Some sts -> (j < length (items sts))%nat -> healthy w h i j.
Proof.
  unfold ensureFailover, bind at 1, geth. cbn [fst snd]. unfold bind at 1.
  change (fun change i => _) with failover_shard.
  destruct (foldM failover_shard false _ (h, w)) as [[b|e| |] [h1 w1]] eqn:E; [|done..].
  intros Hrun Hq. assert (Hq1 : hc_requeue h1 = false).
  { destruct b; cbn [when] in Hrun; [|by injection Hrun as <- <-].
    unfold bind, bump_version, modh in Hrun. cbn [fst snd] in Hrun. apply topo_msg_requeue in Hrun. cbn in Hrun. congruence. }
  apply (quiet_fold (fun w => healthy_shard w h)) in E as (-> & -> & Hp & HR);
    [|done|intros; apply failover_shard_requeues| |intros i w2 b1 h2 w3; apply failover_shard_quiet].
  - injection Hrun as <- <-. do 2 (split; [done|]). intros i j sts Hi Hj. rewrite Forall_forall in HR.
    assert (Hs : i ∈ seq 0 (length (hc_stsNodes h))) by (apply elem_of_seq; apply lookup_lt_Some in Hi; lia).
    specialize (HR i Hs sts Hi). rewrite Forall_forall in HR. apply HR, elem_of_seq. lia.
  - intros i w2 w3 Hw Hh sts Hi. eapply Forall_impl; [by apply Hh|]. intros j. by apply healthy_earlier.
Qed.

(** When [ensureFailover] succeeds without asking for a requeue, every
    node of every shard is free of a pending failover and has just answered
    a ping, the handler is unchanged and nothing but pings was sent; a node
    that is in failover or does not answer never lets the reconciliation go
    on. *)
Theorem failover_quiet h (w : W) h' w' :
  ensureFailover (h, w) = (Ok tt, (h', w')) -> hc_requeue h' = false ->
  h' = h /\ rtc pinged w w' /\
  forall i j sts, hc_stsNodes h !! i = Some sts -> (j < length (items sts))%nat -> healthy w h i j.
Proof. apply quiet_failover. Qed.
End failover.

(** ** What a failover may delete *)

Section spares.
Context {W : Type} `{Env W, GoLib}.
Context (I : W -> Prop) (h0 : ClusterHandler).

(** A property of the world that can only be broken by deleting the claim or
    the pod of a node which is marked as failed and did not answer the ping
    sent right before. *)
Definition delete_failed (i j : nat) : M W unit :=
  let pod := failover_pod (kv_Name (hc_instance h0)) i j in
  DeletePVCByPod pod (kv_Namespace (hc_instance h0)) ;;;
  DeletePodImmediately pod (kv_Namespace (hc_instance h0)).

Hypothesis Iping : forall addr pw w, I w -> I (redis_ping addr pw w).2.
Hypothesis Isend : forall ip key p w, I w -> I (send_failover ip key p w).
Hypothesis Iupdate : forall k w, I w -> I (api_update (K := KVRocks) k w).2.
Hypothesis Idelete : forall i j n w w',
  lookup_node (hc_stsNodes h0) i j = Some n -> n_Failover n = true ->
  I w -> Ping (n_IP n) (hc_password h0) w = (Ok false, w') -> I (delete_failed i j w').2.

Lemma ping_keeps ip pw : keeps I (Ping ip pw).
Proof.
  unfold Ping. apply keeps_bind; [|intros [|]; apply keeps_ret]. apply keeps_catch, keeps_perform. auto.
Qed.

(** The nodes of the table are the handler's at the start, except that marks
    may have been taken off. *)
Definition marks_from (t : list (slice (option Node))) : Prop :=
  forall i j n, lookup_node t i j = Some n ->
    exists n0, lookup_node (hc_stsNodes h0) i j = Some n0 /\ n_IP n0 = n_IP n /\
      (n_Failover n = true -> n_Failover n0 = true).

Definition sparing (s : ClusterHandler * W) : Prop :=
  I s.2 /\ hc_instance s.1 = hc_instance h0 /\ hc_password s.1 = hc_password h0 /\ marks_from (hc_stsNodes s.1).

Lemma clear_mark_sparing i j : keeps sparing (mod_node i j (set_n_Failover false)).
Proof.
  unfold mod_node, get_node. apply keeps_bind; [apply keeps_bind; [apply keeps_geth|intros; apply keeps_deref]|intros _].
  apply keeps_modh. intros h w (Hw & Hi & Hp & Ht). split; [done|]. split; [done|]. split; [done|].
  intros i' j' n. cbn [fst snd hc_set_stsNodes hc_stsNodes]. rewrite lookup_alter_node. case_decide as E; [|apply Ht].
  destruct (lookup_node (hc_stsNodes h) i' j') as [n1|] eqn:En; [|done]. intros [= <-].
  destruct (Ht _ _ _ En) as (n0 & Hn0 & Hip & _). by exists n0.
Qed.

Lemma requeue_sparing b : keeps sparing (requeue b).
Proof. apply keeps_modh. by intros h w (? & ? & ? & ?). Qed.

Lemma onW_sparing {A} (m : M W A) : keeps I m -> keeps sparing (onW m).
Proof. intros Hm [h w] (Hw & Hr). specialize (Hm w Hw). unfold onW. cbn [fst snd]. by destruct (m w). Qed.

Lemma failover_node_sparing i j : keeps sparing (failover_node i j).
Proof.
  intros [h w] Hs. unfold failover_node, bind at 1, geth. cbn [fst snd]. unfold bind at 1, get_node, bind at 1, geth. cbn [fst snd].
  destruct (lookup_node (hc_stsNodes h) i j) as [n|] eqn:En; [|done]. unfold deref, ret at 1.
  destruct (n_Failover n) eqn:Ef.
  - unfold bind at 1. set (s1 := (requeue true (h, w)).2). assert (Hs1 : sparing s1) by (by apply requeue_sparing).
    change (sparing ((let! alive := onW (Ping (n_IP n) (hc_password h)) in
      if (alive : bool) then mod_node i j (set_n_Failover false) ;;; ret true
      else onW (DeletePVCByPod (failover_pod (kv_Name (hc_instance h)) i j) (kv_Namespace (hc_instance h))) ;;;
           onW (DeletePodImmediately (failover_pod (kv_Name (hc_instance h)) i j) (kv_Namespace (hc_instance h))) ;;;
           mod_node i j (set_n_Failover false) ;;; ret true) s1).2).
    destruct Hs as (Hw & Hi & Hp & Ht). cbn [fst snd] in Hi, Hp, Ht.
    destruct (Ht _ _ _ En) as (n0 & Hn0 & Hip & Hm). rewrite Hi, Hp.
    pose proof (ping_keeps (n_IP n) (hc_password h0) s1.2 (proj1 Hs1)) as HI1.
    unfold bind at 1, onW at 1. destruct (ping_total (n_IP n) (hc_password h0) s1.2) as (alive & w2 & Ep).
    pose proof (Idelete i j n0 s1.2 w2 Hn0 (Hm Ef) (proj1 Hs1)) as Hdel. rewrite Hip in Hdel. specialize (fun E => Hdel (eq_trans Ep E)).
    rewrite Ep in *. cbn [fst snd] in HI1. destruct alive.
    + apply (keeps_bind sparing); [apply clear_mark_sparing|intros; apply keeps_ret|]. split; [done|apply Hs1].
    + specialize (Hdel eq_refl). revert Hdel. unfold delete_failed, bind at 1, bind at 1, onW. cbn [fst snd].
      destruct (DeletePVCByPod _ _ w2) as [[[]|e| |] w3]; cbn [fst snd]; [|intros Hw3; (split; [done|apply Hs1])..].
      unfold bind at 1. cbn [fst snd].
      destruct (DeletePodImmediately _ _ w3) as [[[]|e| |] w4]; cbn [fst snd]; [|intros Hw4; (split; [done|apply Hs1])..].
      intros Hw4. apply (keeps_bind sparing); [apply clear_mark_sparing|intros; apply keeps_ret|]. split; [done|apply Hs1].
  - revert Hs. apply keeps_bind; [apply onW_sparing, ping_keeps|intros alive].
    apply keeps_bind; [apply keeps_when; intros _|intros; apply keeps_ret].
    apply keeps_bind; [apply requeue_sparing|intros _]. apply onW_sparing. intros u. apply Isend.
Qed.

(** C10: [ensureFailover] deletes a pod or a claim only for the position of a
    node that the stored topology marks as failed and that did not answer the
    ping sent right before: every property of the world that nothing else can
    break is kept, whatever calls fail on the way.  In particular a node that
    is down but not marked is only reported. *)
Theorem failover_spares_live (w : W) : I w -> I (ensureFailover (h0, w)).2.2.
Proof.
  intros Hw. assert (Hs : sparing (h0, w)) by (do 3 (split; [done|]); intros i j n Hn; by exists n).
  unfold ensureFailover, bind at 1, geth. cbn [fst snd].
  set (loop := foldM _ false _). assert (Hloop : keeps sparing loop).
  { apply keeps_foldM. intros i b _. apply keeps_bind; [apply keeps_geth|intros h]. apply keeps_bind; [apply keeps_deref|intros sts].
    apply keeps_foldM. intros j b' _. apply keeps_bind; [apply failover_node_sparing|intros; apply keeps_ret]. }
  unfold bind at 1. specialize (Hloop (h0, w) Hs). destruct (loop (h0, w)) as [[b|e| |] s1]; [|apply Hloop..].
  destruct Hloop as [Hw1 _]. cbn [fst snd] in Hw1. revert s1 Hw1.
  change (keeps (fun s => I s.2) (when b (bump_version ;;; ensureStatusTopoMsg))).
  apply keeps_when. intros _. unfold bump_version, ensureStatusTopoMsg, update_instance, requeue.
  repeat first [apply keeps_bind; [|intros] | apply keeps_modh; by intros | apply keeps_catch | apply keeps_geth | case_match
    | apply keeps_ret | apply keeps_throw | apply keeps_onW, keeps_perform; auto].
Qed.
End spares.

(** A shard of two nodes; [marked] says whether the first is in failover. *)
Definition two_nodes (marked : bool) : list (list Node) :=
  [[set_n_Failover marked (new_node "10.0.0.1" 0); new_node "10.0.0.2" 1]].

Definition failover_handler (marked : bool) : ClusterHandler :=
  hc_set_stsNodes (fun _ => present (two_nodes marked))
    (NewKVRocksClusterHandler (NN "default" "kvrocks-cluster-1-demo") (sample_instance ClusterType "kvrocks-cluster-1-demo" 2 1)
       {| ct_EndPoint := EmptyString; ct_Namespace := EmptyString; ct_ClusterName := EmptyString |}).

Definition up_world : World :=
  w_set_roles (<[kvrocks_addr "10.0.0.1" := RoleMaster]> {[kvrocks_addr "10.0.0.2" := RoleSlaver]}) empty_world.

Lemma failover_quiet_witness :
  @healthy World worldEnv up_world (failover_handler false) 0 1.
Proof.
  set (run := @ensureFailover World worldEnv (failover_handler false, up_world)).
  assert (Hok : run.1 = Ok tt) by (vm_compute; reflexivity).
  assert (Hq : hc_requeue run.2.1 = false) by (vm_compute; reflexivity).
  refine (proj2 (proj2 (@failover_quiet World worldEnv _ _ _ _ (run_eq _ _ _ Hok) Hq)) 0%nat 1%nat _ _ _); [reflexivity|cbn; lia].
Defined.

Definition claim_of (j : nat) : NamespacedName := NN "default" ("data-" +:+ failover_pod "kvrocks-cluster-1-demo" 0 j).

(** The claim of the second node, which is down but not marked. *)
Definition second_claim : PersistentVolumeClaim := sample_claim (nn_Name (claim_of 1)) ∅.

Definition spared (w : World) : Prop :=
  w_claims w !! claim_of 1 = Some second_claim /\
  forall v, w_claims w !! claim_of 0 = Some v -> key_of pvc_Meta v = claim_of 0.

Definition down_world : World :=
  w_set_claims (<[claim_of 1 := second_claim]> {[claim_of 0 := sample_claim (nn_Name (claim_of 0)) ∅]}) empty_world.

Lemma spared_claim w : spared w ->
  spared (@DeletePVCByPod World worldKube (failover_pod "kvrocks-cluster-1-demo" 0 0) "default" w).2.
Proof.
  intros [H1 H0]. unfold DeletePVCByPod, bind, catch, perform. cbn [api_get kube_pvc worldKube store_kind].
  change (NN _ _) with (claim_of 0). destruct (w_claims w !! claim_of 0) as [v|] eqn:E; [|split; [exact H1|]; intros v Hv; change (w_claims w !! claim_of 0 = Some v) in Hv; congruence].
  unfold DeletePVC, ignore, perform. cbn [api_delete kube_pvc worldKube store_kind]. rewrite (H0 v eq_refl), E.
  split; cbn [snd w_claims w_set_claims].
  - rewrite lookup_delete_ne; [done|]. by vm_compute.
  - by rewrite lookup_delete_eq.
Qed.

Lemma spared_pod pod ns w : spared w -> spared (@DeletePodImmediately World worldKube pod ns w).2.
Proof.
  intros Hw. unfold DeletePodImmediately, GetPod, bind at 1, catch, perform at 1. cbn [api_get kube_pod worldKube store_kind].
  destruct (w_pods w !! _) as [p|]; [|done].
  unfold ignore, perform. cbn [api_delete kube_pod worldKube store_kind]. by destruct (w_pods w !! _).
Qed.

Lemma spared_delete w : spared w -> spared (@delete_failed World worldEnv (failover_handler true) 0 0 w).2.
Proof.
  intros Hw. unfold delete_failed, bind. apply spared_claim in Hw.
  change (failover_pod (kv_Name _) 0 0) with (failover_pod "kvrocks-cluster-1-demo" 0 0). change (kv_Namespace _) with "default".
  cbn [env_kube worldEnv] in *. destruct (DeletePVCByPod _ _ w) as [[[]|e| |] w1]; [|done..]. by apply spared_pod.
Qed.

Lemma failover_spares_live_witness :
  w_claims (@ensureFailover World worldEnv (failover_handler true, down_world)).2.2 !! claim_of 1 = Some second_claim /\
  w_claims (@ensureFailover World worldEnv (failover_handler true, down_world)).2.2 !! claim_of 0 = None.
Proof.
  split; [|vm_compute; reflexivity].
  apply (@failover_spares_live World worldEnv spared (failover_handler true)).
  - intros addr pw w Hw. cbn. unfold when_up. destruct (w_roles w !! addr); exact Hw.
  - intros ip key p w Hw. exact Hw.
  - intros k w Hw. cbn. destruct (w_kvrocks w !! _); exact Hw.
  - intros i j n w w' Hn Hf Hw Hp.
    assert (i = 0%nat /\ j = 0%nat) as [-> ->].
    { destruct i as [|i]; [|discriminate Hn]. split; [reflexivity|].
      destruct j as [|[|j]]; [reflexivity| |discriminate Hn]. injection Hn as <-. discriminate Hf. }
    apply spared_delete. revert Hp. unfold Ping, bind, catch, perform. cbn. unfold when_up.
    destruct (w_roles w !! _); intros E; injection E; intros; subst; exact Hw.
  - split; [reflexivity|]. intros v Hv. vm_compute in Hv. injection Hv as <-. reflexivity.
Defined.

(** ** What [updateCluster] takes from the controller *)

Section members.
Context {W : Type} `{Env W, GoLib}.
Context (I : W -> Prop) (h0 : ClusterHandler) (t : list (list Node)).
#[local] Abbreviation c := (hc_controller h0).

(** A property of the controller that can only be broken by deleting a shard
    the table has, or a member which the controller reported in a shard and
    whose address a node of that shard has. *)
Hypothesis Htable : hc_stsNodes h0 = present t.
Hypothesis Iget : forall url w, I w -> I (http_do {| rq_Method := GET; rq_URL := url; rq_Body := None |} w).2.
Hypothesis Ipost : forall url body w, I w -> I (http_do {| rq_Method := POST; rq_URL := url; rq_Body := body |} w).2.
Hypothesis Ishard : forall i, Z.of_nat (length t) <= i -> keeps I (DeleteShard c i).
Hypothesis Inode : forall i l d m w w', t !! i = Some l -> I w -> GetNodes c (Z.of_nat i) w = (Ok (Some d), w') ->
  m ∈ sd_Nodes d -> simplyIp (cn_Addr m) ∉ n_IP <$> l -> keeps I (DeleteNode c (Z.of_nat i) (cn_ID m)).

Definition steady_members (s : ClusterHandler * W) : Prop := I s.2 /\ s.1 = h0.

Lemma has_ip_spec ip (l : list Node) : has_ip ip (Some <$> l) = Ok (bool_decide (ip ∈ n_IP <$> l)).
Proof.
  induction l as [|n l IH]; [done|]. cbn [fmap list_fmap has_ip].
  destruct (String.eqb_spec ip (n_IP n)) as [->|Hne]; f_equal.
  - symmetry. apply bool_decide_eq_true. by left.
  - rewrite IH. f_equal. apply bool_decide_ext. rewrite elem_of_cons. naive_solver.
Qed.

Lemma members_onW {A} (m : M W A) : keeps I m -> keeps steady_members (onW m).
Proof. intros Hm [h w] [Hw Hh]. specialize (Hm w Hw). unfold onW. cbn [fst snd]. by destruct (m w). Qed.

Lemma request_keeps {A} (m : M W http_response) (k : http_response -> M W A) :
  keeps I m -> (forall r, exists o, k r = lift o) -> keeps I (bind m k).
Proof. intros Hm Hk. apply keeps_bind; [done|]. intros r. destruct (Hk r) as [o ->]. apply keeps_lift. Qed.

Lemma get_nodes_keeps i : keeps I (GetNodes c i).
Proof.
  apply request_keeps; [apply keeps_perform; auto|]. intros r. destruct (rs_StatusCode r =? StatusOK); [|by exists (Ok None)].
  unfold read_json, bind. destruct (rs_Body r) as [v|]; [|by exists (Err err_json)].
  destruct (dec_map _ v) as [m|]; [|by exists (Err err_json)]. unfold ret.
  destruct (lookup2 m "data" "shard") as [d|]; [by exists (Ok (Some d))|by exists (Err err_format)].
Qed.

Lemma get_shards_keeps : keeps I (GetShards c).
Proof.
  apply request_keeps; [apply keeps_perform; auto|]. intros r. destruct (rs_StatusCode r =? StatusOK); [|by exists (Ok [])].
  unfold read_json, bind. destruct (rs_Body r) as [v|]; [|by exists (Err err_json)].
  destruct (dec_map _ v) as [m|]; [|by exists (Err err_json)]. unfold ret.
  destruct (lookup2 m "data" "shards") as [d|]; [by exists (Ok d)|by exists (Err err_format)].
Qed.

Lemma post_keeps url body (code : Z) e :
  keeps I (let! resp := http_post url body in if rs_StatusCode resp =? code then ret tt else throw (e (rs_StatusCode resp))).
Proof.
  apply request_keeps; [apply keeps_perform; auto|]. intros r.
  destruct (rs_StatusCode r =? code); [by exists (Ok tt)|by exists (Err (e (rs_StatusCode r)))].
Qed.

Lemma remove_stale_members i l : t !! i = Some l -> keeps steady_members (remove_stale i (Some <$> l)).
Proof.
  intros Hl [h w] [Hw Hh]. cbn [fst snd] in Hw, Hh. subst h. unfold remove_stale, bind at 1, geth. cbn [fst snd].
  unfold bind at 1, onW at 1. cbn [fst snd]. pose proof (get_nodes_keeps (Z.of_nat i) w Hw) as Hw1.
  pose proof (fun d w' m => Inode i l d m w w' Hl Hw) as Hdel.
  destruct (GetNodes c (Z.of_nat i) w) as [[[d|]|e| |] w1]; cbn [fst snd] in Hw1; [| |by split..].
  - specialize (fun m => Hdel d w1 m eq_refl). set (m := forM _ _).
    enough (Hk : keeps steady_members m) by (by apply Hk). apply keeps_forM. intros s Hs.
    rewrite has_ip_spec.
    change (keeps steady_members (when (negb (bool_decide (simplyIp (cn_Addr s) ∈ n_IP <$> l)))
      (onW (DeleteNode c (Z.of_nat i) (cn_ID s))))).
    apply keeps_when. intros Hf. apply negb_true_iff, bool_decide_eq_false in Hf. by apply members_onW, Hdel.
  - set (m := bind _ _). enough (Hk : keeps steady_members m) by (by apply Hk).
    apply keeps_bind; [apply keeps_lift|intros nodes]. apply members_onW, post_keeps.
Qed.

Lemma add_missing_members i j r : keeps steady_members (add_missing i j r).
Proof.
  intros [h w] [Hw Hh]. cbn [fst snd] in Hw, Hh. subst h. unfold add_missing, bind at 1, geth. cbn [fst snd].
  set (m := bind _ _). enough (Hk : keeps steady_members m) by (by apply Hk).
  apply keeps_bind; [apply keeps_deref|intros d]. apply keeps_bind; [unfold get_node; auto with keeps|intros n].
  destruct (member_at _ _); [apply keeps_ret|]. apply members_onW, post_keeps.
Qed.

Lemma for_shards_members (body : nat -> list (option Node) -> M (ClusterHandler * W) unit) :
  (forall i l, t !! i = Some l -> keeps steady_members (body i (Some <$> l))) -> keeps steady_members (for_shards body).
Proof.
  intros Hbody. unfold for_shards. apply keeps_bind; [apply keeps_geth|intros h].
  apply keeps_forM. intros i _ [h' w] [Hw Hh]. cbn [fst snd] in Hh. subst h'.
  unfold at_shard, bind, geth. cbn [fst snd]. rewrite Htable. unfold present. rewrite list_lookup_fmap.
  destruct (t !! i) as [l|] eqn:El; [|done]. by apply (Hbody i l El).
Qed.

(** C15: bringing the controller in line with the node table never deletes a
    shard the table has, and never deletes a member the controller reported
    for a shard while one of the shard's nodes has its address: every
    property that nothing else can break is kept, whatever calls fail on the
    way. *)
Theorem controller_keeps_live (w : W) : I w -> I (updateCluster (h0, w)).2.2.
Proof.
  intros Hw. assert (Hs : steady_members (h0, w)) by done.
  enough (Hk : keeps steady_members updateCluster) by (by apply Hk in Hs as [? _]).
  unfold updateCluster. apply keeps_bind; [apply for_shards_members, remove_stale_members|intros _].
  apply keeps_bind; [apply for_shards_members|intros _].
  - intros i l _ [h w1] [Hw1 Hh]. cbn [fst snd] in Hh. subst h. unfold bind at 1, geth. cbn [fst snd].
    set (m := bind _ _). enough (Hk : keeps steady_members m) by (by apply Hk).
    apply keeps_bind; [apply members_onW, get_nodes_keeps|intros r].
    apply keeps_forM. intros j _. apply add_missing_members.
  - intros [h w1] [Hw1 Hh]. cbn [fst snd] in Hh. subst h. unfold bind at 1, geth. cbn [fst snd].
    set (m := bind _ _). enough (Hk : keeps steady_members m) by (by apply Hk).
    apply keeps_bind; [apply members_onW, get_shards_keeps|intros shards].
    apply keeps_forM. intros i Hi. rewrite elem_of_reverse, elem_of_irange, Htable in Hi.
    unfold present in Hi. rewrite length_fmap in Hi. apply members_onW, Ishard. lia.
Qed.
End members.

(** A controller that forgets what was deleted: a second deletion of the same
    resource is answered with 404. *)
Definition forgettingHttp : Http World := {|
  http_do := fun rq w =>
    (inl (w_http w rq),
     match rq_Method rq with
     | DELETE => w_set_http (fun r =>
         if bool_decide (rq_Method r = DELETE /\ rq_URL r = rq_URL rq) then {| rs_StatusCode := 404; rs_Body := None |}
         else w_http w r) w
     | _ => w
     end)
|}.

Definition forgettingEnv : Env World := {|
  env_kube := worldKube; env_redis := worldRedis; env_http := forgettingHttp; env_clock := worldClock; env_sink := worldSink
|}.

(** The controller has the node of the table and one whose pod is gone. *)
Definition stale_reply : json :=
  JObj [("data", JObj [("shard", JObj [
    ("nodes", JArr [JObj [("id", JStr "x"); ("addr", JStr "10.0.0.1:6379"); ("role", JStr "master")];
                    JObj [("id", JStr "y"); ("addr", JStr "10.0.0.9:6379"); ("role", JStr "slave")]])])])].

Definition stale_http (rq : http_request) : http_response :=
  {| rs_StatusCode := if bool_decide (rq_URL rq = shards_url NewClient) then 404 else 200; rs_Body := Some stale_reply |}.

Definition stale_handler : ClusterHandler :=
  hc_set_stsNodes (fun _ => present [[new_node "10.0.0.1" 0]])
    (NewKVRocksClusterHandler (NN "default" "kvrocks-cluster-1-demo") (sample_instance ClusterType "kvrocks-cluster-1-demo" 1 1) NewClient).

Definition member_url (id : string) : string := shard_url NewClient 0 +:+ "/nodes/" +:+ id.
Definition delete_status (id : string) (w : World) : Z :=
  rs_StatusCode (w_http w {| rq_Method := DELETE; rq_URL := member_url id; rq_Body := None |}).

Definition keeps_x (w : World) : Prop :=
  (forall url, w_http w {| rq_Method := GET; rq_URL := url; rq_Body := None |} =
     stale_http {| rq_Method := GET; rq_URL := url; rq_Body := None |}) /\
  delete_status "x" w = 200.

Lemma keeps_x_delete url : url <> member_url "x" ->
  keeps keeps_x (perform (@http_do World forgettingHttp {| rq_Method := DELETE; rq_URL := url; rq_Body := None |})).
Proof.
  intros Hne. apply keeps_perform. intros w [Hget Hx]. split.
  - intros u. cbn. apply Hget.
  - unfold delete_status. cbn. rewrite bool_decide_eq_false_2; [exact Hx|]. intros [_ E]. congruence.
Qed.

Lemma controller_keeps_live_witness :
  let w' := (@updateCluster World forgettingEnv (stale_handler, w_set_http stale_http empty_world)).2.2 in
  delete_status "x" w' = 200 /\ delete_status "y" w' = 404.
Proof.
  intros w'. split; [|vm_compute; reflexivity].
  apply (@controller_keeps_live World forgettingEnv keeps_x stale_handler [[new_node "10.0.0.1" 0]] eq_refl).
  - intros url w Hw. exact Hw.
  - intros url body w Hw. exact Hw.
  - intros i Hi. unfold DeleteShard, http_delete. apply keeps_bind.
    + apply keeps_x_delete. intros E. apply (string_app_inv_head (shards_url NewClient +:+ "/") (Itoa i) "0/nodes/x") in E.
      assert (Hd : all_chars is_digit (Itoa i) = true) by (apply Itoa_digits; cbn in Hi; lia).
      rewrite E in Hd. discriminate Hd.
    + intros r. destruct (_ =? _); [apply keeps_ret|apply keeps_throw].
  - intros i l d m w w1 Hl Hw Hrun Hm Hip.
    assert (i = 0%nat /\ l = [new_node "10.0.0.1" 0]) as [-> ->].
    { destruct i as [|i]; [|discriminate Hl]. injection Hl as <-. split; reflexivity. }
    unfold GetNodes, http_get, bind at 1, perform in Hrun. cbn [http_do forgettingEnv env_http forgettingHttp] in Hrun.
    rewrite (proj1 Hw) in Hrun. vm_compute in Hrun. injection Hrun as <- _.
    cbn [sd_Nodes] in Hm. apply elem_of_cons in Hm as [->|Hm]; [exfalso; apply Hip; left|].
    apply list_elem_of_singleton in Hm as ->.
    unfold DeleteNode, http_delete. apply keeps_bind; [apply keeps_x_delete; discriminate|].
    intros r. destruct (_ =? _); [apply keeps_ret|apply keeps_throw].
  - split; [intros url; reflexivity|reflexivity].
Defined.
