(* ===== verification/ClusterShrink.v ===== *)
(** * Scaling a cluster down, in two reconciliations

    [ensureShrink] records what is to be removed in the status, together with
    the topology without it; the next reconciliation starts with
    [cleanStatefulSet], which deletes and resizes the stateful sets. *)

From S2P Require Import Prelude GoStd Types Slots Resources Scale Env K8sClient KvClient ControllerClient Common SentinelNotify Cluster World ClusterProps.
Local Open Scope Z_scope.
Local Open Scope go_scope.

(** ** The recorded topology *)

Definition shard_topo (name : string) (i : nat) (sts : list (option Node)) : KVRocksTopoPartitions :=
  {| p_PartitionName := GetStatefulSetName name (Some (Z.of_nat i)); p_Shard := Z.of_nat i;
     p_Topology := topo_nodes (GetStatefulSetName name (Some (Z.of_nat i))) 0 sts |}.

(** Shards cut from the end of the table are not in the topology. *)
Lemma topo_shards_cut name b (a : list (list (option Node))) k :
  topo_shards name b ((Some <$> a) ++ replicate k None) = imap (fun i => shard_topo name (b + i)) a.
Proof.
  revert b. induction a as [|sts a IH]; intros b; cbn [fmap list_fmap app].
  - revert b. induction k as [|k IHk]; intros b; [done|]. cbn [replicate topo_shards]. by rewrite IHk.
  - cbn [topo_shards]. rewrite IH, imap_cons, Nat.add_0_r. unfold shard_topo at 1. f_equal.
    apply imap_ext. intros i x _. unfold compose. by rewrite <- Nat.add_succ_comm.
Qed.

(** On a fresh shard the positions that remain are the ordinals that remain. *)
Lemma topo_pods_kept set ids (nodes : list Node) j :
  (forall i n, nodes !! i = Some n -> n_PodIndex n = Z.of_nat (j + i)) ->
  t_Pod <$> topo_nodes set j (clear_ids ids nodes) =
    (fun x => set +:+ "-" +:+ Itoa x) <$> (n_PodIndex <$> filter (fun n => n_PodIndex n ∉ ids) nodes).
Proof.
  unfold clear_ids. revert j. induction nodes as [|n nodes IH]; intros j Hpos; [done|].
  assert (Hn : n_PodIndex n = Z.of_nat j) by (rewrite (Hpos 0%nat n eq_refl); f_equal; lia).
  assert (Hrest : forall i n, nodes !! i = Some n -> n_PodIndex n = Z.of_nat (S j + i)).
  { intros i x Hx. rewrite (Hpos (S i) x Hx). f_equal. lia. }
  rewrite fmap_cons. case_decide as Hin.
  - cbn [topo_nodes]. rewrite filter_cons_False by naive_solver. by apply IH.
  - cbn [topo_nodes fmap list_fmap]. rewrite filter_cons_True by done. cbn [fmap list_fmap node_topo t_Pod].
    rewrite Hn. f_equal. by apply IH.
Qed.

(** ** The loops of [ensureShrink] *)

Definition reserve_of (replicas : Z) (l : list Node) : slice Z :=
  match getReserveIndex replicas (Some <$> l) with Ok (r, _) => r | _ => None end.
Definition shrunk (replicas : Z) (l : list Node) : list (option Node) :=
  match getReserveIndex replicas (Some <$> l) with Ok (_, ns) => ns | _ => Some <$> l end.

Lemma alter_imap {A B} (f : nat -> A -> B) (g : B -> B) (k : nat) (l : list A) :
  alter g k (imap f l) = imap (fun i x => if decide (i = k) then g (f i x) else f i x) l.
Proof.
  apply list_eq. intros i. destruct (decide (i = k)) as [->|Hne].
  - rewrite list_lookup_alter_eq, !list_lookup_imap. destruct (l !! k); [|done]. cbn. by rewrite decide_True.
  - rewrite list_lookup_alter_ne, !list_lookup_imap by done. destruct (l !! i); [|done]. cbn. by rewrite decide_False.
Qed.

Section shrink.
Context {W : Type} `{Env W, GoLib}.
Context (h0 : ClusterHandler) (t : list (list Node)).
#[local] Abbreviation name := (kv_Name (hc_instance h0)).
#[local] Abbreviation replicas := (sp_Replicas (kv_Spec (hc_instance h0))).
#[local] Abbreviation master := (int_Master (hc_instance h0)).

(** The table after the shards [gone] were dropped and [cut] were cut. *)
Definition shrink_table (gone cut : list Z) : list (slice (option Node)) :=
  imap (fun i l => if decide (Z.of_nat i ∈ gone) then None
                   else if decide (Z.of_nat i ∈ cut) then Some (shrunk replicas l) else full l) t.

Definition shrink_state (gone cut : list Z) (h : ClusterHandler) : Prop :=
  hc_instance h = hc_instance h0 /\ hc_stsNodes h = shrink_table gone cut.

Lemma drop_shard_spec gone i h (w : W) idx h' w' :
  0 <= i -> shrink_state gone [] h -> drop_shard gone i (h, w) = (Ok idx, (h', w')) ->
  idx = gone ++ [i] /\ shrink_state (gone ++ [i]) [] h'.
Proof.
  intros Hi [Hinst Htab]. unfold drop_shard, bind at 1, geth. cbn [fst snd]. unfold bind at 1, set_requeue_err, bind at 1, onW.
  cbn [fst snd]. destruct (ch_RemoveMonitor _ _ _ w) as [[[b err]|e| |] w1]; [|done..].
  unfold bind at 1, requeue, modh. cbn [fst snd]. destruct err as [e|]; [done|]. unfold ret at 1, bind, ret. cbn [fst snd].
  intros [= <- <- <-]. split; [done|]. split; [done|]. cbn [hc_set_stsNodes hc_set_requeue hc_stsNodes].
  rewrite Htab. unfold shrink_table. rewrite alter_imap. apply imap_ext. intros k l _.
  destruct (decide (k = Z.to_nat i)) as [->|Hne].
  - by rewrite decide_True by (rewrite Z2Nat.id by done; set_solver).
  - destruct (decide (Z.of_nat k ∈ gone)); [by rewrite decide_True by set_solver|].
    rewrite (decide_False (P := Z.of_nat k ∈ gone ++ [i])); [done|].
    rewrite elem_of_app, list_elem_of_singleton. intros [?|<-]; [done|]. lia.
Qed.

Lemma drop_loop (l gone : list Z) h (w : W) idx h' w' :
  Forall (Z.le 0) l -> shrink_state gone [] h ->
  foldM drop_shard gone l (h, w) = (Ok idx, (h', w')) -> idx = gone ++ l /\ shrink_state (gone ++ l) [] h'.
Proof.
  intros Hl. revert gone h w. induction Hl as [|i l Hi Hl IH]; intros gone h w Hs; cbn [foldM].
  - intros [= <- <- <-]. by rewrite app_nil_r.
  - unfold bind. destruct (drop_shard gone i (h, w)) as [[idx1|e| |] [h1 w1]] eqn:E; [|done..].
    apply drop_shard_spec in E as [-> Hs1]; [|done..]. intros Hrun. apply IH in Hrun; [|done]. by rewrite <- app_assoc in Hrun.
Qed.

(** The reserve message has an entry for exactly the cut shards that lose
    pods. *)
Definition reserves_ok (cut : list Z) (reserves : gmap string (list Z)) : Prop :=
  forall k l, t !! k = Some l ->
    reserves !! GetStatefulSetName name (Some (Z.of_nat k)) = if decide (Z.of_nat k ∈ cut) then reserve_of replicas l else None.

Hypothesis Hlen : Z.of_nat (length t) <= MaxInt.

Lemma index_int k l : t !! k = Some l -> is_int (Z.of_nat k).
Proof. intros Hk. apply lookup_lt_Some in Hk. unfold is_int, MinInt. lia. Qed.

Lemma shrink_shard_spec gone cut reserves k h (w : W) res h' w' :
  Z.of_nat k ∉ gone -> Z.of_nat k ∉ cut -> shrink_state gone cut h -> reserves_ok cut reserves ->
  shrink_shard reserves (Z.of_nat k) (h, w) = (Ok res, (h', w')) ->
  shrink_state gone (cut ++ [Z.of_nat k]) h' /\ reserves_ok (cut ++ [Z.of_nat k]) res.
Proof.
  intros Hg Hc [Hinst Htab] Hres. unfold shrink_shard, bind at 1, geth. cbn [fst snd]. unfold bind at 1. rewrite Nat2Z.id, Htab.
  unfold shrink_table. rewrite list_lookup_imap. destruct (t !! k) as [l|] eqn:El; [|done]. cbn [fmap option_fmap option_map].
  rewrite decide_False, decide_False by done. unfold deref, ret at 1. change (items (full l)) with (Some <$> l). rewrite Hinst.
  unfold bind at 1, lift. destruct (getReserveIndex replicas (Some <$> l)) as [[r ns]|e| |] eqn:Er; [|done..].
  unfold bind, modh, ret. cbn [fst snd]. intros Hrun.
  assert (Hres' : h' = hc_set_stsNodes (alter (smap (fun _ => ns)) k) h /\
     res = match r with Some r => <[GetStatefulSetName name (Some (Z.of_nat k)) := r]> reserves | None => reserves end).
  { destruct r; by injection Hrun as <- <- _. }
  destruct Hres' as [-> ->]. split.
  - split; [done|]. cbn [hc_set_stsNodes hc_stsNodes]. rewrite Htab. unfold shrink_table. rewrite alter_imap.
    apply imap_ext. intros i l' Hl'. destruct (decide (i = k)) as [->|Hne].
    + rewrite !(decide_False (P := _ ∈ gone)), (decide_False (P := _ ∈ cut)), decide_True by (done || set_solver).
      assert (l' = l) as -> by congruence. unfold shrunk. by rewrite Er.
    + destruct (decide (Z.of_nat i ∈ gone)); [done|]. destruct (decide (Z.of_nat i ∈ cut)); [by rewrite decide_True by set_solver|].
      rewrite decide_False; [done|]. rewrite elem_of_app, list_elem_of_singleton. intros [?|?]; [done|]. lia.
  - intros i l' Hl'. assert (Hr : reserve_of replicas l = r) by (unfold reserve_of; by rewrite Er).
    destruct (decide (i = k)) as [->|Hne].
    + assert (l' = l) as -> by congruence. rewrite decide_True, Hr by set_solver. destruct r; [by rewrite lookup_insert_eq|].
      by rewrite (Hres k l El), decide_False.
    + assert (Hn : GetStatefulSetName name (Some (Z.of_nat k)) <> GetStatefulSetName name (Some (Z.of_nat i))).
      { intros E. apply GetStatefulSetName_inj in E; [lia|by eapply index_int..]. }
      transitivity (reserves !! GetStatefulSetName name (Some (Z.of_nat i))); [destruct r; [by rewrite lookup_insert_ne|done]|].
      rewrite (Hres i l' Hl'). apply decide_ext. rewrite elem_of_app, list_elem_of_singleton. split; [auto|].
      intros [?|?]; [done|lia].
Qed.

Lemma shrink_loop (l cut gone : list Z) reserves h (w : W) res h' w' :
  (forall i, i ∈ l -> 0 <= i /\ i ∉ gone) -> NoDup (cut ++ l) -> shrink_state gone cut h -> reserves_ok cut reserves ->
  foldM shrink_shard reserves l (h, w) = (Ok res, (h', w')) ->
  shrink_state gone (cut ++ l) h' /\ reserves_ok (cut ++ l) res.
Proof.
  revert cut reserves h w. induction l as [|i l IH]; intros cut reserves h w Hl Hnd Hs Hr; cbn [foldM].
  - intros [= <- <- <-]. by rewrite app_nil_r.
  - destruct (Hl i ltac:(by left)) as [Hi Hg]. rewrite <- (Z2Nat.id i) in Hg, Hnd |- * by done. set (k := Z.to_nat i) in *.
    unfold bind. destruct (shrink_shard reserves (Z.of_nat k) (h, w)) as [[res1|e| |] [h1 w1]] eqn:E; [|done..].
    assert (Hc : Z.of_nat k ∉ cut) by (intros Hc; apply NoDup_app in Hnd as (_ & Hd & _); apply (Hd _ Hc); by left).
    apply (shrink_shard_spec gone cut) in E as [Hs1 Hr1]; [|done..]. intros Hrun. apply (IH (cut ++ [Z.of_nat k])) in Hrun; [..|done|done].
    + by rewrite <- app_assoc in Hrun.
    + intros j Hj. apply Hl. by right.
    + by rewrite <- app_assoc.
Qed.

(** The table [ensureShrink] stores: the wanted shards, cut, and nil for the
    others. *)
Lemma final_table (n : nat) :
  (n <= length t)%nat -> Z.of_nat n = master ->
  shrink_table (irange master (Z.of_nat (length t) - 1)) (irange 0 (master - 1)) =
    (Some <$> (shrunk replicas <$> take n t)) ++ replicate (length t - n) None.
Proof.
  intros Hn Hm. apply list_eq. intros i. unfold shrink_table. rewrite list_lookup_imap.
  destruct (decide (i < n)%nat) as [Hi|Hi].
  - rewrite lookup_app_l by (rewrite !length_fmap, length_take; lia). rewrite !list_lookup_fmap, lookup_take_lt by done.
    destruct (t !! i) as [l|]; [|done]. cbn.
    by rewrite decide_False, decide_True by (rewrite elem_of_irange; lia).
  - rewrite lookup_app_r by (rewrite !length_fmap, length_take; lia). rewrite !length_fmap, length_take.
    destruct (t !! i) as [l|] eqn:El.
    + apply lookup_lt_Some in El as Hlt. cbn. rewrite decide_True by (rewrite elem_of_irange; lia).
      symmetry. apply lookup_replicate. split; [done|lia].
    + apply lookup_ge_None in El. cbn. symmetry. apply lookup_ge_None. rewrite length_replicate. lia.
Qed.
End shrink.

(** ** What is recorded *)

Section recorded.
Context {W : Type} `{Env W, GoLib, Kruise}.

(** A shard as [ensureShrink] finds it when nothing was reserved before. *)
Definition shard_fresh (l : list Node) : Prop := fresh l /\ exists m, shard_ok l m.

Lemma cut_spec (replicas : Z) (l : list Node) :
  shard_fresh l -> 1 <= replicas ->
  exists ids, shrunk replicas l = clear_ids ids l /\
    (reserve_of replicas l = None <-> Z.of_nat (length l) <= replicas) /\
    n_PodIndex <$> filter (fun n => n_PodIndex n ∉ ids) l =
      ordinals (default [] (reserve_of replicas l)) (Z.to_nat (Z.min (Z.of_nat (length l)) replicas)) /\
    forall m, m ∈ l -> n_Role m = RoleMaster -> m ∈ filter (fun n => n_PodIndex n ∉ ids) l.
Proof.
  intros [Hf [m Hok]] Hrep. unfold shrunk, reserve_of. destruct (decide (replicas < Z.of_nat (length l))) as [Hlt|Hge].
  - destruct (fresh_shrink l m replicas Hok Hf ltac:(lia)) as (result & ids & -> & Hm & Hord).
    exists ids. split; [done|]. split; [split; [done|lia]|]. split; [rewrite Z.min_r by lia; exact Hord|].
    intros m' Hm' Hr. assert (Hin : m' ∈ filter Scale.master l) by (by apply list_elem_of_filter).
    rewrite (so_master _ _ Hok) in Hin. by apply list_elem_of_singleton in Hin as ->.
  - exists []. unfold getReserveIndex. rewrite length_fmap. replace (0 <? Z.of_nat (length l) - replicas) with false by lia.
    split; [unfold clear_ids; apply list_fmap_ext; intros; by rewrite decide_False by apply not_elem_of_nil|].
    split; [split; [lia|done]|]. rewrite list_filter_all by (intros; apply not_elem_of_nil).
    split; [|done]. rewrite Z.min_l by lia. rewrite Nat2Z.id. cbn. by rewrite <- ordinals_none.
Qed.

(** [recorded t k]: the resource [k] records the scale-down of the table [t]
    to its own specification. *)
Definition recorded (t : list (list Node)) (k : KVRocks) : Prop :=
  exists msg, st_Shrink (kv_Status k) = Some msg /\
    sh_Partition msg = irange (int_Master k) (Z.of_nat (length t) - 1) /\
    length (items (st_Topo (kv_Status k))) = Z.to_nat (int_Master k) /\
    forall i l, t !! i = Some l -> Z.of_nat i < int_Master k ->
      let set := GetStatefulSetName (kv_Name k) (Some (Z.of_nat i)) in
      let kept := ordinals (default [] (sh_ReserveMsg msg !! set)) (Z.to_nat (Z.min (Z.of_nat (length l)) (sp_Replicas (kv_Spec k)))) in
      (sh_ReserveMsg msg !! set = None <-> Z.of_nat (length l) <= sp_Replicas (kv_Spec k)) /\
      (exists p, items (st_Topo (kv_Status k)) !! i = Some p /\ p_PartitionName p = set /\
         t_Pod <$> p_Topology p = (fun x => set +:+ "-" +:+ Itoa x) <$> kept) /\
      forall m, m ∈ l -> n_Role m = RoleMaster -> n_PodIndex m ∈ kept.

Lemma recorded_intro (h : ClusterHandler) (t : list (list Node)) (tbl : list (slice (option Node))) res v :
  let k0 := hc_instance h in
  0 <= int_Master k0 <= Z.of_nat (length t) -> 1 <= sp_Replicas (kv_Spec k0) ->
  (forall i l, t !! i = Some l -> Z.of_nat i < int_Master k0 -> shard_fresh l) ->
  tbl = shrink_table h t (irange (int_Master k0) (Z.of_nat (length t) - 1)) (irange 0 (int_Master k0 - 1)) ->
  reserves_ok h t (irange 0 (int_Master k0 - 1)) res ->
  recorded t (set_kv_Status (fun st => set_st_Version v (set_st_Topo (sappend None (topo_shards (kv_Name k0) 0 tbl)) st))
    (set_kv_Status (set_st_Shrink (Some {| sh_Partition := irange (int_Master k0) (Z.of_nat (length t) - 1); sh_ReserveMsg := res |})) k0)).
Proof.
  cbv zeta. intros Hmaster Hrep Hfresh -> Hres. eexists. split; [done|]. split; [done|].
  cbn [kv_Status set_kv_Status st_Topo set_st_Topo set_st_Version].
  rewrite (final_table h t (Z.to_nat (int_Master (hc_instance h)))), topo_shards_cut, sappend_items by lia.
  set (k0 := hc_instance h) in *.
  split; [rewrite length_imap, length_fmap, length_take; change (int_Master _) with (int_Master k0); lia|].
  intros i l Hi Him. change (int_Master _) with (int_Master k0) in Him.
  destruct (cut_spec (sp_Replicas (kv_Spec k0)) l (Hfresh i l Hi Him) Hrep) as (ids & Hshr & Hnone & Hord & Hm).
  change (kv_Spec (set_kv_Status _ _)) with (kv_Spec k0). change (kv_Name (set_kv_Status _ _)) with (kv_Name k0).
  assert (Hmsg : res !! GetStatefulSetName (kv_Name k0) (Some (Z.of_nat i)) = reserve_of (sp_Replicas (kv_Spec k0)) l).
  { unfold k0. rewrite (Hres i l Hi), decide_True; [done|]. apply elem_of_irange. lia. }
  cbn [sh_ReserveMsg]. rewrite Hmsg, <- Hord. split; [done|]. split.
  - eexists. rewrite list_lookup_imap, list_lookup_fmap, lookup_take_lt, Hi by lia. split; [reflexivity|]. split; [done|].
    cbn [shard_topo p_Topology]. rewrite Hshr, topo_pods_kept; [done|]. intros j n Hj. by apply (fresh_position l); [apply (Hfresh i)|].
  - intros m Hml Hr. by apply list_elem_of_fmap_2, Hm.
Qed.

(** C7: when [ensureShrink] succeeds on a table of fresh shards, either the
    table already has the size of the specification, or the resource it
    stores records the scale-down: the shards beyond [Spec.Master], for every
    other shard with too many pods the ordinals to reserve, and a topology
    that lists, shard by shard, exactly the pods OpenKruise keeps with these
    reserved ordinals; every master is among them. *)
Theorem shrink_recorded h (t : list (list Node)) (w : W) h' w' :
  hc_stsNodes h = present t -> Z.of_nat (length t) <= MaxInt ->
  st_Rebalance (kv_Status (hc_instance h)) = false ->
  0 <= int_Master (hc_instance h) <= Z.of_nat (length t) -> 1 <= sp_Replicas (kv_Spec (hc_instance h)) ->
  (forall i l, t !! i = Some l -> Z.of_nat i < int_Master (hc_instance h) -> shard_fresh l) ->
  ensureShrink (h, w) = (Ok tt, (h', w')) ->
  (int_Master (hc_instance h) = Z.of_nat (length t) /\
     Forall (fun l => Z.of_nat (length l) <= sp_Replicas (kv_Spec (hc_instance h))) t) \/
  exists sent w1, UpdateKVRocks sent w1 = (Ok (hc_instance h'), w') /\ kv_Spec sent = kv_Spec (hc_instance h) /\ recorded t sent.
Proof.
  intros Ht Hlen Hreb Hmaster Hrep Hfresh. unfold ensureShrink, bind at 1, geth. cbn [fst snd]. rewrite Hreb.
  set (master := int_Master (hc_instance h)) in *. set (replicas := sp_Replicas (kv_Spec (hc_instance h))) in *.
  assert (Hl : length (hc_stsNodes h) = length t) by (rewrite Ht; apply length_fmap). rewrite Hl.
  assert (Hs : shrink_state h t [] [] h).
  { split; [done|]. rewrite Ht. unfold shrink_table, present. rewrite <- (imap_const full t). apply imap_ext.
    intros i l _. by rewrite !decide_False by apply not_elem_of_nil. }
  unfold bind at 1. destruct (foldM drop_shard _ _ _) as [[idx|e| |] [h1 w1]] eqn:Ed; [|done..].
  apply (drop_loop h t) in Ed as [-> Hs1]; [|apply Forall_forall; intros i Hi; apply elem_of_irange in Hi; lia|done].
  cbn [app] in Hs1. unfold bind at 1. destruct (foldM shrink_shard _ _ _) as [[res|e| |] [h2 w2]] eqn:Es; [|done..].
  apply (shrink_loop h t Hlen _ [] (irange master (Z.of_nat (length t) - 1))) in Es as [[Hi2 Ht2] Hr2]; cbn [app] in *.
  2: intros i Hi; rewrite elem_of_irange in *; lia.
  2: apply sorted_lt_nodup, irange_sorted.
  2: done.
  2: intros i l _; by rewrite decide_False by apply not_elem_of_nil.
  destruct (bool_decide _ && bool_decide _) eqn:Eb.
  - intros _. left. apply andb_true_iff in Eb as [E1%bool_decide_eq_true E2%bool_decide_eq_true].
    assert (Heq : master = Z.of_nat (length t)).
    { destruct (decide (master <= Z.of_nat (length t) - 1)); [|lia].
      assert (Hin : master ∈ irange master (Z.of_nat (length t) - 1)) by (apply elem_of_irange; lia). rewrite E1 in Hin. set_solver. }
    split; [done|]. apply Forall_lookup. intros i l Hi. apply lookup_lt_Some in Hi as Hlt.
    destruct (cut_spec replicas l) as (ids & _ & Hnone & _); [apply (Hfresh i l Hi); lia|done|]. apply Hnone.
    specialize (Hr2 i l Hi). rewrite decide_True in Hr2 by (apply elem_of_irange; fold master; lia).
    rewrite E2, lookup_empty in Hr2. by symmetry.
  - intros Hrun. right. revert Hrun. unfold bind at 1, modh. cbn [fst snd].
    unfold ensureStatusTopoMsg, bind at 1, modh, bind at 1, bind at 1, catch, update_instance, bind, geth, onW. cbn [fst snd].
    destruct (UpdateKVRocks _ _) as [[stored|e| |] w3] eqn:Eu; [|done..]. intros [= <- <-].
    eexists _, w2. split; [exact Eu|].
    cbn [hc_instance hc_stsNodes hc_version hc_set_instance hc_set_stsNodes] in *. rewrite Hi2. split; [done|].
    by apply recorded_intro.
Qed.
End recorded.

(** ** Applying the record *)

Definition set_key (s : StatefulSet) : NamespacedName := NN (ss_Namespace s) (ss_Name s).

(** What the operator relies on in the API server for stateful sets: a store
    by key, in which a successful update puts a set with the replicas and the
    reserved ordinals that were sent, and a deletion concerns its key only. *)
Class SetStore (W : Type) `{Kube W} := {
  sets : W -> gmap NamespacedName StatefulSet;
  sets_keyed : forall w key s, sets w !! key = Some s -> set_key s = key;
  get_set_frame : forall key w, sets (api_get (K := StatefulSet) key w).2 = sets w;
  get_set : forall key w s, (api_get (K := StatefulSet) key w).1 = inl s -> sets w !! key = Some s;
  update_set : forall s w s', (api_update (K := StatefulSet) s w).1 = inl s' ->
    sets (api_update s w).2 = <[set_key s := s']> (sets w) /\
    ss_Replicas s' = ss_Replicas s /\ ss_ReserveOrdinals s' = ss_ReserveOrdinals s;
  delete_set : forall s w key, key <> set_key s -> sets (api_delete (K := StatefulSet) s w).2 !! key = sets w !! key;
  update_cr_frame : forall k w, sets (api_update (K := KVRocks) k w).2 = sets w;
}.

Section clean.
Context {W : Type} `{Env W, GoLib, !SetStore W}.

(** The set of an entry of the reserve message before and after. *)
Definition resized_to (replicas : Z) (r : list Z) (old new : StatefulSet) : Prop :=
  ss_Replicas new = replicas /\ ss_ReserveOrdinals new = ss_ReserveOrdinals old ++ r.

Lemma apply_reserve_spec h kv (w : W) h' w' :
  apply_reserve kv (h, w) = (Ok tt, (h', w')) ->
  let key := NN (kv_Namespace (hc_instance h)) kv.1 in
  h' = h /\ exists old new, sets w !! key = Some old /\ sets w' = <[key := new]> (sets w) /\
    resized_to (sp_Replicas (kv_Spec (hc_instance h))) kv.2 old new.
Proof.
  intros Hrun key. revert Hrun. unfold apply_reserve, bind at 1, geth. cbn [fst snd].
  unfold bind at 1, onW, GetStatefulSet, perform. cbn [fst snd]. fold key.
  pose proof (get_set_frame key w) as Hf. pose proof (get_set key w) as Hg.
  destruct (api_get key w) as [[old|e] w1]; [|done]. cbn [fst snd] in *. specialize (Hg old eq_refl).
  set (s := set_ss_ReserveOrdinals _ _). unfold bind, onW, UpdateStatefulSet, perform. cbn [fst snd].
  pose proof (update_set s w1) as Hu. destruct (api_update s w1) as [[new|e] w2]; [|done]. cbn [fst snd] in *.
  destruct (Hu new eq_refl) as (Hs & Hr & Ho). intros [= <- <-]. split; [done|]. exists old, new. split; [done|].
  rewrite Hs, Hf. split; [f_equal; change (set_key s) with (set_key old); by eapply sets_keyed|]. by split.
Qed.

Lemma apply_reserves_spec h (l : list (string * list Z)) (w : W) h' w' :
  NoDup l.*1 -> forM l apply_reserve (h, w) = (Ok tt, (h', w')) ->
  let key name := NN (kv_Namespace (hc_instance h)) name in
  h' = h /\
  (forall name r, (name, r) ∈ l -> exists old new, sets w !! key name = Some old /\ sets w' !! key name = Some new /\
     resized_to (sp_Replicas (kv_Spec (hc_instance h))) r old new) /\
  (forall k, (forall name, name ∈ l.*1 -> k <> key name) -> sets w' !! k = sets w !! k).
Proof.
  intros Hnd Hrun key. revert w Hnd Hrun. induction l as [|[n r] l IH]; intros w Hnd; cbn [forM].
  - intros [= <- <-]. split; [done|]. split; [|done]. intros ? ? Hin. by apply elem_of_nil in Hin.
  - unfold bind. destruct (apply_reserve (n, r) (h, w)) as [[[]|e| |] [h1 w1]] eqn:E; [|done..].
    apply apply_reserve_spec in E as (-> & old & new & Ho & Hs & Hr). fold (key n) in Ho, Hs.
    rewrite fmap_cons in Hnd. apply NoDup_cons in Hnd as [Hn Hnd]. intros Hrun.
    destruct (IH w1 Hnd Hrun) as (-> & Hin & Hout). split; [done|]. split.
    + intros n' r' Hn'. apply elem_of_cons in Hn' as [[= -> ->]|Hn'].
      * exists old, new. split; [done|]. split; [|done]. rewrite Hout, Hs; [by rewrite lookup_insert_eq|].
        intros n' Hn' [= ->]. done.
      * destruct (Hin n' r' Hn') as (o & nw & Ho' & Hnw & Hrs). exists o, nw. split; [|done]. rewrite <- Ho', Hs, lookup_insert_ne; [done|].
        intros [= ->]. apply Hn. by apply (list_elem_of_fmap_2 fst) in Hn'.
    + intros k Hk. rewrite Hout, Hs; [|intros; apply Hk; set_solver]. rewrite lookup_insert_ne; [done|].
      intros <-. by apply (Hk n ltac:(set_solver)).
Qed.

Lemma delete_sets_spec ns (l : list string) (w w' : W) :
  forM l (fun name => DeleteStatefulSetIfExists (NN ns name)) w = (Ok tt, w') ->
  forall k, (forall name, name ∈ l -> k <> NN ns name) -> sets w' !! k = sets w !! k.
Proof.
  revert w. induction l as [|n l IH]; intros w; cbn [forM]; [by intros [= <-]|].
  intros Hrun k Hk. revert Hrun. unfold bind at 1, DeleteStatefulSetIfExists at 1, GetStatefulSet, bind at 1, catch, perform.
  pose proof (get_set_frame (NN ns n) w) as Hf. pose proof (get_set (NN ns n) w) as Hg.
  destruct (api_get (NN ns n) w) as [[s|e] w1]; cbn [fst snd] in *.
  - pose proof (delete_set s w1 k) as Hd. destruct (api_delete s w1) as [[[]|e] w2]; [|done]. cbn [fst snd] in *.
    intros Hrun. rewrite (IH w2 Hrun) by (intros; apply Hk; set_solver). rewrite Hd, Hf; [done|].
    rewrite (sets_keyed w _ s (Hg s eq_refl)). apply Hk. set_solver.
  - unfold ret. intros Hrun. rewrite (IH w1 Hrun), Hf; [done|]. intros; apply Hk; set_solver.
Qed.

(** C8: when [cleanStatefulSet] succeeds it has carried out the recorded
    scale-down and nothing else: every set of the reserve message has the
    replicas of the specification and the recorded ordinals added to the ones
    it reserved before, sets that are neither in that message nor of a
    dropped shard are untouched, and the record is taken out of the resource,
    whose topology version goes up by one. *)
Theorem clean_applies_record h (w : W) h' w' msg :
  let ns := kv_Namespace (hc_instance h) in
  let dropped := (fun i => GetStatefulSetName (kv_Name (hc_instance h)) (Some i)) <$> sh_Partition msg in
  st_Shrink (kv_Status (hc_instance h)) = Some msg ->
  (forall name, name ∈ dropped -> sh_ReserveMsg msg !! name = None) ->
  cleanStatefulSet (h, w) = (Ok tt, (h', w')) ->
  (forall name r, sh_ReserveMsg msg !! name = Some r ->
     exists old new, sets w !! NN ns name = Some old /\ sets w' !! NN ns name = Some new /\
       resized_to (sp_Replicas (kv_Spec (hc_instance h))) r old new) /\
  (forall key, (forall name, key = NN ns name -> sh_ReserveMsg msg !! name = None /\ name ∉ dropped) ->
     sets w' !! key = sets w !! key) /\
  exists sent w1, UpdateKVRocks sent w1 = (Ok (hc_instance h'), w') /\ st_Shrink (kv_Status sent) = None /\
    st_Version (kv_Status sent) = int64 (st_Version (kv_Status (hc_instance h)) + 1) /\
    st_Topo (kv_Status sent) = st_Topo (kv_Status (hc_instance h)).
Proof.
  intros ns dropped Hmsg Hdisj. unfold cleanStatefulSet, bind at 1, geth. cbn [fst snd]. rewrite Hmsg. unfold bind at 1, deref, ret at 1.
  unfold bind at 1. rewrite forM_onW. unfold onW at 1. cbn [fst snd].
  rewrite <- (forM_fmap (fun i => GetStatefulSetName (kv_Name (hc_instance h)) (Some i)) _ (fun name => DeleteStatefulSetIfExists (NN ns name))).
  fold dropped. destruct (forM dropped _ w) as [[[]|e| |] w1] eqn:Ed; [|done..].
  pose proof (delete_sets_spec ns dropped w w1 Ed) as Hdel.
  unfold bind at 1. destruct (forM (range_map _) apply_reserve (h, w1)) as [[[]|e| |] [h2 w2]] eqn:Er; [|done..].
  pose proof (range_map_perm (sh_ReserveMsg msg)) as Hperm.
  apply apply_reserves_spec in Er as (-> & Hin & Hout); [|rewrite Hperm; apply NoDup_fst_map_to_list]. cbv zeta in Hin, Hout. fold ns in Hin, Hout.
  unfold bind at 1, modh, update_instance, bind at 1, geth, bind, onW. cbn [fst snd]. set (sent := hc_instance (hc_set_instance _ _)).
  unfold UpdateKVRocks, perform. pose proof (update_cr_frame sent w2) as Hf. destruct (api_update sent w2) as [[stored|e] w3] eqn:Eu; [|done].
  cbn [fst snd] in *. intros [= <- <-]. split; [|split].
  - intros name r Hr. assert (Hr' : (name, r) ∈ range_map (sh_ReserveMsg msg)) by (rewrite Hperm; by apply elem_of_map_to_list).
    destruct (Hin name r Hr') as (old & new & Ho & Hn & Hrs). exists old, new. rewrite Hf. split; [|done]. rewrite <- Ho. symmetry. apply Hdel.
    intros n Hnd [= ->]. rewrite (Hdisj n Hnd) in Hr. done.
  - intros key Hkey. rewrite Hf, Hout, Hdel; [done|..].
    + intros n Hn ->. by apply (Hkey n).
    + intros n Hn ->. destruct (Hkey n eq_refl) as [Hno _]. rewrite Hperm in Hn. apply list_elem_of_fmap in Hn as ([n' r] & -> & Hn').
      apply elem_of_map_to_list in Hn'. cbn in Hno. congruence.
  - exists sent, w2. unfold UpdateKVRocks, perform. by rewrite Eu.
Qed.
End clean.

(** ** Witnesses *)

Definition shrink_cr : KVRocks := sample_instance ClusterType "kvrocks-cluster-1-demo" 2 1.

Definition shrink_handler : ClusterHandler :=
  hc_set_stsNodes (fun _ => present [sample_shard])
    (NewKVRocksClusterHandler (NN "default" "kvrocks-cluster-1-demo") shrink_cr NewClient).

Definition shrink_world : World := w_set_kvrocks {[NN "default" "kvrocks-cluster-1-demo" := shrink_cr]} empty_world.

Lemma shrink_recorded_witness : exists sent, @recorded sampleKruise [sample_shard] sent.
Proof.
  set (run := @ensureShrink World worldEnv (shrink_handler, shrink_world)).
  assert (Hok : run.1 = Ok tt) by (vm_compute; reflexivity).
  destruct (@shrink_recorded World worldEnv sampleKruise shrink_handler [sample_shard] shrink_world run.2.1 run.2.2)
    as [[_ Hl]|(sent & w1 & _ & _ & Hrec)]; [reflexivity|vm_compute; discriminate|reflexivity|split; vm_compute; discriminate
    |vm_compute; discriminate| |exact (run_eq _ _ _ Hok)| |exists sent; exact Hrec].
  - intros [|i] l Hl _; [|discriminate Hl]. injection Hl as <-. split; [reflexivity|]. exists (sample_node RoleMaster 1).
    split; [vm_compute; repeat constructor|vm_compute; repeat constructor; discriminate|reflexivity].
  - exfalso. inversion Hl as [|? ? Hlen _]. apply Hlen. reflexivity.
Defined.

(** The API of the concrete world with stateful sets found under their own
    key only. *)
Definition strictSets : ApiKind World StatefulSet :=
  let store := store_kind ss_Meta w_sets w_set_sets in {|
  api_get := fun k w =>
    match w_sets w !! k with
    | Some s => if decide (set_key s = k) then (inl s, w) else (inr ENotFound, w)
    | None => (inr ENotFound, w)
    end;
  api_create := @api_create _ _ store;
  api_update := @api_update _ _ store;
  api_delete := @api_delete _ _ store;
  api_delete_nil := @api_delete_nil _ _ store;
  api_list := @api_list _ _ store;
|}.

Definition strictKube : Kube World := {|
  kube_kvrocks := @kube_kvrocks _ worldKube; kube_configmap := @kube_configmap _ worldKube;
  kube_service := @kube_service _ worldKube; kube_deployment := @kube_deployment _ worldKube;
  kube_statefulset := strictSets; kube_native_statefulset := @kube_native_statefulset _ worldKube;
  kube_pod := @kube_pod _ worldKube; kube_pvc := @kube_pvc _ worldKube;
|}.

Definition strictEnv : Env World := {|
  env_kube := strictKube; env_redis := worldRedis; env_http := worldHttp; env_clock := worldClock; env_sink := worldSink
|}.

Definition keyed_sets (w : World) : gmap NamespacedName StatefulSet :=
  filter (fun ks => set_key ks.2 = ks.1) (w_sets w).

#[export] Instance strictStore : @SetStore World strictKube.
Proof.
  refine {| sets := keyed_sets |}; unfold keyed_sets.
  - intros w key s. by intros [_ ?]%map_lookup_filter_Some.
  - intros key w. cbn. destruct (_ !! key) as [s|]; [|done]. by case_decide.
  - intros key w s. cbn. destruct (_ !! key) as [s'|] eqn:E; [|done]. case_decide; [|done]. intros [= <-].
    by apply map_lookup_filter_Some.
  - intros s w s'. cbn. change (key_of ss_Meta s) with (set_key s). destruct (_ !! set_key s); [|done]. intros [= <-].
    split; [|done]. cbn. by rewrite map_filter_insert_True.
  - intros s w key Hne. cbn. change (key_of ss_Meta s) with (set_key s). destruct (_ !! set_key s); [|done]. cbn.
    by rewrite map_filter_delete, lookup_delete_ne.
  - intros k w. cbn. by destruct (_ !! _).
Defined.

Definition demo_set_0 : StatefulSet := set_ss_ReserveOrdinals [5] (@NewStatefulSet sampleLib shrink_cr "kvrocks-cluster-1-demo-0").

Definition clean_cr : KVRocks :=
  set_kv_Status (set_st_Shrink (Some {| sh_Partition := [1]; sh_ReserveMsg := {["kvrocks-cluster-1-demo-0" := [0]]} |})) shrink_cr.

Definition clean_handler : ClusterHandler :=
  NewKVRocksClusterHandler (NN "default" "kvrocks-cluster-1-demo") clean_cr NewClient.

Definition clean_world : World :=
  w_set_sets {[NN "default" "kvrocks-cluster-1-demo-0" := demo_set_0]} shrink_world.

Lemma clean_applies_record_witness :
  let run := @cleanStatefulSet World strictEnv sampleLib (clean_handler, clean_world) in
  exists new, keyed_sets run.2.2 !! NN "default" "kvrocks-cluster-1-demo-0" = Some new /\ ss_ReserveOrdinals new = [5; 0].
Proof.
  intros run. assert (Hok : run.1 = Ok tt) by (vm_compute; reflexivity).
  destruct (@clean_applies_record World strictEnv sampleLib strictStore clean_handler clean_world run.2.1 run.2.2
    {| sh_Partition := [1]; sh_ReserveMsg := {["kvrocks-cluster-1-demo-0" := [0]]} |}) as (Hin & _ & _);
    [reflexivity| |exact (run_eq _ _ _ Hok)|].
  - intros name Hn. apply list_elem_of_singleton in Hn as ->. reflexivity.
  - destruct (Hin "kvrocks-cluster-1-demo-0" [0]) as (old & new & Ho & Hn & _ & Hr); [reflexivity|].
    exists new. split; [exact Hn|]. vm_compute in Ho. injection Ho as <-. exact Hr.
Defined.
