(* ===== verification/ClusterHandle.v ===== *)
(** * A reconciliation of a cluster that completes

    The stages of [Handle] put together: what holds of the node table, the
    controller and the stored resource when no stage failed or asked for a
    requeue. *)

From S2P Require Import Prelude GoStd Types Slots Resources Scale Env K8sClient KvClient ControllerClient Common SentinelNotify Cluster World.
From S2P Require Import ClusterProps ClusterRoles ClusterReady ClusterFailover.
Local Open Scope Z_scope.
Local Open Scope go_scope.

(** Address and ordinal: what identifies the pod of a node. *)
Definition pod_of (n : Node) : string * Z := (n_IP n, n_PodIndex n).
Definition pods_of (t : list (list Node)) : list (list (string * Z)) := (fun l : list Node => pod_of <$> l) <$> t.

Lemma pods_of_lookup t t' :
  length t' = length t ->
  (forall i l l', t !! i = Some l -> t' !! i = Some l' -> pod_of <$> l' = pod_of <$> l) -> pods_of t' = pods_of t.
Proof.
  intros Hlen Hl. apply list_eq. intros i. unfold pods_of. rewrite !list_lookup_fmap.
  destruct (t !! i) as [l|] eqn:El, (t' !! i) as [l'|] eqn:El'; cbn; [f_equal; by apply Hl with i|..|done].
  - apply lookup_lt_Some in El. apply lookup_ge_None in El'. lia.
  - apply lookup_lt_Some in El'. apply lookup_ge_None in El. lia.
Qed.

Section handle.
Context {W : Type} `{Env W, GoLib}.
#[local] Abbreviation C := (M (ClusterHandler * W)).

(** ** Shards without a pod *)

(** The table entry of shard [k] is a nil slice. *)
Definition nil_shard (k : nat) (s : ClusterHandler * W) : Prop := hc_stsNodes s.1 !! k = Some (None : slice (option Node)).

Lemma nil_shard_mod k i j f : keeps (nil_shard k) (mod_node i j f).
Proof.
  unfold mod_node, get_node. apply keeps_bind; [auto with keeps|intros _]. apply keeps_modh. intros h w Hk.
  unfold nil_shard in *. cbn in *. unfold alter_node. destruct (decide (i = k)) as [->|Hne].
  - rewrite list_lookup_alter_eq, Hk. done.
  - by rewrite list_lookup_alter_ne.
Qed.

Lemma nil_shard_get k j h (w : W) : nil_shard k (h, w) -> get_node k j (h, w) = (Panic, (h, w)).
Proof.
  unfold nil_shard. cbn. intros Hk. unfold get_node, bind, geth, lookup_node. cbn. by rewrite Hk.
Qed.

Lemma loop_stuck {S A} (P : S -> Prop) (f : A -> M S unit) (l : list A) a s :
  a ∈ l -> (forall b, keeps P (f b)) -> (forall s, P s -> (f a s).1 <> Ok tt) -> P s -> (forM l f s).1 <> Ok tt.
Proof.
  intros Ha Hk Hst. revert s. induction l as [|b l IH]; intros s Hs; [by apply elem_of_nil in Ha|].
  cbn [forM]. unfold bind. specialize (Hk b s Hs) as Hs'. specialize (Hst s Hs) as Hb.
  destruct (f b s) as [[[]|e| |] s1] eqn:Eb; [|done..]. cbn in Hs'. apply elem_of_cons in Ha as [->|Ha]; [|by apply IH].
  rewrite Eb in Hb. by destruct Hb.
Qed.

(** A loop over the shards that needs a node in each does not return. *)
Lemma shards_stuck (body : nat -> list (option Node) -> C unit) k h (w : W) h' w' :
  (forall i sts, keeps (nil_shard k) (body i sts)) ->
  (forall s, nil_shard k s -> (body k [] s).1 <> Ok tt) ->
  nil_shard k (h, w) -> for_shards body (h, w) <> (Ok tt, (h', w')).
Proof.
  intros Hk Hst Hnil Hrun. unfold for_shards, bind at 1, geth at 1 in Hrun. cbn [fst snd] in Hrun.
  eapply (loop_stuck (nil_shard k) _ _ k); [| | |exact Hnil|by rewrite Hrun].
  - apply elem_of_seq. pose proof (lookup_lt_Some _ _ _ Hnil) as Hlt. cbn in Hlt. lia.
  - intros i. apply keeps_bind; [apply keeps_geth|intros h1]. apply keeps_bind; [apply keeps_deref|intros sts]. apply Hk.
  - intros [h1 w1] Hn. unfold at_shard, bind, geth. cbn [fst snd]. unfold nil_shard in Hn. cbn in Hn. rewrite Hn. by apply Hst.
Qed.

Lemma nil_shard_label k i j : keeps (nil_shard k) (label_node (W := W) i j).
Proof. intros [h w] Hk. destruct (label_node i j (h, w)) as [o [h' w']] eqn:E. apply label_node_frame in E as ->. done. Qed.

Definition role_stage : C unit := let! h := geth in if is_creating h then initCluster else ensureReplication.

Lemma role_stage_stuck k h (w : W) h' w' : nil_shard k (h, w) -> role_stage (h, w) <> (Ok tt, (h', w')).
Proof.
  intros Hn. unfold role_stage, bind at 1, geth at 1. cbn [fst snd]. destruct (is_creating h).
  - unfold initCluster, bind. destruct (for_shards _ (h, w)) as [[[]|e| |] [h1 w1]] eqn:E; [|done..].
    exfalso. revert E. apply (shards_stuck _ k); [intros; apply nil_shard_mod| |done].
    intros [h2 w2] Hs. unfold mod_node, bind. by rewrite nil_shard_get.
  - apply (shards_stuck _ k); [| |done].
    + intros i sts. apply keeps_bind; [apply keeps_lift|intros found]. apply keeps_bind.
      { destruct (String.eqb _ _); [|apply keeps_ret]. apply keeps_bind; [apply nil_shard_mod|intros _].
        apply keeps_bind; [unfold get_node; auto with keeps|intros; apply keeps_ret]. }
      intros id. apply keeps_forM. intros j _. apply keeps_bind; [apply nil_shard_mod|intros _; apply nil_shard_label].
    + intros [h2 w2] Hs. unfold bind at 1, lift. cbn [find_master]. unfold bind at 1.
      change (String.eqb EmptyString EmptyString) with true. cbn iota. unfold bind at 1, mod_node, bind at 1.
      by rewrite nil_shard_get.
Qed.

(** A listed table on which the roles could be set is a table of live nodes. *)
Lemma role_stage_present h (w : W) h' w' :
  Forall shard_listed (hc_stsNodes h) -> role_stage (h, w) = (Ok tt, (h', w')) ->
  exists t, hc_stsNodes h = present t.
Proof.
  intros Hl Hrun. assert (Hs : Forall (fun sts => exists l, sts = full l) (hc_stsNodes h)).
  { apply Forall_lookup. intros k [sts|] Hk.
    - rewrite Forall_lookup in Hl. destruct (Hl k _ Hk) as (l & Hl' & _). exists l. cbn in Hl'. by rewrite Hl'.
    - exfalso. eapply (role_stage_stuck k); [exact Hk|exact Hrun]. }
  clear -Hs. induction Hs as [|sts t [l ->] _ [t' ->]]; [by exists []|]. by exists (l :: t').
Qed.

Lemma role_stage_pods h (w : W) h' w' t :
  hc_stsNodes h = present t -> role_stage (h, w) = (Ok tt, (h', w')) ->
  exists t', h' = with_table (present t') h /\ length t' = length t /\ pods_of t' = pods_of t /\ Forall (fun l => l <> []) t.
Proof.
  intros Ht. unfold role_stage, bind at 1, geth at 1. cbn [fst snd]. destruct (is_creating h); intros Hrun.
  - destruct (init_roles_shape h w h' w' t Ht Hrun) as [-> Hne]. exists (map initial_roles t).
    split; [done|]. split; [apply length_map|]. split; [|done]. apply pods_of_lookup; [apply length_map|].
    intros i l l' Hl Hl'. rewrite list_lookup_fmap, Hl in Hl'. injection Hl' as <-.
    unfold initial_roles. apply list_eq. intros j. rewrite !list_lookup_fmap, list_lookup_imap. by destruct (l !! j).
  - destruct (for_shards_spec _ _ t h w h' w' (ensureReplication_shard _) Ht Hrun) as (t' & Hlen & HR & ->).
    exists t'. split; [done|]. split; [done|]. split.
    2: { apply Forall_lookup. intros i l Hl. destruct (lookup_lt_is_Some_2 t' i) as [l' Hl'].
         - rewrite Hlen. by eapply lookup_lt_Some.
         - by destruct (HR i l l' Hl Hl'). }
    apply pods_of_lookup; [done|]. intros i l l' Hl Hl'. destruct (HR i l l' Hl Hl') as [_ ->]. pose proof (replicated_frame l) as Hf.
    apply (f_equal (fmap fst)) in Hf. unfold node_key in Hf. rewrite <- !list_fmap_compose in Hf. exact Hf.
Qed.

(** ** The controller and the stored resource *)

Definition same_handler (h : ClusterHandler) (s : ClusterHandler * W) : Prop := s.1 = h.

Lemma same_onW {A} h (m : M W A) : keeps (same_handler h) (onW m).
Proof. apply (keeps_onW_fields (fun x => x = h)). Qed.

Lemma same_for_shards h (body : nat -> list (option Node) -> C unit) :
  (forall i sts, keeps (same_handler h) (body i sts)) -> keeps (same_handler h) (for_shards body).
Proof.
  intros Hb. unfold for_shards. apply keeps_bind; [apply keeps_geth|intros h0]. apply keeps_forM. intros i _.
  apply keeps_bind; [apply keeps_geth|intros h1]. apply keeps_bind; [apply keeps_deref|intros sts]. apply Hb.
Qed.

Lemma updateCluster_same h : keeps (same_handler h) updateCluster.
Proof.
  unfold updateCluster, remove_stale, add_missing, get_node, for_nodes.
  repeat first [apply keeps_bind; [|intros ?] | apply same_for_shards; intros ? ? | apply same_onW | apply keeps_geth
    | apply keeps_deref | apply keeps_lift | apply keeps_ret | apply keeps_when; intros _ | apply keeps_forM; intros ? _ | case_match].
Qed.

Lemma keeps_same {A} (m : C A) h (w : W) o h' w' :
  keeps (same_handler h) m -> m (h, w) = (o, (h', w')) -> h' = h.
Proof. intros Hm Hrun. specialize (Hm (h, w) eq_refl). by rewrite Hrun in Hm. Qed.

(** Every shard of the table agrees with what the controller answered. *)
Definition controller_agrees (c : Controller) (t : list (list Node)) : Prop :=
  forall i l, t !! i = Some l ->
    exists d, answered (W := W) c i d /\ shard_masterID d <> EmptyString /\ Forall (agrees d) l.

Lemma update_instance_ok h (w : W) h' w' :
  update_instance (h, w) = (Ok tt, (h', w')) ->
  exists stored, UpdateKVRocks (hc_instance h) w = (Ok stored, w') /\ h' = hc_set_instance (fun _ => stored) h.
Proof.
  unfold update_instance, bind, geth, onW, modh. cbn [fst snd].
  destruct (UpdateKVRocks _ w) as [[k|e| |] w1]; [|done..]. intros [= <- <-]. eauto.
Qed.

Definition running (k : KVRocks) : KVRocks := set_kv_Status (set_st_Status StatusRunning) k.

Lemma ensureCluster_ok h (w : W) b h' w' t :
  hc_stsNodes h = present t -> ensureCluster (h, w) = (Ok (b, None), (h', w')) ->
  b = false /\ exists t' stored w0,
    length t' = length t /\ pods_of t' = pods_of t /\ controller_agrees (hc_controller h) t' /\
    UpdateKVRocks (running (hc_instance h)) w0 = (Ok stored, w') /\
    h' = hc_set_instance (fun _ => stored) (with_table (present t') h).
Proof.
  intros Ht. unfold ensureCluster, bind at 1, geth at 1. cbn [fst snd]. unfold bind at 1, lift.
  destruct (table_addrs _) as [nodes|e| |]; [|done..]. unfold bind at 1, catch at 1.
  set (m := if is_creating h then _ else _). destruct (m (h, w)) as [[[]|e| |] [h1 w1]] eqn:Em; [|done..].
  assert (h1 = h) as ->.
  { eapply keeps_same; [|exact Em]. unfold m. destruct (is_creating h); [apply same_onW|apply updateCluster_same]. }
  unfold bind at 1, catch at 1. destruct (ensureSetNodeID (h, w1)) as [[[]|e| |] [h2 w2]] eqn:Es; [|done..].
  destruct (node_ids_adopted h w1 h2 w2 t Ht Es) as (t' & -> & Hlen & HR).
  unfold bind at 1, modh at 1. cbn [fst snd]. unfold bind at 1, catch at 1.
  set (h3 := hc_set_instance _ _). destruct (update_instance (h3, w2)) as [[[]|e| |] [h4 w4]] eqn:Eu; [|done..].
  intros [= <- <- <-]. apply update_instance_ok in Eu as (stored & Hu & ->). split; [done|]. exists t', stored, w2.
  split; [done|]. split; [|split; [|split; [exact Hu|done]]].
  - apply pods_of_lookup; [done|]. intros i l l' Hl Hl'. by destruct (HR i l l' Hl Hl') as (d & _ & _ & _ & ?).
  - intros i l' Hl'. destruct (lookup_lt_is_Some_2 t i) as [l Hl]; [rewrite <- Hlen; by eapply lookup_lt_Some|].
    destruct (HR i l l' Hl Hl') as (d & ? & ? & ? & _). eauto.
Qed.

(** The resource [ensureStatusTopoMsg] sends. *)
Definition with_topology (h : ClusterHandler) : KVRocks :=
  set_kv_Status (fun st => set_st_Version (hc_version h)
    (set_st_Topo (sappend None (topo_shards (kv_Name (hc_instance h)) 0 (hc_stsNodes h))) st)) (hc_instance h).

Lemma ensureStatusTopoMsg_ok h (w : W) h' w' :
  ensureStatusTopoMsg (h, w) = (Ok tt, (h', w')) ->
  UpdateKVRocks (with_topology h) w = (Ok (hc_instance h'), w') /\
  hc_stsNodes h' = sort_table (hc_stsNodes h) /\ hc_requeue h' = hc_requeue h.
Proof.
  unfold ensureStatusTopoMsg, bind at 1, modh at 1. cbn [fst snd]. unfold bind at 1, modh at 1. cbn [fst snd].
  unfold bind at 1, catch at 1. set (h1 := hc_set_stsNodes _ _).
  destruct (update_instance (h1, w)) as [[[]|e| |] [h2 w2]] eqn:Eu; [|done..].
  intros [= <- <-]. apply update_instance_ok in Eu as (stored & Hu & ->). done.
Qed.

Lemma ensureKVRocksConfig_ok h (w : W) h' w' :
  ensureKVRocksConfig (h, w) = (Ok tt, (h', w')) -> h' = hc_set_password (sp_Password (kv_Spec (hc_instance h))) h.
Proof.
  unfold ensureKVRocksConfig, bind at 1, geth at 1. cbn [fst snd]. unfold bind at 1.
  destruct (for_shards _ (h, w)) as [[[]|e| |] [h1 w1]] eqn:E; [|done..].
  apply keeps_same in E as ->; [|apply same_for_shards; intros; apply same_onW].
  unfold bind at 1, modh. cbn [fst snd]. intros Hw. by apply onW_frame in Hw.
Qed.

Lemma ensureVersion_ok h (w : W) h' w' :
  ensureVersion (h, w) = (Ok tt, (h', w')) -> w' = w /\ exists v, h' = hc_set_version v h.
Proof.
  unfold ensureVersion, bind at 1, geth at 1. cbn [fst snd]. unfold bind, lift.
  destruct (version_changes _ _) as [[|]|e| |]; [| |done..]; cbn [when]; unfold bump_version, modh, ret; cbn [fst snd];
    intros [= <- <-]; (split; [done|]); [eauto|]. exists (hc_version h). by destruct h.
Qed.

(** What [ensureKVRocksStatus] leaves behind: [t] the table it found, [t']
    the one it left. *)
Record status_settled (h : ClusterHandler) (h' : ClusterHandler) (w' : W) (t t' : list (list Node)) : Prop := {
  ss_found : hc_stsNodes h = present t;
  ss_nonempty : Forall (fun l => l <> []) t;
  ss_pods : pods_of t' = pods_of t;
  ss_agrees : controller_agrees (hc_controller h) t';
  ss_table : hc_stsNodes h' = sort_table (present t');
  ss_running : exists stored w0 w1, UpdateKVRocks (running (hc_instance h)) w0 = (Ok stored, w1);
  ss_stored : exists k w0, UpdateKVRocks k w0 = (Ok (hc_instance h'), w') /\
    st_Topo (kv_Status k) = sappend None (topo_shards (kv_Name k) 0 (present t'));
}.

Lemma ensureKVRocksStatus_ok h (w : W) h' w' :
  Forall shard_listed (hc_stsNodes h) -> ensureKVRocksStatus (h, w) = (Ok tt, (h', w')) ->
  exists t t', status_settled h h' w' t t'.
Proof.
  intros Hl. unfold ensureKVRocksStatus, bind at 1.
  destruct (ensureKVRocksConfig (h, w)) as [[[]|e| |] [h1 w1]] eqn:E1; [|done..]. apply ensureKVRocksConfig_ok in E1 as ->.
  set (h1 := hc_set_password _ h). unfold bind at 1, geth at 1. cbn [fst snd]. unfold bind at 1.
  destruct ((if is_creating h1 then initCluster else ensureReplication) (h1, w1)) as [[[]|e| |] [h2 w2]] eqn:E2; [|done..].
  change (role_stage (h1, w1) = (Ok tt, (h2, w2))) in E2.
  destruct (role_stage_present h1 w1 h2 w2 Hl E2) as [t Ht].
  destruct (role_stage_pods h1 w1 h2 w2 t Ht E2) as (t2 & -> & Hlen & Hpods & Hne). unfold bind at 1.
  destruct (ensureCluster _) as [[[b [e|]]|e| |] [h3 w3]] eqn:E3; try done.
  apply (ensureCluster_ok _ _ _ _ _ t2) in E3 as (-> & t' & stored & w0 & Hlen' & Hpods' & Hag & Hrun & ->); [|done].
  unfold bind at 1, requeue at 1, modh at 1. cbn [fst snd]. unfold bind at 1.
  destruct (ensureVersion _) as [[[]|e| |] [h4 w4]] eqn:E4; [|done..]. apply ensureVersion_ok in E4 as [-> [v ->]].
  unfold bind at 1. set (h4 := hc_set_version v _).
  destruct (ensureStatusTopoMsg (h4, w3)) as [[[]|e| |] [h5 w5]] eqn:E5; [|done..].
  apply ensureStatusTopoMsg_ok in E5 as (Hu & Htab & _). unfold modh. cbn [fst snd]. intros [= <- <-].
  exists t, t'. split; [done|done|congruence|done|exact Htab|by eauto|]. exists (with_topology h4), w3. split; [exact Hu|done].
Qed.

(** ** The stages of [Handle] *)

Lemma stage_ok {Hd} (rq : Hd -> bool) (m : M (Hd * W) unit) k h (w : W) s :
  stage rq m k (h, w) = (Ok (None, true), s) ->
  exists h1 w1, m (h, w) = (Ok tt, (h1, w1)) /\ rq h1 = false /\ k (h1, w1) = (Ok (None, true), s).
Proof.
  unfold stage, bind at 1, catch. destruct (m (h, w)) as [[[]|e| |] [h1 w1]]; [|done..].
  unfold bind, geth. cbn [fst snd]. destruct (rq h1) eqn:E; [done|]. eauto.
Qed.

(** The stages after the status has been written. *)
Definition remaining_stages : C (option goerr * bool) :=
  stage Requeue ensureMigrate (stage Requeue ensureShrink (stage Requeue ensureSentinel
    (stage Requeue cleanPersistentVolumeClaim (ret (None, true))))).

Lemma handle_stages h0 (w0 : W) s :
  Handle (h0, w0) = (Ok (None, true), s) ->
  exists h w h1 w1 h2 w2 h3 w3,
    ensureKubernetes (h, w) = (Ok tt, (h1, w1)) /\ hc_requeue h1 = false /\
    ensureFailover (h1, w1) = (Ok tt, (h2, w2)) /\ hc_requeue h2 = false /\
    ensureKVRocksStatus (h2, w2) = (Ok tt, (h3, w3)) /\ remaining_stages (h3, w3) = (Ok (None, true), s).
Proof.
  unfold Handle. intros Hrun. apply stage_ok in Hrun as (ha & wa & _ & _ & Hrun).
  unfold bind, geth in Hrun. cbn [fst snd] in Hrun.
  assert (Hk : exists hb wb, stage Requeue ensureKubernetes (stage Requeue ensureFailover
    (stage Requeue ensureKVRocksStatus remaining_stages)) (hb, wb) = (Ok (None, true), s)).
  { destruct (bool_decide _); [by exists ha, wa|]. apply stage_ok in Hrun as (hb & wb & _ & _ & Hrun). eauto. }
  destruct Hk as (h & w & Hk). apply stage_ok in Hk as (h1 & w1 & H1 & Hq1 & Hk).
  apply stage_ok in Hk as (h2 & w2 & H2 & Hq2 & Hk). apply stage_ok in Hk as (h3 & w3 & H3 & _ & Hk).
  by exists h, w, h1, w1, h2, w2, h3, w3.
Qed.

Definition alive (h : ClusterHandler) (n : Node) : Prop :=
  n_Failover n = false /\ exists w w', Ping (W := W) (n_IP n) (hc_password h) w = (Ok true, w').

(** C3: a reconciliation of a cluster that completes ([Handle] returns
    without an error and no stage asks for a requeue) has, on its way to the
    remaining stages: listed at least [Spec.Master] shards, each with a pod,
    in the order of their ordinals; found every node free of a pending
    failover and answering a ping; taken id, role, slots and master of every
    node from what the controller answered for its shard, each shard with a
    master; stored the instance as running, and then with the topology of
    exactly these nodes. *)
Theorem completed_cluster h0 (w0 : W) s :
  Handle (h0, w0) = (Ok (None, true), s) ->
  exists h w h' w' t t',
    Forall (fun l => l <> [] /\ StronglySorted Z.le (n_PodIndex <$> l)) t /\
    int_Master (hc_instance h) <= Z.of_nat (length t) /\
    Forall (Forall (alive h)) t /\
    ensureKVRocksStatus (h, w) = (Ok tt, (h', w')) /\ status_settled h h' w' t t' /\
    remaining_stages (h', w') = (Ok (None, true), s).
Proof.
  intros Hrun. apply handle_stages in Hrun as (h & w & h1 & w1 & h2 & w2 & h3 & w3 & H1 & Hq1 & H2 & Hq2 & H3 & Hrest).
  destruct (table_ready h w h1 w1 H1 Hq1) as (Hl & Hm & Hi).
  destruct (quiet_failover h1 w1 h2 w2 H2 Hq2) as (-> & _ & Hhealthy).
  destruct (ensureKVRocksStatus_ok h1 w2 h3 w3 Hl H3) as (t & t' & Hs).
  exists h1, w2, h3, w3, t, t'. pose proof (ss_found _ _ _ _ _ Hs) as Ht. rewrite Ht in Hl, Hm. unfold present in Hl, Hm.
  rewrite length_fmap in Hm. rewrite Forall_fmap in Hl. split; [|split; [by rewrite Hi|split; [|done]]].
  - apply Forall_lookup. intros i l Hil. rewrite Forall_lookup in Hl. destruct (Hl i l Hil) as (l0 & E & Hsort).
    change (Some <$> l = Some <$> l0) in E. apply (inj (fmap Some)) in E as <-. split; [|done].
    by apply (Forall_lookup_1 _ _ _ _ (ss_nonempty _ _ _ _ _ Hs) Hil).
  - apply Forall_lookup. intros i l Hil. apply Forall_lookup. intros j n Hj.
    destruct (Hhealthy i j (full l)) as (n' & wa & wb & Hn & Hf & _ & Hp).
    + rewrite Ht. unfold present. by rewrite list_lookup_fmap, Hil.
    + cbn. rewrite length_fmap. by eapply lookup_lt_Some.
    + unfold lookup_node in Hn. rewrite Ht in Hn. unfold present in Hn. rewrite list_lookup_fmap, Hil in Hn. cbn in Hn.
      rewrite list_lookup_fmap, Hj in Hn. cbn in Hn. injection Hn as <-. split; [done|eauto].
Qed.
End handle.

(** ** Witness: a ready cluster of three shards *)

(** The member list the controller answers with for every shard. *)
Definition live_reply : json :=
  JObj [("data", JObj [("shard", JObj [
    ("nodes", JArr [JObj [("id", JStr "a"); ("addr", JStr "10.0.0.0:6379"); ("role", JStr "master")];
                    JObj [("id", JStr "b"); ("addr", JStr "10.0.0.1:6379"); ("role", JStr "slave")]]);
    ("slot_ranges", JArr [JStr "0-2"])])])].

Definition live_controller : Controller :=
  {| ct_EndPoint := "http://10.96.0.1:9379/api/v1"; ct_Namespace := ct_Namespace NewClient; ct_ClusterName := ct_ClusterName NewClient |}.

Definition live_http (rq : http_request) : http_response :=
  match rq_Method rq with
  | GET => {| rs_StatusCode := if String.eqb (rq_URL rq) (shards_url live_controller) then 404 else 200; rs_Body := Some live_reply |}
  | POST => {| rs_StatusCode := 201; rs_Body := None |}
  | DELETE => {| rs_StatusCode := 200; rs_Body := None |}
  end.

Definition ready_etcd : NativeStatefulSet :=
  let s := @NewEtcdStatefulSet sampleLib ready_cr in
  {| ns_Meta := ns_Meta s; ns_Replicas := ns_Replicas s; ns_MatchLabels := ns_MatchLabels s; ns_ServiceName := ns_ServiceName s;
     ns_Template := ns_Template s; ns_ReadyReplicas := 1 |}.
Definition ready_controller : Deployment :=
  let d := @NewKVRocksControllerDeployment sampleLib ready_cr in
  {| d_Meta := d_Meta d; d_Replicas := d_Replicas d; d_MatchLabels := d_MatchLabels d; d_Template := d_Template d; d_ReadyReplicas := 1 |}.
Definition ready_service : Service :=
  let v := @NewKVRocksControllerService sampleLib ready_cr in
  {| sv_Meta := sv_Meta v; sv_Type := sv_Type v; sv_Ports := sv_Ports v; sv_Selector := sv_Selector v; sv_ClusterIP := "10.96.0.1" |}.

Definition live_world : World :=
  w_set_http live_http
    (w_set_native {[key_of ns_Meta ready_etcd := ready_etcd]}
      (w_set_deployments {[key_of d_Meta ready_controller := ready_controller]}
        (w_set_services {[key_of sv_Meta ready_service := ready_service]}
          (w_set_roles (list_to_map ((fun p => (kvrocks_addr (pod_PodIP p), RoleMaster)) <$> ready_pods)) ready_world)))).

Lemma run_pair {S A} (m : M S A) s o : (m s).1 = o -> m s = (o, (m s).2).
Proof. intros <-. by destruct (m s). Qed.

Lemma completed_cluster_witness :
  let run := @Handle World worldEnv sampleLib (ready_handler, live_world) in
  exists h w h' w' t t',
    @ensureKVRocksStatus World worldEnv sampleLib (h, w) = (Ok tt, (h', w')) /\ pods_of t' = pods_of t /\
    @controller_agrees World worldEnv (hc_controller h) t' /\
    @remaining_stages World worldEnv sampleLib (h', w') = (Ok (None, true), run.2).
Proof.
  intros run. assert (Hok : run.1 = Ok (None, true)) by (vm_compute; reflexivity).
  destruct (@completed_cluster World worldEnv sampleLib ready_handler live_world run.2)
    as (h & w & h' & w' & t & t' & _ & _ & _ & Hs & Hset & Hr); [exact (run_pair _ _ _ Hok)|].
  exists h, w, h', w', t, t'. split; [exact Hs|]. split; [exact (ss_pods _ _ _ _ _ Hset)|].
  split; [exact (ss_agrees _ _ _ _ _ Hset)|exact Hr].
Defined.
