(* ===== verification/StandardProps.v ===== *)
(** * Properties of the standard handler and of the shared commands *)

From S2P Require Import Prelude GoStd Types Resources Scale Env K8sClient KvClient Common SentinelNotify Standard World.
Local Open Scope Z_scope.
Local Open Scope go_scope.

(** ** Scaling down *)

Section scale.
Context `{Kruise, GoLib}.

Lemma resized_spec instance nodes delta res reserve mid :
  sp_Resources (kv_Spec instance) = Some res ->
  reserve_scan (reverse (Some <$> nodes)) delta [] 0 = Ok (reserve, mid) ->
  exists sts, resized instance nodes delta = Ok sts /\ ss_Replicas sts = sp_Replicas (kv_Spec instance) /\
    ss_ReserveOrdinals sts = take_reserved (reverse reserve) mid.
Proof.
  intros Hres Hscan. unfold resized, NewReplicationStatefulSet, NewInstanceContainer, newKVRocksContainer.
  rewrite Hres, Hscan. cbn [omap_ok]. eexists. split; [reflexivity|]. done.
Qed.

(** The reference: the pods to remove are the last [delta] nodes that are no
    master, and of their ordinals those below the master are reserved. *)
Definition removed_reference (delta : nat) (nodes : list Node) : list Node :=
  drop (length (filter nonmaster nodes) - delta) (filter nonmaster nodes).
Definition reserved_reference (delta : nat) (nodes : list Node) (m : Node) : list Z :=
  filter (fun id => id < n_PodIndex m) (n_PodIndex <$> removed_reference delta nodes).

Lemma removed_segment (low top : list Node) delta :
  length (filter nonmaster top) = delta -> removed_reference delta (low ++ top) = filter nonmaster top.
Proof.
  intros <-. unfold removed_reference. rewrite filter_app, length_app, Nat.add_sub. apply drop_app_length.
Qed.

Lemma clear_reserved_total ids mid nodes acc :
  Forall (fun id => 0 <= id < Z.of_nat (length nodes)) ids ->
  exists nodes', clear_reserved ids mid nodes acc = Ok (nodes', acc ++ filter (fun id => id <= mid) ids).
Proof. intros Hids. rewrite clear_reserved_spec by done. eauto. Qed.

(** C20: the three copies of the scale-down loops choose the same ordinals, and
    they are the reference's: on a table in the order of its pods with one
    master, [getReserveIndex] of the cluster handler (when it does not index
    the table out of range), [resizeStatefulSet] of the standard handler and
    [ResizeStatefulSet] of the shared commands reserve, of the last [delta]
    pods that are no master, those below the master; the last two send the
    same set. *)
Theorem scale_down_copies_agree {W} `{Env W} instance pw nodes m res (w : W) :
  let replicas := sp_Replicas (kv_Spec instance) in
  let delta := Z.of_nat (length nodes) - replicas in
  sp_Resources (kv_Spec instance) = Some res -> shard_ok nodes m -> 1 <= replicas < Z.of_nat (length nodes) ->
  (forall n, n ∈ nodes -> n_PodIndex n < Z.of_nat (length nodes)) ->
  exists sts cleared,
    resized instance nodes delta = Ok sts /\
    ss_ReserveOrdinals sts = reserved_reference (Z.to_nat delta) nodes m /\
    getReserveIndex replicas (Some <$> nodes) = Ok (Some (reserved_reference (Z.to_nat delta) nodes m), cleared) /\
    ResizeStatefulSet (NewCommandHandler instance pw) (Some <$> nodes) None w =
      (let! r := catch (CreateOrUpdateStatefulSet sts) in
       ret (true, match r with inl _ => None | inr e => Some e end, cleared)) w.
Proof.
  intros replicas delta Hres Hok Hrep Hpos.
  destruct (choose_spec nodes m delta) as (low & top & mid & E & Hlen & Hscan & Hmid); [done|unfold delta; lia|].
  destruct (resized_spec instance nodes _ res _ _ Hres Hscan) as (sts & Hsts & Hr & Ho).
  assert (Hsort : StronglySorted Z.lt (n_PodIndex <$> filter nonmaster top)).
  { rewrite E in Hok. apply sorted_fmap_filter. by destruct (pods_sorted low top m Hok) as (_ & ? & _). }
  assert (Href : filter (fun id => id <= mid) (n_PodIndex <$> filter nonmaster top) = reserved_reference (Z.to_nat delta) nodes m).
  { unfold reserved_reference. rewrite E, removed_segment by lia. apply list_filter_ext. intros id Hid. by apply Hmid. }
  rewrite reverse_involutive, take_reserved_filter, Href in Ho by done.
  destruct (clear_reserved_total (n_PodIndex <$> filter nonmaster top) mid (Some <$> nodes) []) as [cleared Hc].
  { rewrite Forall_forall, length_fmap. intros x (n & -> & _ & Hn)%elem_of_pods. destruct Hok as [_ Hnn _].
    rewrite Forall_forall in Hnn. assert (n ∈ nodes) by (rewrite E; apply elem_of_app; by right).
    split; [by apply Hnn, list_elem_of_fmap_2|by apply Hpos]. }
  cbn [app] in Hc. rewrite Href in Hc. exists sts, cleared. split; [done|]. split; [done|]. split.
  - unfold getReserveIndex. rewrite length_fmap. fold delta. replace (0 <? delta) with true by (unfold delta; lia).
    by rewrite Hscan, reverse_involutive, Hc.
  - unfold ResizeStatefulSet. cbn [ch_instance]. rewrite length_fmap. fold replicas delta.
    replace (delta =? 0) with false by (unfold delta; lia). replace (0 <? delta) with true by (unfold delta; lia).
    unfold resized in Hsts. destruct (NewReplicationStatefulSet instance) as [s0| | |] eqn:Es; [|done..].
    rewrite Hscan in Hsts. injection Hsts as <-.
    unfold bind, lift, ret. rewrite Hscan, reverse_involutive, Hc. cbn in Ho.
    assert (Hset : set_ss_ReserveOrdinals (ss_ReserveOrdinals s0 ++ reserved_reference (Z.to_nat delta) nodes m) s0 =
      set_ss_ReserveOrdinals (ss_ReserveOrdinals s0 ++ take_reserved (reverse (reverse (n_PodIndex <$> filter nonmaster top))) mid) s0)
      by (by rewrite reverse_involutive, take_reserved_filter, Href).
    rewrite Hset. cbn. rewrite !reverse_involutive. destruct (catch _ w) as [[[]| | |] w1]; done.
Qed.

(** C27: the scale-down of a standard instance whose set has no reserved
    ordinals never removes the master: with the set it sends, OpenKruise
    keeps the requested number of pods and the master is one of them. *)
Theorem standard_shrink_keeps_master instance nodes m res :
  let replicas := sp_Replicas (kv_Spec instance) in
  sp_Resources (kv_Spec instance) = Some res ->
  shard_ok nodes m -> n_PodIndex <$> nodes = irange 0 (Z.of_nat (length nodes) - 1) ->
  1 <= replicas < Z.of_nat (length nodes) ->
  exists sts kept, resized instance nodes (Z.of_nat (length nodes) - replicas) = Ok sts /\
    n_PodIndex <$> kept = ordinals (ss_ReserveOrdinals sts) (Z.to_nat (ss_Replicas sts)) /\
    kept `sublist_of` nodes /\ length kept = Z.to_nat replicas /\ m ∈ kept.
Proof.
  intros replicas Hres Hok Hpos Hrep. rewrite ordinals_none in Hpos.
  destruct (choose_spec nodes m (Z.of_nat (length nodes) - replicas)) as (low & top & mid & E & Hlen & Hscan & Hmid);
    [done|lia|].
  destruct (resized_spec instance nodes _ res _ _ Hres Hscan) as (sts & Hsts & Hr & Ho).
  subst nodes. rewrite reverse_involutive in Ho.
  assert (Hsl : length (survivors low top) = Z.to_nat replicas)
    by (pose proof (filter_partition_length low top); lia).
  exists sts, (survivors low top). split; [done|]. rewrite Hr. fold replicas. rewrite <- Hsl.
  split; [|split; [apply sublist_app; [done|apply sublist_filter]|split; [done|by apply master_survives]]].
  apply (survivors_ordinals low top m Hok [] (ss_ReserveOrdinals sts) Hpos). intros id. rewrite Ho, take_reserved_filter.
  - rewrite list_elem_of_filter.
    split; [intros [Hle Hin]|intros [Hin Hlt]]; split; try done; by apply (Hmid id Hin).
  - apply sorted_fmap_filter. by destruct (pods_sorted low top m Hok) as (_ & ? & _).
Qed.

(** Pods 0, 2 and 3 after ordinal 1 was reserved, the master being pod 3. *)
Definition gap_nodes : list Node := [sample_node RoleSlaver 0; sample_node RoleSlaver 2; sample_node RoleMaster 3].

Lemma ordinals_is (r l : list Z) :
  StronglySorted Z.lt l -> Forall (Z.le 0) l -> (forall x, x ∈ l -> x ∉ r) ->
  (forall x y, x ∈ l -> 0 <= y < x -> y ∉ r -> y ∈ l) -> ordinals r (length l) = l.
Proof. intros. symmetry. by apply ordinals_unique. Qed.

(** The scale-down of a standard instance replaces the reserved ordinals
    of the set instead of extending them.  With ordinal 1 reserved by an
    earlier scale-down, pods 0, 2 and 3 running and pod 3 the master, scaling
    to one replica reserves 0 and 2 only: OpenKruise then runs the empty
    pod 1 and removes the master. *)
Theorem standard_shrink_forgets_reserve :
  let instance := sample_instance StandardType "kvrocks-standard-1-demo" 1 1 in
  shard_ok gap_nodes (sample_node RoleMaster 3) /\
  n_PodIndex <$> gap_nodes = ordinals [1] 3 /\
  exists sts, resized instance gap_nodes 2 = Ok sts /\
    ss_ReserveOrdinals sts = [0; 2] /\ ordinals (ss_ReserveOrdinals sts) (Z.to_nat (ss_Replicas sts)) = [1].
Proof.
  split.
  { split; [repeat constructor|repeat constructor; done|done]. }
  split.
  - symmetry. apply (ordinals_is [1] [0; 2; 3]); [repeat constructor|repeat constructor; done| |].
    + set_solver by lia.
    + intros x y Hx Hy Hr. assert (x <= 3) by (set_solver by lia).
      assert (y = 0 \/ y = 1 \/ y = 2) as [->|[->| ->]] by lia; set_solver.
  - destruct (resized_spec (sample_instance StandardType "kvrocks-standard-1-demo" 1 1) gap_nodes 2 "limits" [2; 0] 3)
      as (sts & Hsts & Hr & Ho); [done|vm_compute; reflexivity|].
    exists sts. split; [done|]. assert (Ho' : ss_ReserveOrdinals sts = [0; 2]) by (rewrite Ho; reflexivity).
    split; [done|]. rewrite Ho', Hr. change (Z.to_nat _) with (length [1]).
    apply ordinals_is; [repeat constructor|repeat constructor; done| |].
    + set_solver by lia.
    + intros x y Hx Hy Hr'. assert (x = 1) as -> by set_solver. assert (y = 0) as -> by lia. set_solver.
Qed.
End scale.

Lemma scale_down_copies_agree_witness :
  exists sts cleared,
    @resized sampleLib (sample_instance StandardType "kvrocks-standard-1-demo" 1 1) sample_shard 2 = Ok sts /\
    ss_ReserveOrdinals sts = [0] /\
    getReserveIndex 1 (Some <$> sample_shard) = Ok (Some [0], cleared).
Proof.
  destruct (@scale_down_copies_agree sampleLib World worldEnv (sample_instance StandardType "kvrocks-standard-1-demo" 1 1) "secret"
    sample_shard (sample_node RoleMaster 1) "limits" empty_world eq_refl) as (sts & cleared & Hr & Ho & Hg & _).
  - split; [vm_compute; repeat constructor|vm_compute; repeat constructor; discriminate|reflexivity].
  - simpl. lia.
  - apply Forall_forall. repeat constructor; simpl; lia.
  - exists sts, cleared. split; [exact Hr|]. split; [rewrite Ho; vm_compute; reflexivity|].
    rewrite <- (eq_refl : reserved_reference 2 sample_shard (sample_node RoleMaster 1) = [0]). exact Hg.
Defined.

Lemma standard_shrink_keeps_master_witness :
  exists sts kept,
    @resized sampleLib (sample_instance StandardType "kvrocks-standard-1-demo" 2 1) sample_shard 1 = Ok sts /\
    n_PodIndex <$> kept = @ordinals sampleKruise (ss_ReserveOrdinals sts) 2 /\ sample_node RoleMaster 1 ∈ kept.
Proof.
  destruct (@standard_shrink_keeps_master sampleKruise sampleLib
    (sample_instance StandardType "kvrocks-standard-1-demo" 2 1) sample_shard (sample_node RoleMaster 1) "limits" eq_refl)
    as (sts & kept & Hr & Ho & _ & _ & Hm);
    [split; [vm_compute; repeat constructor|vm_compute; repeat constructor; discriminate|reflexivity]
    |vm_compute; reflexivity|simpl; lia|].
  exists sts, kept. split; [exact Hr|]. split; [|exact Hm].
  rewrite Ho. injection Hr as <-. reflexivity.
Defined.

(** ** The master of a running instance *)

Definition masters_of (nodes : list Node) : list Node := filter master nodes.

Lemma scan_master_from ip nodes :
  Forall (fun n => n_IP n <> EmptyString) nodes -> ip <> EmptyString ->
  scan_master ip nodes =
    if decide (Forall (fun n => n_IP n = ip) (masters_of nodes)) then Ok ip else Err err_two_masters.
Proof.
  intros Hne Hip. induction Hne as [|n nodes Hn Hne IH]; [done|]. cbn [scan_master].
  destruct (String.eqb_spec (n_Role n) RoleMaster) as [Hm|Hm].
  - destruct (String.eqb_spec ip EmptyString); [done|]. unfold masters_of. rewrite filter_cons_True by done.
    destruct (String.eqb_spec ip (n_IP n)) as [E|E]; simpl negb; cbn iota.
    + rewrite IH. unfold masters_of. destruct (decide (Forall _ (filter master nodes))) as [Hf|Hf].
      * rewrite decide_True by (by constructor). done.
      * rewrite decide_False by (by rewrite Forall_cons; intros [_ ?]). done.
    + rewrite decide_False; [done|]. rewrite Forall_cons. intros [? _]. congruence.
  - unfold masters_of. rewrite filter_cons_False by done. apply IH.
Qed.

(** The scan for the master of a running instance finds the address all
    masters share, the empty address exactly when no node is a master, and
    fails exactly when two masters have different addresses. *)
Theorem scan_master_unique nodes :
  Forall (fun n => n_IP n <> EmptyString) nodes ->
  match scan_master EmptyString nodes with
  | Ok ip =>
      (ip = EmptyString /\ masters_of nodes = []) \/
      (ip <> EmptyString /\ masters_of nodes <> [] /\ Forall (fun n => n_IP n = ip) (masters_of nodes))
  | Err e => e = err_two_masters /\
      exists a b, a ∈ masters_of nodes /\ b ∈ masters_of nodes /\ n_IP a <> n_IP b
  | Panic => False
  | Hangs => False
  end.
Proof.
  induction 1 as [|n nodes Hn Hne IH]; [by left|]. cbn [scan_master]. unfold masters_of in *.
  destruct (String.eqb_spec (n_Role n) RoleMaster) as [Hm|Hm].
  - rewrite String.eqb_refl, scan_master_from, filter_cons_True by done. unfold masters_of.
    destruct (decide _) as [Hf|Hf].
    + right. split; [done|]. split; [done|]. by constructor.
    + split; [done|]. apply not_Forall_Exists in Hf; [|apply _]. apply Exists_exists in Hf as (b & Hb & Hne').
      exists n, b. split; [by left|]. split; [by right|]. congruence.
  - rewrite filter_cons_False by done. apply IH.
Qed.

Lemma scan_master_unique_witness :
  scan_master EmptyString [set_n_Role RoleMaster (new_node "10.0.0.1" 0); set_n_Role RoleSlaver (new_node "10.0.0.2" 1)] = Ok "10.0.0.1" /\
  Forall (fun n => n_IP n = "10.0.0.1")
    (masters_of [set_n_Role RoleMaster (new_node "10.0.0.1" 0); set_n_Role RoleSlaver (new_node "10.0.0.2" 1)]).
Proof.
  split; [reflexivity|].
  assert (Hne : Forall (fun n => n_IP n <> EmptyString)
    [set_n_Role RoleMaster (new_node "10.0.0.1" 0); set_n_Role RoleSlaver (new_node "10.0.0.2" 1)])
    by (repeat constructor; discriminate).
  destruct (scan_master_unique _ Hne) as [[E _]|(_ & _ & Hf)]; [discriminate E|exact Hf].
Defined.

(** ** Configuration *)

Section config.
Context {W : Type} `{Env W, GoLib}.
Context (h : CommandHandler).
#[local] Abbreviation spec := (kv_Spec (ch_instance h)).
(** A property of the world that is kept by reading a configuration, by
    setting an unprotected key to the value the specification lists, and, when
    the password was changed in the specification, by the pair of writes that
    makes it the password of a node. *)
Context (I : W -> Prop).
Hypothesis Iget : forall addr key w, I w -> I (redis_config_get addr (ch_password h) key w).2.
Hypothesis Iset : forall addr key v w, key ∉ UnChangeCfg -> sp_KVRocksConfig spec !! key = Some v ->
  I w -> I (redis_config_set addr (ch_password h) key v w).2.
Hypothesis Ipass : forall addr w, ch_password h <> sp_Password spec -> I w ->
  I (redis_pipeline_config_set addr (ch_password h) [("masterauth", sp_Password spec); ("requirepass", sp_Password spec)] w).2.

Lemma config_key config kv :
  kv ∈ range_map (ParseKVRocksConfigs config) -> kv.1 ∉ UnChangeCfg /\ config !! kv.1 = Some kv.2.
Proof.
  rewrite (range_map_perm (ParseKVRocksConfigs config)). destruct kv as [k v].
  rewrite elem_of_map_to_list. unfold ParseKVRocksConfigs. rewrite map_lookup_filter_Some. by intros [? ?].
Qed.

(** C31: bringing the configuration of the nodes in line sets the keys the
    specification lists, to the values it lists, and of those never a
    protected one ([port], [dir], [slaveof], [masterauth], ...).  There is one
    other write, made exactly when the specification has another password
    than the nodes: [masterauth] and [requirepass], which are protected, are
    set together to the new password. *)
Theorem config_protected nodes : keeps I (EnsureConfig h nodes).
Proof.
  unfold EnsureConfig. apply keeps_forM. intros p _. apply keeps_bind; [apply keeps_forM|intros _].
  - intros kv Hkv. unfold ensure_key, GetConfig, SetConfig. apply config_key in Hkv as [Hkv Hv].
    apply keeps_bind; [auto with keeps|intros node].
    apply keeps_bind; [apply keeps_bind; [apply keeps_perform; auto|intros value]|intros cur].
    + destruct value as [|? [|? [|]]]; auto with keeps.
    + apply keeps_when. intros _. apply keeps_perform. auto.
  - apply keeps_when. intros Hpw%negb_true_iff%String.eqb_neq. apply keeps_bind; [auto with keeps|intros node].
    unfold ChangePassword. apply keeps_perform. auto.
Qed.
End config.

(** A configuration that the user tries to move: [dir] stays. *)
Definition dir_config (w : World) : Prop :=
  default ∅ (w_config w !! kvrocks_addr "10.0.0.1") !! "dir" = Some "/data".

Lemma config_protected_witness :
  @keeps World unit dir_config
    (@EnsureConfig World worldEnv sampleLib
       (NewCommandHandler (sample_instance StandardType "kvrocks-standard-1-demo" 2 1) "old")
       [Some (new_node "10.0.0.1" 0)]).
Proof.
  apply (@config_protected World worldEnv sampleLib _ dir_config).
  - intros addr key w Hw. cbn. unfold when_up. destruct (w_roles w !! addr); exact Hw.
  - intros addr key v w Hk _ Hw. cbn. unfold when_up. destruct (w_roles w !! addr); [|exact Hw].
    unfold dir_config, set_configs in *. cbn [w_config w_set_config snd].
    destruct (decide (addr = kvrocks_addr "10.0.0.1")) as [->|Hne].
    + rewrite lookup_insert_eq. cbn [foldl default from_option id fst snd].
      rewrite lookup_insert_ne; [exact Hw|]. intros ->. apply Hk. vm_compute. apply (bool_decide_unpack _). exact Logic.I.
    + rewrite lookup_insert_ne; [exact Hw|congruence].
  - intros addr w _ Hw. cbn. unfold when_up. destruct (w_roles w !! addr); [|exact Hw].
    unfold dir_config, set_configs in *. cbn [w_config w_set_config snd].
    destruct (decide (addr = kvrocks_addr "10.0.0.1")) as [->|Hne].
    + rewrite lookup_insert_eq. cbn [foldl default from_option id fst snd].
      rewrite !lookup_insert_ne by discriminate. exact Hw.
    + rewrite lookup_insert_ne; [exact Hw|congruence].
Defined.

(** ** Replication of a running instance *)

Section replication.
Context {W : Type} `{Env W, GoLib}.
Context (I : W -> Prop) (masterIP : string).
(** A property of the world that only a [SLAVEOF] sent to the master, or one
    that names another master, can break. *)
Hypothesis Iinfo : forall addr pw sec w, I w -> I (redis_info addr pw sec w).2.
Hypothesis Islaveof : forall ip pw port w, ip <> masterIP -> I w -> I (redis_slaveof (kvrocks_addr ip) pw masterIP port w).2.
Hypothesis Ipod : forall key w, I w -> I (api_get (K := Pod) key w).2.
Hypothesis Ipod' : forall pod w, I w -> I (api_update (K := Pod) pod w).2.
Hypothesis Icr : forall key w, I w -> I (api_get (K := KVRocks) key w).2.
Hypothesis Icr' : forall k w, I w -> I (api_update (K := KVRocks) k w).2.

Lemma label_keeps key role : keeps I (label_pod key role).
Proof.
  unfold label_pod, GetPod, UpdatePod. apply keeps_bind; [apply keeps_perform; auto|intros pod].
  apply keeps_when. intros _. case_bool_decide; [apply keeps_panic|].
  apply keeps_bind; [apply keeps_perform; auto|intros; apply keeps_ret].
Qed.

Lemma notify_keeps ns v : keeps I (UpdateSentinelAnnotationCount ns v).
Proof.
  unfold UpdateSentinelAnnotationCount, GetKVRocks, UpdateKVRocks.
  apply keeps_bind; [apply keeps_perform; auto|intros k]. destruct (Atoi _) as [c [e|]]; [apply keeps_throw|].
  apply keeps_bind; [apply keeps_perform; auto|intros; apply keeps_ret].
Qed.

(** The property, and the addresses of the nodes, which do not change. *)
Definition steady (ips : list string) (s : StandardHandler * W) : Prop :=
  I s.2 /\ n_IP <$> hs_stsNodes s.1 = ips.

Lemma steady_onW {A} ips (m : M W A) : keeps I m -> keeps (steady ips) (onW m).
Proof. intros Hm [h w] [Hw Hi]. unfold onW. cbn [fst snd]. specialize (Hm w Hw). by destruct (m w). Qed.

Lemma steady_role ips i role : keeps (steady ips) (set_role i role).
Proof.
  intros [h w] [Hw Hi]. split; [done|]. cbn [fst snd set_role modh hs_set_stsNodes hs_stsNodes]. rewrite <- Hi.
  rewrite (list_fmap_alter n_IP (set_n_Role role) id) by (by apply Forall_true). by apply list_alter_id.
Qed.

Lemma steady_update_role ips podID role : keeps (steady ips) (updateKVRocksRole podID role).
Proof. apply keeps_bind; [apply keeps_geth|]. intros h. apply steady_onW, label_keeps. Qed.

Lemma follow_node_keeps ips i : keeps (steady ips) (follow_node masterIP i).
Proof.
  intros s Hs. unfold follow_node, get_node, bind, geth. cbn [fst snd].
  destruct (hs_stsNodes s.1 !! i) as [node|] eqn:En; [|done]. unfold deref, ret.
  destruct (String.eqb_spec (n_IP node) masterIP) as [E|E]; cbn [negb]; [by apply steady_update_role|].
  unfold SlaveOfMaster, get_node, bind at 1, geth. cbn [fst snd]. unfold bind at 1, bind at 1, geth. cbn [fst snd].
  rewrite En. unfold deref, ret. revert s Hs En.
  intros s Hs En. set (m := bind _ _). assert (Hm : keeps (steady ips) m); [|by apply Hm]. unfold m.
  apply keeps_bind; [apply steady_onW|intros cur].
  { unfold GetMaster. apply keeps_bind; [apply keeps_perform; auto|intros; apply keeps_ret]. }
  apply keeps_bind; [apply keeps_when; intros _; apply steady_onW, keeps_perform; auto|intros _].
  apply keeps_bind; [apply steady_update_role|intros _; apply steady_role].
Qed.

Lemma steady_update_instance ips : keeps (steady ips) update_instance.
Proof.
  unfold update_instance, UpdateKVRocks. apply keeps_bind; [apply keeps_geth|intros h].
  apply keeps_bind; [apply steady_onW, keeps_perform; auto|intros k]. by intros [h' w] [? ?].
Qed.

(** C16: on a running instance with one master, ensuring replication never
    sends [SLAVEOF] to the master and never points a node at another master:
    every property of the world that only such commands can break is kept,
    whatever calls fail on the way. *)
Theorem master_never_demoted (h : StandardHandler) (w : W) :
  st_Status (kv_Status (hs_instance h)) <> StatusCreating ->
  scan_master EmptyString (hs_stsNodes h) = Ok masterIP ->
  I w -> I (ensureKVRocksReplication (h, w)).2.2.
Proof.
  intros Hst Hscan Hw. unfold ensureKVRocksReplication, bind at 1, geth. cbn [fst snd].
  destruct (String.eqb_spec (st_Status (kv_Status (hs_instance h))) StatusCreating); [done|].
  unfold bind at 1, lift. rewrite Hscan. destruct (String.eqb masterIP EmptyString); [done|].
  assert (Hs : steady (n_IP <$> hs_stsNodes h) (h, w)) by done.
  set (m := bind _ _). assert (Hm : keeps (steady (n_IP <$> hs_stsNodes h)) m); [|by apply Hm]. unfold m.
  apply keeps_bind; [apply keeps_forM; intros i _; apply follow_node_keeps|intros _].
  apply keeps_bind; [apply keeps_when; intros _; apply keeps_bind|intros _].
  - by intros [h' w'] [? ?].
  - intros _. apply steady_update_instance.
  - apply keeps_bind; [apply keeps_geth|intros h'].
    destruct (_ !! MonitoredBy); [apply steady_onW, notify_keeps|apply keeps_ret].
Qed.
End replication.

(** Two nodes, the first the master. *)
Definition pair_nodes : list Node :=
  [set_n_Role RoleMaster (new_node "10.0.0.1" 0); set_n_Role RoleSlaver (new_node "10.0.0.2" 1)].

Definition pair_handler : StandardHandler :=
  hs_set_stsNodes (fun _ => pair_nodes)
    (NewKVRocksStandardHandler (NN "default" "kvrocks-standard-1-demo") (sample_instance StandardType "kvrocks-standard-1-demo" 2 1)).

Definition pair_world : World :=
  w_set_roles (<[kvrocks_addr "10.0.0.1" := RoleMaster]> {[kvrocks_addr "10.0.0.2" := RoleSlaver]}) empty_world.

Lemma master_never_demoted_witness :
  w_roles (@ensureKVRocksReplication World worldEnv sampleLib (pair_handler, pair_world)).2.2
    !! kvrocks_addr "10.0.0.1" = Some RoleMaster.
Proof.
  apply (@master_never_demoted World worldEnv sampleLib
    (fun w => w_roles w !! kvrocks_addr "10.0.0.1" = Some RoleMaster) "10.0.0.1").
  - intros addr pw sec w Hw. cbn. unfold when_up. destruct (w_roles w !! addr); exact Hw.
  - intros ip pw port w Hip Hw. cbn. unfold when_up.
    destruct (w_roles w !! kvrocks_addr ip) eqn:E; [|exact Hw]. cbn [w_roles w_set_roles snd].
    rewrite lookup_insert_ne; [exact Hw|]. intros Ha. apply Hip. unfold kvrocks_addr, JoinHostPort in Ha.
    destruct (Contains ip ":"); [discriminate Ha|].
    change (Contains "10.0.0.1" ":") with false in Ha. cbn iota in Ha.
    exact (string_app_inv_tail _ _ _ Ha).
  - intros key w Hw. cbn. destruct (w_pods w !! key); exact Hw.
  - intros pod w Hw. cbn. destruct (w_pods w !! _); exact Hw.
  - intros key w Hw. cbn. destruct (w_kvrocks w !! key); exact Hw.
  - intros k w Hw. cbn. destruct (w_kvrocks w !! _); exact Hw.
  - discriminate.
  - reflexivity.
  - reflexivity.
Defined.

(** ** Claims of a standard instance *)

Section claims.
Context {W : Type} `{Env W, GoLib}.

Definition indexed (name : string) (c : Z * PersistentVolumeClaim) : Prop :=
  0 <= c.1 /\ is_int c.1 /\ om_Name (pvc_Meta c.2) = "data-" +:+ name +:+ "-" +:+ Itoa c.1.

Lemma claim_index name c : indexed name c -> GetPVCOrPodIndex (om_Name (pvc_Meta c.2)) = Ok c.1.
Proof.
  intros (Hnn & Hint & ->). rewrite <- string_app_assoc. apply GetPVCOrPodIndex_app.
  unfold is_int in Hint. lia.
Qed.

(** The claim cleaning of a standard instance deletes, in the order of
    the listing, exactly the claims whose ordinal belongs to no node. *)
Theorem standard_live_claims_kept name (h : StandardHandler) (w w' : W) cs :
  ListStatefulSetPVC (hs_key h) w = (Ok (snd <$> cs), w') ->
  Forall (indexed name) cs ->
  cleanPersistentVolumeClaim (h, w) =
    onW (forM (snd <$> filter (fun c => c.1 ∉ n_PodIndex <$> hs_stsNodes h) cs) DeletePVC) (h, w').
Proof.
  intros Hlist Hcs. unfold cleanPersistentVolumeClaim, bind at 1, geth. cbn [fst snd].
  unfold bind at 1, onW at 1. cbn [fst snd]. rewrite Hlist. clear Hlist w. revert w'.
  induction Hcs as [|c cs Hc Hcs IH]; intros w; [done|]. rewrite fmap_cons. cbn [forM]. unfold bind at 1, bind at 1, lift.
  rewrite (claim_index name) by done. unfold when.
  case_bool_decide as Hd; rewrite elem_of_list_to_set in Hd.
  - rewrite filter_cons_True by done. rewrite fmap_cons. cbn [forM]. unfold onW, bind. cbn [fst snd].
    destruct (DeletePVC c.2 w) as [[[]|e| |] w1]; [|done..]. cbn [fst snd]. apply IH.
  - rewrite filter_cons_False by (intros HH; by apply HH). apply IH.
Qed.
End claims.

(** ** Changing the image *)

Section image.
Context {W : Type} `{Env W, GoLib, Kruise}.

(** Updating the image of a set sends the set as it is built from the
    specification, so the ordinals reserved by an earlier scale-down are
    dropped: OpenKruise runs the pods 0 to n-1 again, wherever the master
    is. *)
Theorem image_update_forgets_reserve instance sts oldSts (w w1 : W) old0 rest c0 :
  NewReplicationStatefulSet instance = Ok sts ->
  GetStatefulSet (NN (ss_Namespace sts) (ss_Name sts)) w = (Ok oldSts, w1) ->
  pt_Containers (ss_Template oldSts) = old0 :: rest -> head (pt_Containers (ss_Template sts)) = Some c0 ->
  c_Image old0 <> c_Image c0 ->
  exists sent, CreateStatefulSetOrUpdateImage sts w = UpdateStatefulSet sent w1 /\
    ss_ReserveOrdinals sent = [] /\ ss_Replicas sent = sp_Replicas (kv_Spec instance) /\
    forall n, Z.of_nat n = ss_Replicas sent ->
      ordinals (ss_ReserveOrdinals sent) n = irange 0 (Z.of_nat n - 1).
Proof.
  intros Hsts Hget Hold Hnew Himg.
  assert (Hr : ss_ReserveOrdinals sts = [] /\ ss_Replicas sts = sp_Replicas (kv_Spec instance)).
  { unfold NewReplicationStatefulSet in Hsts. destruct (NewInstanceContainer instance); [|done..].
    injection Hsts as <-. done. }
  unfold CreateStatefulSetOrUpdateImage, bind at 1, catch. rewrite Hget.
  destruct (pt_Containers (ss_Template sts)) as [|n0 rest'] eqn:En; [done|]. injection Hnew as ->.
  unfold bind at 1, container_image at 1. rewrite Hold. unfold bind at 1, deref, ret. cbn [lookup list_lookup].
  unfold bind at 1, container_image at 1. rewrite En. unfold bind at 1, deref, ret. cbn [lookup list_lookup].
  destruct (String.eqb_spec (c_Image old0) (c_Image c0)); [done|]. unfold bind at 1.
  eexists. split; [reflexivity|]. cbn [set_ss_Meta ss_ReserveOrdinals ss_Replicas].
  destruct Hr as [-> ->]. split; [done|]. split; [done|]. intros k _. symmetry. apply ordinals_none.
Qed.
End image.

Definition std_name : string := "kvrocks-standard-1-demo".
Definition std_cr : KVRocks := sample_instance StandardType std_name 2 1.

(** The set of [std_cr] as the handler builds it, with another image stored. *)
Definition std_set (k : KVRocks) : StatefulSet :=
  match @NewReplicationStatefulSet sampleLib k with Ok s => s | _ => NewStatefulSet (H := sampleLib) k std_name end.

Definition std_claims : list (Z * PersistentVolumeClaim) :=
  [(1, sample_claim ("data-" +:+ std_name +:+ "-1") (ss_MatchLabels (std_set std_cr)));
   (2, sample_claim ("data-" +:+ std_name +:+ "-2") (ss_MatchLabels (std_set std_cr)))].

Definition std_world : World :=
  w_set_sets {[NN "default" std_name := set_ss_ReserveOrdinals [1] (std_set std_cr)]}
    (w_set_claims (list_to_map ((fun c => (key_of pvc_Meta c.2, c.2)) <$> std_claims)) empty_world).

Lemma standard_live_claims_kept_witness :
  let w := (@cleanPersistentVolumeClaim World worldEnv (pair_handler, std_world)).2.2 in
  (fun c => bool_decide (is_Some (w_claims w !! key_of pvc_Meta c.2))) <$> std_claims = [true; false].
Proof.
  assert (Hl : exists cs, (cs = std_claims \/ cs = reverse std_claims) /\
    @ListStatefulSetPVC World worldKube (NN "default" std_name) std_world = (Ok (snd <$> cs), std_world)).
  { first [exists std_claims; split; [left; reflexivity|vm_compute; reflexivity]
          |exists (reverse std_claims); split; [right; reflexivity|vm_compute; reflexivity]]. }
  destruct Hl as (cs & Hcs & Hl).
  assert (Hi : Forall (indexed std_name) cs).
  { destruct Hcs as [-> | ->]; repeat constructor; cbn; unfold is_int, MinInt, MaxInt; lia. }
  intros w. unfold w.
  rewrite (@standard_live_claims_kept World worldEnv std_name pair_handler std_world std_world cs Hl Hi).
  destruct Hcs as [-> | ->]; vm_compute; reflexivity.
Defined.

Definition new_image (k : KVRocks) : KVRocks :=
  {| kv_APIVersion := kv_APIVersion k; kv_Kind := kv_Kind k; kv_Meta := kv_Meta k;
     kv_Spec :=
       {| sp_Image := "kvrocks:2.6"; sp_ImagePullPolicy := sp_ImagePullPolicy (kv_Spec k); sp_Type := sp_Type (kv_Spec k);
          sp_KVRocksConfig := sp_KVRocksConfig (kv_Spec k); sp_Replicas := sp_Replicas (kv_Spec k);
          sp_Master := sp_Master (kv_Spec k); sp_Password := sp_Password (kv_Spec k);
          sp_Resources := sp_Resources (kv_Spec k); sp_NodeSelector := sp_NodeSelector (kv_Spec k);
          sp_Toleration := sp_Toleration (kv_Spec k); sp_Affinity := sp_Affinity (kv_Spec k);
          sp_Storage := sp_Storage (kv_Spec k) |};
     kv_Status := kv_Status k |}.

Lemma image_update_forgets_reserve_witness :
  exists sent,
    @CreateStatefulSetOrUpdateImage World worldKube (std_set (new_image std_cr)) std_world =
      @UpdateStatefulSet World worldKube sent std_world /\ ss_ReserveOrdinals sent = [].
Proof.
  destruct (@image_update_forgets_reserve World worldEnv sampleLib sampleKruise (new_image std_cr)
    (std_set (new_image std_cr)) (set_ss_ReserveOrdinals [1] (std_set std_cr)) std_world std_world
    (hd (@NewExporterContainer std_cr) (pt_Containers (ss_Template (std_set std_cr))))
    (tl (pt_Containers (ss_Template (std_set std_cr))))
    (hd (@NewExporterContainer std_cr) (pt_Containers (ss_Template (std_set (new_image std_cr))))))
    as (sent & Hs & Hr & _); [reflexivity|vm_compute; reflexivity|reflexivity|reflexivity|discriminate|].
  exists sent. split; [exact Hs|exact Hr].
Defined.
