(* ===== verification/EventLoop.v ===== *)
(** * The goroutines of the failover events (pkg/controllers/events)

    [event.Run] starts the producer every 30 seconds and consumes messages for
    ever; every message is handled by a goroutine of its own, every sentinel
    pod has a goroutine that listens to it, and reconciliations call
    [SendFailoverMsg].  They share the channel, the map of addresses in
    progress, the map of sentinel pods and the mutex [event.lock].  The
    program counters below are the statements between which another goroutine
    can run: taking and releasing the mutex, each access to a shared map, each
    channel operation. *)

From S2P Require Import Prelude GoStd Types Resources Env K8sClient Events.
Local Open Scope Z_scope.

(** ** Program counters *)

(** [event.Run]/[consumer], [handleFailover], [listen] (key of the pod and
    system id), [SendFailoverMsg] and [producer] (pods still to visit). *)
Inductive goroutine : Type :=
| Consumer
| HLock (m : eventMessage)
| HBody (m : eventMessage)
| HDefer (m : eventMessage) (err : option goerr) (requeue : bool)
| HSend (m : eventMessage)
| HDelete (m : eventMessage)
| HUnlock
| LWait (key sys : string)
| LLock (key sys : string) (target : NamespacedName * Z) (payload : string)
| LBuild (key sys : string) (target : NamespacedName * Z) (payload : string)
| LCheck (key sys : string) (m : eventMessage)
| LInsert (key sys : string) (m : eventMessage)
| LSend (key sys : string) (m : eventMessage)
| LUnlock (key sys : string)
| LCloseLock (key : string)
| LCloseDelete (key : string)
| LCloseUnlock
| SCheck (m : eventMessage)
| SInsert (m : eventMessage)
| SSend (m : eventMessage)
| PNext (pods : list produceMessage)
| PCheck (p : produceMessage) (pods : list produceMessage)
| PSpawn (p : produceMessage) (pods : list produceMessage)
| PUnlock (pods : list produceMessage)
| Done.

(** The goroutine has taken [event.lock] and not released it yet. *)
Definition holds (g : goroutine) : bool :=
  match g with
  | HBody _ | HDefer _ _ _ | HSend _ | HDelete _ | HUnlock
  | LBuild _ _ _ _ | LCheck _ _ _ | LInsert _ _ _ | LSend _ _ _ | LUnlock _ _ | LCloseDelete _ | LCloseUnlock
  | PCheck _ _ | PSpawn _ _ | PUnlock _ => true
  | _ => false
  end.

(** ** Shared state

    The queue ([messageQueue]: the channel and the addresses in progress) and
    the fields of [event] that goroutines share. *)

Record shared := {
  sh_chan : list eventMessage;
  sh_keys : gset string;
  sh_lock : option nat;
  sh_sentinels : gset string;
}.

Definition shared0 : shared := {| sh_chan := []; sh_keys := ∅; sh_lock := None; sh_sentinels := ∅ |}.

Definition set_chan (c : list eventMessage) (s : shared) : shared :=
  {| sh_chan := c; sh_keys := sh_keys s; sh_lock := sh_lock s; sh_sentinels := sh_sentinels s |}.
Definition set_shkeys (k : gset string) (s : shared) : shared :=
  {| sh_chan := sh_chan s; sh_keys := k; sh_lock := sh_lock s; sh_sentinels := sh_sentinels s |}.
Definition set_lock (l : option nat) (s : shared) : shared :=
  {| sh_chan := sh_chan s; sh_keys := sh_keys s; sh_lock := l; sh_sentinels := sh_sentinels s |}.
Definition set_sentinels (k : gset string) (s : shared) : shared :=
  {| sh_chan := sh_chan s; sh_keys := sh_keys s; sh_lock := sh_lock s; sh_sentinels := k |}.

(** What a goroutine that waits for the outside gets. *)
Inductive input : Type :=
| Nothing
| BodyResult (o : outcome (option goerr * bool))
| Payload (payload : string)
| ChannelClosed.

(** A goroutine waits, moves on (to [next], with goroutines it started), or
    panics, which ends the process (what the deferred functions of a panicking
    handler still do to the queue ends with it). *)
Inductive move : Type :=
| Blocked
| Moves (next : goroutine) (s : shared) (started : list goroutine)
| Crashes.

Definition acquire (i : nat) (next : goroutine) (s : shared) : move :=
  match sh_lock s with
  | None => Moves next (set_lock (Some i) s) []
  | Some _ => Blocked
  end.

Definition release (next : goroutine) (s : shared) : move := Moves next (set_lock None s) [].

(** [m.message <- msg] on the channel of capacity 1000 *)
Definition send (m : eventMessage) (next : goroutine) (s : shared) : move :=
  if (length (sh_chan s) <? chan_cap)%nat then Moves next (set_chan (sh_chan s ++ [m]) s) [] else Blocked.

Definition insert_key (m : eventMessage) (s : shared) : shared := set_shkeys ({[em_ip m]} ∪ sh_keys s) s.
Definition delete_key (m : eventMessage) (s : shared) : shared := set_shkeys (sh_keys s ∖ {[em_ip m]}) s.

(** ** The next statement of goroutine [i] at time [t] *)

Definition handler_move (i : nat) (t : Z) (inp : input) (g : goroutine) (s : shared) : move :=
  match g, inp with
  | HLock m, Nothing => acquire i (HBody m) s
  | HBody m, BodyResult (Ok (err, requeue)) => Moves (HDefer m err requeue) s []
  | HBody m, BodyResult Panic => Crashes
  | HDefer m err requeue, Nothing => Moves (if resends t m err requeue then HSend m else HDelete m) s []
  | HSend m, Nothing => send m HUnlock s
  | HDelete m, Nothing => Moves HUnlock (delete_key m s) []
  | HUnlock, Nothing => release Done s
  | _, _ => Blocked
  end.

Definition listener_move (i : nat) (t : Z) (inp : input) (g : goroutine) (s : shared) : move :=
  match g, inp with
  | LWait key sys, Payload payload =>
      match odown_target sys key payload with
      | Ok (Some target) => Moves (LLock key sys target payload) s []
      | Ok None => Moves (LWait key sys) s []
      | _ => Crashes
      end
  | LWait key sys, ChannelClosed => Moves (LCloseLock key) s []
  | LLock key sys target payload, Nothing => acquire i (LBuild key sys target payload) s
  | LBuild key sys target payload, Nothing =>
      match odown_message t target payload with
      | Ok m => Moves (LCheck key sys m) s []
      | _ => Crashes
      end
  | LCheck key sys m, Nothing =>
      Moves (if bool_decide (em_ip m ∈ sh_keys s) then LUnlock key sys else LInsert key sys m) s []
  | LInsert key sys m, Nothing => Moves (LSend key sys m) (insert_key m s) []
  | LSend key sys m, Nothing => send m (LUnlock key sys) s
  | LUnlock key sys, Nothing => release (LWait key sys) s
  | LCloseLock key, Nothing => acquire i (LCloseDelete key) s
  | LCloseDelete key, Nothing => Moves LCloseUnlock (set_sentinels (sh_sentinels s ∖ {[key]}) s) []
  | LCloseUnlock, Nothing => release Done s
  | _, _ => Blocked
  end.

(** [SendFailoverMsg] does not take the lock. *)
Definition sender_move (inp : input) (g : goroutine) (s : shared) : move :=
  match g, inp with
  | SCheck m, Nothing => Moves (if bool_decide (em_ip m ∈ sh_keys s) then Done else SInsert m) s []
  | SInsert m, Nothing => Moves (SSend m) (insert_key m s) []
  | SSend m, Nothing => send m Done s
  | _, _ => Blocked
  end.

(** The loop of [producer] over the pods it listed. *)
Definition producer_move (i : nat) (inp : input) (g : goroutine) (s : shared) : move :=
  match g, inp with
  | PNext [], Nothing => Moves Done s []
  | PNext (p :: pods), Nothing => acquire i (PCheck p pods) s
  | PCheck p pods, Nothing =>
      Moves (if bool_decide (pm_key p ∈ sh_sentinels s) then PUnlock pods else PSpawn p pods) s []
  | PSpawn p pods, Nothing =>
      Moves (PUnlock pods) (set_sentinels ({[pm_key p]} ∪ sh_sentinels s) s) [LWait (pm_key p) (pm_systemId p)]
  | PUnlock pods, Nothing => release (PNext pods) s
  | _, _ => Blocked
  end.

(** [for msg := range e.messages.message { go e.handleFailover(msg) }] *)
Definition consumer_move (inp : input) (g : goroutine) (s : shared) : move :=
  match g, inp with
  | Consumer, Nothing =>
      match sh_chan s with
      | [] => Blocked
      | m :: rest => Moves Consumer (set_chan rest s) [HLock m]
      end
  | _, _ => Blocked
  end.

Definition next_move (i : nat) (t : Z) (inp : input) (g : goroutine) (s : shared) : move :=
  match g with
  | Consumer => consumer_move inp g s
  | HLock _ | HBody _ | HDefer _ _ _ | HSend _ | HDelete _ | HUnlock => handler_move i t inp g s
  | LWait _ _ | LLock _ _ _ _ | LBuild _ _ _ _ | LCheck _ _ _ | LInsert _ _ _ | LSend _ _ _ | LUnlock _ _
  | LCloseLock _ | LCloseDelete _ | LCloseUnlock => listener_move i t inp g s
  | SCheck _ | SInsert _ | SSend _ => sender_move inp g s
  | PNext _ | PCheck _ _ | PSpawn _ _ | PUnlock _ => producer_move i inp g s
  | Done => Blocked
  end.

(** ** The process *)

Record process := {
  pr_shared : shared;
  pr_procs : list goroutine;
  pr_clock : Z;
  pr_crashed : bool;
}.

(** After [event.Run] started. *)
Definition process0 (t : Z) : process :=
  {| pr_shared := shared0; pr_procs := [Consumer]; pr_clock := t; pr_crashed := false |}.

(** What happens next: goroutine [i] moves; the schedule starts the producer
    with the pods it lists; a reconciliation reports a node; time passes. *)
Inductive event_label : Type :=
| Go (i : nat) (inp : input)
| Cron (pods : list produceMessage)
| Report (ip : string) (key : NamespacedName) (partition : Z)
| Tick (d : N).

Definition spawn (g : goroutine) (p : process) : process :=
  {| pr_shared := pr_shared p; pr_procs := pr_procs p ++ [g]; pr_clock := pr_clock p; pr_crashed := pr_crashed p |}.

Definition reported (t : Z) (ip : string) (key : NamespacedName) (partition : Z) : eventMessage :=
  {| em_ip := ip; em_port := Itoa KVRocksPort; em_key := key; em_partition := partition; em_timeout := t + FailoverTimeout |}.

Definition go (i : nat) (inp : input) (p : process) : option process :=
  match pr_procs p !! i with
  | None => None
  | Some g =>
      match next_move i (pr_clock p) inp g (pr_shared p) with
      | Blocked => None
      | Moves g' s started =>
          Some {| pr_shared := s; pr_procs := <[i := g']> (pr_procs p) ++ started;
                  pr_clock := pr_clock p; pr_crashed := false |}
      | Crashes => Some {| pr_shared := pr_shared p; pr_procs := pr_procs p; pr_clock := pr_clock p; pr_crashed := true |}
      end
  end.

Definition exec (l : event_label) (p : process) : option process :=
  if pr_crashed p then None
  else
    match l with
    | Go i inp => go i inp p
    | Cron pods => Some (spawn (PNext pods) p)
    | Report ip key partition => Some (spawn (SCheck (reported (pr_clock p) ip key partition)) p)
    | Tick d => Some {| pr_shared := pr_shared p; pr_procs := pr_procs p; pr_clock := pr_clock p + Z.of_N d; pr_crashed := false |}
    end.

(** A run of the process along the labels. *)
Fixpoint run_labels (ls : list event_label) (p : process) : option process :=
  match ls with
  | [] => Some p
  | l :: rest => match exec l p with Some p' => run_labels rest p' | None => None end
  end.

Definition proc_step (p p' : process) : Prop := exists l, exec l p = Some p'.

Definition reachable (p : process) : Prop := exists t, rtc proc_step (process0 t) p.
