(* ===== verification/EventLoopProps.v ===== *)
(** * Properties of the goroutines of the failover events

    Invariants of every interleaving by induction on the steps of the process
    (the mutex, the registered addresses, the bounds of the channel), and that
    the failovers in progress refine an abstract machine. *)

From S2P Require Import Prelude GoStd Types Resources Env K8sClient Events EventLoop.
Local Open Scope Z_scope.

(** ** Shared lemmas *)

(** One position of a list taken out, up to the order. *)
Lemma bind_insert_perm {A B} (f : A -> list B) (l : list A) i x :
  l !! i = Some x ->
  l ≫= f ≡ₚ f x ++ (delete i l ≫= f) /\ forall y, <[i := y]> l ≫= f ≡ₚ f y ++ (delete i l ≫= f).
Proof.
  revert i. induction l as [|a l IH]; intros [|i] Hi; simplify_eq/=; [done|].
  destruct (IH i Hi) as [H1 H2]. split; [|intros y; rewrite H2]; [rewrite H1|]; by rewrite !app_assoc, (Permutation_app_comm (f a)).
Qed.

(** The ways a goroutine moves. *)
Ltac move_cases H :=
  match type of H with
  | next_move _ _ ?inp ?g _ = _ =>
      destruct g, inp; cbn in H; unfold acquire, release, send in H;
      repeat (case_match; try discriminate); try discriminate; injection H as <- <- <-; cbn
  end.

(** An invariant of the shared state and the goroutines. *)
Section invariance.
Context (Inv : shared -> list goroutine -> Prop) (reports : bool).

(** The steps of the process; without [reports], those that are no reports
    of a reconciliation. *)
Definition allowed (l : event_label) : Prop :=
  match l with
  | Report _ _ _ => reports = true
  | _ => True
  end.
Definition allowed_step (p p' : process) : Prop := exists l, allowed l /\ exec l p = Some p'.

Hypothesis Hinit : Inv shared0 [Consumer].
Hypothesis Hcron : forall sh procs pods, Inv sh procs -> Inv sh (procs ++ [PNext pods]).
Hypothesis Hreport : forall sh procs m, reports = true -> Inv sh procs -> Inv sh (procs ++ [SCheck m]).
Hypothesis Hmove : forall sh procs i t inp g g' sh' started,
  Inv sh procs -> procs !! i = Some g -> next_move i t inp g sh = Moves g' sh' started ->
  Inv sh' (<[i := g']> procs ++ started).

Lemma invariant_step p p' : Inv (pr_shared p) (pr_procs p) -> allowed_step p p' -> Inv (pr_shared p') (pr_procs p').
Proof.
  intros HI (l & Hl & He). unfold exec in He. destruct (pr_crashed p); [done|].
  destruct l as [i inp|pods|ip key part|d]; simplify_eq/=; auto.
  unfold go in He. destruct (pr_procs p !! i) as [g|] eqn:Eg; [|done].
  destruct (next_move _ _ _ _ _) as [|g' s st|] eqn:Em; simplify_eq/=; eauto.
Qed.

Lemma invariant_holds t p : rtc allowed_step (process0 t) p -> Inv (pr_shared p) (pr_procs p).
Proof.
  intros Hr. assert (Hgen : forall q, Inv (pr_shared q) (pr_procs q) -> rtc allowed_step q p -> Inv (pr_shared p) (pr_procs p)).
  { intros q Hq Hqp. induction Hqp as [q|q q' p' Hs _ IH]; [done|]. apply IH; [done|]. by eapply invariant_step. }
  by apply (Hgen (process0 t)).
Qed.
End invariance.

Lemma reachable_allowed p : reachable p -> exists t, rtc (allowed_step true) (process0 t) p.
Proof.
  intros [t Hr]. exists t. eapply rtc_subrel; [|exact Hr]. intros q q' [l Hl]. exists l. split; [by destruct l|done].
Qed.

Lemma always (Inv : shared -> list goroutine -> Prop) p :
  Inv shared0 [Consumer] -> (forall sh procs pods, Inv sh procs -> Inv sh (procs ++ [PNext pods])) ->
  (forall sh procs m, Inv sh procs -> Inv sh (procs ++ [SCheck m])) ->
  (forall sh procs i t inp g g' sh' started, Inv sh procs -> procs !! i = Some g ->
     next_move i t inp g sh = Moves g' sh' started -> Inv sh' (<[i := g']> procs ++ started)) ->
  reachable p -> Inv (pr_shared p) (pr_procs p).
Proof. intros Hi Hc Hrep Hm Hr. destruct (reachable_allowed p Hr) as [t Ht]. by apply (invariant_holds Inv true) with t; auto. Qed.

(** ** The mutex *)

Definition mutex_inv (sh : shared) (procs : list goroutine) : Prop :=
  (forall j, sh_lock sh = Some j -> is_Some (procs !! j)) /\
  (forall j g, procs !! j = Some g -> holds g = true <-> sh_lock sh = Some j).

Lemma mutex_move i t inp g sh g' sh' started :
  next_move i t inp g sh = Moves g' sh' started ->
  Forall (fun g => holds g = false) started /\
  ((holds g = holds g' /\ sh_lock sh' = sh_lock sh) \/
   (holds g' = true /\ sh_lock sh = None /\ sh_lock sh' = Some i) \/
   (holds g = true /\ holds g' = false /\ sh_lock sh' = None)).
Proof. intros Hm. move_cases Hm; (split; [by repeat constructor|]); auto. Qed.

Lemma mutex_spawn sh procs started :
  Forall (fun g => holds g = false) started -> mutex_inv sh procs -> mutex_inv sh (procs ++ started).
Proof.
  intros Hst [Hl Hh]. split.
  - intros j Hj. destruct (Hl j Hj) as [g Hg]. exists g. by apply lookup_app_l_Some.
  - intros j g [Hg|[Hj Hg]]%lookup_app_Some; [by apply Hh|].
    rewrite Forall_lookup in Hst. rewrite (Hst _ _ Hg). split; [done|].
    intros Hl'. destruct (Hl j Hl') as [g' Hg']. apply lookup_lt_Some in Hg'. lia.
Qed.

Lemma mutex_kept sh procs i t inp g g' sh' started :
  mutex_inv sh procs -> procs !! i = Some g -> next_move i t inp g sh = Moves g' sh' started ->
  mutex_inv sh' (<[i := g']> procs ++ started).
Proof.
  intros [Hl Hh] Hi Hm. apply mutex_move in Hm as [Hst Hm]. apply mutex_spawn; [done|].
  assert (Hlt : (i < length procs)%nat) by (by eapply lookup_lt_Some). split.
  - intros j Hj. destruct (decide (i = j)) as [<-|Hne]; [rewrite list_lookup_insert_eq by done; eauto|].
    rewrite list_lookup_insert_ne by done. apply Hl. destruct Hm as [[_ <-]|[(_ & _ & E)|(_ & _ & E)]]; congruence.
  - intros j x. destruct (decide (i = j)) as [<-|Hne].
    + rewrite list_lookup_insert_eq by done. intros [= <-]. specialize (Hh i g Hi).
      destruct Hm as [[<- ->]|[(-> & _ & ->)|(_ & -> & ->)]]; [done|done|split; done].
    + rewrite list_lookup_insert_ne by done. intros Hx. rewrite (Hh j x Hx).
      destruct Hm as [[_ ->]|[(_ & -> & ->)|(Hg & _ & ->)]]; [done|split; [done|congruence]|].
      apply (Hh i g Hi) in Hg. rewrite Hg. split; congruence.
Qed.

Lemma mutex_reachable p : reachable p -> mutex_inv (pr_shared p) (pr_procs p).
Proof.
  apply always.
  - split; [done|]. intros [|j] g Hg; simplify_eq/=; done.
  - intros sh procs pods. apply mutex_spawn. by repeat constructor.
  - intros sh procs m. apply mutex_spawn. by repeat constructor.
  - apply mutex_kept.
Qed.

(** ** Messages in progress *)

(** The message a goroutine has registered and neither sent nor finished. *)
Definition carries (g : goroutine) : list eventMessage :=
  match g with
  | HLock m | HBody m | HDefer m _ _ | HSend m | HDelete m | LSend _ _ m | SSend m => [m]
  | _ => []
  end.

(** Every message in progress: in the channel or carried by a goroutine. *)
Definition in_progress (sh : shared) (procs : list goroutine) : list eventMessage := sh_chan sh ++ (procs ≫= carries).
Definition addresses (sh : shared) (procs : list goroutine) : list string := em_ip <$> in_progress sh procs.

(** About to register: the test found no entry. *)
Definition registering (g : goroutine) : option eventMessage :=
  match g with
  | LInsert _ _ m | SInsert m => Some m
  | _ => None
  end.

Lemma in_progress_spawn sh procs g : carries g = [] -> in_progress sh (procs ++ [g]) = in_progress sh procs.
Proof. intros Hg. unfold in_progress. rewrite bind_app. cbn. by rewrite Hg, !app_nil_r. Qed.

(** A move passes messages on, registers one, or finishes one. *)
Inductive progress_move (sh sh' : shared) (procs procs' : list goroutine) : Prop :=
| pm_same :
    in_progress sh' procs' ≡ₚ in_progress sh procs -> sh_keys sh' = sh_keys sh -> progress_move sh sh' procs procs'
| pm_start i g m :
    procs !! i = Some g -> registering g = Some m ->
    in_progress sh' procs' ≡ₚ m :: in_progress sh procs -> sh_keys sh' = {[em_ip m]} ∪ sh_keys sh ->
    progress_move sh sh' procs procs'
| pm_finish i m :
    procs !! i = Some (HDelete m) ->
    m :: in_progress sh' procs' ≡ₚ in_progress sh procs -> sh_keys sh' = sh_keys sh ∖ {[em_ip m]} ->
    progress_move sh sh' procs procs'.

Lemma carries_move i t inp g sh g' sh' started :
  next_move i t inp g sh = Moves g' sh' started ->
  let after := sh_chan sh' ++ carries g' ++ (started ≫= carries) in
  let before := sh_chan sh ++ carries g in
  (after ≡ₚ before /\ sh_keys sh' = sh_keys sh) \/
  (exists m, registering g = Some m /\ after ≡ₚ m :: before /\ sh_keys sh' = {[em_ip m]} ∪ sh_keys sh) \/
  (exists m, g = HDelete m /\ m :: after ≡ₚ before /\ sh_keys sh' = sh_keys sh ∖ {[em_ip m]}).
Proof.
  intros Hm. move_cases Hm; rewrite ?app_nil_r.
  all: try (left; split; [done|done]).
  all: try (left; split; [by rewrite ?H, Permutation_app_comm|done]).
  all: right; try (left; eexists; split; [done|]; split; [by rewrite Permutation_app_comm|done]).
  right. eexists. split; [done|]. split; [by rewrite Permutation_app_comm|done].
Qed.

Lemma classify_move sh procs i t inp g g' sh' started :
  procs !! i = Some g -> next_move i t inp g sh = Moves g' sh' started ->
  progress_move sh sh' procs (<[i := g']> procs ++ started).
Proof.
  intros Hi Hm. destruct (bind_insert_perm carries procs i g Hi) as [H1 H2].
  set (rest := delete i procs ≫= carries) in *.
  assert (Hp : in_progress sh procs ≡ₚ (sh_chan sh ++ carries g) ++ rest)
    by (unfold in_progress; by rewrite H1, app_assoc).
  assert (Hp' : in_progress sh' (<[i := g']> procs ++ started) ≡ₚ (sh_chan sh' ++ carries g' ++ (started ≫= carries)) ++ rest).
  { unfold in_progress. by rewrite bind_app, H2, <- !app_assoc, (Permutation_app_comm rest). }
  destruct (carries_move _ _ _ _ _ _ _ _ Hm) as [[E Hk]|[(m & Hg & E & Hk)|(m & -> & E & Hk)]].
  - apply pm_same; [by rewrite Hp', Hp, E|done].
  - eapply pm_start; [done..| |done]. by rewrite Hp', Hp, E.
  - eapply pm_finish; [done| |done]. by rewrite Hp', Hp, <- E.
Qed.

(** A registered address has a message in progress. *)
Definition registered_inv (sh : shared) (procs : list goroutine) : Prop :=
  forall ip, ip ∈ sh_keys sh -> ip ∈ addresses sh procs.

Lemma registered_kept sh procs i t inp g g' sh' started :
  registered_inv sh procs -> procs !! i = Some g -> next_move i t inp g sh = Moves g' sh' started ->
  registered_inv sh' (<[i := g']> procs ++ started).
Proof.
  intros Hinv Hi Hm ip. unfold registered_inv, addresses in *.
  destruct (classify_move _ _ _ _ _ _ _ _ _ Hi Hm) as [E ->|j h m _ _ E ->|j m _ E ->].
  - rewrite E. apply Hinv.
  - rewrite E, fmap_cons, elem_of_union, elem_of_singleton, elem_of_cons. naive_solver.
  - rewrite elem_of_difference, elem_of_singleton. intros [Hip Hne]. specialize (Hinv ip Hip).
    rewrite <- E, fmap_cons, elem_of_cons in Hinv. naive_solver.
Qed.

Lemma registered_reachable p : reachable p -> registered_inv (pr_shared p) (pr_procs p).
Proof.
  apply always; [by intros ip ?%elem_of_empty| | |apply registered_kept].
  all: intros sh procs m Hinv ip Hip; unfold addresses; rewrite in_progress_spawn by done; by apply Hinv.
Qed.

(** ** Exclusive failovers

    Without the reports of reconciliations every access to the addresses is
    made under the lock. *)

Definition local_ok (sh : shared) (g : goroutine) : Prop :=
  match g with
  | SCheck _ | SInsert _ | SSend _ => False
  | LInsert _ _ m => em_ip m ∉ sh_keys sh
  | _ => True
  end.

Definition exclusive_inv (sh : shared) (procs : list goroutine) : Prop :=
  mutex_inv sh procs /\ NoDup (addresses sh procs) /\
  (forall ip, ip ∈ sh_keys sh <-> ip ∈ addresses sh procs) /\
  Forall (local_ok sh) procs.

Lemma local_move i t inp g sh g' sh' started :
  next_move i t inp g sh = Moves g' sh' started -> local_ok sh g ->
  local_ok sh' g' /\ Forall (fun x => holds x = false /\ local_ok sh' x) started /\ (sh_keys sh' = sh_keys sh \/ holds g = true).
Proof.
  intros Hm Hg. move_cases Hm; try done.
  all: try (split; [done|]; (split; [by repeat constructor|]); auto).
  apply bool_decide_eq_false in H. split; [done|]. split; [constructor|auto].
Qed.

(** Goroutines that do not hold the lock are indifferent to the addresses. *)
Lemma local_free sh sh' g : holds g = false -> local_ok sh g -> local_ok sh' g.
Proof. by destruct g. Qed.

Lemma local_kept sh procs i t inp g g' sh' started :
  mutex_inv sh procs -> Forall (local_ok sh) procs -> procs !! i = Some g ->
  next_move i t inp g sh = Moves g' sh' started -> Forall (local_ok sh') (<[i := g']> procs ++ started).
Proof.
  intros [_ Hh] Hl Hi Hm. rewrite Forall_lookup in Hl.
  destruct (local_move _ _ _ _ _ _ _ _ Hm (Hl i g Hi)) as (Hg' & Hst & Hk).
  apply Forall_app. split; [|eapply Forall_impl; [exact Hst|]; naive_solver].
  apply Forall_lookup. intros j x. destruct (decide (i = j)) as [<-|Hne].
  - rewrite list_lookup_insert_eq by (by eapply lookup_lt_Some). by intros [= <-].
  - rewrite list_lookup_insert_ne by done. intros Hx. pose proof (Hl j x Hx) as Hlx.
    destruct Hk as [Hk|Hk]; [destruct x; cbn in *; congruence|]. apply (local_free sh); [|done].
    apply (Hh i g Hi) in Hk. destruct (holds x) eqn:Ex; [|done]. apply (Hh j x Hx) in Ex. congruence.
Qed.

Lemma exclusive_kept sh procs i t inp g g' sh' started :
  exclusive_inv sh procs -> procs !! i = Some g -> next_move i t inp g sh = Moves g' sh' started ->
  exclusive_inv sh' (<[i := g']> procs ++ started).
Proof.
  intros (Hmx & Hnd & Hk & Hl) Hi Hm. split; [by eapply mutex_kept|].
  enough (NoDup (addresses sh' (<[i := g']> procs ++ started)) /\
    forall ip, ip ∈ sh_keys sh' <-> ip ∈ addresses sh' (<[i := g']> procs ++ started)) as [? ?]
    by (split; [done|]; split; [done|]; by eapply local_kept).
  unfold addresses in *.
  destruct (classify_move _ _ _ _ _ _ _ _ _ Hi Hm) as [E ->|j h m Hj Hr E ->|j m _ E ->].
  - rewrite E. split; [done|]. intros ip. rewrite E. apply Hk.
  - rewrite Forall_lookup in Hl. specialize (Hl j h Hj). assert (Hfresh : em_ip m ∉ sh_keys sh) by (destruct h; naive_solver).
    rewrite E, fmap_cons. split; [constructor; [by rewrite <- Hk|done]|].
    intros ip. rewrite E, fmap_cons, elem_of_union, elem_of_singleton, elem_of_cons, Hk. done.
  - rewrite <- E, fmap_cons in Hnd. apply NoDup_cons in Hnd as [Hm' Hnd]. split; [done|]. intros ip.
    rewrite elem_of_difference, elem_of_singleton, Hk, <- E, fmap_cons, elem_of_cons. naive_solver.
Qed.

Lemma exclusive_reachable t p : rtc (allowed_step false) (process0 t) p -> exclusive_inv (pr_shared p) (pr_procs p).
Proof.
  apply (invariant_holds exclusive_inv false); [| |done|].
  - split; [split; [done|]; intros [|j] g Hg; simplify_eq/=; done|]. split; [constructor|]. split; [set_solver|by repeat constructor].
  - intros sh procs pods (Hmx & Hnd & Hk & Hl). split; [apply mutex_spawn; [by repeat constructor|done]|].
    unfold addresses in *. rewrite in_progress_spawn by done. split; [done|]. split; [done|].
    apply Forall_app. split; [done|by repeat constructor].
  - apply exclusive_kept.
Qed.

(** C2: whatever the order in which listeners, handlers, the consumer and the
    producer run, as long as no reconciliation reports a node, at most one
    failover per address is in progress, counting the channel, listeners that
    are about to send and running handlers; and an address is registered
    exactly while it has one. *)
Theorem one_failover_in_progress t p :
  rtc (allowed_step false) (process0 t) p ->
  NoDup (addresses (pr_shared p) (pr_procs p)) /\
  forall ip, ip ∈ sh_keys (pr_shared p) <-> ip ∈ addresses (pr_shared p) (pr_procs p).
Proof. intros Hr. by apply exclusive_reachable in Hr as (_ & ? & ? & _). Qed.

(** ** The life of a failover

    The abstract machine: every address has at most one failover, with its
    message and the phase it is in. *)

Inductive phase : Type :=
| Sending
| Queued
| Handling
| Decided (err : option goerr) (requeue : bool)
| Retrying
| Closing.

(** How a failover with the message [m] goes on at time [t]: it is queued,
    taken by a handler, which returns; before the deadline an error that allows
    it is retried, anything else closes the failover. *)
Inductive phase_step (t : Z) (m : eventMessage) : phase -> phase -> Prop :=
| ph_queue : phase_step t m Sending Queued
| ph_take : phase_step t m Queued Handling
| ph_return err requeue : phase_step t m Handling (Decided err requeue)
| ph_retry e : t < em_timeout m -> phase_step t m (Decided (Some e) true) Retrying
| ph_close err requeue :
    err = None \/ requeue = false \/ em_timeout m <= t -> phase_step t m (Decided err requeue) Closing
| ph_requeue : phase_step t m Retrying Queued.

Abbreviation lives := (gmap string (eventMessage * phase)).

(** A failover is started for an address that has none, goes on, or is
    finished once it was closed. *)
Inductive life_step (t : Z) (a : lives) : lives -> Prop :=
| life_stay : life_step t a a
| life_start m : a !! em_ip m = None -> life_step t a (<[em_ip m := (m, Sending)]> a)
| life_go ip m ph ph' :
    a !! ip = Some (m, ph) -> phase_step t m ph ph' -> life_step t a (<[ip := (m, ph')]> a)
| life_finish ip m : a !! ip = Some (m, Closing) -> life_step t a (delete ip a).

(** The failovers of the process, with their phases. *)
Definition tagged (ph : phase) (m : eventMessage) : string * (eventMessage * phase) := (em_ip m, (m, ph)).
Definition phase_of (g : goroutine) : list (string * (eventMessage * phase)) :=
  match g with
  | LSend _ _ m | SSend m => [tagged Sending m]
  | HLock m | HBody m => [tagged Handling m]
  | HDefer m err requeue => [tagged (Decided err requeue) m]
  | HSend m => [tagged Retrying m]
  | HDelete m => [tagged Closing m]
  | _ => []
  end.
Definition entries (sh : shared) (procs : list goroutine) : list (string * (eventMessage * phase)) :=
  (tagged Queued <$> sh_chan sh) ++ (procs ≫= phase_of).
Definition life (p : process) : lives := list_to_map (entries (pr_shared p) (pr_procs p)).

Lemma phase_of_ip g : (phase_of g).*1 = em_ip <$> carries g.
Proof. by destruct g. Qed.

Lemma entries_addresses sh procs : (entries sh procs).*1 = addresses sh procs.
Proof.
  unfold entries, addresses, in_progress. rewrite !fmap_app, <- list_fmap_compose. f_equal.
  induction procs as [|g procs IH]; [done|]. cbn. by rewrite !fmap_app, IH, phase_of_ip.
Qed.

(** What a list of tagged failovers becomes in a step. *)
Inductive entry_step (t : Z) (before after : list (string * (eventMessage * phase))) : Prop :=
| es_stay : after ≡ₚ before -> entry_step t before after
| es_start m : after ≡ₚ tagged Sending m :: before -> entry_step t before after
| es_go m ph ph' rest :
    before ≡ₚ tagged ph m :: rest -> after ≡ₚ tagged ph' m :: rest -> phase_step t m ph ph' -> entry_step t before after
| es_finish m rest : before ≡ₚ tagged Closing m :: rest -> after ≡ₚ rest -> entry_step t before after.

Lemma resends_step t m err requeue :
  phase_step t m (Decided err requeue) (if resends t m err requeue then Retrying else Closing).
Proof.
  unfold resends. destruct err as [e|], requeue; rewrite ?andb_false_r; cbn; try (by apply ph_close; auto).
  rewrite andb_true_r. destruct (Z.ltb_spec t (em_timeout m)); [by apply ph_retry|apply ph_close; auto].
Qed.

Lemma es_last t l m ph ph' : phase_step t m ph ph' -> entry_step t (l ++ [tagged ph m]) (l ++ [tagged ph' m]).
Proof. intros Hs. apply (es_go _ _ _ m ph ph' l); [apply Permutation_app_comm|apply Permutation_app_comm|done]. Qed.
Lemma es_new t l m : entry_step t l (l ++ [tagged Sending m]).
Proof. apply (es_start _ _ _ m). apply Permutation_app_comm. Qed.
Lemma es_gone t l m : entry_step t (l ++ [tagged Closing m]) l.
Proof. apply (es_finish _ _ _ m l); [apply Permutation_app_comm|done]. Qed.

Lemma entry_move i t inp g sh g' sh' started :
  next_move i t inp g sh = Moves g' sh' started ->
  entry_step t ((tagged Queued <$> sh_chan sh) ++ phase_of g)
               ((tagged Queued <$> sh_chan sh') ++ phase_of g' ++ (started ≫= phase_of)).
Proof.
  intros Hm. move_cases Hm; rewrite ?app_nil_r, ?fmap_app; try (by apply es_stay).
  all: try (apply es_new || apply es_gone).
  all: try (match goal with H : resends _ _ _ _ = ?b |- _ => pose proof (resends_step t m err requeue) as Hs; rewrite H in Hs end).
  all: try (apply es_last; first [done|constructor]).
  apply (es_go _ _ _ e Queued Handling (tagged Queued <$> l)); [done|apply Permutation_app_comm|constructor].
Qed.

Lemma entry_frame t before after rest :
  entry_step t before after -> entry_step t (before ++ rest) (after ++ rest).
Proof.
  intros [E|m E|m ph ph' r E E' Hs|m r E E'].
  - apply es_stay. by rewrite E.
  - apply (es_start _ _ _ m). by rewrite E.
  - apply (es_go _ _ _ m ph ph' (r ++ rest)); [by rewrite E|by rewrite E'|done].
  - apply (es_finish _ _ _ m (r ++ rest)); [by rewrite E|by rewrite E'].
Qed.

Lemma entries_move sh procs i t inp g g' sh' started :
  procs !! i = Some g -> next_move i t inp g sh = Moves g' sh' started ->
  entry_step t (entries sh procs) (entries sh' (<[i := g']> procs ++ started)).
Proof.
  intros Hi Hm. destruct (bind_insert_perm phase_of procs i g Hi) as [H1 H2].
  set (rest := delete i procs ≫= phase_of) in *.
  assert (Hp : entries sh procs ≡ₚ ((tagged Queued <$> sh_chan sh) ++ phase_of g) ++ rest)
    by (unfold entries; by rewrite H1, app_assoc).
  assert (Hp' : entries sh' (<[i := g']> procs ++ started) ≡ₚ
    ((tagged Queued <$> sh_chan sh') ++ phase_of g' ++ (started ≫= phase_of)) ++ rest).
  { unfold entries. by rewrite bind_app, H2, <- !app_assoc, (Permutation_app_comm rest). }
  pose proof (entry_frame _ _ _ rest (entry_move _ _ _ _ _ _ _ _ Hm)) as [E|m E|m ph ph' r E E' Hs|m r E E'].
  - apply es_stay. by rewrite Hp', Hp.
  - apply (es_start _ _ _ m). by rewrite Hp', Hp.
  - apply (es_go _ _ _ m ph ph' r); [by rewrite Hp|by rewrite Hp'|done].
  - apply (es_finish _ _ _ m r); [by rewrite Hp|by rewrite Hp'].
Qed.

(** Seen as maps, when no address occurs twice. *)
Lemma life_of_entries t (before after : list (string * (eventMessage * phase))) :
  NoDup before.*1 -> NoDup after.*1 -> entry_step t before after ->
  life_step t (list_to_map before) (list_to_map after).
Proof.
  intros Hb Ha Hstep.
  assert (Hmap : forall l k : list (string * (eventMessage * phase)), NoDup l.*1 -> l ≡ₚ k -> (list_to_map l : lives) = list_to_map k)
    by (intros l k; apply list_to_map_proper).
  destruct Hstep as [E|m E|m ph ph' r E E' Hs|m r E E'].
  - rewrite (Hmap after before) by done. constructor.
  - rewrite (Hmap after _ Ha E). apply life_start. apply not_elem_of_list_to_map_1.
    rewrite E in Ha. by apply NoDup_cons in Ha as [? _].
  - rewrite (Hmap before _ Hb E), (Hmap after _ Ha E'). cbn.
    pose proof (life_go t (<[em_ip m := (m, ph)]> (list_to_map r)) (em_ip m) m ph ph' (lookup_insert_eq _ _ _) Hs) as Hg.
    by rewrite insert_insert_eq in Hg.
  - rewrite (Hmap before _ Hb E), (Hmap after _ Ha E'). cbn.
    rewrite E in Hb. apply NoDup_cons in Hb as [Hn _].
    pose proof (life_finish t (<[em_ip m := (m, Closing)]> (list_to_map r)) (em_ip m) m (lookup_insert_eq _ _ _)) as Hf.
    rewrite delete_insert_id in Hf; [done|]. by apply not_elem_of_list_to_map_1.
Qed.

(** C13: the process refines the abstract machine.  In every run without
    reports of reconciliations, the failovers in progress, each in the phase
    its goroutine is in, form a state of the machine: no address has two, and
    the registered addresses are exactly those that have one; and every step
    of the process (without a report) is a step of the machine: a failover
    starts for an address that has none, goes through its phases in order, is
    retried only before its deadline and for an error that allows it, and
    ends only after a handler closed it. *)
Theorem failover_lifecycle t p :
  rtc (allowed_step false) (process0 t) p ->
  map_to_list (life p) ≡ₚ entries (pr_shared p) (pr_procs p) /\
  dom (life p) = sh_keys (pr_shared p) /\
  forall p', allowed_step false p p' -> life_step (pr_clock p) (life p) (life p').
Proof.
  intros Hr. destruct (exclusive_reachable t p Hr) as (_ & Hnd & Hk & _). rewrite <- entries_addresses in Hnd.
  split; [by apply map_to_list_to_map|]. split.
  { apply set_eq. intros ip. unfold life. rewrite dom_list_to_map, elem_of_list_to_set, Hk. by rewrite entries_addresses. }
  intros p' Hs. assert (Hr' : rtc (allowed_step false) (process0 t) p') by (by eapply rtc_r).
  destruct (exclusive_reachable t p' Hr') as (_ & Hnd' & _ & _). rewrite <- entries_addresses in Hnd'.
  apply life_of_entries; [done|done|]. destruct Hs as (l & Hall & Hx). unfold exec in Hx.
  destruct (pr_crashed p); [done|]. destruct l as [i inp|pods|ip key part|d]; simplify_eq/=; try by apply es_stay.
  - unfold go in Hx. destruct (pr_procs p !! i) as [g|] eqn:Hi; [|done].
    destruct (next_move _ _ _ _ _) as [|g' s st|] eqn:Em; simplify_eq/=; [by eapply entries_move|by apply es_stay].
  - apply es_stay. unfold entries. cbn. by rewrite bind_app, !app_nil_r.
Qed.

(** ** The bounds of every interleaving *)

Definition channel_inv (sh : shared) (procs : list goroutine) : Prop :=
  (length (sh_chan sh) <= chan_cap)%nat /\ procs !! 0%nat = Some Consumer.

Lemma channel_kept sh procs i t inp g g' sh' started :
  channel_inv sh procs -> procs !! i = Some g -> next_move i t inp g sh = Moves g' sh' started ->
  channel_inv sh' (<[i := g']> procs ++ started).
Proof.
  intros [Hc H0] Hi Hm. assert (Hsh : (length (sh_chan sh') <= chan_cap)%nat /\ (g = Consumer -> g' = Consumer)).
  { move_cases Hm; try done; split; try done.
    all: rewrite ?length_app; cbn in Hc |- *; try (match goal with H : (_ <? _)%nat = true |- _ => apply Nat.ltb_lt in H end); lia. }
  destruct Hsh as [Hc' Hg]. split; [done|]. apply lookup_app_l_Some.
  destruct i as [|i]; [rewrite list_lookup_insert_eq by (by eapply lookup_lt_Some); f_equal; apply Hg; congruence|].
  by rewrite list_lookup_insert_ne.
Qed.

Lemma channel_reachable p : reachable p -> channel_inv (pr_shared p) (pr_procs p).
Proof.
  apply always; [split; [unfold chan_cap; simpl; lia|done]| | |apply channel_kept].
  all: intros sh procs m [Hc H0]; split; [done|by apply lookup_app_l_Some].
Qed.

(** C22: in every interleaving, reports included: at most one goroutine is in
    a section protected by the lock, the channel holds at most 1000 messages,
    and an address never stays registered without a failover in progress, so
    no address is barred from failing over for ever. *)
Theorem event_loop_bounds p :
  reachable p ->
  (forall i j gi gj, pr_procs p !! i = Some gi -> pr_procs p !! j = Some gj -> holds gi = true -> holds gj = true -> i = j) /\
  (length (sh_chan (pr_shared p)) <= chan_cap)%nat /\
  forall ip, ip ∈ sh_keys (pr_shared p) -> ip ∈ addresses (pr_shared p) (pr_procs p).
Proof.
  intros Hr. split; [|split; [apply (channel_reachable p Hr)|by apply registered_reachable]].
  intros i j gi gj Hi Hj Hgi Hgj. destruct (mutex_reachable p Hr) as [_ Hh].
  apply (Hh i gi Hi) in Hgi. apply (Hh j gj Hj) in Hgj. congruence.
Qed.
