(* ===== verification/EventLoopLive.v ===== *)
(** * Liveness of the goroutines of the failover events

    No interleaving deadlocks; once the deadlines of the messages have passed
    the loop drains, whatever the handlers return; a sentinel pod has one
    listener; and the race of the reports that take no lock. *)

From S2P Require Import Prelude GoStd Types Resources Env K8sClient Events EventLoop EventLoopProps.
Local Open Scope Z_scope.

(** ** Freedom from deadlock *)

(** Goroutines that wait for the outside: for a message of the sentinel, for
    a message in the channel, or that have returned. *)
Definition idle (sh : shared) (g : goroutine) : bool :=
  match g with
  | Done | LWait _ _ => true
  | Consumer => bool_decide (sh_chan sh = [])
  | _ => false
  end.
Definition quiet (p : process) : Prop := Forall (fun g => idle (pr_shared p) g = true) (pr_procs p).

(** What a goroutine gets when nothing comes from outside the process: the
    answer of the body of a handler, which returned or panicked. *)
Definition inside (inp : input) : Prop :=
  match inp with
  | Nothing | BodyResult (Ok _) | BodyResult Panic => True
  | _ => False
  end.
Definition internal (p p' : process) : Prop := exists i inp, inside inp /\ exec (Go i inp) p = Some p'.

(** A goroutine that is not idle executes its next statement, or waits for
    the lock, or for room in the channel. *)
Lemma can_move i t g sh :
  idle sh g = false ->
  (exists inp, inside inp /\ next_move i t inp g sh <> Blocked) \/
  (holds g = false /\ sh_lock sh <> None) \/ (chan_cap <= length (sh_chan sh))%nat.
Proof.
  intros Hi. destruct (sh_lock sh) as [j|] eqn:El, (Nat.ltb_spec (length (sh_chan sh)) chan_cap) as [Hlt|Hge]; [|by auto|..|by auto].
  all: apply Nat.ltb_lt in Hlt; destruct g; try discriminate Hi.
  all: try (right; left; by rewrite ?El).
  all: left; try (exists (BodyResult (Ok (None, true))); by split).
  all: exists Nothing; (split; [exact I|]); cbn; unfold acquire, send, release; rewrite ?El, ?Hlt; try done.
  all: try (by destruct (odown_message _ _ _)); try (by destruct pods).
  all: cbn in Hi; apply bool_decide_eq_false in Hi; by destruct (sh_chan sh).
Qed.

Lemma moves_internal p i inp g :
  pr_crashed p = false -> pr_procs p !! i = Some g -> inside inp ->
  next_move i (pr_clock p) inp g (pr_shared p) <> Blocked -> exists p', internal p p'.
Proof.
  intros Hc Hi Hin Hm.
  assert (Hx : is_Some (exec (Go i inp) p)) by (unfold exec, go; rewrite Hc, Hi; by destruct (next_move _ _ _ _ _)).
  destruct Hx as [p' Hx]. by exists p', i, inp.
Qed.

(** The consumer makes room: it needs no lock. *)
Lemma consumer_moves p :
  reachable p -> pr_crashed p = false -> sh_chan (pr_shared p) <> [] -> exists p', internal p p'.
Proof.
  intros Hr Hc Hne. destruct (channel_reachable p Hr) as [_ H0].
  destruct (sh_chan (pr_shared p)) as [|m rest] eqn:Ech; [done|].
  eapply (moves_internal p 0 Nothing); [done|exact H0|exact I|]. cbn. by rewrite Ech.
Qed.

Lemma quiet_or_moves p :
  reachable p -> pr_crashed p = false -> quiet p \/ exists p', internal p p'.
Proof.
  intros Hr Hc. destruct (decide (quiet p)) as [Hq|Hq]; [by left|right].
  destruct (decide (sh_chan (pr_shared p) = [])) as [Ech|Ech]; [|by apply consumer_moves].
  assert (Hroom : ~ (chan_cap <= length (sh_chan (pr_shared p)))%nat) by (rewrite Ech; unfold chan_cap; simpl; lia).
  destruct (mutex_reachable p Hr) as [Hl Hh].
  destruct (sh_lock (pr_shared p)) as [j|] eqn:El.
  - destruct (Hl j eq_refl) as [g Hg]. pose proof (proj2 (Hh j g Hg) eq_refl) as Hhg.
    destruct (can_move j (pr_clock p) g (pr_shared p)) as [(inp & Hin & Hm)|[[? _]|?]];
      [by destruct g|by eapply moves_internal|congruence|done].
  - unfold quiet in Hq. apply not_Forall_Exists in Hq; [|solve_decision]. apply Exists_exists in Hq as (g & Hin & Hg).
    apply list_elem_of_lookup in Hin as [i Hi]. apply not_true_is_false in Hg.
    destruct (can_move i (pr_clock p) g (pr_shared p) Hg) as [(inp & Hinp & Hm)|[[_ ?]|?]];
      [by eapply moves_internal|done|done].
Qed.

(** C12: the goroutines never deadlock: in every reachable state of a process
    that runs, reports included, either some goroutine can move without
    anything from outside, or all of them have returned or wait for the
    outside: the sentinels, or the next message.  In particular sending to
    the full channel with the lock held blocks no one for ever. *)
Theorem never_deadlocks p :
  reachable p -> pr_crashed p = false -> quiet p \/ exists p', internal p p'.
Proof. apply quiet_or_moves. Qed.

Lemma never_deadlocks_witness :
  let p := spawn (SCheck (reported 0 "10.0.0.1" (NN "default" "demo") 0)) (process0 0) in
  quiet p \/ exists p', internal p p'.
Proof.
  intros p. apply (never_deadlocks p); [|reflexivity].
  exists 0. eapply rtc_l; [|apply rtc_refl]. exists (Report "10.0.0.1" (NN "default" "demo") 0). reflexivity.
Defined.

(** ** Deadlines *)

(** Every message a goroutine has at hand. *)
Definition mentions (g : goroutine) : list eventMessage :=
  match g with
  | HLock m | HBody m | HDefer m _ _ | HSend m | HDelete m
  | LCheck _ _ m | LInsert _ _ m | LSend _ _ m | SCheck m | SInsert m | SSend m => [m]
  | _ => []
  end.
Definition messages (sh : shared) (procs : list goroutine) : list eventMessage := sh_chan sh ++ (procs ≫= mentions).

(** A listener that has read a payload and not built its message yet, with
    the deadline counted from the time it does. *)
Definition stamping (g : goroutine) : bool :=
  match g with
  | LLock _ _ _ _ | LBuild _ _ _ _ => true
  | _ => false
  end.

(** A message is one there was before, or one whose 30 seconds start now. *)
Lemma mentions_move i t inp g sh g' sh' started :
  next_move i t inp g sh = Moves g' sh' started ->
  Forall (fun m => m ∈ sh_chan sh ++ mentions g \/
                   (em_timeout m = t + FailoverTimeout /\ (stamping g = true \/ ~ inside inp)))
    (sh_chan sh' ++ mentions g' ++ (started ≫= mentions)).
Proof.
  intros Hm. apply Forall_forall. intros m. move_cases Hm; rewrite ?app_nil_r, ?elem_of_app, ?list_elem_of_singleton.
  all: try (set_solver).
  intros [? | ->]; [by left|]. right. split; [|tauto].
  unfold odown_message in *. repeat case_match; simplify_eq/=; done.
Qed.

Definition at_hand (p : process) : list eventMessage := messages (pr_shared p) (pr_procs p).

Lemma at_hand_go p p' i inp m :
  exec (Go i inp) p = Some p' -> m ∈ at_hand p' ->
  m ∈ at_hand p \/
  (em_timeout m = pr_clock p + FailoverTimeout /\
   ((exists g, pr_procs p !! i = Some g /\ stamping g = true) \/ ~ inside inp)).
Proof.
  unfold exec, go. destruct (pr_crashed p); [done|]. destruct (pr_procs p !! i) as [g|] eqn:Hi; [|done].
  destruct (next_move _ _ _ _ _) as [|g' sh' st|] eqn:Hm; intros [= <-] Hin; [|by left].
  unfold at_hand, messages in *. cbn in Hin. apply mentions_move in Hm. rewrite Forall_forall in Hm.
  destruct (bind_insert_perm mentions (pr_procs p) i g Hi) as [H1 H2].
  rewrite bind_app, H2 in Hin. rewrite H1. specialize (Hm m). set_solver.
Qed.

Lemma deadlines p m : reachable p -> m ∈ at_hand p -> em_timeout m <= pr_clock p + FailoverTimeout.
Proof.
  intros [t Hr]. revert m. pattern p. refine (rtc_ind_r _ (process0 t) _ _ p Hr); [by intros m ?%elem_of_nil|].
  clear p Hr. intros p p' _ [l Hx] IH m Hin. destruct l as [i inp|pods|ip key part|d].
  - assert (pr_clock p' = pr_clock p) as ->.
    { unfold exec, go in Hx. by repeat (case_match; simplify_eq/=). }
    destruct (at_hand_go _ _ _ _ _ Hx Hin) as [?|[-> _]]; [by apply IH|lia].
  - unfold exec in Hx. destruct (pr_crashed p); simplify_eq/=. apply IH.
    unfold at_hand, messages in *. cbn in Hin. by rewrite bind_app, !app_nil_r in Hin.
  - unfold exec in Hx. destruct (pr_crashed p); simplify_eq/=.
    unfold at_hand, messages in *. cbn in Hin. rewrite bind_app in Hin. cbn in Hin.
    rewrite app_assoc, elem_of_app, list_elem_of_singleton in Hin. destruct Hin as [Hin| ->]; [by apply IH|cbn; lia].
  - unfold exec in Hx. destruct (pr_crashed p); simplify_eq/=. specialize (IH m Hin). lia.
Qed.

(** ** The loop drains *)

(** The deadline of every message has passed and no listener is about to
    stamp a new one. *)
Record settled (p : process) : Prop := {
  se_expired : forall m, m ∈ at_hand p -> em_timeout m <= pr_clock p;
  se_stamped : Forall (fun g => stamping g = false) (pr_procs p);
}.

(** How many more statements a goroutine executes, the handling of the
    message it sends included. *)
Definition weight (g : goroutine) : nat :=
  match g with
  | Consumer | LWait _ _ | Done => 0
  | HLock _ => 6 | HBody _ => 5 | HDefer _ _ _ => 4 | HSend _ => 10 | HDelete _ => 2 | HUnlock => 1
  | LLock _ _ _ _ => 15 | LBuild _ _ _ _ => 14 | LCheck _ _ _ => 13 | LInsert _ _ _ => 12 | LSend _ _ _ => 11 | LUnlock _ _ => 1
  | LCloseLock _ => 3 | LCloseDelete _ => 2 | LCloseUnlock => 1
  | SCheck _ => 11 | SInsert _ => 10 | SSend _ => 9
  | PNext pods => 4 * length pods + 1
  | PCheck _ pods => 4 * length pods + 4
  | PSpawn _ pods => 4 * length pods + 3
  | PUnlock pods => 4 * length pods + 2
  end%nat.

Definition remaining (p : process) : nat :=
  (8 * length (sh_chan (pr_shared p)) + sum_list_with weight (pr_procs p) + (if pr_crashed p then 0 else 1))%nat.

Lemma sum_list_insert (f : goroutine -> nat) l i x y :
  l !! i = Some x -> (sum_list_with f (<[i := y]> l) + f x = sum_list_with f l + f y)%nat.
Proof. revert i. induction l as [|a l IH]; intros [|i] Hi; simplify_eq/=; [lia|]. specialize (IH i Hi). lia. Qed.

Lemma weight_move i t inp g sh g' sh' started :
  next_move i t inp g sh = Moves g' sh' started -> inside inp -> stamping g = false ->
  (forall m, m ∈ mentions g -> em_timeout m <= t) ->
  (8 * length (sh_chan sh') + weight g' + sum_list_with weight started < 8 * length (sh_chan sh) + weight g)%nat.
Proof.
  intros Hm Hin Hst Hex. move_cases Hm; rewrite ?length_app; cbn; try done; try lia.
  all: unfold resends in *; rewrite (proj2 (Z.ltb_ge t _)), andb_false_r in * by (apply Hex; by left); done.
Qed.

Lemma settled_step p p' :
  settled p -> internal p p' -> settled p' /\ (remaining p' < remaining p)%nat.
Proof.
  intros [He Hs] (i & inp & Hin & Hx). pose proof Hx as Hx'. unfold exec, go in Hx.
  destruct (pr_crashed p) eqn:Ec; [done|].
  destruct (pr_procs p !! i) as [g|] eqn:Hi; [|done].
  assert (Hg : stamping g = false) by (by eapply (Forall_lookup_1 _ _ _ _ Hs)).
  destruct (next_move _ _ _ _ _) as [|g' sh' st|] eqn:Hm; simplify_eq/=.
  - split; [split; cbn|].
    + intros m Hmin. destruct (at_hand_go _ _ _ _ _ Hx' Hmin) as [?|(_ & [(h & ? & ?)|?])]; [by apply He| |done]. congruence.
    + apply Forall_app. split.
      * apply Forall_insert; [done|]. clear -Hm Hin Hg. move_cases Hm; done.
      * clear -Hm Hin. move_cases Hm; by repeat constructor.
    + unfold remaining. cbn. rewrite Ec, sum_list_with_app.
      pose proof (sum_list_insert weight _ i g g' Hi) as Hsum.
      assert (Hlt := weight_move _ _ _ _ _ _ _ _ Hm Hin Hg). cbn in Hlt. ospecialize (Hlt _); [|lia].
      intros m Hmin. apply He. unfold at_hand, messages. apply elem_of_app. right.
      apply list_elem_of_bind. exists g. split; [done|by eapply list_elem_of_lookup_2].
  - split; [split; [done|done]|]. unfold remaining. cbn. rewrite Ec. lia.
Qed.

Lemma settled_sn p : settled p -> sn internal p.
Proof.
  remember (remaining p) as n eqn:En. revert p En. induction (lt_wf n) as [n _ IH]. intros p -> Hs.
  constructor. intros p' Hp'. destruct (settled_step p p' Hs Hp') as [Hs' Hlt]. by eapply IH.
Qed.

Lemma internal_reachable p p' : reachable p -> rtc internal p p' -> reachable p'.
Proof.
  intros [t Hr] Hi. exists t. etrans; [exact Hr|]. eapply rtc_subrel; [|exact Hi]. intros q q' (i & inp & _ & Hx). by exists (Go i inp).
Qed.

(** A quiet process has no failover in progress and nobody has the lock. *)
Lemma quiet_empty p :
  reachable p -> quiet p ->
  sh_chan (pr_shared p) = [] /\ sh_keys (pr_shared p) = ∅ /\ sh_lock (pr_shared p) = None.
Proof.
  intros Hr Hq. unfold quiet in Hq. rewrite Forall_lookup in Hq.
  assert (Hc : sh_chan (pr_shared p) = []).
  { destruct (channel_reachable p Hr) as [_ H0]. specialize (Hq _ _ H0). by apply bool_decide_eq_true in Hq. }
  split; [done|]. split.
  - apply set_eq. intros ip. split; [|set_solver]. intros Hip. apply (registered_reachable p Hr) in Hip.
    unfold addresses, in_progress in Hip. rewrite Hc in Hip. apply list_elem_of_fmap in Hip as (m & _ & Hm).
    apply list_elem_of_bind in Hm as (g & Hm & Hg). apply list_elem_of_lookup in Hg as [i Hi]. specialize (Hq _ _ Hi).
    destruct g; simplify_eq/=; by apply elem_of_nil in Hm.
  - destruct (mutex_reachable p Hr) as [Hl Hh]. destruct (sh_lock (pr_shared p)) as [j|] eqn:El; [|done].
    destruct (Hl j eq_refl) as [g Hg]. pose proof (proj2 (Hh j g Hg) eq_refl). specialize (Hq _ _ Hg). by destruct g.
Qed.

(** C11: from any reachable state, once 30 seconds have passed in which no
    sentinel speaks and no reconciliation reports (and no listener holds a
    message it has not stamped), the goroutines run out of statements to
    execute whatever the schedule and whatever the handlers return: there is
    no infinite run, and where a run ends the process has crashed or every
    failover is finished: the channel is empty, no address is registered,
    the lock is free and every goroutine waits or has returned. *)
Theorem failovers_drain p d q :
  reachable p -> Forall (fun g => stamping g = false) (pr_procs p) ->
  FailoverTimeout <= Z.of_N d -> exec (Tick d) p = Some q ->
  sn internal q /\
  forall q', rtc internal q q' -> nf internal q' ->
    pr_crashed q' = true \/
    (sh_chan (pr_shared q') = [] /\ sh_keys (pr_shared q') = ∅ /\ sh_lock (pr_shared q') = None /\ quiet q').
Proof.
  intros Hr Hst Hd Hx. assert (Hrq : reachable q).
  { destruct Hr as [t Hr]. exists t. eapply rtc_r; [exact Hr|by exists (Tick d)]. }
  split.
  - apply settled_sn. pose proof (deadlines p) as Hdl. unfold exec in Hx. destruct (pr_crashed p); simplify_eq/=.
    split; cbn; [|done]. intros m Hm. specialize (Hdl m Hr Hm). lia.
  - intros q' Hq Hnf. destruct (pr_crashed q') eqn:Ec; [by left|right]. pose proof (internal_reachable q q' Hrq Hq) as Hr'.
    destruct (quiet_or_moves q' Hr' Ec) as [Hquiet|Hstep]; [|by destruct Hnf].
    destruct (quiet_empty q' Hr' Hquiet) as (? & ? & ?). done.
Qed.

(** A message whose handler keeps failing is dropped after its deadline. *)
Definition failing_handler : process :=
  {| pr_shared := {| sh_chan := []; sh_keys := {["10.0.0.1"]}; sh_lock := None; sh_sentinels := ∅ |};
     pr_procs := [Consumer; Done; HLock (reported 0 "10.0.0.1" (NN "default" "demo") 0)];
     pr_clock := 0; pr_crashed := false |}.

Lemma run_reachable t ls p : run_labels ls (process0 t) = Some p -> reachable p.
Proof.
  intros Hrun. exists t. generalize dependent (process0 t). induction ls as [|l ls IH]; intros q Hrun; simplify_eq/=; [done|].
  destruct (exec l q) as [q'|] eqn:Ex; [|done]. eapply rtc_l; [by exists l|by apply IH].
Qed.

Definition one_report : list event_label :=
  [Report "10.0.0.1" (NN "default" "demo") 0; Go 1 Nothing; Go 1 Nothing; Go 1 Nothing; Go 0 Nothing].

Lemma failovers_drain_witness :
  exists q, exec (Tick 30000000000) failing_handler = Some q /\ sn internal q.
Proof.
  eexists. split; [reflexivity|].
  refine (proj1 (failovers_drain failing_handler 30000000000 _ (run_reachable 0 one_report _ _) _ _ _)).
  - vm_compute. reflexivity.
  - repeat constructor.
  - vm_compute. discriminate.
  - reflexivity.
Defined.

(** ** One listener per pod *)

(** The pod a goroutine listens to. *)
Definition listens (g : goroutine) : list string :=
  match g with
  | LWait key _ | LLock key _ _ _ | LBuild key _ _ _ | LCheck key _ _ | LInsert key _ _ | LSend key _ _ | LUnlock key _
  | LCloseLock key | LCloseDelete key => [key]
  | _ => []
  end.

Definition spawn_ok (sh : shared) (g : goroutine) : Prop :=
  match g with
  | PSpawn p _ => pm_key p ∉ sh_sentinels sh
  | _ => True
  end.

Definition listener_inv (sh : shared) (procs : list goroutine) : Prop :=
  mutex_inv sh procs /\ NoDup (procs ≫= listens) /\
  (forall key, key ∈ sh_sentinels sh <-> key ∈ procs ≫= listens) /\ Forall (spawn_ok sh) procs.

(** A move keeps the pods that are listened to, starts a listener, or ends one. *)
Lemma listens_move i t inp g sh g' sh' started :
  next_move i t inp g sh = Moves g' sh' started ->
  let after := listens g' ++ (started ≫= listens) in
  Forall (fun x => holds x = false /\ spawn_ok sh' x) started /\
  ((after = listens g /\ sh_sentinels sh' = sh_sentinels sh /\ spawn_ok sh' g') \/
   (exists p pods, g = PSpawn p pods /\ after = [pm_key p] /\ sh_sentinels sh' = {[pm_key p]} ∪ sh_sentinels sh /\
                   spawn_ok sh' g') \/
   (exists key, g = LCloseDelete key /\ after = [] /\ sh_sentinels sh' = sh_sentinels sh ∖ {[key]} /\ spawn_ok sh' g')).
Proof.
  intros Hm. move_cases Hm; (split; [by repeat constructor|]); try (by left); try (right; by eauto 8).
  left. split; [done|]. split; [done|]. by apply bool_decide_eq_false in H.
Qed.

Lemma listener_kept sh procs i t inp g g' sh' started :
  listener_inv sh procs -> procs !! i = Some g -> next_move i t inp g sh = Moves g' sh' started ->
  listener_inv sh' (<[i := g']> procs ++ started).
Proof.
  intros (Hmx & Hnd & Hk & Hl) Hi Hm. split; [by eapply mutex_kept|]. apply listens_move in Hm as [Hst Hm].
  destruct (bind_insert_perm listens procs i g Hi) as [H1 H2]. set (rest := delete i procs ≫= listens) in *.
  assert (Hafter : (<[i := g']> procs ++ started) ≫= listens ≡ₚ (listens g' ++ (started ≫= listens)) ++ rest)
    by (by rewrite bind_app, H2, <- app_assoc, (Permutation_app_comm rest), app_assoc).
  setoid_rewrite Hafter. rewrite H1 in Hnd. setoid_rewrite H1 in Hk. rewrite Forall_lookup in Hl.
  assert (Hothers : (sh_sentinels sh' = sh_sentinels sh \/ holds g = true) -> spawn_ok sh' g' ->
                    Forall (spawn_ok sh') (<[i := g']> procs ++ started)).
  { intros Hs Hg'. apply Forall_app. split; [|eapply Forall_impl; [exact Hst|]; by intros x [_ ?]].
    apply Forall_lookup. intros j x. destruct (decide (i = j)) as [<-|Hne].
    - rewrite list_lookup_insert_eq by (by eapply lookup_lt_Some). by intros [= <-].
    - rewrite list_lookup_insert_ne by done. intros Hx. pose proof (Hl j x Hx) as Hlx.
      destruct Hs as [Hs|Hs]; [destruct x; cbn in *; by rewrite ?Hs|]. destruct Hmx as [_ Hh].
      apply (Hh i g Hi) in Hs. destruct x; try done. pose proof (proj1 (Hh j _ Hx) eq_refl). congruence. }
  destruct Hm as [(-> & Hs & Hg')|[(p & pods & -> & -> & Hs & Hg')|(key & -> & -> & Hs & Hg')]]; rewrite Hs.
  - split; [done|]. split; [done|]. by apply Hothers; [left|].
  - specialize (Hl i _ Hi). cbn in Hl. rewrite Hk in Hl. split; [by constructor|].
    split; [|by apply Hothers; [right|]]. intros key. set_solver.
  - apply NoDup_cons in Hnd as [Hkey Hnd]. split; [done|]. split; [|by apply Hothers; [right|]]. intros key'.
    rewrite elem_of_difference, elem_of_singleton, Hk. cbn. rewrite elem_of_cons. naive_solver.
Qed.

(** C23: in every interleaving a sentinel pod has at most one goroutine
    listening to it, and the map [producerSentinels] holds exactly the pods
    that have one: a pod whose subscription ended is subscribed again by the
    next run of the producer, and never a second time before. *)
Theorem one_listener_per_pod p :
  reachable p ->
  NoDup (pr_procs p ≫= listens) /\
  forall key, key ∈ sh_sentinels (pr_shared p) <-> key ∈ pr_procs p ≫= listens.
Proof.
  intros Hr. enough (listener_inv (pr_shared p) (pr_procs p)) as (_ & ? & ? & _) by done. revert Hr.
  apply always; [| | |apply listener_kept].
  - split; [split; [done|]; intros [|j] g Hg; simplify_eq/=; done|]. split; [constructor|].
    split; [set_solver|by repeat constructor].
  - intros sh procs pods (Hmx & Hnd & Hk & Hl). split; [apply mutex_spawn; [by repeat constructor|done]|].
    rewrite bind_app, app_nil_r. split; [done|]. split; [done|]. apply Forall_app; split; [done|by repeat constructor].
  - intros sh procs m (Hmx & Hnd & Hk & Hl). split; [apply mutex_spawn; [by repeat constructor|done]|].
    rewrite bind_app, app_nil_r. split; [done|]. split; [done|]. apply Forall_app; split; [done|by repeat constructor].
Qed.

(** ** Runs *)

Definition pod_message : produceMessage :=
  {| pm_ip := "10.0.1.1"; pm_password := EmptyString; pm_key := "default/sentinel-22-0"; pm_systemId := "22" |}.
Definition down_payload : string := "master demo-0 10.0.0.1 6379 #quorum 2/2".

(** The producer starts a listener, the listener receives a message, adds it
    and the consumer starts its handler, which finds the instance gone. *)
Definition one_failover : list event_label :=
  Cron [pod_message; pod_message] :: replicate 4 (Go 1 Nothing) ++
  Go 2 (Payload down_payload) :: replicate 6 (Go 2 Nothing) ++
  [Go 0 Nothing; Go 3 Nothing; Go 3 (BodyResult (Ok (Some ENotFound, false)))].

Lemma run_silent t ls p :
  run_labels ls (process0 t) = Some p -> Forall (allowed false) ls -> rtc (allowed_step false) (process0 t) p.
Proof.
  generalize (process0 t). induction ls as [|l ls IH]; intros q Hrun Hall; simplify_eq/=; [done|].
  inversion_clear Hall. destruct (exec l q) as [q'|] eqn:Ex; [|done]. eapply rtc_l; [by exists l|by apply IH].
Qed.

Definition after_run (ls : list event_label) : process := default (process0 0) (run_labels ls (process0 0)).

Lemma one_failover_in_progress_witness :
  addresses (pr_shared (after_run one_failover)) (pr_procs (after_run one_failover)) = ["10.0.0.1"] /\
  "10.0.0.1" ∈ sh_keys (pr_shared (after_run one_failover)).
Proof.
  assert (Ha : addresses (pr_shared (after_run one_failover)) (pr_procs (after_run one_failover)) = ["10.0.0.1"])
    by (vm_compute; reflexivity).
  split; [exact Ha|]. apply (proj2 (one_failover_in_progress 0 (after_run one_failover)
    (run_silent 0 one_failover _ ltac:(vm_compute; reflexivity) ltac:(repeat constructor)))). rewrite Ha. by left.
Defined.

Lemma failover_lifecycle_witness :
  let p := after_run (one_failover ++ [Go 3 Nothing]) in
  let p' := after_run (one_failover ++ [Go 3 Nothing; Go 3 Nothing]) in
  dom (life p) = {["10.0.0.1"]} /\ life p' = ∅ /\ life_step (pr_clock p) (life p) (life p').
Proof.
  intros p p'.
  assert (Hr : rtc (allowed_step false) (process0 0) p).
  { apply (run_silent 0 (one_failover ++ [Go 3 Nothing])); [vm_compute; reflexivity|repeat constructor]. }
  destruct (failover_lifecycle 0 p Hr) as (_ & Hd & Hs). split; [rewrite Hd; vm_compute; reflexivity|].
  split; [vm_compute; reflexivity|]. apply Hs. exists (Go 3 Nothing). split; [exact I|vm_compute; reflexivity].
Defined.

Lemma one_listener_per_pod_witness :
  pr_procs (after_run one_failover) ≫= listens = ["default/sentinel-22-0"] /\
  "default/sentinel-22-0" ∈ sh_sentinels (pr_shared (after_run one_failover)).
Proof.
  assert (Hl : pr_procs (after_run one_failover) ≫= listens = ["default/sentinel-22-0"]) by (vm_compute; reflexivity).
  split; [exact Hl|].
  apply (proj2 (one_listener_per_pod (after_run one_failover) (run_reachable 0 one_failover _ ltac:(vm_compute; reflexivity)))).
  rewrite Hl. by left.
Defined.

Lemma event_loop_bounds_witness :
  (length (sh_chan (pr_shared (after_run one_failover))) <= chan_cap)%nat.
Proof.
  apply (event_loop_bounds (after_run one_failover) (run_reachable 0 one_failover _ ltac:(vm_compute; reflexivity))).
Defined.

(** ** The race of the reports *)

(** A reconciliation reports the node between the test of listener [i] and its
    insertion; [j] is the goroutine of the report. *)
Definition racing (i j : nat) (payload ip : string) (key : NamespacedName) (partition : Z) : list event_label :=
  [Go i (Payload payload); Go i Nothing; Go i Nothing; Go i Nothing; Report ip key partition;
   Go j Nothing; Go i Nothing; Go i Nothing; Go j Nothing; Go j Nothing].

(** Listener [i] and at most one goroutine after those of [procs] run. *)
Definition racers (procs : list goroutine) (t : Z) (i : nat) (sh : shared) (g : goroutine) (extra : list goroutine) : process :=
  {| pr_shared := sh; pr_procs := <[i := g]> procs ++ extra; pr_clock := t; pr_crashed := false |}.

Lemma racer_i procs t i inp sh g sh' g' extra :
  is_Some (procs !! i) -> next_move i t inp g sh = Moves g' sh' [] ->
  exec (Go i inp) (racers procs t i sh g extra) = Some (racers procs t i sh' g' extra).
Proof.
  intros [x Hx] Hm. pose proof (lookup_lt_Some _ _ _ Hx) as Hlt. unfold exec, go. cbn.
  rewrite lookup_app_l, list_lookup_insert_eq, Hm by (by rewrite ?length_insert). unfold racers.
  by rewrite insert_app_l, list_insert_insert_eq, app_nil_r by (by rewrite length_insert).
Qed.

Lemma racer_j procs t i inp sh g sh' h h' :
  next_move (length procs) t inp h sh = Moves h' sh' [] ->
  exec (Go (length procs) inp) (racers procs t i sh g [h]) = Some (racers procs t i sh' g [h']).
Proof.
  intros Hm. unfold exec, go. cbn. rewrite lookup_app_r by (by rewrite length_insert). rewrite length_insert, Nat.sub_diag. cbn.
  rewrite Hm. unfold racers. rewrite insert_app_r_alt by (by rewrite length_insert). by rewrite length_insert, Nat.sub_diag, app_nil_r.
Qed.

Lemma racer_addresses procs t i sh g x extra :
  procs !! i = Some x -> carries x = [] -> carries g = [] -> extra ≫= carries = [] ->
  addresses (pr_shared (racers procs t i sh g extra)) (pr_procs (racers procs t i sh g extra)) ≡ₚ
    (em_ip <$> sh_chan sh) ++ (em_ip <$> (procs ≫= carries)).
Proof.
  intros Hi Hx Hg He. destruct (bind_insert_perm carries procs i x Hi) as [H1 H2].
  unfold addresses, in_progress, racers. cbn. by rewrite fmap_app, bind_app, He, app_nil_r, H2, H1, Hx, Hg.
Qed.

(** C37: [SendFailoverMsg] tests and inserts the address without the lock the
    listeners use.  In whatever state a listener receives a message about a
    node that has no failover in progress, with the lock free and room for two
    messages, a reconciliation that reports the same node, for any instance
    and shard, can run between the listener's test and its insertion, and then
    two failovers of the node are in progress at once. *)
Theorem report_race p i key sys payload target m nn partition :
  pr_crashed p = false -> pr_procs p !! i = Some (LWait key sys) -> sh_lock (pr_shared p) = None ->
  (S (length (sh_chan (pr_shared p))) < chan_cap)%nat ->
  odown_target sys key payload = Ok (Some target) -> odown_message (pr_clock p) target payload = Ok m ->
  em_ip m ∉ sh_keys (pr_shared p) ->
  exists p', run_labels (racing i (length (pr_procs p)) payload (em_ip m) nn partition) p = Some p' /\
    addresses (pr_shared p') (pr_procs p') ≡ₚ em_ip m :: em_ip m :: addresses (pr_shared p) (pr_procs p).
Proof.
  intros Hc Hi Hl Hroom Ht Hm Hk. set (sh := pr_shared p) in *. set (procs := pr_procs p) in *. set (t := pr_clock p) in *.
  assert (Hp : p = racers procs t i sh (LWait key sys) []).
  { unfold racers. rewrite list_insert_id, app_nil_r by done. by destruct p; simplify_eq/=. }
  pose (m' := reported t (em_ip m) nn partition).
  pose (locked := set_lock (Some i) sh). pose (sh1 := insert_key m locked).
  pose (sh2 := set_chan (sh_chan sh ++ [m]) sh1). pose (sh3 := insert_key m' sh2).
  pose (sh4 := set_chan ((sh_chan sh ++ [m]) ++ [m']) sh3).
  assert (Hi' : is_Some (procs !! i)) by eauto.
  assert (Hb : bool_decide (em_ip m ∈ sh_keys sh) = false) by (by apply bool_decide_eq_false).
  exists (racers procs t i sh4 (LUnlock key sys) [Done]). split.
  - rewrite Hp at 1. unfold racing. cbn [run_labels].
    rewrite (racer_i _ _ _ _ _ _ sh (LLock key sys target payload)) by (done || (cbn; by rewrite Ht)).
    rewrite (racer_i _ _ _ _ _ _ locked (LBuild key sys target payload)) by (done || (cbn; unfold acquire; by rewrite Hl)).
    rewrite (racer_i _ _ _ _ _ _ locked (LCheck key sys m)) by (done || (cbn; by rewrite Hm)).
    rewrite (racer_i _ _ _ _ _ _ locked (LInsert key sys m)) by (done || (cbn; by rewrite Hb)).
    assert (Hrep : exec (Report (em_ip m) nn partition) (racers procs t i locked (LInsert key sys m) []) =
                   Some (racers procs t i locked (LInsert key sys m) [SCheck m'])).
    { unfold exec, spawn, racers. cbn. by rewrite app_nil_r. }
    rewrite Hrep.
    rewrite (racer_j _ _ _ _ _ _ locked _ (SInsert m')) by (cbn; by rewrite Hb).
    rewrite (racer_i _ _ _ _ _ _ sh1 (LSend key sys m)) by done.
    rewrite (racer_i _ _ _ _ _ _ sh2 (LUnlock key sys))
      by (done || (cbn; unfold send; cbn -[Nat.ltb]; by rewrite (proj2 (Nat.ltb_lt _ _)) by lia)).
    rewrite (racer_j _ _ _ _ _ _ sh3 _ (SSend m')) by done.
    rewrite (racer_j _ _ _ _ _ _ sh4 _ Done); [done|].
    cbn. unfold send. cbn -[Nat.ltb]. rewrite length_app. by rewrite (proj2 (Nat.ltb_lt _ _)) by (simpl; lia).
  - rewrite (racer_addresses _ _ _ _ _ _ _ Hi) by done. unfold addresses, in_progress. rewrite fmap_app. fold sh procs. cbn.
    rewrite !fmap_app, <- !app_assoc. cbn. rewrite <- !Permutation_middle. done.
Qed.

Definition listening : process := after_run (Cron [pod_message] :: replicate 4 (Go 1 Nothing)).

Lemma report_race_witness :
  exists p', run_labels (racing 2 3 down_payload "10.0.0.1" (NN "default" "kvrocks-cluster-22-demo") 0) listening = Some p' /\
    addresses (pr_shared p') (pr_procs p') ≡ₚ ["10.0.0.1"; "10.0.0.1"].
Proof.
  apply (report_race listening 2 "default/sentinel-22-0" "22" down_payload (NN "default" "kvrocks-cluster-22-demo", 0)
    {| em_ip := "10.0.0.1"; em_port := "6379"; em_key := NN "default" "kvrocks-cluster-22-demo"; em_partition := 0;
       em_timeout := 0 + FailoverTimeout |});
    [vm_compute; reflexivity|vm_compute; reflexivity|vm_compute; reflexivity|vm_compute; lia|vm_compute; reflexivity
    |vm_compute; reflexivity|apply (bool_decide_unpack _); vm_compute; exact I].
Defined.
