(* ===== verification/EventsProps.v ===== *)
(** * Properties of the failover messages

    What the body of a handler has done when its message is given up, the round
    trip of the sentinel's messages, and the topology a failover stores. *)

From S2P Require Import Prelude GoStd Types Resources Env K8sClient KvClient ControllerClient Common Events World.
From Stdlib Require Import Ascii.
Local Open Scope Z_scope.
Local Open Scope go_scope.

(** ** The verdict of a handler *)

(** An instance whose failovers are handled. *)
Definition live_cluster (instance : KVRocks) : bool :=
  String.eqb (sp_Type (kv_Spec instance)) ClusterType &&
  bool_decide (om_DeletionTimestamp (kv_Meta instance) = None) &&
  negb (String.eqb (st_Status (kv_Status instance)) StatusFailed).

Section verdict.
Context {W : Type} `{Env W, GoLib}.

(** What a handler may store about the failover [msg] of [instance]: that it
    failed, because the controller refused to fail the shard over or reported
    no master afterwards, or the topology the controller reported. *)
Inductive verdict (msg : eventMessage) (instance : KVRocks) : KVRocks -> Prop :=
| v_no_slave c (w w' : W) e :
    FailoverShard c (em_partition msg) w = (Err e, w') ->
    verdict msg instance (set_kv_Status (fun _ => failed_status ErrNoSuitableSlaver) instance)
| v_no_master c (w w' : W) d :
    GetNodes c (em_partition msg) w = (Ok (Some d), w') -> new_masterID (sd_Nodes d) = EmptyString ->
    verdict msg instance (set_kv_Status (fun _ => failed_status ErrNoMaster) instance)
| v_topology c (w w' : W) d :
    GetNodes c (em_partition msg) w = (Ok (Some d), w') -> new_masterID (sd_Nodes d) <> EmptyString ->
    verdict msg instance (failed_over msg d instance).

(** The result of a body that was allowed to go on. *)
Definition settled_by (msg : eventMessage) (instance : KVRocks) (err : option goerr) (requeue : bool) (w' : W) : Prop :=
  (err <> None -> requeue = true) /\
  (err = None -> exists k k' (w2 : W), verdict msg instance k /\ UpdateKVRocks k w2 = (Ok k', w')).

Lemma mark_failed_settles msg instance reason (e : event) (w : W) err rq e' w' :
  verdict msg instance (set_kv_Status (fun _ => failed_status reason) instance) ->
  mark_failed instance reason (e, w) = (Ok (err, rq), (e', w')) -> settled_by msg instance err rq w'.
Proof.
  intros Hv. unfold mark_failed, bind, catch, onW. cbn [fst snd].
  destruct (UpdateKVRocks _ w) as [[k|x| |] w1] eqn:Eu; unfold ret; [| |done..]; intros [= <- <- <- <-].
  - split; [done|]. intros _. by eexists _, k, w.
  - by split.
Qed.

(** A call whose error is kept: the body returns it, or goes on. *)
Lemma call_or_error {A} (m : M W A) (k : A -> M (event * W) (option goerr * bool)) (e : event) (w : W) err rq e' w' :
  (let! r := onW (catch m) in match r with inr x => ret (Some x, true) | inl a => k a end) (e, w) = (Ok (err, rq), (e', w')) ->
  (exists x, err = Some x /\ rq = true) \/ exists a w1, m w = (Ok a, w1) /\ k a (e, w1) = (Ok (err, rq), (e', w')).
Proof.
  unfold bind, onW, catch. cbn [fst snd]. destruct (m w) as [[a|x| |] w1]; [|intros [= <- <- _ _]; eauto|done..]. eauto.
Qed.

Lemma live_body msg instance (e : event) (w w1 : W) err rq e' w' :
  GetKVRocks (em_key msg) w = (Ok instance, w1) -> live_cluster instance = true ->
  failover_body msg (e, w) = (Ok (err, rq), (e', w')) -> settled_by msg instance err rq w'.
Proof.
  intros Hget Hlive. unfold failover_body, bind at 1, onW at 1, catch at 1. cbn [fst snd]. rewrite Hget.
  unfold live_cluster in Hlive. apply andb_true_iff in Hlive as [[-> ->]%andb_true_iff ->%negb_true_iff]. cbn [negb orb].
  unfold bind at 1, geth. cbn [fst snd]. intros Hrun.
  apply call_or_error in Hrun as [(x & -> & ->)|(c & w2 & _ & Hrun)]; [by split|].
  unfold bind at 1, modh in Hrun. cbn [fst snd] in Hrun. unfold bind at 1, onW at 1, catch at 1 in Hrun. cbn [fst snd] in Hrun.
  destruct (FailoverShard c (em_partition msg) w2) as [[[]|x| |] w3] eqn:Ef; [| |done..].
  2: { eapply mark_failed_settles; [by eapply v_no_slave|exact Hrun]. }
  unfold bind at 1 in Hrun. destruct (partition_at _ _) as [q|]; [|done]. unfold deref, ret at 1 in Hrun.
  unfold bind at 1 in Hrun. destruct (when _ _ _) as [[[]|x| |] [e4 w4]]; [|done..].
  apply call_or_error in Hrun as [(x & -> & ->)|(r & w5 & Eg & Hrun)]; [by split|].
  unfold bind at 1 in Hrun. destruct r as [d|]; [|done]. unfold deref, ret at 1 in Hrun.
  destruct (String.eqb_spec (new_masterID (sd_Nodes d)) EmptyString) as [Em|Em].
  - eapply mark_failed_settles; [by eapply v_no_master|exact Hrun].
  - apply call_or_error in Hrun as [(x & -> & ->)|(k & w6 & Eu & Hrun)]; [by split|].
    injection Hrun as <- <- _ <-. split; [done|]. intros _. eexists _, k, w5. split; [by eapply v_topology|exact Eu].
Qed.

End verdict.

(** ** The messages of a sentinel *)

(** The payload of [+odown] for the master [name]: kind, name, address, port,
    and details. *)
Definition odown (name ip port details : string) : string :=
  "master" +:+ " " +:+ name +:+ " " +:+ ip +:+ " " +:+ port +:+ " " +:+ details.

Lemma split_field c s t : lacks c s = true ->
  Split (s +:+ String c EmptyString +:+ t) (String c EmptyString) = s :: Split t (String c EmptyString).
Proof.
  intros Hs. change (String c EmptyString +:+ t) with (String c t). unfold Split. by rewrite split_app.
Qed.

Lemma odown_fields name ip port details :
  lacks " " name = true -> lacks " " ip = true -> lacks " " port = true ->
  Split (odown name ip port details) " " = "master" :: name :: ip :: port :: Split details " ".
Proof. intros Hn Hi Hp. unfold odown. by rewrite !split_field. Qed.

Lemma lacks_or_cut c s : lacks c s = true \/ exists a b, s = a +:+ String c b /\ lacks c a = true.
Proof.
  induction s as [|c' s IH]; [by left|]. destruct (decide (c' = c)) as [->|Hne].
  - right. by exists EmptyString, s.
  - destruct IH as [IH|(a & b & -> & Ha)]; [left; by apply lacks_cons|].
    right. exists (String c' a), b. split; [done|]. by apply lacks_cons.
Qed.

Lemma cluster_name_inj systemId a b : GetClusterName systemId a = GetClusterName systemId b -> a = b.
Proof.
  unfold GetClusterName. intros E. repeat apply (inj (String.append _)) in E. done.
Qed.

(** C25: the message a sentinel sends about shard [i] of a cluster instance is
    read back as a failover of that shard of that instance exactly when the
    instance's name has no dash: the sentinel knows the shard under the name
    the operator monitors it with, and [listen] cuts that name at its first
    dash to rebuild the instance's key and the shard's number.  (The system id
    has no dash, the namespace no slash, and no field of the message a
    blank.) *)
Theorem odown_roundtrip t systemId name ns pod i ip port details :
  lacks "-" systemId = true -> lacks "/" ns = true ->
  lacks " " name = true -> lacks " " ip = true -> lacks " " port = true -> 0 <= i <= MaxInt ->
  let instance := GetClusterName systemId name in
  let payload := odown (shard_master_name (ParseRedisName instance).2 (Some i)) ip port details in
  (exists target, odown_target systemId (nn_String (NN ns pod)) payload = Ok (Some target) /\
     odown_message t target payload =
       Ok {| em_ip := ip; em_port := port; em_key := NN ns instance; em_partition := i; em_timeout := t + FailoverTimeout |})
  <-> lacks "-" name = true.
Proof.
  intros Hs Hns Hsp Hip Hport Hi instance payload.
  assert (Hmon : shard_master_name (ParseRedisName instance).2 (Some i) = name +:+ "-" +:+ Itoa i).
  { unfold instance. by rewrite ParseRedisName_cluster. }
  assert (Hf : Split payload " " = "master" :: (name +:+ "-" +:+ Itoa i) :: ip :: port :: Split details " ").
  { unfold payload. rewrite odown_fields, Hmon; [done| |done|done]. rewrite Hmon. apply lacks_app. split; [done|].
    apply lacks_app. split; [done|]. apply digits_lack_space, Itoa_digits. lia. }
  assert (Hns' : hd EmptyString (Split (nn_String (NN ns pod)) "/") = ns).
  { unfold nn_String. cbn [nn_Namespace nn_Name]. by rewrite split_field. }
  unfold odown_target, odown_message. rewrite Hf, Hns'. cbn [lookup list_lookup].
  destruct (lacks_or_cut "-" name) as [Hn|(a & b & Hab & Ha)].
  - split; [done|]. intros _. rewrite split_field by done.
    unfold Split at 1. rewrite split_lacks by (apply Itoa_lacks_dash; lia).
    rewrite Atoi_Itoa by (unfold is_int, MinInt; lia). eauto.
  - split; [|intros Hn; rewrite Hab, lacks_app in Hn; by destruct Hn as [_ [? _]%lacks_cons]].
    rewrite Hab, string_app_assoc. change (String "-" b +:+ "-" +:+ Itoa i) with ("-" +:+ (b +:+ "-" +:+ Itoa i)).
    rewrite split_field by done. intros (target & Ht & Hm). exfalso.
    destruct (Split _ "-") as [|part rest]; [done|]. injection Ht as <-.
    apply (f_equal (fun o => match o with Ok m => nn_Name (em_key m) | _ => EmptyString end)) in Hm.
    pose proof (cluster_name_inj systemId a name Hm) as Hk. rewrite Hab in Hk. apply (f_equal String.length) in Hk.
    rewrite string_length_app in Hk. cbn in Hk. lia.
Qed.

Lemma odown_roundtrip_witness :
  (exists target, odown_target "22" "default/sentinel-22-0" "master demo-1 10.0.0.3 6379 #quorum 2/2" = Ok (Some target) /\
     odown_message 0 target "master demo-1 10.0.0.3 6379 #quorum 2/2" =
       Ok {| em_ip := "10.0.0.3"; em_port := "6379"; em_key := NN "default" "kvrocks-cluster-22-demo"; em_partition := 1;
             em_timeout := 0 + FailoverTimeout |}) /\
  ~ (exists target, odown_target "22" "default/sentinel-22-0" "master my-demo-1 10.0.0.3 6379 #quorum 2/2" = Ok (Some target) /\
     odown_message 0 target "master my-demo-1 10.0.0.3 6379 #quorum 2/2" =
       Ok {| em_ip := "10.0.0.3"; em_port := "6379"; em_key := NN "default" "kvrocks-cluster-22-my-demo"; em_partition := 1;
             em_timeout := 0 + FailoverTimeout |}).
Proof.
  assert (Hi : 0 <= 1 <= MaxInt) by (unfold MaxInt; lia). split.
  - exact (proj2 (odown_roundtrip 0 "22" "demo" "default" "sentinel-22-0" 1 "10.0.0.3" "6379" "#quorum 2/2"
      eq_refl eq_refl eq_refl eq_refl eq_refl Hi) eq_refl).
  - intros Hr.
    discriminate (proj1 (odown_roundtrip 0 "22" "my-demo" "default" "sentinel-22-0" 1 "10.0.0.3" "6379" "#quorum 2/2"
      eq_refl eq_refl eq_refl eq_refl eq_refl Hi) Hr).
Defined.

(** ** The topology after a failover *)

Section failover.
Context (ip masterID : string) (topo : KVRocksTopology).

(** The fields a failover may change. *)
Lemma failover_member_frame cur node :
  let t := failover_member ip masterID topo cur node in
  t_Pod t = t_Pod cur /\ t_NodeId t = t_NodeId cur /\ t_Ip t = t_Ip cur /\ t_Slots t = t_Slots cur /\
  t_Migrate t = t_Migrate cur.
Proof. unfold failover_member. repeat case_match; done. Qed.

Lemma failover_flag nodes cur :
  t_Failover (foldl (failover_member ip masterID topo) cur nodes) =
    if decide (nodes = []) then t_Failover cur
    else if String.eqb (t_Ip topo) ip then true
    else if decide (t_NodeId topo ∈ cn_ID <$> nodes) then false else t_Failover cur.
Proof.
  revert cur. induction nodes as [|node nodes IH]; intros cur; [done|]. cbn [foldl]. rewrite IH.
  rewrite (decide_False (P := node :: nodes = [])) by done. unfold failover_member.
  destruct (String.eqb_spec (t_Ip topo) ip) as [E|E].
  - destruct (decide (nodes = [])); [done|done].
  - rewrite fmap_cons. destruct (String.eqb_spec (t_NodeId topo) (cn_ID node)) as [Ei|Ei].
    + rewrite (decide_True (P := t_NodeId topo ∈ cn_ID node :: _)) by (rewrite Ei; by left).
      destruct (decide (nodes = [])) as [->|]; [by destruct (String.eqb _ _)|].
      destruct (decide (t_NodeId topo ∈ cn_ID <$> nodes)); [done|]. by destruct (String.eqb _ _).
    + destruct (decide (nodes = [])) as [->|].
      * rewrite decide_False; [done|]. intros [?|?%elem_of_nil]%elem_of_cons; done.
      * destruct (decide (t_NodeId topo ∈ cn_ID <$> nodes)) as [Hin|Hin].
        -- rewrite decide_True; [done|by right].
        -- rewrite decide_False; [done|]. by intros [?|?]%elem_of_cons.
Qed.

Lemma failover_unknown nodes cur :
  t_NodeId topo ∉ cn_ID <$> nodes ->
  let t := foldl (failover_member ip masterID topo) cur nodes in
  t_Role t = t_Role cur /\ t_MasterId t = t_MasterId cur.
Proof.
  revert cur. induction nodes as [|node nodes IH]; intros cur Hin; [done|].
  rewrite fmap_cons, not_elem_of_cons in Hin. destruct Hin as [Hne Hin]. cbn [foldl].
  destruct (IH (failover_member ip masterID topo cur node) Hin) as [-> ->].
  unfold failover_member. destruct (String.eqb_spec (t_NodeId topo) (cn_ID node)); [done|].
  by destruct (String.eqb _ ip).
Qed.

Lemma failover_role nodes cur node :
  NoDup (cn_ID <$> nodes) -> node ∈ nodes -> cn_ID node = t_NodeId topo ->
  let t := foldl (failover_member ip masterID topo) cur nodes in
  t_Role t = cn_Role node /\ (cn_Role node = RoleSlaver -> t_MasterId t = masterID).
Proof.
  revert cur. induction nodes as [|x nodes IH]; intros cur; [by intros _ ?%elem_of_nil|].
  rewrite fmap_cons, NoDup_cons. intros [Hx Hnd] Hin Hid. cbn [foldl].
  apply elem_of_cons in Hin as [->|Hin]; [|by apply IH].
  rewrite Hid in Hx. destruct (failover_unknown nodes (failover_member ip masterID topo cur x) Hx) as [-> ->].
  unfold failover_member. rewrite Hid, String.eqb_refl.
  destruct (String.eqb_spec (cn_Role x) RoleSlaver); by destruct (String.eqb (t_Ip topo) ip).
Qed.

(** C24: the topology entry of a node after a failover of its shard: the
    failed address is marked, any other member the controller lists is
    cleared, every listed member takes the controller's role and a slave
    follows the new master, entries the controller does not list keep role
    and master, and pod, id, address, slots and migrations never change. *)
Theorem failover_topology nodes :
  nodes <> [] -> NoDup (cn_ID <$> nodes) ->
  let t := failover_topo ip masterID nodes topo in
  (t_Failover t = true <-> t_Ip topo = ip \/ (t_NodeId topo ∉ cn_ID <$> nodes /\ t_Failover topo = true)) /\
  (forall node, node ∈ nodes -> cn_ID node = t_NodeId topo ->
     t_Role t = cn_Role node /\ (cn_Role node = RoleSlaver -> t_MasterId t = masterID)) /\
  (t_NodeId topo ∉ cn_ID <$> nodes -> t_Role t = t_Role topo /\ t_MasterId t = t_MasterId topo) /\
  t_Pod t = t_Pod topo /\ t_NodeId t = t_NodeId topo /\ t_Ip t = t_Ip topo /\ t_Slots t = t_Slots topo /\
  t_Migrate t = t_Migrate topo.
Proof.
  intros Hne Hnd. unfold failover_topo. split; [|split; [|split]].
  - rewrite failover_flag, decide_False by done. destruct (String.eqb_spec (t_Ip topo) ip); [tauto|].
    destruct (decide (t_NodeId topo ∈ cn_ID <$> nodes)); [split; [done|tauto]|tauto].
  - intros node Hin Hid. by apply failover_role.
  - intros Hin. by apply failover_unknown.
  - clear. revert topo. assert (Hg : forall t0 cur, let t := foldl (failover_member ip masterID t0) cur nodes in
      t_Pod t = t_Pod cur /\ t_NodeId t = t_NodeId cur /\ t_Ip t = t_Ip cur /\ t_Slots t = t_Slots cur /\
      t_Migrate t = t_Migrate cur); [|intros t0; apply Hg].
    intros t0. induction nodes as [|x nodes' IH]; intros cur; [done|]. cbn [foldl].
    destruct (IH (failover_member ip masterID t0 cur x)) as (-> & -> & -> & -> & ->).
    unfold failover_member. repeat case_match; done.
Qed.
End failover.

(** ** Witnesses *)

Definition member (id role : string) : CNode :=
  {| cn_ID := id; cn_Addr := EmptyString; cn_Role := role; cn_Password := EmptyString; cn_CreatedAt := 0 |}.

Definition entry (ip role id : string) : KVRocksTopology :=
  {| t_Pod := EmptyString; t_Role := role; t_NodeId := id; t_Ip := ip; t_Port := 6379; t_Slots := [];
     t_MasterId := EmptyString; t_Migrate := None; t_Failover := false |}.

Lemma failover_topology_witness :
  t_Failover (failover_topo "10.0.0.1" "b" [member "a" RoleSlaver; member "b" RoleMaster] (entry "10.0.0.1" RoleMaster "a")) = true.
Proof.
  assert (Hnd : NoDup (cn_ID <$> [member "a" RoleSlaver; member "b" RoleMaster])) by (apply (bool_decide_unpack _); vm_compute; exact I).
  destruct (failover_topology "10.0.0.1" "b" (entry "10.0.0.1" RoleMaster "a")
    [member "a" RoleSlaver; member "b" RoleMaster] ltac:(discriminate) Hnd) as [[_ Hf] _].
  apply Hf. left. reflexivity.
Defined.

(** A message about an instance that is gone. *)
Definition sample_msg (ip : string) : eventMessage :=
  {| em_ip := ip; em_port := "6379"; em_key := NN "default" "kvrocks-cluster-1-demo"; em_partition := 0; em_timeout := 30 |}.

(** A live instance in a world without the service of the controller. *)
Definition failing_cr : KVRocks :=
  set_kv_Status (set_st_Status StatusRunning) (sample_instance ClusterType "kvrocks-cluster-1-demo" 2 3).
Definition failing_world : World := w_set_kvrocks {[NN "default" "kvrocks-cluster-1-demo" := failing_cr]} empty_world.

