(* ===== verification/ReconcileProps.v ===== *)
(** * Properties of the reconciler *)

From S2P Require Import Prelude GoStd Types Resources Scale Env K8sClient KvClient ControllerClient Common Cluster Standard Sentinel Events Reconcile World.
Local Open Scope Z_scope.
Local Open Scope go_scope.

Section decisions.
Context {W : Type} `{Env W, GoLib}.

Lemma Reconcile_found key instance r (w w' w2 : W) o :
  GetKVRocks key w = (Ok instance, w') -> reconcile_instance key instance w' = (o, w2) ->
  Reconcile key (r, w) = (o, (start_events r, w2)).
Proof.
  intros Hget Hrun. unfold Reconcile, bind at 1, onW at 1, catch. cbn [fst snd]. rewrite Hget.
  unfold bind, modh, onW. cbn [fst snd]. by rewrite Hrun.
Qed.

(** A failed instance is left alone: unless it is being deleted, a
    reconciliation reads it and does nothing else. *)
Theorem failed_is_final key instance r (w w' : W) :
  GetKVRocks key w = (Ok instance, w') ->
  om_DeletionTimestamp (kv_Meta instance) = None ->
  st_Status (kv_Status instance) = StatusFailed ->
  Reconcile key (r, w) = (Ok done_result, (start_events r, w')).
Proof.
  intros Hget Hdel Hst. apply (Reconcile_found key instance r w w'); [done|]. unfold reconcile_instance. by rewrite Hdel, Hst.
Qed.

(** An instance with an unreasonable specification is marked failed with
    the reason, and nothing else is done: no handler runs, and the update's
    own failure is not reported. *)
Theorem refused_spec key instance reason r (w w' : W) :
  GetKVRocks key w = (Ok instance, w') ->
  om_DeletionTimestamp (kv_Meta instance) = None ->
  st_Status (kv_Status instance) <> StatusFailed ->
  ValidateKVRocks instance = Some reason ->
  Reconcile key (r, w) =
    (Ok done_result,
     (start_events r,
      (UpdateKVRocks (set_kv_Status (fun st => set_st_Reason reason (set_st_Status StatusFailed st)) instance) w').2)).
Proof.
  intros Hget Hdel Hst Hv. apply (Reconcile_found key instance r w w'); [done|]. unfold reconcile_instance. rewrite Hdel.
  destruct (String.eqb_spec (st_Status (kv_Status instance)) StatusFailed); [done|].
  unfold bind at 1, checkSpecification. rewrite Hv. unfold bind at 1, catch, UpdateKVRocks, perform.
  by destruct (api_update _ w') as [[k|e] w1].
Qed.

(** C38: the validation lets every type pass that is none of the three known
    ones, and the reconciler then calls a method of a nil handler: an
    initialised instance of such a type makes the operator panic. *)
Theorem unknown_type_panics key instance r (w w' : W) :
  GetKVRocks key w = (Ok instance, w') ->
  om_DeletionTimestamp (kv_Meta instance) = None ->
  st_Status (kv_Status instance) <> StatusFailed -> st_Status (kv_Status instance) <> StatusNone ->
  sp_Password (kv_Spec instance) <> EmptyString -> sp_Resources (kv_Spec instance) <> None ->
  sp_Type (kv_Spec instance) ∉ [SentinelType; StandardType; ClusterType] ->
  wanted_labels instance = kv_Labels instance ->
  Reconcile key (r, w) = (Panic, (start_events r, w')).
Proof.
  intros Hget Hdel Hf Hn Hpw Hres Hty Hl. rewrite !not_elem_of_cons in Hty. destruct Hty as (H1 & H2 & H3 & _).
  apply String.eqb_neq in Hf, Hn, Hpw, H1, H2, H3.
  assert (Hv : ValidateKVRocks instance = None).
  { unfold ValidateKVRocks. rewrite Hpw, H1, H2, H3. by destruct (sp_Resources (kv_Spec instance)). }
  apply (Reconcile_found key instance r w w'); [done|]. unfold reconcile_instance. rewrite Hdel, Hf.
  unfold bind at 1, checkSpecification. rewrite Hv. unfold ret at 1, bind at 1, catch, runIfInitialize.
  rewrite bool_decide_eq_true_2 by done. unfold bind at 1, ret at 1. rewrite Hn. unfold ret at 1, bind at 1, on_handler.
  by rewrite H1, H2, H3.
Qed.

(** What a finished [Handle] asks of the work queue: a retry in ten
    seconds exactly when the handler asked for it or an object was missing
    or changed meanwhile; nothing when the request was forbidden or invalid;
    and otherwise the error itself, so that no other error is lost. *)
Theorem result_policy err requeue :
  (res_RequeueAfter (handle_result err requeue) = 10 <->
     requeue = true \/ err = Some ENotFound \/ err = Some EConflict) /\
  (handle_result err requeue = done_result <->
     requeue = false /\ (err = None \/ err = Some EForbidden \/ err = Some EInvalid)) /\
  (forall e, res_Err (handle_result err requeue) = Some e -> err = Some e).
Proof.
  unfold handle_result, shouldRetry, shouldNotRetry, IsNotFound, IsConflict, IsForbidden, IsInvalid.
  destruct requeue, err as [[| | | | |m]|]; cbn; unfold retry_later, done_result; naive_solver.
Qed.

(** ** Initialisation *)

Lemma union_absorb (a b : gmap string string) : b ∪ (b ∪ a) = b ∪ a.
Proof.
  apply map_eq. intros k. rewrite !lookup_union. destruct (b !! k) as [x|], (a !! k) as [y|]; done.
Qed.

Lemma wanted_labels_idem instance :
  wanted_labels (set_kv_Meta (set_om_Labels (wanted_labels instance)) instance) = wanted_labels instance.
Proof.
  unfold wanted_labels at 1. change (kv_Spec (set_kv_Meta _ instance)) with (kv_Spec instance).
  change (SelectorLabels (set_kv_Meta _ instance)) with (SelectorLabels instance).
  change (kv_Labels (set_kv_Meta (set_om_Labels (wanted_labels instance)) instance)) with (wanted_labels instance).
  unfold wanted_labels. destruct (String.eqb _ _); rewrite !MergeLabels_two.
  - assert (Hd : SelectorLabels instance ##ₘ SentinelLabels).
    { unfold SelectorLabels, SentinelLabels. apply map_disjoint_insert_l. split; [done|].
      apply map_disjoint_singleton_l. done. }
    rewrite (map_union_assoc (SelectorLabels instance)), (map_union_comm (SelectorLabels instance) SentinelLabels) by done.
    by rewrite <- map_union_assoc, !union_absorb.
  - by rewrite union_absorb.
Qed.

(** Initialisation settles after one round: on an instance that carries
    the labels it computes and has a status, it writes nothing, so a
    reconciliation of it does not cause the next one. *)
Theorem initialised_once instance st (w : W) :
  st <> StatusNone ->
  let initialised := set_kv_Status (set_st_Status st) (set_kv_Meta (set_om_Labels (wanted_labels instance)) instance) in
  runIfInitialize initialised w = (Ok initialised, w).
Proof.
  intros Hst initialised. unfold runIfInitialize.
  assert (Hl : wanted_labels initialised = kv_Labels initialised) by apply wanted_labels_idem.
  rewrite bool_decide_eq_true_2 by done. unfold bind, ret at 1.
  destruct (String.eqb_spec (st_Status (kv_Status initialised)) StatusNone) as [E|E]; [|done].
  by destruct Hst.
Qed.
End decisions.

(** ** Deletion *)

Section deletion.
Context {W : Type} `{Env W, GoLib}.

(** The finalizer of a monitored standard instance is the removal of its
    monitor: the requeue flag and the error are those of [RemoveMonitor]. *)
Lemma standard_finalizer_run key instance name b err r ts (w w1 w2 : W) :
  GetKVRocks key w = (Ok instance, w1) ->
  om_DeletionTimestamp (kv_Meta instance) = Some ts ->
  KVRocksFinalizer ∈ om_Finalizers (kv_Meta instance) ->
  sp_Type (kv_Spec instance) = StandardType ->
  kv_Labels instance !! MonitoredBy = Some name ->
  ch_RemoveMonitor (NewCommandHandler instance EmptyString) (ParseRedisName (kv_Name instance)).2 None w1 = (Ok (b, err), w2) ->
  b || shouldRetry err = true \/ (b = false /\ err <> None) ->
  Reconcile key (r, w) = (Ok (if b || shouldRetry err then retry_later else done_result), (start_events r, w2)).
Proof.
  intros Hget Hdel Hfin Hty Hmon Hrm Hcase. apply (Reconcile_found key instance r w w1); [done|].
  unfold reconcile_instance. rewrite Hdel. unfold reconcile_delete.
  rewrite ContainsFinalizer_spec, bool_decide_eq_true_2 by done. cbn [negb].
  unfold bind at 1, on_handler. rewrite Hty.
  change (String.eqb StandardType SentinelType) with false. change (String.eqb StandardType StandardType) with true. cbn iota.
  unfold run_finalizer, bind at 1, with_handler, catch. cbn [handler_Finializer standard_handler].
  unfold Standard.Finializer, bind at 1, geth. cbn [fst snd Standard.NewKVRocksStandardHandler hs_instance hs_password].
  rewrite Hmon. unfold bind at 1, onW. cbn [fst snd]. rewrite Hrm.
  unfold bind at 1, Standard.requeue, modh. cbn [fst snd].
  destruct err as [e|]; cbn [throw ret handler_Requeue standard_handler Standard.Requeue hs_requeue hs_set_requeue fst snd].
  - change (match inr e with inl _ => None | inr e0 => Some e0 end) with (Some e).
    unfold ret. by destruct (b || shouldRetry (Some e)).
  - change (match inl tt with inl _ => @None goerr | inr e0 => Some e0 end) with (@None goerr).
    unfold ret. destruct Hcase as [->|[_ ?]]; done.
Qed.

(** C32: a monitored standard instance that is being deleted keeps its
    finalizer while its sentinel is not running: the reconciliation reads
    the two resources, asks for a retry, and writes nothing. *)
Theorem deletion_waits_for_sentinel key instance sentinel name ts r (w w1 w2 : W) :
  GetKVRocks key w = (Ok instance, w1) ->
  om_DeletionTimestamp (kv_Meta instance) = Some ts ->
  KVRocksFinalizer ∈ om_Finalizers (kv_Meta instance) ->
  sp_Type (kv_Spec instance) = StandardType ->
  kv_Labels instance !! MonitoredBy = Some name ->
  GetKVRocks (NN (kv_Namespace instance) name) w1 = (Ok sentinel, w2) ->
  st_Status (kv_Status sentinel) <> StatusRunning ->
  Reconcile key (r, w) = (Ok retry_later, (start_events r, w2)).
Proof.
  intros Hget Hdel Hfin Hty Hmon Hsen Hst. apply String.eqb_neq in Hst.
  apply (standard_finalizer_run key instance name true None r ts w w1 w2); auto.
  unfold ch_RemoveMonitor. cbn [ch_instance]. rewrite Hmon. cbn [default from_option id].
  unfold bind at 1, GetSentinel, bind at 1, catch. by rewrite Hsen, Hst.
Qed.

(** A deletion whose finalizer fails with an error other than a missing or
    changed object is given up: when the pods of the running sentinel cannot
    be listed, the reconciliation reports success, asks for no retry and
    removes nothing, so that the instance stays with its finalizer until
    something else changes it. *)
Theorem deletion_gives_up key instance sentinel name ts r e (w w1 w2 w3 : W) :
  GetKVRocks key w = (Ok instance, w1) ->
  om_DeletionTimestamp (kv_Meta instance) = Some ts ->
  KVRocksFinalizer ∈ om_Finalizers (kv_Meta instance) ->
  sp_Type (kv_Spec instance) = StandardType ->
  kv_Labels instance !! MonitoredBy = Some name ->
  GetKVRocks (NN (kv_Namespace instance) name) w1 = (Ok sentinel, w2) ->
  st_Status (kv_Status sentinel) = StatusRunning ->
  ListDeploymentPods (NN (kv_Namespace instance) name) w2 = (Err e, w3) ->
  e <> ENotFound -> e <> EConflict ->
  Reconcile key (r, w) = (Ok done_result, (start_events r, w3)).
Proof.
  intros Hget Hdel Hfin Hty Hmon Hsen Hst Hlist Hnf Hcf.
  assert (Hretry : shouldRetry (Some e) = false) by (by destruct e).
  rewrite (standard_finalizer_run key instance name false (Some e) r ts w w1 w3); auto.
  - by rewrite Hretry.
  - unfold ch_RemoveMonitor. cbn [ch_instance]. rewrite Hmon. cbn [default from_option id].
    unfold bind at 1, GetSentinel, bind at 1, catch. rewrite Hsen, Hst. cbn [String.eqb Ascii.eqb Bool.eqb negb StatusRunning].
    unfold bind at 1. by rewrite Hlist.
Qed.

Lemma removeController_frame (h : ClusterHandler) (w : W) o h' w' :
  removeController (h, w) = (o, (h', w')) -> h' = h.
Proof.
  intros Hrun. assert (Hk : keeps (fun s : ClusterHandler * W => s.1 = h) removeController).
  { assert (HonW : forall A (m : M W A), keeps (fun s : ClusterHandler * W => s.1 = h) (onW m)).
    { intros A m [a b] Hs. unfold onW. cbn [fst snd]. by destruct (m b). }
    unfold removeController. apply keeps_bind; [apply keeps_geth|intros h0].
    repeat (apply keeps_bind; [apply HonW|intros _]). apply keeps_ret. }
  specialize (Hk (h, w) eq_refl). by rewrite Hrun in Hk.
Qed.

(** The finalizer of a cluster never asks for a retry when it returns
    without an error: whatever the removal of the shards' monitors asked for
    (the sentinel is not running yet) is overwritten by the removal of the
    controller, so the instance is released with its monitors in place. *)
Theorem cluster_finalizer_forgets_retry (h : ClusterHandler) (w : W) h' w' v :
  kv_Labels (hc_instance h) !! MonitoredBy = Some v ->
  Cluster.Finializer (h, w) = (Ok tt, (h', w')) ->
  hc_requeue h' = false.
Proof.
  intros Hmon. unfold Cluster.Finializer, bind at 1, geth. cbn [fst snd]. rewrite Hmon. unfold bind at 1.
  destruct (forM _ _ (h, w)) as [[[]|e| |] [h1 w1]]; [|done..]. unfold bind at 1, catch.
  destruct (removeController (h1, w1)) as [[b|e| |] [h2 w2]] eqn:Er; [| |done..].
  - assert (Hb : b = false).
    { unfold removeController, bind at 1, geth in Er. cbn [fst snd] in Er.
      repeat (unfold bind at 1 in Er; destruct (onW _ _) as [[[]|?| |] [? ?]]; [|done..]).
      by injection Er as <- _ _. }
    subst b. unfold Cluster.requeue, modh. by intros [= <- _].
  - unfold bind, Cluster.requeue, modh, throw. done.
Qed.
End deletion.

(** ** Witnesses *)

Definition cr_key : NamespacedName := NN "default" "kvrocks-standard-1-demo".
Definition cr_with (ty status : string) (f : ObjectMeta -> ObjectMeta) : KVRocks :=
  set_kv_Meta f (set_kv_Status (set_st_Status status) (sample_instance ty "kvrocks-standard-1-demo" 2 1)).
Definition cr_world (k : KVRocks) : World := w_set_kvrocks {[cr_key := k]} empty_world.

Lemma failed_is_final_witness :
  @Reconcile World worldEnv sampleLib cr_key (new_reconciler, cr_world (cr_with StandardType StatusFailed id)) =
    (Ok done_result, (start_events new_reconciler, cr_world (cr_with StandardType StatusFailed id))).
Proof.
  apply (@failed_is_final World worldEnv sampleLib cr_key (cr_with StandardType StatusFailed id)); [reflexivity..].
Defined.

(** A cluster with one shard is refused. *)
Lemma refused_spec_witness :
  (@Reconcile World worldEnv sampleLib cr_key (new_reconciler, cr_world (cr_with ClusterType StatusNone id))).1 = Ok done_result.
Proof.
  rewrite (@refused_spec World worldEnv sampleLib cr_key (cr_with ClusterType StatusNone id) ErrorReplicasUnreasonable new_reconciler
    (cr_world (cr_with ClusterType StatusNone id)) (cr_world (cr_with ClusterType StatusNone id)));
    [reflexivity|reflexivity|reflexivity|discriminate|reflexivity].
Defined.

Definition odd_cr : KVRocks :=
  cr_with "proxy" StatusRunning (set_om_Labels (wanted_labels (cr_with "proxy" StatusRunning id))).

Lemma unknown_type_panics_witness :
  @Reconcile World worldEnv sampleLib cr_key (new_reconciler, cr_world odd_cr) =
    (Panic, (start_events new_reconciler, cr_world odd_cr)).
Proof.
  apply (@unknown_type_panics World worldEnv sampleLib cr_key odd_cr);
    [reflexivity|reflexivity|discriminate|discriminate|discriminate|discriminate| |].
  - apply (bool_decide_unpack _). vm_compute. exact I.
  - apply (bool_decide_unpack _). vm_compute. exact I.
Defined.

Lemma initialised_once_witness :
  let k := set_kv_Status (set_st_Status StatusCreating)
    (set_kv_Meta (set_om_Labels (wanted_labels (cr_with StandardType StatusNone id))) (cr_with StandardType StatusNone id)) in
  @runIfInitialize World worldEnv k empty_world = (Ok k, empty_world).
Proof.
  apply (@initialised_once World worldEnv (cr_with StandardType StatusNone id) StatusCreating empty_world). discriminate.
Defined.

Definition sentinel_cr : KVRocks := sample_instance SentinelType "sentinel-1" 3 0.

Definition dying (m : ObjectMeta) : ObjectMeta :=
  {| om_Name := om_Name m; om_Namespace := om_Namespace m; om_Labels := {[MonitoredBy := "sentinel-1"]};
     om_Annotations := om_Annotations m; om_ResourceVersion := om_ResourceVersion m; om_UID := om_UID m;
     om_DeletionTimestamp := Some 1; om_Finalizers := [KVRocksFinalizer]; om_OwnerReferences := om_OwnerReferences m |}.

Definition dying_world : World :=
  w_set_kvrocks (<[cr_key := cr_with StandardType StatusRunning dying]> {[NN "default" "sentinel-1" := sentinel_cr]}) empty_world.

Lemma deletion_waits_for_sentinel_witness :
  @Reconcile World worldEnv sampleLib cr_key (new_reconciler, dying_world) =
    (Ok retry_later, (start_events new_reconciler, dying_world)).
Proof.
  apply (@deletion_waits_for_sentinel World worldEnv sampleLib cr_key (cr_with StandardType StatusRunning dying)
    sentinel_cr "sentinel-1" 1 new_reconciler dying_world dying_world);
    [vm_compute; reflexivity|reflexivity|apply list_elem_of_here|reflexivity|reflexivity|vm_compute; reflexivity|discriminate].
Defined.

(** A dying cluster whose sentinel is not running, with its controller. *)
Definition dying_cluster : KVRocks := set_kv_Meta dying (sample_instance ClusterType "kvrocks-cluster-1-demo" 2 3).
Definition object (name : string) : ObjectMeta := empty_meta name "default".
Definition empty_template : PodTemplateSpec :=
  {| pt_Labels := ∅; pt_Affinity := None; pt_NodeSelector := ∅; pt_Tolerations := [];
     pt_TerminationGracePeriodSeconds := None; pt_ReadinessGates := []; pt_Volumes := []; pt_Containers := [] |}.
Definition plain_service (name : string) : Service :=
  {| sv_Meta := object name; sv_Type := EmptyString; sv_Ports := []; sv_Selector := ∅; sv_ClusterIP := EmptyString |}.

Definition dying_cluster_world : World :=
  w_set_kvrocks {[NN "default" "sentinel-1" := sentinel_cr]}
    (w_set_services (<[NN "default" ControllerServiceName := plain_service ControllerServiceName]>
        {[NN "default" EtcdServiceName := plain_service EtcdServiceName]})
      (w_set_configmaps {[NN "default" "controller-config" := {| cm_Meta := object "controller-config"; cm_Data := ∅ |}]}
        (w_set_deployments {[NN "default" ControllerDeploymentName :=
            {| d_Meta := object ControllerDeploymentName; d_Replicas := 1; d_MatchLabels := ∅;
               d_Template := empty_template; d_ReadyReplicas := 1 |}]}
          (w_set_native {[NN "default" EtcdStatefulName :=
              {| ns_Meta := object EtcdStatefulName; ns_Replicas := 1; ns_MatchLabels := ∅; ns_ServiceName := EmptyString;
                 ns_Template := empty_template; ns_ReadyReplicas := 1 |}]} empty_world)))).

Definition dying_handler : ClusterHandler :=
  NewKVRocksClusterHandler (NN "default" "kvrocks-cluster-1-demo") dying_cluster NewClient.

Lemma cluster_finalizer_forgets_retry_witness :
  let run := @Cluster.Finializer World worldEnv (dying_handler, dying_cluster_world) in
  run.1 = Ok tt /\ hc_requeue run.2.1 = false.
Proof.
  intros run.
  assert (Hok : run.1 = Ok tt) by (vm_compute; reflexivity).
  split; [exact Hok|].
  exact (@cluster_finalizer_forgets_retry World worldEnv dying_handler dying_cluster_world run.2.1 run.2.2 "sentinel-1"
    eq_refl (run_eq _ _ _ Hok)).
Defined.

(** An API server whose deployments cannot be read for now. *)
Definition flakyDeployments : ApiKind World Deployment := {|
  api_get := fun _ w => (inr (EMsg "etcdserver: request timed out"), w);
  api_create := @api_create _ _ (@kube_deployment _ worldKube);
  api_update := @api_update _ _ (@kube_deployment _ worldKube);
  api_delete := @api_delete _ _ (@kube_deployment _ worldKube);
  api_delete_nil := @api_delete_nil _ _ (@kube_deployment _ worldKube);
  api_list := @api_list _ _ (@kube_deployment _ worldKube);
|}.
Definition flakyKube : Kube World := {|
  kube_kvrocks := @kube_kvrocks _ worldKube; kube_configmap := @kube_configmap _ worldKube;
  kube_service := @kube_service _ worldKube; kube_deployment := flakyDeployments;
  kube_statefulset := @kube_statefulset _ worldKube; kube_native_statefulset := @kube_native_statefulset _ worldKube;
  kube_pod := @kube_pod _ worldKube; kube_pvc := @kube_pvc _ worldKube;
|}.
Definition flakyEnv : Env World := {|
  env_kube := flakyKube; env_redis := worldRedis; env_http := worldHttp; env_clock := worldClock; env_sink := worldSink
|}.

Definition running_sentinel : KVRocks := set_kv_Status (set_st_Status StatusRunning) sentinel_cr.
Definition flaky_world : World :=
  w_set_kvrocks (<[cr_key := cr_with StandardType StatusRunning dying]> {[NN "default" "sentinel-1" := running_sentinel]}) empty_world.

Lemma deletion_gives_up_witness :
  @Reconcile World flakyEnv sampleLib cr_key (new_reconciler, flaky_world) =
    (Ok done_result, (start_events new_reconciler, flaky_world)).
Proof.
  apply (@deletion_gives_up World flakyEnv sampleLib cr_key (cr_with StandardType StatusRunning dying) running_sentinel
    "sentinel-1" 1 new_reconciler (EMsg "etcdserver: request timed out") flaky_world flaky_world flaky_world flaky_world);
    [vm_compute; reflexivity|reflexivity|apply list_elem_of_here|reflexivity|reflexivity|vm_compute; reflexivity
    |reflexivity|vm_compute; reflexivity|discriminate|discriminate].
Defined.
