(* ===== verification/SentinelProps.v ===== *)
(** * Properties of the sentinel handler *)

From S2P Require Import Prelude GoStd Types Resources Env K8sClient KvClient Common Sentinel World.
Local Open Scope Z_scope.
Local Open Scope go_scope.

Section first_only.
Context {W : Type} `{Env W}.

(** A monitored, running instance of the standard type. *)
Definition running_standard (k : KVRocks) : Prop :=
  kv_Labels k !! MonitoredBy <> None /\ st_Status (kv_Status k) = StatusRunning /\ sp_Type (kv_Spec k) = StandardType.

Lemma monitor_standard_ends k s :
  running_standard k ->
  match monitor_instance k s with
  | (Ok Next, _) => False
  | _ => True
  end.
Proof.
  intros (Hl & Hs & Ht). unfold monitor_instance. destruct (_ !! MonitoredBy); [|done].
  rewrite Hs, Ht. change (String.eqb StatusRunning StatusRunning) with true.
  change (String.eqb StandardType StandardType) with true. cbn [negb]. unfold bind at 1.
  destruct (onW _ s) as [[n|e| |] s1]; [|done..]. unfold bind.
  by destruct (ensureMonitor _ _ _ s1) as [[[]|e| |] s2].
Qed.

(** The sentinel handler stops at the first running standard instance of
    the listing: the instances after it are neither monitored nor cause a
    requeue in this pass, whatever they are. *)
Theorem first_standard_only h (w w' : W) k rest rest' :
  running_standard k ->
  ListKVRocks (nn_Namespace (hn_key h)) (MonitorLabels (nn_Name (hn_key h))) w = (Ok (k :: rest), w') ->
  ensureSentinel (h, w) = after (forR (k :: rest') monitor_instance) (ret tt) (h, w').
Proof.
  intros Hk Hlist. unfold ensureSentinel, bind at 1, geth. cbn [fst snd]. unfold bind at 1, onW. cbn [fst snd].
  rewrite Hlist. unfold after. cbn [forR]. unfold bind.
  pose proof (monitor_standard_ends k (h, w') Hk) as Hend.
  by destruct (monitor_instance k (h, w')) as [[[|r]|e| |] s1].
Qed.
End first_only.

Definition monitored (name : string) : KVRocks :=
  set_kv_Meta (set_om_Labels (MonitorLabels "sentinel-1"))
    (set_kv_Status (set_st_Status StatusRunning) (sample_instance StandardType name 2 1)).

Definition two_world : World :=
  w_set_kvrocks (<[NN "default" "kvrocks-standard-1-a" := monitored "kvrocks-standard-1-a"]>
    {[NN "default" "kvrocks-standard-1-b" := monitored "kvrocks-standard-1-b"]}) empty_world.

Definition watcher : SentinelHandler :=
  NewKVRocksSentinelHandler (NN "default" "sentinel-1") (sample_instance SentinelType "sentinel-1" 3 0).

Lemma first_standard_only_witness :
  exists k, running_standard k /\
    @ensureSentinel World worldEnv (watcher, two_world) = after (forR [k] (@monitor_instance World worldEnv)) (ret tt) (watcher, two_world).
Proof.
  set (l := @ListKVRocks World worldKube "default" (MonitorLabels "sentinel-1") two_world).
  assert (Hl : (l = (Ok [monitored "kvrocks-standard-1-a"; monitored "kvrocks-standard-1-b"], two_world)) \/
               (l = (Ok [monitored "kvrocks-standard-1-b"; monitored "kvrocks-standard-1-a"], two_world))).
  { first [left; vm_compute; reflexivity|right; vm_compute; reflexivity]. }
  assert (Hr : forall n, running_standard (monitored n)) by (intros n; split; [discriminate|split; reflexivity]).
  destruct Hl as [Hl|Hl];
    (eexists; split;
     [|apply (@first_standard_only World worldEnv watcher two_world two_world _ _ []) with (2 := Hl)]; apply Hr).
Defined.

(** ** Monitors *)

(** What the operator relies on in a sentinel: a table of the masters it
    monitors, per address of the sentinel, changed by [SENTINEL MONITOR] and
    [SENTINEL REMOVE] only; a [SENTINEL MONITOR] that fails changes nothing,
    and [SENTINEL MASTER] reports the address in the table. *)
Class SentinelLaws (W : Type) `{Kube W, Redis W} := {
  watched : W -> string -> gmap string string;
  master_frame : forall addr u p name w, watched (sentinel_master addr u p name w).2 = watched w;
  master_reply : forall addr u p name w m, (sentinel_master addr u p name w).1 = inl m ->
    exists ip, watched w addr !! name = Some ip /\ m !! "ip" = Some ip;
  remove_others : forall addr u p name w a, a <> addr -> watched (sentinel_remove addr u p name w).2 a = watched w a;
  remove_local : forall addr u p name w k, k <> name ->
    watched (sentinel_remove addr u p name w).2 addr !! k = watched w addr !! k;
  monitor_ok : forall addr u p name ip port q w, (sentinel_monitor addr u p name ip port q w).1 = inl tt ->
    watched (sentinel_monitor addr u p name ip port q w).2 addr = <[name := ip]> (watched w addr);
  monitor_failed : forall addr u p name ip port q w e, (sentinel_monitor addr u p name ip port q w).1 = inr e ->
    watched (sentinel_monitor addr u p name ip port q w).2 addr = watched w addr;
  monitor_others : forall addr u p name ip port q w a, a <> addr ->
    watched (sentinel_monitor addr u p name ip port q w).2 a = watched w a;
  set_frame : forall addr u p name o v w, watched (sentinel_set addr u p name o v w).2 = watched w;
  reset_frame : forall addr u p name w, watched (sentinel_reset addr u p name w).2 = watched w;
  role_frame : forall addr p w, watched (redis_role addr p w).2 = watched w;
  sts_frame : forall key w, watched (api_get (K := StatefulSet) key w).2 = watched w;
  pods_frame : forall ns labels w, watched (api_list (K := Pod) ns labels w).2 = watched w;
}.

Section monitors.
Context {W : Type} `{Env W, !SentinelLaws W}.
Context (masterName masterIP : string).

(** The entries a monitoring of [masterName] has no business with. *)
Definition others_kept (addrs : list string) (w w' : W) : Prop :=
  forall a k, a ∉ addrs \/ k <> masterName -> watched w' a !! k = watched w a !! k.

Lemma others_kept_refl addrs w : others_kept addrs w w.
Proof. by intros a k _. Qed.

Lemma others_kept_trans addrs w1 w2 w3 : others_kept addrs w1 w2 -> others_kept addrs w2 w3 -> others_kept addrs w1 w3.
Proof. intros H1 H2 a k Hak. by rewrite H2, H1. Qed.

Lemma others_kept_eq addrs w w' : watched w' = watched w -> others_kept addrs w w'.
Proof. intros E a k _. by rewrite E. Qed.

(** The end of a run that leaves every foreign entry alone and, when it
    succeeds, has the sentinel at [addr] watch the master. *)
Definition set_up (addr : string) (w : W) (o : outcome unit) (w' : W) : Prop :=
  others_kept [addr] w w' /\ (o = Ok tt -> watched w' addr !! masterName = Some masterIP).

Lemma quiet_call {A} (c : call W A) v : (forall w, watched (c w).2 = watched w) -> keeps (fun w => watched w = v) (perform c).
Proof. intros Hc. apply keeps_perform. intros w <-. apply Hc. Qed.

Lemma create_sets_up sentinelIP pw kvPass w :
  wp (CreateMonitor sentinelIP pw masterName masterIP kvPass) (set_up (sentinel_addr sentinelIP) w) w.
Proof.
  unfold CreateMonitor. set (addr := sentinel_addr sentinelIP). apply wp_bind.
  set (c := sentinel_monitor _ _ _ _ _ _ _).
  assert (Hkept : others_kept [addr] w (c w).2).
  { intros a k Hak. destruct (decide (a = addr)) as [->|Hne]; [|by unfold c; rewrite monitor_others].
    destruct Hak as [Ha|Hk]; [set_solver|]. destruct (c w).1 as [[]|e] eqn:E.
    - unfold c. rewrite monitor_ok by done. by rewrite lookup_insert_ne.
    - unfold c. by erewrite monitor_failed. }
  assert (Hok : (c w).1 = inl tt -> watched (c w).2 addr !! masterName = Some masterIP).
  { intros E. unfold c. rewrite monitor_ok by done. apply lookup_insert_eq. }
  unfold wp, perform. destruct (c w) as [[[]|e] w1]; cbn [bindQ fst snd] in *; [|by split].
  set (m := bind _ _). assert (Hm : keeps (fun w => watched w = watched w1) m).
  { unfold m. repeat (apply keeps_bind; [|intros _]); apply quiet_call; intros; apply set_frame. }
  specialize (Hm w1 eq_refl). unfold wp, set_up. cbv beta in Hm. rewrite Hm. split; [|auto].
  eapply others_kept_trans; [done|]. by apply others_kept_eq.
Qed.

Lemma remove_keeps_others sentinelIP pw w :
  others_kept [sentinel_addr sentinelIP] w (RemoveMonitor sentinelIP pw masterName w).2.
Proof.
  unfold RemoveMonitor. set (addr := sentinel_addr sentinelIP). set (c := sentinel_remove _ _ _ _).
  replace (perform c w).2 with (c w).2 by (unfold perform; by destruct (c w) as [[]]).
  intros a k Hak. unfold c. destruct (decide (a = addr)) as [->|Hne]; [|by rewrite remove_others].
  destruct Hak as [Ha|Hk]; [set_solver|]. by rewrite remove_local.
Qed.

Lemma set_up_after addr w w1 o w' : others_kept [addr] w w1 -> set_up addr w1 o w' -> set_up addr w o w'.
Proof. intros Hk [Hk' Hok]. split; [by eapply others_kept_trans|done]. Qed.

Lemma monitor_at_sets_up sentinelIP pw password w :
  wp (ensure_monitor_at sentinelIP pw masterName masterIP password) (set_up (sentinel_addr sentinelIP) w) w.
Proof.
  unfold ensure_monitor_at. set (addr := sentinel_addr sentinelIP). set (create := bind (catch (RemoveMonitor sentinelIP pw masterName)) _).
  assert (Hcreate : forall w, wp create (set_up addr w) w).
  { intros w1. apply wp_bind, wp_catch. pose proof (remove_keeps_others sentinelIP pw w1) as Hk.
    unfold wp. destruct (RemoveMonitor _ _ _ w1) as [[[]|e| |] w2] eqn:E; cbn [bindQ fst snd] in *.
    1, 2: eapply wp_mono; [apply create_sets_up|intros o w3; by apply set_up_after].
    all: by split. }
  apply wp_bind, wp_catch. unfold GetMasterFromSentinel. apply wp_bind.
  pose proof (master_frame addr SuperUser pw masterName w) as Hf.
  pose proof (master_reply addr SuperUser pw masterName w) as Hr.
  unfold wp at 1, perform. destruct (sentinel_master _ _ _ _ w) as [[m|e] w1]; cbn [bindQ ret fst snd wp] in *.
  - destruct (Hr m eq_refl) as (ip & Hw & ->). cbn [default from_option id].
    destruct (String.eqb_spec ip masterIP) as [->|Hne]; cbn [negb].
    + unfold ResetMonitor. set (m' := bind _ _). assert (Hm : keeps (fun w => watched w = watched w1) m').
      { unfold m'. apply keeps_bind; [|intros _]; apply quiet_call; intros; [apply reset_frame|apply set_frame]. }
      specialize (Hm w1 eq_refl). cbv beta in Hm. unfold wp, set_up. rewrite Hm, Hf.
      split; [by apply others_kept_eq; rewrite Hm|done].
    + eapply wp_mono; [apply Hcreate|intros o w3; apply set_up_after]. by apply others_kept_eq.
  - eapply wp_mono; [apply Hcreate|intros o w3; apply set_up_after]. by apply others_kept_eq.
Qed.

(** All sentinels of the loop of [ensureMonitor]. *)
Lemma loop_sets_up pods pw password w o w' :
  forM pods (fun ip => ensure_monitor_at ip pw masterName masterIP password) w = (o, w') ->
  others_kept (sentinel_addr <$> pods) w w' /\
  (o = Ok tt -> forall ip, ip ∈ pods -> watched w' (sentinel_addr ip) !! masterName = Some masterIP).
Proof.
  revert w. induction pods as [|ip pods IH]; intros w; cbn [forM].
  - intros [= <- <-]. split; [apply others_kept_refl|]. intros _ ip Hip. by apply elem_of_nil in Hip.
  - pose proof (monitor_at_sets_up ip pw password w) as [Hk Hok]. unfold bind.
    destruct (ensure_monitor_at _ _ _ _ _ w) as [[[]|e| |] w1]; cbn [fst snd] in Hk, Hok.
    2, 3, 4: intros [= <- <-]; split; [|done]; intros a k Hak; apply Hk; set_solver.
    intros Hrun. destruct (IH w1 Hrun) as [Hk' Hok']. split.
    + intros a k Hak. rewrite Hk', Hk; set_solver.
    + intros -> jp Hj. destruct (decide (sentinel_addr jp ∈ sentinel_addr <$> pods)) as [Hin|Hin].
      * apply list_elem_of_fmap in Hin as (kp & -> & Hkp). by apply Hok'.
      * apply elem_of_cons in Hj as [->|Hj]; [|exfalso; by apply Hin, list_elem_of_fmap_2].
        rewrite Hk' by auto. by apply Hok.
Qed.
End monitors.

Section shards.
Context {W : Type} `{Env W, !SentinelLaws W}.

Lemma ensureMonitor_sets_up ip name pw h w o h' w' :
  ensureMonitor ip name pw (h, w) = (o, (h', w')) ->
  h' = h /\ others_kept name (sentinel_addr <$> hn_pods h) w w' /\
  (o = Ok tt -> forall s, s ∈ hn_pods h -> watched w' (sentinel_addr s) !! name = Some ip).
Proof.
  unfold ensureMonitor, bind at 1, geth. cbn [fst snd]. rewrite forM_onW. unfold onW. cbn [fst snd].
  destruct (forM _ _ w) as [o1 w1] eqn:E. intros [= <- <- <-].
  split; [done|]. by eapply loop_sets_up.
Qed.

Lemma getMasterMsg_master key pw w node w' :
  getMasterMsg key pw w = (Ok node, w') -> n_Role node = RoleMaster.
Proof.
  unfold getMasterMsg, bind at 1. destruct (ListStatefulSetPods key w) as [[pods|e| |] w1]; [|done..].
  revert w1. induction pods as [|pod pods IH]; intros w1; cbn [forR]; [done|].
  unfold bind at 1, bind at 1, bind at 1. destruct (NodeInfo _ _ w1) as [[n|e| |] w2]; [|done..].
  destruct (String.eqb_spec (n_Role n) RoleMaster) as [E|E]; [by intros [= <- <-]|]. apply IH.
Qed.

Lemma getMasterMsg_quiet key pw v : keeps (fun w => watched w = v) (getMasterMsg key pw).
Proof.
  unfold getMasterMsg, ListStatefulSetPods, GetStatefulSet. apply keeps_bind; [apply keeps_bind|intros pods].
  - apply quiet_call. apply sts_frame.
  - intros sts. apply quiet_call. intros; apply pods_frame.
  - apply keeps_bind; [|intros [|n]; auto with keeps].
    induction pods as [|pod pods IH]; cbn [forR]; [apply keeps_ret|]. apply keeps_bind; [|intros [|r]; auto with keeps].
    unfold NodeInfo. apply keeps_bind; [apply keeps_bind|intros n; case_match; apply keeps_ret].
    + apply quiet_call. intros; apply role_frame.
    + intros [|r rs]; apply keeps_ret.
Qed.

(** The name under which a shard of [k] is monitored, and its master as a
    sentinel's table must show it: the address of a pod of the shard that
    answered [ROLE] with master. *)
Definition shard_monitor (k : KVRocks) (i : Z) : string := (ParseRedisName (kv_Name k)).2 +:+ "-" +:+ Itoa i.

Definition shard_watched (k : KVRocks) (w : W) (sentinelIP : string) (i : Z) : Prop :=
  exists node w1 w2,
    getMasterMsg (NN (kv_Namespace k) (kv_Name k +:+ "-" +:+ Itoa i)) (sp_Password (kv_Spec k)) w1 = (Ok node, w2) /\
    n_Role node = RoleMaster /\
    watched w (sentinel_addr sentinelIP) !! shard_monitor k i = Some (n_IP node).

Lemma shard_monitor_inj k i j : is_int i -> is_int j -> shard_monitor k i = shard_monitor k j -> i = j.
Proof. intros Hi Hj E. apply string_app_inv_head, (string_app_inv_head "-") in E. by apply Itoa_inj. Qed.

Lemma shard_watched_kept k w w' name ip s i :
  others_kept name ip w w' -> shard_monitor k i <> name -> shard_watched k w s i -> shard_watched k w' s i.
Proof.
  intros Hk Hne (node & w1 & w2 & Hg & Hr & Hw). exists node, w1, w2. split; [done|]. split; [done|].
  rewrite Hk by auto. done.
Qed.

(** Entries of sentinels or names that are none of the instance's. *)
Definition foreign_kept (k : KVRocks) (pods : list string) (w w' : W) : Prop :=
  forall a name, a ∉ sentinel_addr <$> pods \/ (forall i, name <> shard_monitor k i) ->
    watched w' a !! name = watched w a !! name.

Definition monitor_shard (k : KVRocks) (i : Z) : M (SentinelHandler * W) unit :=
  let! node := onW (getMasterMsg (NN (kv_Namespace k) (kv_Name k +:+ "-" +:+ Itoa i)) (sp_Password (kv_Spec k))) in
  ensureMonitor (n_IP node) (shard_monitor k i) (sp_Password (kv_Spec k)).

Lemma monitor_shard_spec k i h w h' w' :
  is_int i -> monitor_shard k i (h, w) = (Ok tt, (h', w')) ->
  h' = h /\ foreign_kept k (hn_pods h) w w' /\
  forall j s, is_int j -> s ∈ hn_pods h -> j = i \/ shard_watched k w s j -> shard_watched k w' s j.
Proof.
  intros Hi. unfold monitor_shard, bind at 1, onW. cbn [fst snd]. set (key := NN _ _). set (pw := sp_Password _).
  pose proof (getMasterMsg_quiet key pw _ w eq_refl) as Hq. pose proof (getMasterMsg_master key pw w) as Hm.
  destruct (getMasterMsg key pw w) as [[node|e| |] w1] eqn:Eg; cbn [fst snd] in *; [|done..].
  intros Hrun. apply ensureMonitor_sets_up in Hrun as (-> & Hk & Hw). split; [done|]. split.
  - intros a name Han. rewrite Hk, Hq by naive_solver. done.
  - intros j s Hj Hs Hjw. destruct (decide (j = i)) as [->|Hne].
    + exists node, w, w1. split; [done|]. split; [by eapply Hm|]. by apply Hw.
    + destruct Hjw as [?|(n & u1 & u2 & Hg & Hr & Hn)]; [done|].
      eapply shard_watched_kept; [exact Hk|by intros ?%shard_monitor_inj|].
      exists n, u1, u2. by rewrite Hq.
Qed.

Lemma monitor_shards_spec k (l : list Z) h w h' w' :
  Forall is_int l -> forM l (monitor_shard k) (h, w) = (Ok tt, (h', w')) ->
  h' = h /\ foreign_kept k (hn_pods h) w w' /\
  forall j s, is_int j -> s ∈ hn_pods h -> j ∈ l \/ shard_watched k w s j -> shard_watched k w' s j.
Proof.
  intros Hl. revert w. induction Hl as [|i l Hi Hl IH]; intros w; cbn [forM].
  - intros [= <- <-]. split; [done|]. split; [by intros ?|]. intros j s _ _ [Hj|?]; [by apply elem_of_nil in Hj|done].
  - unfold bind. destruct (monitor_shard k i (h, w)) as [[[]|e| |] [h1 w1]] eqn:E; [|done..].
    apply monitor_shard_spec in E as (-> & Hk & Hw); [|done].
    intros Hrun. apply IH in Hrun as (-> & Hk' & Hw'). split; [done|]. split.
    + intros a name Han. by rewrite Hk', Hk.
    + intros j s Hj Hs Hjw. apply Hw'; [done..|]. rewrite elem_of_cons in Hjw.
      destruct (decide (j ∈ l)); [by left|right]. apply Hw; naive_solver.
Qed.

(** C19: once a running cluster instance was handled without an error, every
    sentinel watches every shard under the shard's name, at the address of a
    pod of that shard which said it is the master; no other entry of any
    sentinel changed. *)
Theorem cluster_shards_monitored h w k c h' w' :
  kv_Labels k !! MonitoredBy <> None -> st_Status (kv_Status k) = StatusRunning ->
  sp_Type (kv_Spec k) <> StandardType ->
  monitor_instance k (h, w) = (Ok c, (h', w')) ->
  c = Next /\ h' = h /\ foreign_kept k (hn_pods h) w w' /\
  forall i s, 0 <= i < int64 (sp_Master (kv_Spec k)) -> s ∈ hn_pods h -> shard_watched k w' s i.
Proof.
  intros Hl Hst Hty. unfold monitor_instance. destruct (kv_Labels k !! MonitoredBy) as [by_|]; [|done].
  rewrite Hst. change (String.eqb StatusRunning StatusRunning) with true. cbn [negb].
  destruct (String.eqb_spec (sp_Type (kv_Spec k)) StandardType); [done|].
  assert (Hin : forall i, i ∈ irange 0 (int64 (sp_Master (kv_Spec k)) - 1) -> is_int i).
  { intros i. rewrite elem_of_irange. pose proof (int64_range (sp_Master (kv_Spec k))).
    unfold is_int, MinInt, MaxInt in *. lia. }
  unfold bind at 1. change (fun index : Z => _) with (monitor_shard k).
  destruct (forM _ _ (h, w)) as [[[]|e| |] [h1 w1]] eqn:E; [|done..].
  apply monitor_shards_spec in E as (-> & Hk & Hw); [|by apply Forall_forall].
  intros [= <- <- <-]. do 3 (split; [done|]). intros i s Hi Hs.
  assert (Hii : i ∈ irange 0 (int64 (sp_Master (kv_Spec k)) - 1)) by (apply elem_of_irange; lia).
  apply Hw; [by apply Hin|done|by left].
Qed.
End shards.

(** The concrete world keeps its monitors in a table. *)
Definition world_watched (w : World) (addr : string) : gmap string string := default ∅ (w_monitors w !! addr).

#[export] Instance worldSentinel : @SentinelLaws World worldKube worldRedis.
Proof.
  refine {| watched := world_watched |}; unfold world_watched; cbn.
  - intros addr _ _ name w. by destruct (_ !! name).
  - intros addr _ _ name w m. destruct (_ !! name) as [ip|]; [|done]. intros [= <-]. by exists ip.
  - intros addr _ _ name w a Ha. by rewrite lookup_insert_ne.
  - intros addr _ _ name w k Hk. by rewrite lookup_insert_eq; cbn; rewrite lookup_delete_ne.
  - intros addr _ _ name ip _ _ w _. by rewrite lookup_insert_eq.
  - done.
  - intros addr _ _ name ip _ _ w a Ha. by rewrite lookup_insert_ne.
  - done.
  - done.
  - intros addr _ w. by destruct (_ !! addr).
  - intros key w. by destruct (_ !! key).
  - done.
Defined.

(** A cluster of one shard of two pods, the second one the master. *)
Definition demo_cluster : KVRocks :=
  set_kv_Meta (set_om_Labels (MonitorLabels "sentinel-1"))
    (set_kv_Status (set_st_Status StatusRunning) (sample_instance ClusterType "kvrocks-cluster-1-demo" 2 1)).

Definition demo_set : StatefulSet := @NewStatefulSet sampleLib demo_cluster "kvrocks-cluster-1-demo-0".

Definition demo_pod (name ip : string) : Pod :=
  {| pod_Meta := sample_meta name (ss_MatchLabels demo_set); pod_PodIP := ip |}.

Definition demo_world : World :=
  w_set_sets {[NN "default" "kvrocks-cluster-1-demo-0" := demo_set]}
  (w_set_pods (<[NN "default" "kvrocks-cluster-1-demo-0-0" := demo_pod "kvrocks-cluster-1-demo-0-0" "10.0.0.1"]>
               {[NN "default" "kvrocks-cluster-1-demo-0-1" := demo_pod "kvrocks-cluster-1-demo-0-1" "10.0.0.2"]})
  (w_set_roles (<[kvrocks_addr "10.0.0.1" := RoleSlaver]> {[kvrocks_addr "10.0.0.2" := RoleMaster]})
  (w_set_monitors {[sentinel_addr "10.1.0.1" := {["demo-0" := "10.0.0.1"]}]} empty_world))).

Definition two_sentinels : SentinelHandler := hn_set_pods (fun _ => ["10.1.0.1"; "10.1.0.2"]) watcher.

Lemma cluster_shards_monitored_witness :
  let run := @monitor_instance World worldEnv demo_cluster (two_sentinels, demo_world) in
  run.1 = Ok Next /\ world_watched run.2.2 (sentinel_addr "10.1.0.2") !! "demo-0" = Some "10.0.0.2" /\
  forall i s, 0 <= i < 1 -> s ∈ ["10.1.0.1"; "10.1.0.2"] ->
    @shard_watched World worldEnv worldSentinel demo_cluster run.2.2 s i.
Proof.
  intros run. assert (Hok : run.1 = Ok Next) by (vm_compute; reflexivity).
  split; [exact Hok|]. split; [vm_compute; reflexivity|].
  refine (proj2 (proj2 (proj2 (@cluster_shards_monitored World worldEnv worldSentinel
    two_sentinels demo_world demo_cluster Next run.2.1 run.2.2 _ _ _ (run_eq _ _ _ Hok))))); [discriminate|reflexivity|discriminate].
Defined.
