(* ===== verification/DeepCopy.v ===== *)
(** * Deep copies (api/v1alpha1/zz_generated.deepcopy.go)

    The copy functions of the resource types over a heap: structs hold the
    locations of their slices, maps and pointers, so that sharing between a
    resource and its copy can be stated.  The structs of the Kubernetes
    libraries ([ResourceRequirements], [Affinity], [Toleration], [ObjectMeta],
    [ListMeta], [Quantity]) are parameters with their own copy functions.  A
    slice is the location of its elements: [make] gives every copied slice an
    array of its own, of the length of the original, and the capacity beyond
    the length is not modelled. *)

From S2P Require Import Prelude GoStd Types.
Local Open Scope Z_scope.

Definition loc : Type := positive.

(** ** Structs with references

    A nil slice, map or pointer is [None]. *)

Record gMigrateMsg := {
  gm_Shard : Z;
  gm_Slots : option loc;
}.

Record gTopology := {
  gt_Pod : string;
  gt_Role : string;
  gt_NodeId : string;
  gt_Ip : string;
  gt_Port : Z;
  gt_Slots : option loc;
  gt_MasterId : string;
  gt_Migrate : option loc;
  gt_Failover : bool;
}.

Record gTopoPartitions := {
  gp_PartitionName : string;
  gp_Shard : Z;
  gp_Topology : option loc;
}.

Record gShrinkMsg := {
  gs_Partition : option loc;
  gs_ReserveMsg : option loc;
}.

Record gStatus := {
  gst_Status : string;
  gst_Reason : string;
  gst_Version : Z;
  gst_Rebalance : bool;
  gst_Topo : option loc;
  gst_Shrink : option loc;
}.

Record gSpec := {
  gsp_Image : string;
  gsp_ImagePullPolicy : string;
  gsp_Type : string;
  gsp_KVRocksConfig : option loc;
  gsp_Replicas : Z;
  gsp_Master : Z;
  gsp_Password : string;
  gsp_Resources : option loc;
  gsp_NodeSelector : option loc;
  gsp_Toleration : option loc;
  gsp_Affinity : option loc;
  gsp_Storage : option loc;
}.

(** The structs of the libraries, and what they keep in cells of their own. *)
Record Lib := {
  lib_Resources : Type;
  lib_Affinity : Type;
  lib_Toleration : Type;
  lib_ObjectMeta : Type;
  lib_ListMeta : Type;
  lib_Quantity : Type;
  lib_Cell : Type;
}.

Section deepcopy.
Context (L : Lib).

Record gStorage := {
  gsg_Size : lib_Quantity L;
  gsg_Class : string;
}.

Record gKVRocks := {
  gk_TypeMeta : string * string;
  gk_ObjectMeta : lib_ObjectMeta L;
  gk_Spec : gSpec;
  gk_Status : gStatus;
}.

Record gKVRocksList := {
  gl_TypeMeta : string * string;
  gl_ListMeta : lib_ListMeta L;
  gl_Items : option loc;
}.

(** ** The heap

    A cell is a backing array, a map (its entries in the order a range over it
    visits them), or a struct a pointer points to.  [CFresh] is an array, map
    or struct that was allocated and is not written yet. *)
Inductive cell : Type :=
| CFresh
| CStrings (l : list string)
| CInts (l : list Z)
| CStringMap (m : list (string * string))
| CIntsMap (m : list (string * option loc))
| CMigrates (l : list gMigrateMsg)
| CTopologies (l : list gTopology)
| CPartitions (l : list gTopoPartitions)
| CTolerations (l : list (lib_Toleration L))
| CItems (l : list gKVRocks)
| CMigrateMsg (x : gMigrateMsg)
| CTopology (x : gTopology)
| CTopoPartitions (x : gTopoPartitions)
| CShrink (x : gShrinkMsg)
| CStatus (x : gStatus)
| CSpec (x : gSpec)
| CStorage (x : gStorage)
| CResources (x : lib_Resources L)
| CAffinity (x : lib_Affinity L)
| CKVRocks (x : gKVRocks)
| CKVRocksList (x : gKVRocksList)
| CLib (x : lib_Cell L).

#[local] Abbreviation heap := (gmap loc cell).

(** How a kind of content is written to a cell and read from it. *)
Record kind (A : Type) := {
  k_to : A -> cell;
  k_of : cell -> option A;
  k_of_to : forall a, k_of (k_to a) = Some a;
}.
#[local] Arguments k_to {A}.
#[local] Arguments k_of {A}.

#[local] Notation "'kind_of' p 'giving' a 'by' c" := {| k_to := c; k_of := fun x => match x with p => Some a | _ => None end; k_of_to := fun _ => eq_refl |}
  (at level 0, p pattern, a at level 0, c at level 0).

Definition kStrings : kind (list string) := kind_of (CStrings a) giving a by CStrings.
Definition kInts : kind (list Z) := kind_of (CInts a) giving a by CInts.
Definition kStringMap : kind (list (string * string)) := kind_of (CStringMap a) giving a by CStringMap.
Definition kIntsMap : kind (list (string * option loc)) := kind_of (CIntsMap a) giving a by CIntsMap.
Definition kMigrates : kind (list gMigrateMsg) := kind_of (CMigrates a) giving a by CMigrates.
Definition kTopologies : kind (list gTopology) := kind_of (CTopologies a) giving a by CTopologies.
Definition kPartitions : kind (list gTopoPartitions) := kind_of (CPartitions a) giving a by CPartitions.
Definition kTolerations : kind (list (lib_Toleration L)) := kind_of (CTolerations a) giving a by CTolerations.
Definition kItems : kind (list gKVRocks) := kind_of (CItems a) giving a by CItems.
Definition kMigrateMsg : kind (gMigrateMsg) := kind_of (CMigrateMsg a) giving a by CMigrateMsg.
Definition kTopology : kind (gTopology) := kind_of (CTopology a) giving a by CTopology.
Definition kTopoPartitions : kind (gTopoPartitions) := kind_of (CTopoPartitions a) giving a by CTopoPartitions.
Definition kShrink : kind (gShrinkMsg) := kind_of (CShrink a) giving a by CShrink.
Definition kStatus : kind (gStatus) := kind_of (CStatus a) giving a by CStatus.
Definition kSpec : kind (gSpec) := kind_of (CSpec a) giving a by CSpec.
Definition kStorage : kind (gStorage) := kind_of (CStorage a) giving a by CStorage.
Definition kResources : kind (lib_Resources L) := kind_of (CResources a) giving a by CResources.
Definition kAffinity : kind (lib_Affinity L) := kind_of (CAffinity a) giving a by CAffinity.
Definition kKVRocks : kind (gKVRocks) := kind_of (CKVRocks a) giving a by CKVRocks.
Definition kKVRocksList : kind (gKVRocksList) := kind_of (CKVRocksList a) giving a by CKVRocksList.

(** ** Computations on the heap; a dangling location has no result *)

Definition HM (A : Type) : Type := heap -> option (A * heap).
Definition hret {A} (a : A) : HM A := fun s => Some (a, s).
Definition hbind {A B} (m : HM A) (k : A -> HM B) : HM B := fun s =>
  match m s with
  | Some (a, s') => k a s'
  | None => None
  end.
#[local] Notation "'let*' x ':=' m 'in' k" := (hbind m (fun x => k)) (at level 200, x name, m at level 100, k at level 200).

Definition load {A} (k : kind A) (l : loc) : HM A := fun s =>
  match s !! l ≫= k_of k with
  | Some a => Some (a, s)
  | None => None
  end.
Definition alloc : HM loc := fun s => let l := fresh (dom s) in Some (l, <[l := CFresh]> s).
Definition store {A} (k : kind A) (l : loc) (a : A) : HM unit := fun s => Some (tt, <[l := k_to k a]> s).

(** The loop over the elements of [in], each copied into the same position
    of [out]. *)
Fixpoint hmap {A} (f : A -> HM A) (l : list A) : HM (list A) :=
  match l with
  | [] => hret []
  | a :: l' => let* a' := f a in let* r := hmap f l' in hret (a' :: r)
  end.

(** The shape of every reference field: [if in.F != nil { *out = make or new;
    copy the contents with f }]; a nil reference stays nil. *)
Definition copy_ref {A} (k : kind A) (f : A -> HM A) (p : option loc) : HM (option loc) :=
  match p with
  | None => hret None
  | Some l =>
      let* a := load k l in
      let* l' := alloc in
      let* a' := f a in
      let* _ := store k l' a' in
      hret (Some l')
  end.

(** The built-in [copy], and the assignment of values without references. *)
Definition shallow {A} (a : A) : HM A := hret a.

Definition copy_slice {A} (k : kind (list A)) (f : A -> HM A) : option loc -> HM (option loc) := copy_ref k (hmap f).

(** ** The copy functions, in the order of the assignments

    Each starts from the shallow copy [*out = *in]. *)

Definition MigrateMsg_DeepCopyInto (x : gMigrateMsg) : HM gMigrateMsg :=
  let* slots := copy_slice kStrings shallow (gm_Slots x) in
  hret {| gm_Shard := gm_Shard x; gm_Slots := slots |}.

Definition KVRocksTopology_DeepCopyInto (x : gTopology) : HM gTopology :=
  let* slots := copy_slice kStrings shallow (gt_Slots x) in
  let* migrate := copy_slice kMigrates MigrateMsg_DeepCopyInto (gt_Migrate x) in
  hret {| gt_Pod := gt_Pod x; gt_Role := gt_Role x; gt_NodeId := gt_NodeId x; gt_Ip := gt_Ip x; gt_Port := gt_Port x;
          gt_Slots := slots; gt_MasterId := gt_MasterId x; gt_Migrate := migrate; gt_Failover := gt_Failover x |}.

Definition KVRocksTopoPartitions_DeepCopyInto (x : gTopoPartitions) : HM gTopoPartitions :=
  let* topology := copy_slice kTopologies KVRocksTopology_DeepCopyInto (gp_Topology x) in
  hret {| gp_PartitionName := gp_PartitionName x; gp_Shard := gp_Shard x; gp_Topology := topology |}.

(** One entry of the reserve message: the key and a copy of the ordinals, nil
    for nil. *)
Definition copy_reserve (kv : string * option loc) : HM (string * option loc) :=
  let* outVal := copy_slice kInts shallow kv.2 in
  hret (kv.1, outVal).

Definition KVRocksShrinkMsg_DeepCopyInto (x : gShrinkMsg) : HM gShrinkMsg :=
  let* partition := copy_slice kInts shallow (gs_Partition x) in
  let* reserve := copy_ref kIntsMap (hmap copy_reserve) (gs_ReserveMsg x) in
  hret {| gs_Partition := partition; gs_ReserveMsg := reserve |}.

Definition KVRocksStatus_DeepCopyInto (x : gStatus) : HM gStatus :=
  let* topo := copy_slice kPartitions KVRocksTopoPartitions_DeepCopyInto (gst_Topo x) in
  let* shrink := copy_ref kShrink KVRocksShrinkMsg_DeepCopyInto (gst_Shrink x) in
  hret {| gst_Status := gst_Status x; gst_Reason := gst_Reason x; gst_Version := gst_Version x;
          gst_Rebalance := gst_Rebalance x; gst_Topo := topo; gst_Shrink := shrink |}.

(** The copy functions of the libraries. *)
Record LibCopy := {
  Resources_DeepCopyInto : lib_Resources L -> HM (lib_Resources L);
  Affinity_DeepCopyInto : lib_Affinity L -> HM (lib_Affinity L);
  Toleration_DeepCopyInto : lib_Toleration L -> HM (lib_Toleration L);
  ObjectMeta_DeepCopyInto : lib_ObjectMeta L -> HM (lib_ObjectMeta L);
  ListMeta_DeepCopyInto : lib_ListMeta L -> HM (lib_ListMeta L);
  Quantity_DeepCopy : lib_Quantity L -> HM (lib_Quantity L);
}.
Context (F : LibCopy).

Definition KVRocksStorage_DeepCopyInto (x : gStorage) : HM gStorage :=
  let* size := Quantity_DeepCopy F (gsg_Size x) in
  hret {| gsg_Size := size; gsg_Class := gsg_Class x |}.

Definition KVRocksSpec_DeepCopyInto (x : gSpec) : HM gSpec :=
  let* config := copy_slice kStringMap shallow (gsp_KVRocksConfig x) in
  let* resources := copy_ref kResources (Resources_DeepCopyInto F) (gsp_Resources x) in
  let* selector := copy_slice kStringMap shallow (gsp_NodeSelector x) in
  let* toleration := copy_slice kTolerations (Toleration_DeepCopyInto F) (gsp_Toleration x) in
  let* affinity := copy_ref kAffinity (Affinity_DeepCopyInto F) (gsp_Affinity x) in
  let* storage := copy_ref kStorage KVRocksStorage_DeepCopyInto (gsp_Storage x) in
  hret {| gsp_Image := gsp_Image x; gsp_ImagePullPolicy := gsp_ImagePullPolicy x; gsp_Type := gsp_Type x;
          gsp_KVRocksConfig := config; gsp_Replicas := gsp_Replicas x; gsp_Master := gsp_Master x;
          gsp_Password := gsp_Password x; gsp_Resources := resources; gsp_NodeSelector := selector;
          gsp_Toleration := toleration; gsp_Affinity := affinity; gsp_Storage := storage |}.

Definition KVRocks_DeepCopyInto (x : gKVRocks) : HM gKVRocks :=
  let* meta := ObjectMeta_DeepCopyInto F (gk_ObjectMeta x) in
  let* spec := KVRocksSpec_DeepCopyInto (gk_Spec x) in
  let* status := KVRocksStatus_DeepCopyInto (gk_Status x) in
  hret {| gk_TypeMeta := gk_TypeMeta x; gk_ObjectMeta := meta; gk_Spec := spec; gk_Status := status |}.

Definition KVRocksList_DeepCopyInto (x : gKVRocksList) : HM gKVRocksList :=
  let* meta := ListMeta_DeepCopyInto F (gl_ListMeta x) in
  let* list := copy_slice kItems KVRocks_DeepCopyInto (gl_Items x) in
  hret {| gl_TypeMeta := gl_TypeMeta x; gl_ListMeta := meta; gl_Items := list |}.

(** [DeepCopy] of a pointer: nil for nil, otherwise a new struct; and
    [DeepCopyObject], which wraps it in an interface below. *)
Definition MigrateMsg_DeepCopy : option loc -> HM (option loc) := copy_ref kMigrateMsg MigrateMsg_DeepCopyInto.
Definition KVRocksTopology_DeepCopy : option loc -> HM (option loc) := copy_ref kTopology KVRocksTopology_DeepCopyInto.
Definition KVRocksTopoPartitions_DeepCopy : option loc -> HM (option loc) :=
  copy_ref kTopoPartitions KVRocksTopoPartitions_DeepCopyInto.
Definition KVRocksShrinkMsg_DeepCopy : option loc -> HM (option loc) := copy_ref kShrink KVRocksShrinkMsg_DeepCopyInto.
Definition KVRocksStatus_DeepCopy : option loc -> HM (option loc) := copy_ref kStatus KVRocksStatus_DeepCopyInto.
Definition KVRocksStorage_DeepCopy : option loc -> HM (option loc) := copy_ref kStorage KVRocksStorage_DeepCopyInto.
Definition KVRocksSpec_DeepCopy : option loc -> HM (option loc) := copy_ref kSpec KVRocksSpec_DeepCopyInto.
Definition KVRocks_DeepCopy : option loc -> HM (option loc) := copy_ref kKVRocks KVRocks_DeepCopyInto.
Definition KVRocksList_DeepCopy : option loc -> HM (option loc) := copy_ref kKVRocksList KVRocksList_DeepCopyInto.

(** A value of the interface type [runtime.Object]: nil, or an interface that
    holds a pointer, which could be nil itself. *)
Inductive runtime_Object : Type :=
| nil_Object
| Object (p : option loc).

Definition KVRocks_DeepCopyObject (p : option loc) : HM runtime_Object :=
  let* c := KVRocks_DeepCopy p in
  match c with
  | Some _ => hret (Object c)
  | None => hret nil_Object
  end.

Definition KVRocksList_DeepCopyObject (p : option loc) : HM runtime_Object :=
  let* c := KVRocksList_DeepCopy p in
  match c with
  | Some _ => hret (Object c)
  | None => hret nil_Object
  end.

(** ** What a struct stands for

    A view of a kind of struct: the value it stands for in a heap, with nil
    and empty told apart, and the locations it owns. *)
Record view (H V : Type) := {
  v_read : heap -> H -> option V;
  v_owns : heap -> H -> gset loc;
}.
#[local] Arguments v_read {H V}.
#[local] Arguments v_owns {H V}.

Definition val {A} : view A A := {| v_read := fun _ a => Some a; v_owns := fun _ _ => ∅ |}.
Definition vlist {H V} (v : view H V) : view (list H) (list V) :=
  {| v_read := fun s => mapM (v_read v s); v_owns := fun s l => ⋃ (v_owns v s <$> l) |}.
Definition vpair {H1 V1 H2 V2} (v1 : view H1 V1) (v2 : view H2 V2) : view (H1 * H2) (V1 * V2) :=
  {| v_read := fun s x => match v_read v1 s x.1, v_read v2 s x.2 with Some a, Some b => Some (a, b) | _, _ => None end;
     v_owns := fun s x => v_owns v1 s x.1 ∪ v_owns v2 s x.2 |}.
Definition vref {H V} (k : kind H) (v : view H V) : view (option loc) (option V) :=
  {| v_read := fun s p =>
       match p with
       | None => Some None
       | Some l => match s !! l ≫= k_of k with Some h => Some <$> v_read v s h | None => None end
       end;
     v_owns := fun s p =>
       match p with
       | None => ∅
       | Some l => {[l]} ∪ match s !! l ≫= k_of k with Some h => v_owns v s h | None => ∅ end
       end |}.
Definition vmap {H H' V} (to : H -> H') (v : view H' V) : view H V :=
  {| v_read := fun s h => v_read v s (to h); v_owns := fun s h => v_owns v s (to h) |}.

(** [f] makes deep copies of structs seen through [v]: a struct owns allocated
    cells, what it stands for depends on them only, and its copy stands for
    the same, in a larger heap, with cells of its own. *)
Record deep {H V} (v : view H V) (f : H -> HM H) : Prop := {
  d_dom : forall s h a, v_read v s h = Some a -> v_owns v s h ⊆ dom s;
  d_local : forall s s' h a, v_read v s h = Some a -> (forall l, l ∈ v_owns v s h -> s' !! l = s !! l) ->
    v_read v s' h = Some a /\ v_owns v s' h = v_owns v s h;
  d_copy : forall s h a, v_read v s h = Some a ->
    exists h' s', f h s = Some (h', s') /\ s ⊆ s' /\ v_read v s' h' = Some a /\ v_owns v s' h' ## dom s;
}.

(** A struct in a larger heap. *)
Lemma deep_mono {H V} (v : view H V) f s s' h a :
  deep v f -> v_read v s h = Some a -> s ⊆ s' -> v_read v s' h = Some a /\ v_owns v s' h = v_owns v s h.
Proof.
  intros D Hr Hs. apply (d_local v f D s s' h a Hr). intros l Hl.
  apply (d_dom v f D s h a Hr) in Hl. apply elem_of_dom in Hl as [c Hc]. rewrite Hc. by eapply lookup_weaken.
Qed.

Lemma deep_val {A} : deep (val (A := A)) shallow.
Proof.
  split; cbn; [set_solver|done|]. intros s h a [= <-]. exists h, s. split; [done|]. split; [done|]. split; [done|set_solver].
Qed.

Lemma deep_pair {H1 V1 H2 V2} (v1 : view H1 V1) (v2 : view H2 V2) f1 f2 :
  deep v1 f1 -> deep v2 f2 ->
  deep (vpair v1 v2) (fun x => let* a := f1 x.1 in let* b := f2 x.2 in hret (a, b)).
Proof.
  intros D1 D2. split; cbn.
  - intros s [x y] a. cbn. destruct (v_read v1 s x) as [a1|] eqn:E1, (v_read v2 s y) as [a2|] eqn:E2; [|done..]. intros _.
    apply (d_dom v1 f1 D1) in E1. apply (d_dom v2 f2 D2) in E2. set_solver.
  - intros s s' [x y] a. cbn. destruct (v_read v1 s x) as [a1|] eqn:E1, (v_read v2 s y) as [a2|] eqn:E2; [|done..].
    intros [= <-] Hl. destruct (d_local v1 f1 D1 s s' x a1 E1) as [-> ->]; [set_solver|].
    by destruct (d_local v2 f2 D2 s s' y a2 E2) as [-> ->]; [set_solver|].
  - intros s [x y] a. cbn. destruct (v_read v1 s x) as [a1|] eqn:E1, (v_read v2 s y) as [a2|] eqn:E2; [|done..]. intros [= <-].
    destruct (d_copy v1 f1 D1 s x a1 E1) as (x' & s1 & F1 & S1 & R1 & O1).
    destruct (deep_mono v2 f2 s s1 y a2 D2 E2 S1) as [E2' _].
    destruct (d_copy v2 f2 D2 s1 y a2 E2') as (y' & s2 & F2 & S2 & R2 & O2).
    destruct (deep_mono v1 f1 s1 s2 x' a1 D1 R1 S2) as [R1' O1'].
    exists (x', y'), s2. unfold hbind, hret. rewrite F1, F2. split; [done|]. split; [by etrans|]. cbn.
    rewrite R1', R2, O1'. split; [done|]. apply subseteq_dom in S1. set_solver.
Qed.

Lemma deep_map {H H' V} (to : H -> H') (from : H' -> H) (v : view H' V) f f' :
  (forall x, to (from x) = x) -> deep v f' -> (forall h s, f h s = hbind (f' (to h)) (fun x => hret (from x)) s) ->
  deep (vmap to v) f.
Proof.
  intros Hto D Hf. split; cbn; [intros s h; apply (d_dom v f' D)|intros s s' h; apply (d_local v f' D)|].
  intros s h a Hr. destruct (d_copy v f' D s (to h) a Hr) as (x & s' & Hx & Hs & Hrx & Ho).
  exists (from x), s'. rewrite Hf. unfold hbind. rewrite Hx, Hto. done.
Qed.

Lemma deep_list {H V} (v : view H V) f : deep v f -> deep (vlist v) (hmap f).
Proof.
  intros D. split; cbn.
  - intros s h. induction h as [|x h IH]; intros a Hr; [cbn; set_solver|]. apply mapM_Some in Hr. inversion Hr as [|? b ? r Hx Hh]; subst.
    cbn. apply (d_dom v f D) in Hx. apply mapM_Some in Hh. specialize (IH r Hh). set_solver.
  - intros s s' h. induction h as [|x h IH]; intros a Hr Hl; [by cbn in *|]. apply mapM_Some in Hr. inversion Hr as [|? b ? r Hx Hh]; subst.
    apply mapM_Some in Hh. cbn in Hl. destruct (d_local v f D s s' x b Hx) as [Hx' Ho]; [set_solver|].
    destruct (IH r Hh) as [Hh' Ho']; [set_solver|]. cbn. rewrite Hx'. cbn. rewrite Hh'. cbn. by rewrite Ho, Ho'.
  - intros s h. revert s. induction h as [|x h IH]; intros s a Hr; [injection Hr as <-; exists [], s; split_and!; [done..|set_solver]|].
    apply mapM_Some in Hr. inversion Hr as [|? b ? r Hx Hh]; subst. apply mapM_Some in Hh.
    destruct (d_copy v f D s x b Hx) as (x' & s1 & F1 & S1 & R1 & O1).
    assert (Hh1 : mapM (v_read v s1) h = Some r).
    { apply mapM_Some. apply mapM_Some in Hh. eapply Forall2_impl; [exact Hh|]. intros y c Hy. exact (proj1 (deep_mono v f s s1 y c D Hy S1)). }
    destruct (IH s1 r Hh1) as (h' & s2 & F2 & S2 & R2 & O2).
    destruct (deep_mono v f s1 s2 x' b D R1 S2) as [R1' O1'].
    exists (x' :: h'), s2. cbn [hmap]. unfold hbind, hret. rewrite F1, F2. split; [done|]. split; [by etrans|].
    cbn. rewrite R1'. cbn. rewrite R2. split; [done|]. rewrite O1'. apply subseteq_dom in S1. set_solver.
Qed.

Lemma deep_ref {H V} (k : kind H) (v : view H V) f : deep v f -> deep (vref k v) (copy_ref k f).
Proof.
  intros D. split; cbn.
  - intros s [l|] a; [|set_solver]. destruct (s !! l) as [c|] eqn:El; [|done]. cbn. destruct (k_of k c) as [h|]; [|done]. cbn.
    destruct (v_read v s h) as [b|] eqn:Er; [|done]. intros _. apply (d_dom v f D) in Er.
    apply elem_of_dom_2 in El. set_solver.
  - intros s s' [l|] a; [|done]. destruct (s !! l) as [c|] eqn:El; [|done]. cbn. destruct (k_of k c) as [h|] eqn:Ek; [|done]. cbn.
    destruct (v_read v s h) as [b|] eqn:Er; [|done]. intros [= <-] Hl.
    assert (El' : s' !! l = Some c) by (rewrite <- El; apply Hl; set_solver).
    destruct (d_local v f D s s' h b Er) as [Er' Ho]; [set_solver|]. rewrite El'. cbn. rewrite Ek. cbn. by rewrite Er', Ho.
  - intros s [l|] a; [|intros [= <-]; exists None, s; split_and!; [done..|set_solver]].
    destruct (s !! l) as [c|] eqn:El; [|done]. cbn. destruct (k_of k c) as [h|] eqn:Ek; [|done]. cbn.
    destruct (v_read v s h) as [b|] eqn:Er; [|done]. intros [= <-].
    set (l' := fresh (dom s)). assert (Hfresh : l' ∉ dom s) by apply is_fresh.
    set (s1 := <[l' := CFresh]> s). assert (S1 : s ⊆ s1) by (by apply insert_subseteq, not_elem_of_dom).
    destruct (deep_mono v f s s1 h b D Er S1) as [Er1 _].
    destruct (d_copy v f D s1 h b Er1) as (h' & s2 & F2 & S2 & R2 & O2).
    assert (Hl' : l' ∉ v_owns v s2 h') by (unfold s1 in O2; set_solver).
    destruct (d_local v f D s2 (<[l' := k_to k h']> s2) h' b R2) as [R3 O3].
    { intros m Hm. apply lookup_insert_ne. by intros ->. }
    exists (Some l'), (<[l' := k_to k h']> s2). split.
    + unfold copy_ref, hbind, load, alloc, store, hret. rewrite El. cbn. rewrite Ek. fold l' s1. by rewrite F2.
    + split; [|cbn; rewrite lookup_insert_eq; cbn; rewrite k_of_to; cbn; rewrite R3, O3; split; [done|unfold s1 in O2; set_solver]].
      apply map_subseteq_spec. intros m c' Hm. rewrite lookup_insert_ne by (intros <-; apply Hfresh; by eapply elem_of_dom_2).
      by eapply lookup_weaken, S2; eapply lookup_weaken.
Qed.

(** ** The resource types *)

Section resources.
(** The copy functions of the libraries make deep copies. *)
Context {VR VA VT VO VL VQ : Type}.
Context (vR : view (lib_Resources L) VR) (vA : view (lib_Affinity L) VA) (vT : view (lib_Toleration L) VT).
Context (vO : view (lib_ObjectMeta L) VO) (vL : view (lib_ListMeta L) VL) (vQ : view (lib_Quantity L) VQ).
Hypothesis deep_Resources : deep vR (Resources_DeepCopyInto F).
Hypothesis deep_Affinity : deep vA (Affinity_DeepCopyInto F).
Hypothesis deep_Toleration : deep vT (Toleration_DeepCopyInto F).
Hypothesis deep_ObjectMeta : deep vO (ObjectMeta_DeepCopyInto F).
Hypothesis deep_ListMeta : deep vL (ListMeta_DeepCopyInto F).
Hypothesis deep_Quantity : deep vQ (Quantity_DeepCopy F).

Definition vslice {H V} (k : kind (list H)) (v : view H V) : view (option loc) (option (list V)) := vref k (vlist v).

(** Every struct as its fields without references, and the others. *)
Definition migrate_view := vmap (fun x => (gm_Shard x, gm_Slots x)) (vpair val (vslice kStrings val)).
Definition topology_view :=
  vmap (fun x => ((gt_Pod x, gt_Role x, gt_NodeId x, gt_Ip x, gt_Port x, gt_MasterId x, gt_Failover x), (gt_Slots x, gt_Migrate x)))
    (vpair val (vpair (vslice kStrings val) (vslice kMigrates migrate_view))).
Definition partitions_view :=
  vmap (fun x => ((gp_PartitionName x, gp_Shard x), gp_Topology x)) (vpair val (vslice kTopologies topology_view)).
Definition reserve_view : view (string * option loc) (string * option (list Z)) :=
  vmap (fun kv => (kv.1, kv.2)) (vpair val (vslice kInts val)).
Definition shrink_view :=
  vmap (fun x => (gs_Partition x, gs_ReserveMsg x)) (vpair (vslice kInts val) (vslice kIntsMap reserve_view)).
Definition status_view :=
  vmap (fun x => ((gst_Status x, gst_Reason x, gst_Version x, gst_Rebalance x), (gst_Topo x, gst_Shrink x)))
    (vpair val (vpair (vslice kPartitions partitions_view) (vref kShrink shrink_view))).
Definition storage_view := vmap (fun x => (gsg_Size x, gsg_Class x)) (vpair vQ val).
Definition spec_view :=
  vmap (fun x => ((gsp_Image x, gsp_ImagePullPolicy x, gsp_Type x, gsp_Replicas x, gsp_Master x, gsp_Password x),
                  (gsp_KVRocksConfig x, (gsp_Resources x, (gsp_NodeSelector x, (gsp_Toleration x, (gsp_Affinity x, gsp_Storage x)))))))
    (vpair val (vpair (vslice kStringMap val) (vpair (vref kResources vR) (vpair (vslice kStringMap val)
      (vpair (vslice kTolerations vT) (vpair (vref kAffinity vA) (vref kStorage storage_view))))))).
Definition kvrocks_view :=
  vmap (fun x => (gk_TypeMeta x, (gk_ObjectMeta x, (gk_Spec x, gk_Status x)))) (vpair val (vpair vO (vpair spec_view status_view))).
Definition list_view :=
  vmap (fun x => (gl_TypeMeta x, (gl_ListMeta x, gl_Items x))) (vpair val (vpair vL (vslice kItems kvrocks_view))).

Create HintDb deepcopy.
#[local] Hint Resolve deep_val deep_pair deep_list deep_ref deep_Resources deep_Affinity deep_Toleration deep_ObjectMeta
  deep_ListMeta deep_Quantity : deepcopy.

(** A copy function is the copy of the fields, put together again. *)
Ltac fieldwise fn from :=
  eapply (deep_map _ from);
  [intros; repeat match goal with x : (_ * _)%type |- _ => destruct x end; reflexivity
  |repeat (apply deep_pair || apply deep_ref || apply deep_list); eauto with deepcopy
  |intros; unfold fn, copy_slice, hbind, hret, shallow; cbn; repeat (case_match; simplify_eq/=); done].

Lemma deep_migrate : deep migrate_view MigrateMsg_DeepCopyInto.
Proof. fieldwise MigrateMsg_DeepCopyInto (fun x : Z * option loc => {| gm_Shard := x.1; gm_Slots := x.2 |}). Qed.
#[local] Hint Resolve deep_migrate : deepcopy.

Lemma deep_topology : deep topology_view KVRocksTopology_DeepCopyInto.
Proof.
  fieldwise KVRocksTopology_DeepCopyInto
    (fun x : (string * string * string * string * Z * string * bool) * (option loc * option loc) =>
       let '(pod, role, id, ip, port, master, failover) := x.1 in
       {| gt_Pod := pod; gt_Role := role; gt_NodeId := id; gt_Ip := ip; gt_Port := port; gt_Slots := x.2.1;
          gt_MasterId := master; gt_Migrate := x.2.2; gt_Failover := failover |}).
Qed.
#[local] Hint Resolve deep_topology : deepcopy.

Lemma deep_partitions : deep partitions_view KVRocksTopoPartitions_DeepCopyInto.
Proof.
  fieldwise KVRocksTopoPartitions_DeepCopyInto
    (fun x : (string * Z) * option loc => {| gp_PartitionName := x.1.1; gp_Shard := x.1.2; gp_Topology := x.2 |}).
Qed.

Lemma deep_reserve : deep reserve_view copy_reserve.
Proof. fieldwise copy_reserve (fun x : string * option loc => (x.1, x.2)). Qed.
#[local] Hint Resolve deep_partitions deep_reserve : deepcopy.

Lemma deep_shrink : deep shrink_view KVRocksShrinkMsg_DeepCopyInto.
Proof.
  fieldwise KVRocksShrinkMsg_DeepCopyInto (fun x : option loc * option loc => {| gs_Partition := x.1; gs_ReserveMsg := x.2 |}).
Qed.
#[local] Hint Resolve deep_shrink : deepcopy.

Lemma deep_status : deep status_view KVRocksStatus_DeepCopyInto.
Proof.
  fieldwise KVRocksStatus_DeepCopyInto
    (fun x : (string * string * Z * bool) * (option loc * option loc) =>
       let '(status, reason, version, rebalance) := x.1 in
       {| gst_Status := status; gst_Reason := reason; gst_Version := version; gst_Rebalance := rebalance;
          gst_Topo := x.2.1; gst_Shrink := x.2.2 |}).
Qed.

Lemma deep_storage : deep storage_view KVRocksStorage_DeepCopyInto.
Proof.
  fieldwise KVRocksStorage_DeepCopyInto (fun x : lib_Quantity L * string => {| gsg_Size := x.1; gsg_Class := x.2 |}).
Qed.
#[local] Hint Resolve deep_status deep_storage : deepcopy.

Lemma deep_spec : deep spec_view KVRocksSpec_DeepCopyInto.
Proof.
  fieldwise KVRocksSpec_DeepCopyInto
    (fun x : (string * string * string * Z * Z * string) *
             (option loc * (option loc * (option loc * (option loc * (option loc * option loc))))) =>
       let '(image, policy, type, replicas, master, password) := x.1 in
       let '(config, (resources, (selector, (toleration, (affinity, storage))))) := x.2 in
       {| gsp_Image := image; gsp_ImagePullPolicy := policy; gsp_Type := type; gsp_KVRocksConfig := config;
          gsp_Replicas := replicas; gsp_Master := master; gsp_Password := password; gsp_Resources := resources;
          gsp_NodeSelector := selector; gsp_Toleration := toleration; gsp_Affinity := affinity; gsp_Storage := storage |}).
Qed.
#[local] Hint Resolve deep_spec : deepcopy.

Lemma deep_kvrocks : deep kvrocks_view KVRocks_DeepCopyInto.
Proof.
  fieldwise KVRocks_DeepCopyInto
    (fun x : (string * string) * (lib_ObjectMeta L * (gSpec * gStatus)) =>
       {| gk_TypeMeta := x.1; gk_ObjectMeta := x.2.1; gk_Spec := x.2.2.1; gk_Status := x.2.2.2 |}).
Qed.
#[local] Hint Resolve deep_kvrocks : deepcopy.

Lemma deep_kvrocks_list : deep list_view KVRocksList_DeepCopyInto.
Proof.
  fieldwise KVRocksList_DeepCopyInto
    (fun x : (string * string) * (lib_ListMeta L * option loc) =>
       {| gl_TypeMeta := x.1; gl_ListMeta := x.2.1; gl_Items := x.2.2 |}).
Qed.

(** ** Independence *)

(** [f] returns a copy that stands for the same value, nil and empty told
    apart; writing through one, that is changing any cells it owns (and
    allocating others), changes nothing of what the other stands for. *)
Definition independent_copies {V} (v : view (option loc) V) (f : option loc -> HM (option loc)) : Prop :=
  forall s p a, v_read v s p = Some a ->
    exists p' s', f p s = Some (p', s') /\ v_read v s' p' = Some a /\ v_read v s' p = Some a /\
      (forall s'', (forall l, l ∈ dom s' -> l ∉ v_owns v s' p' -> s'' !! l = s' !! l) -> v_read v s'' p = Some a) /\
      (forall s'', (forall l, l ∈ dom s' -> l ∉ v_owns v s' p -> s'' !! l = s' !! l) -> v_read v s'' p' = Some a).

Lemma deep_independent {V} (v : view (option loc) V) f : deep v f -> independent_copies v f.
Proof.
  intros D s p a Hr. destruct (d_copy v f D s p a Hr) as (p' & s' & Hf & Hs & Hr' & Ho).
  destruct (deep_mono v f s s' p a D Hr Hs) as [Hrs Hos]. pose proof (d_dom v f D s p a Hr) as Hd.
  pose proof (d_dom v f D s' p' a Hr') as Hd'. pose proof (subseteq_dom _ _ Hs) as Hds.
  exists p', s'. split; [done|]. split; [done|]. split; [done|]. split; intros s'' Hw.
  - apply (d_local v f D s' s'' p a Hrs). intros l Hl. apply Hw; set_solver.
  - apply (d_local v f D s' s'' p' a Hr'). intros l Hl. apply Hw; set_solver.
Qed.

(** The interface a copied pointer is returned in. *)
Definition as_object (p : option loc) : runtime_Object :=
  match p with
  | Some l => Object (Some l)
  | None => nil_Object
  end.

(** C30: [DeepCopy] of a resource, of a list of resources and of each part of
    one returns an independent copy: equal to the original down to nil
    references, sharing no array, map or struct with it, so that no write
    through one is seen through the other; given that the copy functions of
    the libraries do.  [DeepCopyObject] returns the same copy, and for a nil
    pointer the nil interface, never an interface that holds a nil pointer. *)
Theorem copies_independent :
  independent_copies (vref kKVRocks kvrocks_view) KVRocks_DeepCopy /\
  independent_copies (vref kKVRocksList list_view) KVRocksList_DeepCopy /\
  independent_copies (vref kSpec spec_view) KVRocksSpec_DeepCopy /\
  independent_copies (vref kStatus status_view) KVRocksStatus_DeepCopy /\
  independent_copies (vref kStorage storage_view) KVRocksStorage_DeepCopy /\
  independent_copies (vref kShrink shrink_view) KVRocksShrinkMsg_DeepCopy /\
  independent_copies (vref kTopoPartitions partitions_view) KVRocksTopoPartitions_DeepCopy /\
  independent_copies (vref kTopology topology_view) KVRocksTopology_DeepCopy /\
  independent_copies (vref kMigrateMsg migrate_view) MigrateMsg_DeepCopy /\
  (forall p s, KVRocks_DeepCopyObject p s = prod_map as_object id <$> KVRocks_DeepCopy p s) /\
  (forall p s, KVRocksList_DeepCopyObject p s = prod_map as_object id <$> KVRocksList_DeepCopy p s).
Proof.
  split_and!; try (apply deep_independent, deep_ref; auto using deep_kvrocks_list with deepcopy);
    intros p s; unfold KVRocks_DeepCopyObject, KVRocksList_DeepCopyObject, hbind;
    [by destruct (KVRocks_DeepCopy p s) as [[[l|] s']|]|by destruct (KVRocksList_DeepCopy p s) as [[[l|] s']|]].
Qed.
End resources.
End deepcopy.

(** ** A resource and its copy

    With a library whose resource requirements keep their claims in a slice. *)

Definition string_lib : Lib :=
  {| lib_Resources := option loc; lib_Affinity := string; lib_Toleration := string; lib_ObjectMeta := string;
     lib_ListMeta := string; lib_Quantity := string; lib_Cell := list string |}.
Definition kClaims : kind string_lib (list string) :=
  {| k_to := CLib string_lib; k_of := fun c => match c with CLib _ a => Some a | _ => None end; k_of_to := fun _ => eq_refl |}.
Definition string_copy : LibCopy string_lib :=
  Build_LibCopy string_lib (copy_slice string_lib kClaims (shallow string_lib)) (shallow string_lib) (shallow string_lib)
    (shallow string_lib) (shallow string_lib) (shallow string_lib).

(** A resource with a slice nested in a map, nested in a pointer, and with a
    nil and an empty slice. *)
Definition sample_resource : gKVRocks string_lib :=
  {| gk_TypeMeta := ("v1alpha1", "KVRocks"); gk_ObjectMeta := "demo" : lib_ObjectMeta string_lib;
     gk_Spec := {| gsp_Image := "kvrocks"; gsp_ImagePullPolicy := "Always"; gsp_Type := "cluster"; gsp_KVRocksConfig := None;
                   gsp_Replicas := 2; gsp_Master := 1; gsp_Password := "pw"; gsp_Resources := Some 2%positive;
                   gsp_NodeSelector := None; gsp_Toleration := None; gsp_Affinity := None; gsp_Storage := None |};
     gk_Status := {| gst_Status := "Running"; gst_Reason := "-"; gst_Version := 3; gst_Rebalance := false;
                     gst_Topo := Some 4%positive; gst_Shrink := Some 5%positive |} |}.
Definition sample_heap : gmap loc (cell string_lib) :=
  list_to_map
    [(1%positive, CKVRocks string_lib sample_resource); (2%positive, CResources string_lib (Some 3%positive));
     (3%positive, CLib string_lib ["claim"]); (4%positive, CPartitions string_lib []);
     (5%positive, CShrink string_lib {| gs_Partition := None; gs_ReserveMsg := Some 6%positive |});
     (6%positive, CIntsMap string_lib [("demo-0", Some 7%positive)]); (7%positive, CInts string_lib [1; 2])].

Definition sample_view :=
  vref string_lib (kKVRocks string_lib)
    (kvrocks_view string_lib (vslice string_lib kClaims (val string_lib)) (val string_lib) (val string_lib) (val string_lib)
      (val string_lib)).

Lemma copies_independent_witness :
  v_read string_lib _ _ sample_view sample_heap (Some 1%positive) <> None /\
  independent_copies string_lib sample_view (KVRocks_DeepCopy string_lib string_copy).
Proof.
  split; [by vm_compute|].
  refine (proj1 (copies_independent string_lib string_copy (vslice string_lib kClaims (val string_lib)) (val string_lib)
    (val string_lib) (val string_lib) (val string_lib) (val string_lib) _ _ _ _ _ _));
    [exact (deep_ref _ _ _ _ (deep_list _ _ _ (deep_val _)))|exact (deep_val _)..].
Defined.
